(* ===== verification/_CoqProject ===== *)
-Q . S2P
Prelude.v
CxxStd.v
Endian.v
Decimal.v
Buffer.v
BufferStream.v
ZlibStream.v
GzipFile.v
Date.v
TimeZone.v
Timestamp.v
Http.v
HttpSession.v
HttpServer.v
Codec.v
Rpc.v
RpcServer.v
RpcSession.v
Channel.v
Poller.v
DefaultPoller.v
TimerQueue.v
LoopTimers.v
EventLoop.v
LoopLifetime.v
TcpConnection.v
TypedCodec.v
Transport.v
LogStream.v
Logging.v
LogFile.v
AsyncLogging.v
LogPipeline.v
Monitor.v
MutexLock.v
BlockingQueue.v
BoundedBlockingQueue.v
CountDownLatch.v
ThreadPool.v
ThreadPoolLife.v
Singleton.v
ThreadLocal.v
ThreadLocalSingleton.v
Thread.v
CurrentThread.v
SocketsOps.v
Socket.v
Acceptor.v
Connector.v
EventLoopThread.v
TcpServer.v
TcpClient.v
ConnectionLifetime.v
StringPiece.v
FileUtil.v
Inspector.v
ProcessInfo.v
PerformanceInspector.v
Conformance.v
