(* ===== verification/Prelude.v ===== *)
(** * Verification of the muduo network library

    muduo is a C++ library for multi-threaded network servers on Linux.  Its base
    part ([src/base]) has dates, time zones, logging, threads and the objects they
    synchronise on; its network part ([src/net]) has a reactor (one event loop a
    thread, channels, pollers, timers), TCP connections, servers and clients on
    top of it, and an HTTP server, an RPC layer and a process inspector on top of
    those.  This library models the code as executable Rocq definitions,
    translated function by function, and proves what the parts promise to each
    other and to their users.

    ** How code is modelled

    - A function that can stop the program returns an [outcome]: [Ok], or the
      reason ([AssertFail], [Fatal], [LengthError], [OutOfBounds]).  A theorem
      that a function returns [Ok] says that no assertion fails and no access
      leaves its object.
    - C integers are [Z] with the wrap-around of their width written out ([i32],
      [u64], the scope [int]); bytes are [Byte.byte]; memory is a list and a
      pointer an offset into it; [double] is [SpecFloat]'s binary64.
    - Objects are records and methods functions on them.  Objects shared by
      pointer live in a heap (a [gmap] by address) or are numbered.
    - Threads are interleaved steps.  A critical section is one step where the
      lock is held throughout; [Monitor] models mutexes and condition variables
      themselves, with spurious wakeups and any choice of the thread to wake.
    - The kernel, libc, zlib and protobuf are parameters: what a system call
      returns is an argument or a function of the number of the call, under named
      hypotheses that state its documented contract.  User callbacks are
      arbitrary functions or arbitrary sequences of calls.
    - A loop that is not structural takes fuel; every theorem about such a
      function proves that the fuel it is given is enough (one round a byte for
      the parsers and copy loops, one round a digit, a slash or a task
      elsewhere), so results are total, never "if it returns".

    ** Files

    Shared: [Prelude] (outcomes, integers, lists of bytes, tactics), [CxxStd]
    ([std::find], [std::search], [std::lower_bound], [std::map], [std::set]),
    [Decimal] ([%d] and relatives), [Monitor] (objects guarded by a mutex, as
    their users see it).

    Data: [Endian], [Buffer] ([net/Buffer]), [BufferStream]
    ([net/protobuf/BufferStream.h]), [ZlibStream]
    ([net/ZlibStream.h]), [GzipFile], [Date], [TimeZone], [Timestamp],
    [StringPiece] ([base/]).

    Logging: [LogStream], [Logging], [LogFile] (with [FileUtil::AppendFile]),
    [AsyncLogging] ([base/]).  [LogPipeline] composes them, from the statement to
    the files.

    Threads: [MutexLock] ([Mutex.h], [Condition.h] and [Condition.cpp],
    instruction by instruction), [BlockingQueue], [BoundedBlockingQueue],
    [CountDownLatch], [ThreadPool] and [ThreadPoolLife], [Thread] (with
    [Atomic.h]), [CurrentThread] (with [Exception]), [Singleton], [ThreadLocal],
    [ThreadLocalSingleton] ([base/]).

    Reactor: [Channel], [Poller] (both pollers, [net/poller]), [DefaultPoller],
    [TimerQueue], [EventLoop], [LoopLifetime] (making and destroying a loop),
    [EventLoopThread] (with the pool) ([net/]).  [LoopTimers] composes loop and
    timer queue: timers added and cancelled by any thread.

    TCP: [SocketsOps] (with [InetAddress]), [Socket], [Acceptor], [Connector],
    [TcpConnection], [TcpServer], [TcpClient], [ConnectionLifetime] (who owns a
    connection, [~TcpClient], [base/WeakCallback.h]) ([net/]).

    Protocols: [Http] ([net/http]), [Codec] ([net/protobuf], [RpcCodec]),
    [TypedCodec] ([ProtobufCodecLiteT] and the casts of [Types.h] and
    [Callbacks.h]), [Rpc] ([net/protorpc]).  [Transport] composes connection and
    codec, [HttpSession] connection, buffer and HTTP server, [HttpServer] the
    connections of one server; [RpcServer] has the channels of one server and how
    long they live, [RpcSession] a client, the wire and a server.

    Inspection: [FileUtil] ([ReadSmallFile]), [Inspector], [ProcessInfo] (with
    [ProcessInspector] and [SystemInspector]), [PerformanceInspector]
    ([net/inspect]).

    Tests: [Conformance] replays the repository's unit tests on the definitions,
    with the values the tests expect.

    ** What is proved

    - [Buffer] is a byte queue: any sequence of its operations refines one, and
      [readFd] appends what the kernel delivers ([buffer_refines_queue],
      [readFd_appends]).
    - Compression: what the streams write decompresses to what was put in, for
      any deflate that keeps zlib's contract for the calls its manual allows; a
      compressed file is closed once.
    - Calendar and zones: conversions agree with the Gregorian calendar day by
      day, invert each other, comparisons are the calendar's order, and zone files
      are read back; the bisection finds the transition in force.
    - Logging: no line overflows its buffer and each item is whole or absent;
      every statement's line reaches the output in order with its own time;
      asynchronous logging loses, repeats and reorders nothing except in batches
      it announces as dropped; log files hold whole lines in order; together,
      the files and then the buffers hold the lines of the statements executed, in
      order, no piece of a batch split between files, as long as no batch is
      dropped.
    - Synchronised objects, for any number of threads and any interleaving: the
      queues deliver each element once and in order within their bounds, nobody
      waits in vain; the latch opens when it should; the pool runs every task at
      most once, comes to rest after a bounded number of steps, and a single
      [stop()] returns (a second one aborts); a thread object can be destroyed once [start()] returned; a
      singleton is made once and each thread has its own thread-local object.
      Code that keeps to the lock annotations never fails a check of the mutex,
      and the steps of [Monitor] are what the instructions of [MutexLock] do.
    - Reactor: both pollers implement the interface class [Poller] and watch what
      the channels ask for, in histories that keep to their protocol; timers are
      never lost, run in order when due, and repeating ones are restarted unless
      they were cancelled; functors handed to a loop run once, in order, and no
      wakeup is lost once the loop runs; a timer that another thread adds is kept,
      one it cancels is gone once that has run; a loop is made and destroyed
      without a failed assertion and closes what it opened.
    - TCP: a connection's written bytes and its output buffer are exactly what was
      sent, in order, with its life cycle as documented; the acceptor survives
      running out of descriptors; the connector backs off and leaks no socket; the
      server and the client account for every connection, in any interleaving of
      their loops; a connection object is destroyed once, when nobody refers to it
      any more, and no assertion fails on the way, for users that keep to the
      conditions [ConnectionLifetime] names: above all the client is destroyed in
      its loop's thread, and reading is not started or stopped around a close.
      For each condition a theorem shows what happens without it.
    - Protocols: HTTP parsing is total, independent of how the input is cut, and
      inverts the printing of requests; the codec delivers each message once, the
      typed codec with its own type; each RPC call completes once with its own
      answer.  Composed with the connection: the messages that the calls of
      [send] hand over, from any thread, arrive once and in order however the
      kernels cut the bytes; the well-behaved clients of an HTTP server are
      answered one by one, up to the first answer that closes, and independently
      of each other; a remote call is a local call of the service, whose response
      the closure finds in place and which is deleted after it; an RPC server
      answers each request once, on the connection it came from, and fails
      exactly when a client sends a malformed response or a method finishes after
      its client has left.
    - Inspection: the inspector answers as its table of commands says; files are
      read whole for any way the kernel cuts the reads; the numbers and names on
      its pages are those of the [/proc] files and of the allocator.
    - Where the code does not do what it means to, a theorem exhibits it (for
      example [Logging.zone_change_keeps_old_time],
      [AsyncLogging.stop_loses_lines], [Http.rejected_request_asserts],
      [Connector.stale_timer_asserts], [EventLoopThread.startLoop_may_hang],
      [HttpSession.pipelined_request_waits],
      [ConnectionLifetime.stopRead_dangles],
      [ConnectionLifetime.close_while_stopped_asserts],
      [ConnectionLifetime.dtor_beside_callback_asserts],
      [ThreadPool.second_stop_asserts], [MutexLock.negative_wait],
      [ZlibStream.piece_after_buffer_asserts], [RpcServer.late_done_dangles],
      [LoopTimers.early_cancel_is_lost], [LoopTimers.addTimer_return_dangles],
      [LogPipeline.fatal_line_is_lost]).

    ** Bounds

    Lengths are below 2^31 or 2^63 as the types require; dates up to the year
    1 450 000; log times up to the end of 9999; counters of connections and
    tasks below 2^31.  The hypotheses of each theorem say so.

    ** Not modelled

    Declarations without code: the typedefs of the callbacks, [copyable.h],
    [noncopyable.h] and [ZlibInputStream], which only declares its methods;
    the message types the protocol compiler generates (parameters of
    [Codec] and [Rpc]); the text of log messages inside the library, except where
    a theorem is about it; the template [boilerplate] and the build files; the
    test programs, beyond the checks [Conformance] replays. *)

(** ** Shared prelude *)

From stdpp Require Export base option list relations gmap strings numbers sorting.
From coqutil Require Export Byte Word.LittleEndianList.

#[global] Open Scope Z_scope.

(** ** Outcomes: what a C++ function can do

    A modelled function either returns or stops the program.  [AssertFail] is
    a failed [assert(...)], [Fatal] a [LOG_FATAL]/[LOG_SYSFATAL]/[abort()],
    [LengthError] the exception [std::vector] throws beyond [max_size()],
    [OutOfBounds] an access outside an object (undefined behaviour). *)
Inductive error :=
  | AssertFail
  | Fatal
  | LengthError
  | OutOfBounds.

Inductive outcome (A : Type) :=
  | Ok (a : A)
  | Err (e : error).
Arguments Ok {A} a.
Arguments Err {A} e.

#[global] Instance error_eq_dec : EqDecision error.
Proof. solve_decision. Defined.

#[global] Instance outcome_ret : MRet outcome := fun A a => Ok a.
#[global] Instance outcome_bind : MBind outcome := fun A B f m =>
  match m with Ok a => f a | Err e => Err e end.

(** [assert(b)] of a debug build, and a memory access that must be in range. *)
Definition assert_ (b : bool) : outcome unit := if b then Ok () else Err AssertFail.
Definition in_bounds (b : bool) : outcome unit := if b then Ok () else Err OutOfBounds.

Lemma bind_Ok {A B} (f : A -> outcome B) (m : outcome A) b :
  mbind f m = Ok b <-> exists a, m = Ok a /\ f a = Ok b.
Proof.
  split; [destruct m; simpl; [by eauto|done]|]. by intros (a & -> & H).
Qed.

Lemma assert_Ok b u : assert_ b = Ok u <-> b = true.
Proof. destruct b, u; simpl; naive_solver. Qed.

Lemma in_bounds_Ok b u : in_bounds b = Ok u <-> b = true.
Proof. destruct b, u; simpl; naive_solver. Qed.

Lemma assert_true b : b = true -> assert_ b = Ok ().
Proof. by intros ->. Qed.

Lemma in_bounds_true b : b = true -> in_bounds b = Ok ().
Proof. by intros ->. Qed.

(** Takes a hypothesis [m = Ok r] apart along the binds of [m]. *)
Ltac outcome_inv H :=
  repeat match type of H with
  | mbind _ _ = Ok _ =>
      let a := fresh "a" in let Ha := fresh "Ha" in
      apply bind_Ok in H as (a & Ha & H); try outcome_inv Ha
  | assert_ _ = Ok _ => apply assert_Ok in H
  | in_bounds _ = Ok _ => apply in_bounds_Ok in H
  | Ok _ = Ok _ => injection H as H; subst
  | Err _ = Ok _ => discriminate H
  end.

(** Reduces binds on returned values, and nothing else. *)
Ltac bind_simpl := cbn [mbind outcome_bind].

(** Runs the checks of a function whose conditions [lia] can decide. *)
Ltac run_checks :=
  repeat first
    [ rewrite assert_true by lia; bind_simpl
    | rewrite in_bounds_true by lia; bind_simpl ].

(** ** Machine integers

    A [w]-bit integer is a [Z]; [wrapu]/[wraps] are the conversions to the
    unsigned and the signed type of that width. *)
Definition wrapu (w z : Z) : Z := z mod 2 ^ w.
Definition wraps (w z : Z) : Z := (z + 2 ^ (w - 1)) mod 2 ^ w - 2 ^ (w - 1).

Abbreviation u8 := (wrapu 8) (only parsing).
Abbreviation u16 := (wrapu 16) (only parsing).
Abbreviation u32 := (wrapu 32) (only parsing).
Abbreviation u64 := (wrapu 64) (only parsing).
Abbreviation i8 := (wraps 8) (only parsing).
Abbreviation i16 := (wraps 16) (only parsing).
Abbreviation i32 := (wraps 32) (only parsing).
Abbreviation i64 := (wraps 64) (only parsing).

Lemma wrapu_small w z : 0 <= z < 2 ^ w -> wrapu w z = z.
Proof. intros. apply Z.mod_small; lia. Qed.

Lemma wrapu_range w z : 0 <= w -> 0 <= wrapu w z < 2 ^ w.
Proof. intros. apply Z.mod_pos_bound, Z.pow_pos_nonneg; lia. Qed.

Lemma wraps_small w z : - 2 ^ (w - 1) <= z < 2 ^ (w - 1) -> 0 < w -> wraps w z = z.
Proof.
  intros Hz Hw. unfold wraps.
  assert (2 ^ w = 2 * 2 ^ (w - 1)) as E.
  { rewrite <-Z.pow_succ_r by lia. f_equal. lia. }
  rewrite Z.mod_small; lia.
Qed.

Lemma wraps_range w z : 0 < w -> - 2 ^ (w - 1) <= wraps w z < 2 ^ (w - 1).
Proof.
  intros Hw. unfold wraps.
  assert (2 ^ w = 2 * 2 ^ (w - 1)) as E.
  { rewrite <-Z.pow_succ_r by lia. f_equal. lia. }
  assert (0 < 2 ^ (w - 1)) by (apply Z.pow_pos_nonneg; lia).
  pose proof (Z.mod_pos_bound (z + 2 ^ (w - 1)) (2 ^ w)). lia.
Qed.

Lemma wraps_wrapu w z : 0 < w -> wraps w (wrapu w z) = wraps w z.
Proof.
  intros Hw. unfold wraps, wrapu. f_equal.
  rewrite Zplus_mod_idemp_l. done.
Qed.

Lemma wrapu_wraps w z : 0 < w -> wrapu w (wraps w z) = wrapu w z.
Proof.
  intros Hw. unfold wraps, wrapu.
  rewrite Zminus_mod_idemp_l. f_equal. lia.
Qed.

Lemma u64_small z : 0 <= z < 18446744073709551616 -> u64 z = z.
Proof. apply (wrapu_small 64). Qed.
Lemma u32_small z : 0 <= z < 4294967296 -> u32 z = z.
Proof. apply (wrapu_small 32). Qed.
Lemma i32_small z : -2147483648 <= z < 2147483648 -> i32 z = z.
Proof. intros. apply (wraps_small 32); lia. Qed.
Lemma i64_small z : -9223372036854775808 <= z < 9223372036854775808 -> i64 z = z.
Proof. intros. apply (wraps_small 64); lia. Qed.

(** Conversions that change nothing because the value fits. *)
Create Rewrite HintDb cint.
#[export] Hint Rewrite u64_small u32_small i32_small i64_small using lia : cint.
Ltac cint := autorewrite with cint.

(** Arithmetic of the C type [int]: 32 bits, division truncates. *)
Declare Scope int_scope.
Delimit Scope int_scope with int.
Notation "x + y" := (i32 (Z.add x%int y%int)) : int_scope.
Notation "x - y" := (i32 (Z.sub x%int y%int)) : int_scope.
Notation "x * y" := (i32 (Z.mul x%int y%int)) : int_scope.
Notation "x / y" := (i32 (Z.quot x%int y%int)) : int_scope.
Notation "x %% y" := (i32 (Z.rem x%int y%int)) (at level 40, left associativity) : int_scope.

(** ** Memory ranges

    A byte array is a [list byte]; a pointer into it is the offset from its
    first element. *)
#[global] Instance byte_eq_dec' : EqDecision byte := Byte.byte_eq_dec.

Definition bytes (s : string) : list byte := String.list_byte_of_string s.

Section zlist.
Context {A : Type}.
Implicit Types l k : list A.

Definition zlen l : Z := Z.of_nat (length l).
Definition ztake (n : Z) l : list A := take (Z.to_nat n) l.
Definition zdrop (n : Z) l : list A := drop (Z.to_nat n) l.

(** The elements at offsets [first, last). *)
Definition zslice (first last : Z) l : list A := ztake (last - first) (zdrop first l).

(** [std::copy(src, src + len, mem + off)]. *)
Definition zstore (off : Z) (src l : list A) : outcome (list A) :=
  in_bounds ((0 <=? off) && (off + zlen src <=? zlen l));;
  Ok (ztake off l ++ src ++ zdrop (off + zlen src) l).

Lemma zlen_nonneg l : 0 <= zlen l.
Proof. unfold zlen; lia. Qed.
Lemma zlen_nil : zlen (@nil A) = 0.
Proof. done. Qed.
Lemma zlen_cons x l : zlen (x :: l) = 1 + zlen l.
Proof. unfold zlen; simpl; lia. Qed.
Lemma zlen_app l k : zlen (l ++ k) = zlen l + zlen k.
Proof. unfold zlen; rewrite length_app; lia. Qed.
Lemma zlen_take n l : 0 <= n <= zlen l -> zlen (ztake n l) = n.
Proof. unfold zlen, ztake; rewrite length_take; lia. Qed.
Lemma zlen_drop n l : 0 <= n <= zlen l -> zlen (zdrop n l) = zlen l - n.
Proof. unfold zlen, zdrop; rewrite length_drop; lia. Qed.
Lemma zlen_replicate n (x : A) : 0 <= n -> zlen (replicate (Z.to_nat n) x) = n.
Proof. unfold zlen; rewrite length_replicate; lia. Qed.
Lemma zlen_slice a b l : 0 <= a <= b -> b <= zlen l -> zlen (zslice a b l) = b - a.
Proof. intros. unfold zslice. rewrite zlen_take; [lia|]. rewrite zlen_drop; lia. Qed.

Lemma ztake_0 l : ztake 0 l = [].
Proof. done. Qed.
Lemma zdrop_0 l : zdrop 0 l = l.
Proof. done. Qed.
Lemma ztake_all n l : zlen l <= n -> ztake n l = l.
Proof. unfold zlen, ztake. intros. apply take_ge. lia. Qed.
Lemma zdrop_all n l : zlen l <= n -> zdrop n l = [].
Proof. unfold zlen, zdrop. intros. apply drop_ge. lia. Qed.
Lemma ztake_zdrop n l : ztake n l ++ zdrop n l = l.
Proof. apply take_drop. Qed.
Lemma zdrop_zdrop a b l : 0 <= a -> 0 <= b -> zdrop b (zdrop a l) = zdrop (a + b) l.
Proof. intros. unfold zdrop. rewrite drop_drop. f_equal; lia. Qed.
Lemma ztake_ztake a b l : 0 <= a <= b -> ztake a (ztake b l) = ztake a l.
Proof. intros. unfold ztake. rewrite take_take. f_equal; lia. Qed.
Lemma ztake_app n l k : 0 <= n -> ztake n (l ++ k) = ztake n l ++ ztake (n - zlen l) k.
Proof. intros. unfold ztake, zlen. rewrite take_app. do 2 f_equal. lia. Qed.
Lemma zdrop_app n l k : 0 <= n -> zdrop n (l ++ k) = zdrop n l ++ zdrop (n - zlen l) k.
Proof. intros. unfold zdrop, zlen. rewrite drop_app. do 2 f_equal. lia. Qed.
Lemma ztake_app_exact n l k : zlen l = n -> ztake n (l ++ k) = l.
Proof. unfold ztake, zlen. intros. rewrite take_app_length'; [done|lia]. Qed.
Lemma zdrop_app_exact n l k : zlen l = n -> zdrop n (l ++ k) = k.
Proof. unfold zdrop, zlen. intros. rewrite drop_app_length'; [done|lia]. Qed.
Lemma zdrop_ztake a b l : 0 <= a <= b -> zdrop a (ztake b l) = ztake (b - a) (zdrop a l).
Proof.
  intros. unfold zdrop, ztake. rewrite skipn_firstn_comm. f_equal. lia.
Qed.
Lemma ztake_zdrop_succ a b l :
  0 <= a -> 0 <= b -> ztake (a + b) l = ztake a l ++ ztake b (zdrop a l).
Proof.
  intros. unfold ztake, zdrop. rewrite Z2Nat.inj_add by lia.
  by rewrite <-take_take_drop.
Qed.

Lemma zslice_full l : zslice 0 (zlen l) l = l.
Proof. unfold zslice. rewrite zdrop_0. apply ztake_all. lia. Qed.
Lemma zslice_empty a l : zslice a a l = [].
Proof. unfold zslice. by rewrite Z.sub_diag. Qed.
Lemma zslice_split a b c l :
  0 <= a <= b -> b <= c -> zslice a c l = zslice a b l ++ zslice b c l.
Proof.
  intros. unfold zslice. replace (c - a) with ((b - a) + (c - b)) by lia.
  rewrite ztake_zdrop_succ by lia. rewrite zdrop_zdrop by lia.
  do 3 f_equal. lia.
Qed.
Lemma zslice_drop a b n l :
  0 <= a -> 0 <= n -> a + n <= b -> zdrop n (zslice a b l) = zslice (a + n) b l.
Proof.
  intros. unfold zslice. rewrite zdrop_ztake by lia. rewrite zdrop_zdrop by lia.
  f_equal. lia.
Qed.
Lemma zslice_take a b n l :
  0 <= a -> 0 <= n -> a + n <= b -> ztake n (zslice a b l) = zslice a (a + n) l.
Proof. intros. unfold zslice. rewrite ztake_ztake by lia. f_equal. lia. Qed.

Lemma zstore_Ok off src l :
  0 <= off -> off + zlen src <= zlen l ->
  zstore off src l = Ok (ztake off l ++ src ++ zdrop (off + zlen src) l).
Proof. intros. unfold zstore. by run_checks. Qed.
Lemma zlen_stored off src l :
  0 <= off -> off + zlen src <= zlen l ->
  zlen (ztake off l ++ src ++ zdrop (off + zlen src) l) = zlen l.
Proof.
  intros. pose proof (zlen_nonneg src).
  rewrite !zlen_app, zlen_take, zlen_drop; lia.
Qed.
Lemma zslice_stored_new off src l :
  0 <= off -> off + zlen src <= zlen l ->
  zslice off (off + zlen src) (ztake off l ++ src ++ zdrop (off + zlen src) l) = src.
Proof.
  intros. pose proof (zlen_nonneg src). unfold zslice.
  rewrite zdrop_app_exact by (rewrite zlen_take; lia).
  apply ztake_app_exact. lia.
Qed.
Lemma zslice_stored_below a b off src l :
  0 <= a <= b -> b <= off -> off + zlen src <= zlen l ->
  zslice a b (ztake off l ++ src ++ zdrop (off + zlen src) l) = zslice a b l.
Proof.
  intros. pose proof (zlen_nonneg src). unfold zslice.
  rewrite zdrop_app by lia. rewrite zdrop_ztake by lia.
  rewrite ztake_app by lia. rewrite ztake_ztake by lia.
  rewrite zlen_take by (rewrite zlen_drop; lia).
  replace (b - a - (off - a)) with (b - off) by lia.
  unfold ztake at 2. replace (Z.to_nat (b - off)) with 0%nat by lia. simpl.
  by rewrite app_nil_r.
Qed.
Lemma zslice_stored_above a b off src l :
  0 <= off -> off + zlen src <= a -> a <= b -> off + zlen src <= zlen l ->
  zslice a b (ztake off l ++ src ++ zdrop (off + zlen src) l) = zslice a b l.
Proof.
  intros. pose proof (zlen_nonneg src). unfold zslice. f_equal.
  rewrite app_assoc. rewrite zdrop_app by lia.
  rewrite zlen_app, zlen_take by lia.
  rewrite zdrop_all by (rewrite zlen_app, zlen_take; lia). simpl.
  rewrite zdrop_zdrop by lia. f_equal. lia.
Qed.
End zlist.

#[global] Arguments wrapu : simpl never.
#[global] Arguments wraps : simpl never.
#[global] Arguments zlen {A} l : simpl never.
#[global] Arguments ztake {A} n l : simpl never.
#[global] Arguments zdrop {A} n l : simpl never.
#[global] Arguments zslice {A} first last l : simpl never.
#[global] Arguments zstore {A} off src l : simpl never.

Create Rewrite HintDb zlist.
#[export] Hint Rewrite @zlen_nil @zlen_cons @zlen_app @ztake_0 @zdrop_0
  @zslice_full @zslice_empty : zlist.
#[export] Hint Rewrite @zlen_take @zlen_drop @zlen_slice @zlen_replicate using lia : zlist.
Ltac zlist := autorewrite with zlist.

(** Adds [0 <= zlen l] for every list length of the goal and the context. *)
Ltac zlen_pos :=
  repeat match goal with
  | |- context [zlen ?l] =>
      lazymatch goal with H : 0 <= zlen l |- _ => fail | _ => pose proof (zlen_nonneg l) end
  | _ : context [zlen ?l] |- _ =>
      lazymatch goal with H : 0 <= zlen l |- _ => fail | _ => pose proof (zlen_nonneg l) end
  end.
Ltac zlia := zlist; zlen_pos; lia.

(** ** Transition systems *)
Lemma rtc_invariant {A} (R : relation A) (I : A -> Prop) x y :
  (forall a b, R a b -> I a -> I b) -> rtc R x y -> I x -> I y.
Proof. intros Hstep. induction 1; eauto. Qed.
