(* ===== verification/CxxStd.v ===== *)
(** * The parts of the C++ standard library the sources call

    Searches over ranges ([std::find], [std::search], [memchr],
    [std::lower_bound]) and the ordered containers [std::set] and [std::map],
    each with the lemmas its clients use.  A range is a list, an iterator into
    it the offset from its beginning; the end iterator is the length. *)

From S2P Require Import Prelude.

(** ** Searching a range *)
Section search.
Context {A : Type}.
Implicit Types l k : list A.

(** [std::find_if(first, last, p)]. *)
Fixpoint std_find_if (p : A -> bool) l : Z :=
  match l with
  | [] => 0
  | x :: l' => if p x then 0 else 1 + std_find_if p l'
  end.

(** How a search of [l] for an element satisfying [p] can end. *)
Inductive find_view (p : A -> bool) l : Z -> Prop :=
  | find_none : Forall (fun x => p x = false) l -> find_view p l (zlen l)
  | find_some l1 x l2 :
      l = l1 ++ x :: l2 -> Forall (fun x => p x = false) l1 -> p x = true ->
      find_view p l (zlen l1).

Lemma std_find_ifP p l : find_view p l (std_find_if p l).
Proof.
  induction l as [|x l IH]; simpl.
  { by apply (find_none p []). }
  destruct (p x) eqn:E.
  { by apply (find_some p (x :: l) [] x l). }
  destruct IH as [IH|l1 y l2 -> H1 Hy].
  - rewrite <-(zlen_cons x). apply find_none. by constructor.
  - rewrite <-(zlen_cons x l1). apply (find_some _ _ _ y l2); [done| |done].
    by constructor.
Qed.

Lemma std_find_if_range p l : 0 <= std_find_if p l <= zlen l.
Proof.
  destruct (std_find_ifP p l) as [|l1 x l2 -> _ _]; [zlia|].
  zlist. zlia.
Qed.

(** The search stops at the first hit. *)
Lemma std_find_if_app p l1 x l2 :
  Forall (fun x => p x = false) l1 -> p x = true ->
  std_find_if p (l1 ++ x :: l2) = zlen l1.
Proof.
  intros H Hx. induction H as [|y l1 Hy _ IH]; simpl; [by rewrite Hx|].
  rewrite Hy, IH. by zlist.
Qed.

Lemma std_find_if_none p l :
  Forall (fun x => p x = false) l -> std_find_if p l = zlen l.
Proof.
  induction 1 as [|y l Hy _ IH]; simpl; [done|]. rewrite Hy, IH. by zlist.
Qed.
(** [std::lower_bound(first, last, value, comp)], where [p x] is
    [comp(x, value)]: the bisection of the library, on offsets.  A range of
    [len] elements needs at most [len] rounds. *)
Fixpoint lower_bound_loop (fuel : nat) (p : A -> bool) l (first len : nat) : nat :=
  match fuel with
  | O => first
  | S f =>
      if decide (len = 0)%nat then first
      else
        let half := (len / 2)%nat in
        let mid := (first + half)%nat in
        match l !! mid with
        | None => first
        | Some x =>
            if p x then lower_bound_loop f p l (S mid) (len - half - 1)
            else lower_bound_loop f p l first half
        end
  end.

Definition std_lower_bound (p : A -> bool) l : nat :=
  lower_bound_loop (length l) p l 0 (length l).

Lemma lower_bound_loop_spec fuel p l1 l2 first len :
  Forall (fun x => p x = true) l1 -> Forall (fun x => p x = false) l2 ->
  (len <= fuel)%nat -> (first <= length l1 <= first + len)%nat ->
  (first + len <= length (l1 ++ l2))%nat ->
  lower_bound_loop fuel p (l1 ++ l2) first len = length l1.
Proof.
  intros H1 H2. revert first len. induction fuel as [|f IH]; intros first len Hf Hb Hl.
  { simpl. lia. }
  cbn [lower_bound_loop].
  rewrite length_app in Hl.
  case_decide as Hlen; [lia|].
  assert (len / 2 < len)%nat as Hhalf by (apply Nat.div_lt; lia).
  set (half := (len / 2)%nat) in *. clearbody half.
  destruct ((l1 ++ l2) !! (first + half)%nat) as [x|] eqn:E.
  2: { apply lookup_ge_None in E. rewrite length_app in E. lia. }
  apply lookup_app_Some in E as [E|[Hge E]].
  - pose proof (lookup_lt_Some _ _ _ E). rewrite Forall_lookup in H1.
    pose proof (H1 _ _ E) as Hx; simpl in Hx; rewrite Hx. apply IH; rewrite ?length_app; lia.
  - rewrite Forall_lookup in H2. pose proof (H2 _ _ E) as Hx; simpl in Hx; rewrite Hx.
    apply IH; rewrite ?length_app; lia.
Qed.

(** On a range partitioned by [p] the bisection finds the boundary. *)
Lemma std_lower_bound_spec p l1 l2 :
  Forall (fun x => p x = true) l1 -> Forall (fun x => p x = false) l2 ->
  std_lower_bound p (l1 ++ l2) = length l1.
Proof.
  intros. apply lower_bound_loop_spec; try done; rewrite ?length_app; lia.
Qed.
End search.

(** [std::find(first, last, c)] on characters. *)
Definition std_find (c : byte) (l : list byte) : Z := std_find_if (Byte.eqb c) l.

(** [memchr(s, c, n)]: the offset of the first [c], if any. *)
Definition memchr (c : byte) (l : list byte) : option Z :=
  let i := std_find c l in if i =? zlen l then None else Some i.

(** [std::search(first, last, s_first, s_last)]. *)
Fixpoint is_prefix (pat l : list byte) : bool :=
  match pat, l with
  | [], _ => true
  | c :: pat', d :: l' => Byte.eqb c d && is_prefix pat' l'
  | _ :: _, [] => false
  end.

Fixpoint std_search (pat l : list byte) : Z :=
  match l with
  | [] => 0
  | _ :: l' => if is_prefix pat l then 0 else 1 + std_search pat l'
  end.

Lemma byte_eqb_true a b : Byte.eqb a b = true <-> a = b.
Proof. apply Byte.byte_dec_bl || (split; [apply Byte.byte_dec_bl|apply Byte.byte_dec_lb]). Qed.

Lemma byte_eqb_false a b : Byte.eqb a b = false <-> a <> b.
Proof. rewrite <-byte_eqb_true. destruct (Byte.eqb a b); naive_solver. Qed.

Lemma byte_eqb_refl a : Byte.eqb a a = true.
Proof. by apply byte_eqb_true. Qed.

(** [memchr] stops at the first [c]. *)
Lemma memchr_spec c l :
  match memchr c l with
  | Some i => exists a b, l = a ++ c :: b /\ i = zlen a /\ c ∉ a
  | None => c ∉ l
  end.
Proof.
  assert (forall k, Forall (fun x => Byte.eqb c x = false) k -> c ∉ k) as Hn.
  { intros k Hk Hin. rewrite Forall_forall in Hk. specialize (Hk c Hin). cbn in Hk. by rewrite byte_eqb_refl in Hk. }
  unfold memchr, std_find. destruct (std_find_ifP (Byte.eqb c) l) as [H|a x b -> H Hx].
  - rewrite Z.eqb_refl. by apply Hn.
  - rewrite zlen_app, zlen_cons. zlen_pos. rewrite (proj2 (Z.eqb_neq _ _)) by lia. apply byte_eqb_true in Hx as <-.
    exists a, b. split_and!; [done|done|by apply Hn].
Qed.

Lemma is_prefixP pat l : is_prefix pat l = true <-> exists k, l = pat ++ k.
Proof.
  revert l. induction pat as [|c pat IH]; intros l; simpl.
  { split; [by exists l|done]. }
  destruct l as [|d l]; [split; [done|by intros [k Hk]]|].
  rewrite andb_true_iff, byte_eqb_true, IH.
  split; [intros [-> [k ->]]; by exists k|].
  intros [k Hk]. simplify_eq. by eauto.
Qed.

(** How a search of [l] for the string [pat] can end: nowhere, or at the
    leftmost occurrence. *)
Inductive search_view (pat l : list byte) : Z -> Prop :=
  | search_none : (forall l1 l2, l <> l1 ++ pat ++ l2) -> search_view pat l (zlen l)
  | search_some l1 l2 :
      l = l1 ++ pat ++ l2 ->
      (forall k1 k2, l = k1 ++ pat ++ k2 -> zlen l1 <= zlen k1) ->
      search_view pat l (zlen l1).

Lemma std_searchP pat l : pat <> [] -> search_view pat l (std_search pat l).
Proof.
  intros Hpat. induction l as [|x l IH]; simpl std_search.
  { apply (search_none pat []). intros [|] [|] ?; destruct pat; naive_solver. }
  destruct (is_prefix pat (x :: l)) eqn:E.
  { apply is_prefixP in E as [k Hk].
    apply (search_some pat (x :: l) [] k); [done|]. intros. zlia. }
  assert (forall k, x :: l <> pat ++ k) as Hno.
  { intros k Hk. apply not_true_iff_false in E. apply E, is_prefixP. by exists k. }
  destruct IH as [IH|l1 l2 -> Hmin].
  - rewrite <-(zlen_cons x). apply search_none.
    intros [|y l1] l2 Heq; simpl in Heq; [by eapply Hno|].
    injection Heq as -> ->. by eapply IH.
  - rewrite <-(zlen_cons x l1). apply (search_some _ _ (x :: l1) l2); [done|].
    intros [|y k1] k2 Heq; simpl in Heq; [by eapply Hno in Heq|].
    injection Heq as -> Heq. zlist. pose proof (Hmin _ _ Heq). lia.
Qed.

Lemma std_search_range pat l : pat <> [] -> 0 <= std_search pat l <= zlen l.
Proof.
  intros Hp. destruct (std_searchP pat l Hp) as [|l1 l2 -> _]; [zlia|].
  zlist. zlia.
Qed.

(** ** Ordered containers

    [std::set] and [std::map] keep their keys strictly increasing; both are
    modelled by the list an iteration visits. *)
Class StrictTotal {K : Type} (ltb : K -> K -> bool) : Prop := {
  ltb_irrefl a : ltb a a = false;
  ltb_trans a b c : ltb a b = true -> ltb b c = true -> ltb a c = true;
  ltb_total a b : ltb a b = false -> ltb b a = false -> a = b
}.

Section ordered.
Context {K V : Type} (ltb : K -> K -> bool) `{!StrictTotal ltb}.

(** [m[k] = v] *)
Fixpoint map_set (k : K) (v : V) (m : list (K * V)) : list (K * V) :=
  match m with
  | [] => [(k, v)]
  | (k', v') :: m' =>
      if ltb k k' then (k, v) :: m
      else if ltb k' k then (k', v') :: map_set k v m'
      else (k, v) :: m'
  end.

(** [m.find(k)] *)
Fixpoint map_find (k : K) (m : list (K * V)) : option V :=
  match m with
  | [] => None
  | (k', v') :: m' =>
      if ltb k k' then None else if ltb k' k then map_find k m' else Some v'
  end.

(** [m.erase(k)] *)
Fixpoint map_erase (k : K) (m : list (K * V)) : list (K * V) :=
  match m with
  | [] => []
  | (k', v') :: m' =>
      if ltb k k' then m else if ltb k' k then (k', v') :: map_erase k m' else m'
  end.

(** Every key is above the bound, and the keys increase. *)
Definition key_lt (p q : K * V) : Prop := ltb p.1 q.1 = true.
Definition map_sorted (m : list (K * V)) : Prop := StronglySorted key_lt m.

Lemma ltb_asym a b : ltb a b = true -> ltb b a = false.
Proof.
  intros Hab. destruct (ltb b a) eqn:Hba; [|done].
  pose proof (ltb_trans _ _ _ Hab Hba). pose proof (ltb_irrefl a). congruence.
Qed.

Lemma map_find_below k m : Forall (fun p => ltb k p.1 = true) m -> map_find k m = None.
Proof. destruct 1 as [|[k' v'] m H _]; simpl in *; [done|]. by rewrite H. Qed.

Lemma map_set_Forall (P : K * V -> Prop) k v m :
  P (k, v) -> Forall P m -> Forall P (map_set k v m).
Proof.
  intros HP. induction 1 as [|[k' v'] m Hp Hm IH]; simpl; [by repeat constructor|].
  repeat case_match; repeat constructor; auto.
Qed.

Lemma map_set_sorted k v m : map_sorted m -> map_sorted (map_set k v m).
Proof.
  unfold map_sorted. induction 1 as [|[k' v'] m Hs IH Hall]; simpl.
  { by repeat constructor. }
  destruct (ltb k k') eqn:E1.
  - constructor; [by constructor|]. constructor; [done|].
    eapply Forall_impl; [done|]. intros p. unfold key_lt. simpl. eauto using ltb_trans.
  - destruct (ltb k' k) eqn:E2.
    + constructor; [done|]. by apply map_set_Forall.
    + assert (k = k') as -> by by apply ltb_total. by constructor.
Qed.

Lemma map_erase_Forall (P : K * V -> Prop) k m : Forall P m -> Forall P (map_erase k m).
Proof.
  induction 1 as [|[k' v'] m Hp Hm IH]; simpl; [done|].
  repeat case_match; repeat constructor; auto.
Qed.

Lemma map_erase_sorted k m : map_sorted m -> map_sorted (map_erase k m).
Proof.
  unfold map_sorted. induction 1 as [|[k' v'] m Hs IH Hall]; simpl; [constructor|].
  repeat case_match; [by constructor| |done].
  constructor; [done|]. by apply map_erase_Forall.
Qed.

Lemma map_find_set_eq k v m : map_find k (map_set k v m) = Some v.
Proof.
  induction m as [|[k' v'] m IH]; simpl; [by rewrite ltb_irrefl|].
  destruct (ltb k k') eqn:E1; simpl; [by rewrite ltb_irrefl|].
  destruct (ltb k' k) eqn:E2; simpl; [by rewrite E1, E2|by rewrite ltb_irrefl].
Qed.

Lemma map_find_set_ne k k1 v m :
  map_sorted m -> k <> k1 -> map_find k1 (map_set k v m) = map_find k1 m.
Proof.
  unfold map_sorted. intros Hs Hne. induction Hs as [|[k' v'] m Hs IH Hall]; simpl.
  { destruct (ltb k1 k) eqn:E; [done|]. destruct (ltb k k1) eqn:E'; [done|].
    by apply ltb_total in E'. }
  destruct (ltb k k') eqn:E1; simpl.
  - destruct (ltb k1 k) eqn:E2; simpl.
    { by rewrite (ltb_trans _ _ _ E2 E1). }
    destruct (ltb k k1) eqn:E3; [done|]. by apply ltb_total in E3.
  - destruct (ltb k' k) eqn:E2; simpl; [by rewrite IH|].
    assert (k = k') as -> by by apply ltb_total.
    destruct (ltb k1 k') eqn:E3; [done|]. destruct (ltb k' k1) eqn:E4; [done|].
    by apply ltb_total in E4.
Qed.

Lemma map_find_erase_eq k m : map_sorted m -> map_find k (map_erase k m) = None.
Proof.
  unfold map_sorted. induction 1 as [|[k' v'] m Hs IH Hall]; simpl; [done|].
  destruct (ltb k k') eqn:E1; simpl; [by rewrite E1|].
  destruct (ltb k' k) eqn:E2; simpl; [by rewrite E1, E2|].
  assert (k = k') as -> by by apply ltb_total.
  apply map_find_below. exact Hall.
Qed.

Lemma map_find_erase_ne k k1 m :
  map_sorted m -> k <> k1 -> map_find k1 (map_erase k m) = map_find k1 m.
Proof.
  unfold map_sorted. intros Hs Hne. induction Hs as [|[k' v'] m Hs IH Hall]; simpl; [done|].
  destruct (ltb k k') eqn:E1; [done|]. destruct (ltb k' k) eqn:E2; simpl; [by rewrite IH|].
  assert (k = k') as -> by by apply ltb_total.
  destruct (ltb k1 k') eqn:E3; [|destruct (ltb k' k1) eqn:E4; [done|by apply ltb_total in E4]].
  apply map_find_below. eapply Forall_impl; [exact Hall|].
  intros p. unfold key_lt. simpl. eauto using ltb_trans.
Qed.

Lemma map_find_elem k v m : map_sorted m -> map_find k m = Some v <-> (k, v) ∈ m.
Proof.
  unfold map_sorted. induction 1 as [|[k' v'] m Hs IH Hall]; simpl.
  { split; [done|by intros ?%elem_of_nil]. }
  assert (forall w, (k, w) ∈ m -> ltb k' k = true) as Hin.
  { intros w Hw. rewrite Forall_forall in Hall. by specialize (Hall _ Hw). }
  rewrite elem_of_cons, <-IH. destruct (ltb k k') eqn:E1.
  - split; [done|]. intros [[= -> ->]|Hf]; [by rewrite ltb_irrefl in E1|].
    apply IH in Hf. apply Hin in Hf. apply ltb_asym in Hf. congruence.
  - destruct (ltb k' k) eqn:E2.
    + split; [by right|]. intros [[= -> ->]|]; [by rewrite ltb_irrefl in E2|done].
    + assert (k = k') as -> by by apply ltb_total.
      split; [intros [= ->]; by left|].
      intros [[= ->]|Hf]; [done|]. apply IH, Hin in Hf. congruence.
Qed.
End ordered.

(** [std::set<K>] is a map to nothing. *)
Section ordered_set.
Context {K : Type} (ltb : K -> K -> bool) `{!StrictTotal ltb}.

Fixpoint set_insert (k : K) (s : list K) : list K :=
  match s with
  | [] => [k]
  | k' :: s' =>
      if ltb k k' then k :: s else if ltb k' k then k' :: set_insert k s' else s
  end.

Fixpoint set_erase (k : K) (s : list K) : list K :=
  match s with
  | [] => []
  | k' :: s' => if ltb k k' then s else if ltb k' k then k' :: set_erase k s' else s'
  end.

Fixpoint set_mem (k : K) (s : list K) : bool :=
  match s with
  | [] => false
  | k' :: s' => if ltb k k' then false else if ltb k' k then set_mem k s' else true
  end.

(** [s.lower_bound(k)], as the elements before and from it. *)
Fixpoint set_lower_bound (k : K) (s : list K) : list K * list K :=
  match s with
  | [] => ([], [])
  | k' :: s' =>
      if ltb k' k then let '(a, b) := set_lower_bound k s' in (k' :: a, b) else ([], s)
  end.

Definition lt_rel (a b : K) : Prop := ltb a b = true.
Definition set_sorted (s : list K) : Prop := StronglySorted lt_rel s.

Lemma set_mem_below k s : Forall (lt_rel k) s -> set_mem k s = false.
Proof. unfold lt_rel. destruct 1 as [|k' s H _]; simpl; [done|]. by rewrite H. Qed.

Lemma set_mem_elem k s : set_sorted s -> set_mem k s = true <-> k ∈ s.
Proof.
  unfold set_sorted. induction 1 as [|k' s Hs IH Hall]; simpl.
  { split; [done|by intros ?%elem_of_nil]. }
  assert (k ∈ s -> ltb k' k = true) as Hin.
  { intros Hw. rewrite Forall_forall in Hall. by apply Hall. }
  rewrite elem_of_cons, <-IH. destruct (ltb k k') eqn:E1.
  - split; [done|]. intros [->|Hf]; [by rewrite ltb_irrefl in E1|].
    apply IH, Hin in Hf. apply (ltb_asym ltb) in Hf. congruence.
  - destruct (ltb k' k) eqn:E2.
    + split; [by right|]. intros [->|]; [by rewrite ltb_irrefl in E2|done].
    + assert (k = k') as -> by by apply ltb_total. split; [by left|done].
Qed.

Lemma set_insert_elem k k1 s : k1 ∈ set_insert k s <-> k1 = k \/ k1 ∈ s.
Proof.
  induction s as [|k' s IH]; simpl; [set_solver|].
  destruct (ltb k k') eqn:E1; [set_solver|]. destruct (ltb k' k) eqn:E2; [set_solver|].
  assert (k = k') as -> by by apply ltb_total. set_solver.
Qed.

Lemma set_insert_sorted k s : set_sorted s -> set_sorted (set_insert k s).
Proof.
  unfold set_sorted. induction 1 as [|k' s Hs IH Hall]; simpl; [by repeat constructor|].
  destruct (ltb k k') eqn:E1.
  - constructor; [by constructor|]. constructor; [done|].
    eapply Forall_impl; [done|]. unfold lt_rel. eauto using ltb_trans.
  - destruct (ltb k' k) eqn:E2; [|by constructor].
    constructor; [done|]. rewrite Forall_forall in Hall |- *.
    intros x [->|Hx]%set_insert_elem; [done|by apply Hall].
Qed.

Lemma set_insert_perm k s : set_mem k s = false -> set_insert k s ≡ₚ k :: s.
Proof.
  induction s as [|k' s IH]; simpl; [done|].
  destruct (ltb k k'); [done|]. destruct (ltb k' k); [|done].
  intros H. rewrite IH by done. apply Permutation_swap.
Qed.

Lemma set_erase_perm k s : set_mem k s = true -> s ≡ₚ k :: set_erase k s.
Proof.
  induction s as [|k' s IH]; simpl; [done|].
  destruct (ltb k k') eqn:E1; [done|]. destruct (ltb k' k) eqn:E2.
  - intros H. rewrite (Permutation_swap k' k). by rewrite <-IH.
  - intros _. by rewrite (ltb_total _ _ E1 E2).
Qed.

Lemma set_erase_absent k s : set_mem k s = false -> set_erase k s = s.
Proof.
  induction s as [|k' s IH]; simpl; [done|].
  destruct (ltb k k'); [done|]. destruct (ltb k' k); [|done]. intros. by rewrite IH.
Qed.

Lemma set_erase_elem k k1 s :
  set_sorted s -> k1 ∈ set_erase k s <-> k1 ∈ s /\ k1 <> k.
Proof.
  unfold set_sorted. induction 1 as [|k' s Hs IH Hall]; simpl; [set_solver|].
  assert (forall x, x ∈ s -> ltb k' x = true) as Hin.
  { intros x Hx. rewrite Forall_forall in Hall. by apply Hall. }
  destruct (ltb k k') eqn:E1; [|destruct (ltb k' k) eqn:E2].
  - split; [|by intros [? _]]. intros H. split; [done|]. intros ->.
    apply elem_of_cons in H as [->|H]; [by rewrite ltb_irrefl in E1|].
    apply Hin, (ltb_asym ltb) in H. congruence.
  - rewrite !elem_of_cons, IH. split; [|naive_solver].
    intros [->|[? ?]]; [|naive_solver]. split; [by left|].
    intros ->. by rewrite ltb_irrefl in E2.
  - assert (k = k') as -> by by apply ltb_total. rewrite elem_of_cons.
    split; [|naive_solver]. intros H. split; [by right|].
    intros ->. apply Hin in H. by rewrite ltb_irrefl in H.
Qed.

Lemma set_erase_sorted k s : set_sorted s -> set_sorted (set_erase k s).
Proof.
  intros Hset. unfold set_sorted in *. induction Hset as [|k' s Hs IH Hall]; simpl; [constructor|].
  destruct (ltb k k'); [by constructor|]. destruct (ltb k' k); [|done].
  constructor; [done|]. rewrite Forall_forall in Hall |- *.
  intros x [Hx _]%set_erase_elem; [by apply Hall|done].
Qed.

Lemma set_lower_bound_app k s a b : set_lower_bound k s = (a, b) -> s = a ++ b.
Proof.
  revert a b. induction s as [|k' s IH]; intros a b; simpl; [by intros [= <- <-]|].
  destruct (ltb k' k); [|by intros [= <- <-]].
  destruct (set_lower_bound k s) as [a' b'] eqn:E. intros [= <- <-].
  simpl. f_equal. by apply IH.
Qed.

Lemma set_lower_bound_spec k s a b :
  set_sorted s -> set_lower_bound k s = (a, b) ->
  Forall (fun x => ltb x k = true) a /\ Forall (fun x => ltb x k = false) b.
Proof.
  unfold set_sorted. intros Hs. revert a b.
  induction Hs as [|k' s Hs IH Hall]; intros a b; simpl; [by intros [= <- <-]|].
  destruct (ltb k' k) eqn:E.
  - destruct (set_lower_bound k s) as [a' b'] eqn:E'. intros [= <- <-].
    destruct (IH _ _ eq_refl). split; [by constructor|done].
  - intros [= <- <-]. split; [done|]. constructor; [done|].
    eapply Forall_impl; [exact Hall|]. intros x Hx. unfold lt_rel in Hx.
    destruct (ltb x k) eqn:E'; [|done]. by rewrite (ltb_trans _ _ _ Hx E') in E.
Qed.
End ordered_set.

(** The orders the sources use: integers (and addresses), [std::pair] and
    [std::string] (bytes compared as unsigned). *)
#[global] Instance Zltb_total : StrictTotal Z.ltb.
Proof. split; intros; lia. Qed.

Definition pair_ltb {A B} (ltA : A -> A -> bool) (ltB : B -> B -> bool) (p q : A * B) : bool :=
  ltA p.1 q.1 || (negb (ltA q.1 p.1) && ltB p.2 q.2).

#[global] Instance pair_ltb_total {A B} (ltA : A -> A -> bool) (ltB : B -> B -> bool)
  `{!StrictTotal ltA, !StrictTotal ltB} : StrictTotal (pair_ltb ltA ltB).
Proof.
  unfold pair_ltb. split.
  - intros [a b]. simpl. by rewrite !ltb_irrefl.
  - intros [a1 b1] [a2 b2] [a3 b3]. simpl.
    rewrite !orb_true_iff, !andb_true_iff, !negb_true_iff. intros [H1|[H1 H1']] [H2|[H2 H2']].
    + left. eauto using ltb_trans.
    + left. destruct (ltA a2 a3) eqn:E; [eauto using ltb_trans|].
      assert (a2 = a3) as <- by by apply ltb_total. done.
    + left. destruct (ltA a1 a2) eqn:E; [eauto using ltb_trans|].
      assert (a1 = a2) as <- by by apply ltb_total. done.
    + destruct (ltA a1 a3) eqn:E; [by left|right]. split; [|eauto using ltb_trans].
      destruct (ltA a3 a1) eqn:E'; [|done].
      destruct (ltA a2 a3) eqn:E2.
      * by rewrite (ltb_trans _ _ _ E2 E') in H1.
      * assert (a2 = a3) as <- by by apply ltb_total. congruence.
  - intros [a1 b1] [a2 b2]. simpl.
    rewrite !orb_false_iff, !andb_false_iff, !negb_false_iff.
    intros [H1 H1'] [H2 H2']. f_equal; [by apply ltb_total|].
    apply ltb_total; naive_solver congruence.
Qed.

Definition byte_ltb (a b : byte) : bool := byte.unsigned a <? byte.unsigned b.

#[global] Instance byte_ltb_total : StrictTotal byte_ltb.
Proof.
  unfold byte_ltb. split; intros; [lia..|]. apply byte.unsigned_inj. lia.
Qed.

Fixpoint string_ltb (s t : list byte) : bool :=
  match s, t with
  | [], [] => false
  | [], _ :: _ => true
  | _ :: _, [] => false
  | a :: s', b :: t' =>
      if byte_ltb a b then true else if byte_ltb b a then false else string_ltb s' t'
  end.

#[global] Instance string_ltb_total : StrictTotal string_ltb.
Proof.
  split.
  - induction a as [|x a IH]; simpl; [done|]. by rewrite ltb_irrefl.
  - induction a as [|x a IH]; intros [|y b] [|z c]; simpl; [done..|].
    destruct (byte_ltb x y) eqn:E1; [|destruct (byte_ltb y x) eqn:E1'; [done|]].
    + intros _. destruct (byte_ltb y z) eqn:E2; [by rewrite (ltb_trans _ _ _ E1 E2)|].
      destruct (byte_ltb z y) eqn:E2'; [done|].
      assert (y = z) as <- by by apply ltb_total. by rewrite E1.
    + assert (x = y) as <- by by apply ltb_total.
      intros Hab. destruct (byte_ltb x z); [done|]. destruct (byte_ltb z x); [done|]. eauto.
  - induction a as [|x a IH]; intros [|y b]; simpl; [done..|].
    destruct (byte_ltb x y) eqn:E1; [done|]. destruct (byte_ltb y x) eqn:E2; [done|].
    assert (x = y) as <- by by apply ltb_total. intros. f_equal. eauto.
Qed.
