(* ===== verification/Endian.v ===== *)
(** * Byte order conversions ([src/net/Endian.h])

    The host is little-endian: an [n]-byte integer [x] lies in memory as
    [le_split n x], so [htobe64] and its relatives reverse the bytes. *)

From S2P Require Import Prelude.

(** [htobe16/32/64] and [be16/32/64toh] of [<endian.h>] on such a host. *)
Definition bswap (n : nat) (x : Z) : Z := le_combine (reverse (le_split n x)).

Definition hostToNetwork64 (host64 : Z) : Z := bswap 8 host64.
Definition hostToNetwork32 (host32 : Z) : Z := bswap 4 host32.
Definition hostToNetwork16 (host16 : Z) : Z := bswap 2 host16.
Definition networkToHost64 (net64 : Z) : Z := bswap 8 net64.
Definition networkToHost32 (net32 : Z) : Z := bswap 4 net32.
Definition networkToHost16 (net16 : Z) : Z := bswap 2 net16.

(** Network byte order: the most significant byte first. *)
Definition be_bytes (n : nat) (x : Z) : list byte := reverse (le_split n x).

Lemma zlen_le_split n x : zlen (le_split n x) = Z.of_nat n.
Proof. unfold zlen. by rewrite length_le_split. Qed.

Lemma zlen_be_bytes n x : zlen (be_bytes n x) = Z.of_nat n.
Proof. unfold zlen, be_bytes. by rewrite length_reverse, length_le_split. Qed.

(** Storing the converted value puts the network-order bytes in memory. *)
Lemma le_split_bswap n x : le_split n (bswap n x) = be_bytes n x.
Proof.
  apply split_le_combine'. unfold be_bytes. by rewrite length_reverse, length_le_split.
Qed.

Lemma bswap_range n x : 0 <= bswap n x < 2 ^ (8 * Z.of_nat n).
Proof.
  unfold bswap. pose proof (le_combine_bound (reverse (le_split n x))) as H.
  by rewrite length_reverse, length_le_split in H.
Qed.

(** Loading network-order bytes and converting gives the value back. *)
Lemma bswap_be_bytes n x : bswap n (le_combine (be_bytes n x)) = x mod 2 ^ (Z.of_nat n * 8).
Proof.
  unfold bswap. rewrite (split_le_combine' (be_bytes n x)).
  - unfold be_bytes. by rewrite reverse_involutive, le_combine_split.
  - unfold be_bytes. by rewrite length_reverse, length_le_split.
Qed.

Lemma bswap_involutive n x : bswap n (bswap n x) = x mod 2 ^ (Z.of_nat n * 8).
Proof. apply bswap_be_bytes. Qed.

(** The memory image depends on the value modulo its width only. *)
Lemma le_split_wrapu n w x :
  Z.of_nat n * 8 = w -> le_split n (wrapu w x) = le_split n x.
Proof. intros <-. symmetry. apply le_split_mod. Qed.

Lemma le_split_wraps n w x :
  Z.of_nat n * 8 = w -> 0 < w -> le_split n (wraps w x) = le_split n x.
Proof.
  intros Hn Hw. rewrite <-(le_split_wrapu n w (wraps w x)) by done.
  rewrite wrapu_wraps by done. by apply le_split_wrapu.
Qed.

Lemma bswap_wrapu n w x : Z.of_nat n * 8 = w -> bswap n (wrapu w x) = bswap n x.
Proof. intros. unfold bswap. by rewrite le_split_wrapu. Qed.
