(* ===== verification/Decimal.v ===== *)
(** * Printing integers in decimal

    What [snprintf] does for [%d], [%u], [%zd], [%0<w>d] and [%<w>d], with the
    lemmas the formatted output of the sources needs: the value can be read
    back and the number of characters is known. *)

From S2P Require Import Prelude.

(** The decimal digits of [n >= 0], most significant first.  [fuel] bounds
    their number; [ndigits] is enough for every [n]. *)
Fixpoint digits (fuel : nat) (n : Z) : list Z :=
  match fuel with
  | O => []
  | S f => if n <? 10 then [n] else digits f (n / 10) ++ [n mod 10]
  end.

Definition ndigits (n : Z) : nat := S (Z.to_nat (Z.log2 n)).

Definition digit_char (d : Z) : byte := byte.of_Z (48 + d).
Definition char_digit (c : byte) : Z := byte.unsigned c - 48.

Definition dec_nat (n : Z) : list byte := digit_char <$> digits (ndigits n) n.

(** [%d] *)
Definition dec (z : Z) : list byte :=
  if z <? 0 then Byte.x2d :: dec_nat (- z) else dec_nat z.

(** [%0<w>d] for [z >= 0] and [%<w>d]. *)
Definition pad_left (c : byte) (w : Z) (s : list byte) : list byte :=
  replicate (Z.to_nat (w - zlen s)) c ++ s.
Definition dec0 (w z : Z) : list byte :=
  if z <? 0 then Byte.x2d :: pad_left Byte.x30 (w - 1) (dec_nat (- z))
  else pad_left Byte.x30 w (dec_nat z).
Definition decw (w z : Z) : list byte := pad_left Byte.x20 w (dec z).

(** [snprintf(buf, size, ...)]: what the buffer holds as a C string. *)
Definition snprintf (size : Z) (s : list byte) : list byte := ztake (size - 1) s.

(** Reading digits back. *)
Definition digits_value (l : list Z) : Z := foldl (fun acc d => 10 * acc + d) 0 l.
Definition dec_value (s : list byte) : Z := digits_value (char_digit <$> s).
Definition is_digit (c : byte) : bool := (48 <=? byte.unsigned c) && (byte.unsigned c <=? 57).

Lemma digits_value_snoc l d : digits_value (l ++ [d]) = 10 * digits_value l + d.
Proof. unfold digits_value. by rewrite foldl_app. Qed.

Lemma digits_range fuel n : 0 <= n -> Forall (fun d => 0 <= d < 10) (digits fuel n).
Proof.
  revert n. induction fuel as [|f IH]; intros n Hn; simpl; [constructor|].
  destruct (Z.ltb_spec n 10); [repeat constructor; lia|].
  apply Forall_app. split; [apply IH, Z.div_pos; lia|].
  repeat constructor; apply Z.mod_pos_bound; lia.
Qed.

Lemma digits_value_ok fuel n :
  0 <= n < 10 ^ Z.of_nat fuel -> digits_value (digits fuel n) = n.
Proof.
  revert n. induction fuel as [|f IH]; intros n Hn; simpl digits.
  { change (10 ^ Z.of_nat 0) with 1 in Hn. unfold digits_value. simpl. lia. }
  rewrite Nat2Z.inj_succ, Z.pow_succ_r in Hn by lia.
  destruct (Z.ltb_spec n 10); [unfold digits_value; simpl; lia|].
  rewrite digits_value_snoc, IH; [pose proof (Z.div_mod n 10); lia|].
  split; [apply Z.div_pos; lia|]. apply Z.div_lt_upper_bound; lia.
Qed.

Lemma ndigits_enough n : 0 <= n -> n < 10 ^ Z.of_nat (ndigits n).
Proof.
  intros Hn. unfold ndigits. pose proof (Z.log2_nonneg n).
  rewrite Nat2Z.inj_succ, Z2Nat.id by lia.
  destruct (Z.eq_dec n 0) as [->|]; [simpl; lia|].
  pose proof (Z.log2_spec n ltac:(lia)) as [_ H2].
  eapply Z.lt_le_trans; [exact H2|]. apply Z.pow_le_mono_l. lia.
Qed.

Lemma char_digit_char d : 0 <= d < 10 -> char_digit (digit_char d) = d.
Proof.
  intros Hd. unfold char_digit, digit_char. rewrite byte.unsigned_of_Z.
  unfold byte.wrap. rewrite Z.mod_small; lia.
Qed.

Lemma map_char_digit l :
  Forall (fun d => 0 <= d < 10) l -> char_digit <$> (digit_char <$> l) = l.
Proof.
  intros H. rewrite <-list_fmap_compose. induction H as [|d l Hd _ IH]; csimpl; [done|].
  rewrite IH. f_equal. by apply char_digit_char.
Qed.

(** Reading back what was printed gives the number. *)
Lemma dec_value_dec_nat n : 0 <= n -> dec_value (dec_nat n) = n.
Proof.
  intros Hn. unfold dec_value, dec_nat. rewrite map_char_digit by by apply digits_range.
  apply digits_value_ok. split; [done|]. by apply ndigits_enough.
Qed.

Lemma is_digit_char d : 0 <= d < 10 -> is_digit (digit_char d) = true.
Proof.
  intros Hd. unfold is_digit, digit_char. rewrite byte.unsigned_of_Z.
  unfold byte.wrap. rewrite Z.mod_small; lia.
Qed.

Lemma dec_nat_digits n : 0 <= n -> Forall (fun c => is_digit c = true) (dec_nat n).
Proof.
  intros Hn. unfold dec_nat. apply Forall_fmap.
  eapply Forall_impl; [by apply (digits_range (ndigits n))|]. intros d Hd. by apply is_digit_char.
Qed.

Lemma digits_length fuel n k :
  (0 < k)%nat -> 0 <= n < 10 ^ Z.of_nat k -> (length (digits fuel n) <= k)%nat.
Proof.
  revert n k. induction fuel as [|f IH]; intros n k Hk Hn; simpl; [lia|].
  destruct (Z.ltb_spec n 10); [simpl; lia|].
  destruct k as [|[|k]]; [lia|change (10 ^ Z.of_nat 1) with 10 in Hn; lia|].
  rewrite length_app. simpl.
  rewrite Nat2Z.inj_succ, Z.pow_succ_r in Hn by lia.
  assert (length (digits f (n / 10)) <= S k)%nat; [|lia].
  apply IH; [lia|]. split; [apply Z.div_pos; lia|]. apply Z.div_lt_upper_bound; lia.
Qed.

(** A number below [10 ^ k] prints in at most [k] characters. *)
Lemma dec_nat_length n k : 0 < k -> 0 <= n < 10 ^ k -> zlen (dec_nat n) <= k.
Proof.
  intros Hk Hn. unfold dec_nat, zlen. rewrite length_fmap.
  pose proof (digits_length (ndigits n) n (Z.to_nat k)) as H.
  rewrite Z2Nat.id in H by lia. lia.
Qed.

Lemma digits_nonempty fuel n : (0 < fuel)%nat -> digits fuel n <> [].
Proof.
  destruct fuel; simpl; [lia|]. destruct (n <? 10); [done|]. by destruct (digits _ _).
Qed.

Lemma dec_nat_nonempty n : 0 < zlen (dec_nat n).
Proof.
  unfold dec_nat, zlen. rewrite length_fmap.
  pose proof (digits_nonempty (ndigits n) n ltac:(unfold ndigits; lia)).
  destruct (digits _ _); simpl; [done|lia].
Qed.

Lemma zlen_pad_left c w s : zlen (pad_left c w s) = Z.max w (zlen s).
Proof.
  unfold pad_left. rewrite zlen_app. unfold zlen. rewrite length_replicate. lia.
Qed.

(** Zero padding gives exactly the field width when the number fits it. *)
Lemma zlen_dec0 w n : 0 < w -> 0 <= n < 10 ^ w -> zlen (dec0 w n) = w.
Proof.
  intros Hw Hn. unfold dec0. destruct (Z.ltb_spec n 0); [lia|].
  rewrite zlen_pad_left. pose proof (dec_nat_length n w Hw Hn). lia.
Qed.
