(* ===== verification/Buffer.v ===== *)
(** * The byte buffer ([src/net/Buffer.h], [src/net/Buffer.cpp])

    A growable byte array cut in three by two indices:
    prependable | readable | writable.  Pointers into the array are offsets
    from its first byte; [size_t] arithmetic wraps at 64 bits. *)

From S2P Require Import Prelude CxxStd Endian.

Module Buffer.

Definition kCheapPrepend : Z := 8.
Definition kInitialSize : Z := 1024.
Definition kCRLF : list byte := [Byte.x0d; Byte.x0a].

(** [std::vector<char>::max_size()]: [PTRDIFF_MAX]. *)
Definition max_size : Z := 2 ^ 63 - 1.

Record Buffer := mkBuffer {
  buffer_ : list byte;
  readerIndex_ : Z;
  writerIndex_ : Z
}.

(** [std::vector<char>::resize(n)], new elements are zero. *)
Definition vec_resize (n : Z) (v : list byte) : outcome (list byte) :=
  if n >? max_size then Err LengthError
  else Ok (ztake n v ++ replicate (Z.to_nat (n - zlen v)) Byte.x00).

Definition readableBytes (b : Buffer) : Z := u64 (writerIndex_ b - readerIndex_ b).
Definition writableBytes (b : Buffer) : Z := u64 (zlen (buffer_ b) - writerIndex_ b).
Definition prependableBytes (b : Buffer) : Z := readerIndex_ b.
Definition peek (b : Buffer) : Z := readerIndex_ b.
Definition beginWrite (b : Buffer) : Z := writerIndex_ b.

(** The bytes between two pointers into the buffer. *)
Definition range (b : Buffer) (first last : Z) : list byte := zslice first last (buffer_ b).

Definition new_buffer (initialSize : Z) : outcome Buffer :=
  v ← vec_resize (u64 (kCheapPrepend + initialSize)) [];
  let b := mkBuffer v kCheapPrepend kCheapPrepend in
  assert_ (readableBytes b =? 0);;
  assert_ (writableBytes b =? initialSize);;
  assert_ (prependableBytes b =? kCheapPrepend);;
  Ok b.

Definition swap (b rhs : Buffer) : Buffer * Buffer := (rhs, b).

Definition findCRLF (b : Buffer) : option Z :=
  let crlf := peek b + std_search kCRLF (range b (peek b) (beginWrite b)) in
  if crlf =? beginWrite b then None else Some crlf.

Definition findCRLF_from (b : Buffer) (start : Z) : outcome (option Z) :=
  assert_ (peek b <=? start);;
  assert_ (start <=? beginWrite b);;
  let crlf := start + std_search kCRLF (range b start (beginWrite b)) in
  Ok (if crlf =? beginWrite b then None else Some crlf).

Definition findEOL (b : Buffer) : option Z :=
  Z.add (peek b) <$> memchr Byte.x0a (range b (peek b) (peek b + readableBytes b)).

Definition findEOL_from (b : Buffer) (start : Z) : outcome (option Z) :=
  assert_ (peek b <=? start);;
  assert_ (start <=? beginWrite b);;
  Ok (Z.add start <$> memchr Byte.x0a (range b start (beginWrite b))).

Definition retrieveAll (b : Buffer) : Buffer :=
  mkBuffer (buffer_ b) kCheapPrepend kCheapPrepend.

Definition retrieve (len : Z) (b : Buffer) : outcome Buffer :=
  assert_ (len <=? readableBytes b);;
  if len <? readableBytes b
  then Ok (mkBuffer (buffer_ b) (u64 (readerIndex_ b + len)) (writerIndex_ b))
  else Ok (retrieveAll b).

Definition retrieveUntil (end_ : Z) (b : Buffer) : outcome Buffer :=
  assert_ (peek b <=? end_);;
  assert_ (end_ <=? beginWrite b);;
  retrieve (end_ - peek b) b.

Definition retrieveInt64 (b : Buffer) : outcome Buffer := retrieve 8 b.
Definition retrieveInt32 (b : Buffer) : outcome Buffer := retrieve 4 b.
Definition retrieveInt16 (b : Buffer) : outcome Buffer := retrieve 2 b.
Definition retrieveInt8 (b : Buffer) : outcome Buffer := retrieve 1 b.

Definition retrieveAsString (len : Z) (b : Buffer) : outcome (Buffer * list byte) :=
  assert_ (len <=? readableBytes b);;
  let result := range b (peek b) (peek b + len) in
  b' ← retrieve len b;
  Ok (b', result).

Definition retrieveAllAsString (b : Buffer) : outcome (Buffer * list byte) :=
  retrieveAsString (readableBytes b) b.

(** [StringPiece(peek(), static_cast<int>(readableBytes()))]: the bytes the
    pointer can reach and the length, a signed 32-bit integer. *)
Definition toStringPiece (b : Buffer) : list byte * Z :=
  (zdrop (peek b) (buffer_ b), i32 (readableBytes b)).

Definition hasWritten (len : Z) (b : Buffer) : outcome Buffer :=
  assert_ (len <=? writableBytes b);;
  Ok (mkBuffer (buffer_ b) (readerIndex_ b) (u64 (writerIndex_ b + len))).

Definition unwrite (len : Z) (b : Buffer) : outcome Buffer :=
  assert_ (len <=? readableBytes b);;
  Ok (mkBuffer (buffer_ b) (readerIndex_ b) (u64 (writerIndex_ b - len))).

Definition makeSpace (len : Z) (b : Buffer) : outcome Buffer :=
  if u64 (writableBytes b + prependableBytes b) <? u64 (len + kCheapPrepend)
  then
    v ← vec_resize (u64 (writerIndex_ b + len)) (buffer_ b);
    Ok (mkBuffer v (readerIndex_ b) (writerIndex_ b))
  else
    assert_ (kCheapPrepend <? readerIndex_ b);;
    let readable := readableBytes b in
    v ← zstore kCheapPrepend (range b (readerIndex_ b) (writerIndex_ b)) (buffer_ b);
    let b' := mkBuffer v kCheapPrepend (u64 (kCheapPrepend + readable)) in
    assert_ (readable =? readableBytes b');;
    Ok b'.

Definition ensureWritableBytes (len : Z) (b : Buffer) : outcome Buffer :=
  b' ← (if writableBytes b <? len then makeSpace len b else Ok b);
  assert_ (writableBytes b' >=? len);;
  Ok b'.

(** Bytes stored through the pointer [beginWrite()]. *)
Definition fill (s : list byte) (b : Buffer) : outcome Buffer :=
  v ← zstore (beginWrite b) s (buffer_ b);
  Ok (mkBuffer v (readerIndex_ b) (writerIndex_ b)).

(** [append(data, len)]: [data] are the bytes readable at the pointer. *)
Definition append (data : list byte) (len : Z) (b : Buffer) : outcome Buffer :=
  b1 ← ensureWritableBytes len b;
  in_bounds (len <=? zlen data);;
  b2 ← fill (ztake len data) b1;
  hasWritten len b2.

(** [append(const StringPiece&)]: [int] size converted to [size_t]. *)
Definition append_piece (str : list byte * Z) (b : Buffer) : outcome Buffer :=
  append (str.1) (u64 (str.2)) b.

(** A piece made from a [std::string] or a literal. *)
Definition append_string (s : list byte) (b : Buffer) : outcome Buffer :=
  append_piece (s, i32 (zlen s)) b.

Definition appendInt64 (x : Z) (b : Buffer) : outcome Buffer :=
  let be64 := i64 (hostToNetwork64 (u64 x)) in append (le_split 8 be64) 8 b.
Definition appendInt32 (x : Z) (b : Buffer) : outcome Buffer :=
  let be32 := i32 (hostToNetwork32 (u32 x)) in append (le_split 4 be32) 4 b.
Definition appendInt16 (x : Z) (b : Buffer) : outcome Buffer :=
  let be16 := i16 (hostToNetwork16 (u16 x)) in append (le_split 2 be16) 2 b.
Definition appendInt8 (x : Z) (b : Buffer) : outcome Buffer :=
  append (le_split 1 x) 1 b.

Definition peekInt64 (b : Buffer) : outcome Z :=
  assert_ (readableBytes b >=? 8);;
  let be64 := i64 (le_combine (range b (peek b) (peek b + 8))) in
  Ok (i64 (networkToHost64 (u64 be64))).
Definition peekInt32 (b : Buffer) : outcome Z :=
  assert_ (readableBytes b >=? 4);;
  let be32 := i32 (le_combine (range b (peek b) (peek b + 4))) in
  Ok (i32 (networkToHost32 (u32 be32))).
Definition peekInt16 (b : Buffer) : outcome Z :=
  assert_ (readableBytes b >=? 2);;
  let be16 := i16 (le_combine (range b (peek b) (peek b + 2))) in
  Ok (i16 (networkToHost16 (u16 be16))).
Definition peekInt8 (b : Buffer) : outcome Z :=
  assert_ (readableBytes b >=? 1);;
  Ok (i8 (le_combine (range b (peek b) (peek b + 1)))).

Definition readInt64 (b : Buffer) : outcome (Buffer * Z) :=
  result ← peekInt64 b; b' ← retrieveInt64 b; Ok (b', result).
Definition readInt32 (b : Buffer) : outcome (Buffer * Z) :=
  result ← peekInt32 b; b' ← retrieveInt32 b; Ok (b', result).
Definition readInt16 (b : Buffer) : outcome (Buffer * Z) :=
  result ← peekInt16 b; b' ← retrieveInt16 b; Ok (b', result).
Definition readInt8 (b : Buffer) : outcome (Buffer * Z) :=
  result ← peekInt8 b; b' ← retrieveInt8 b; Ok (b', result).

Definition prepend (data : list byte) (len : Z) (b : Buffer) : outcome Buffer :=
  assert_ (len <=? prependableBytes b);;
  in_bounds (len <=? zlen data);;
  let r := u64 (readerIndex_ b - len) in
  v ← zstore r (ztake len data) (buffer_ b);
  Ok (mkBuffer v r (writerIndex_ b)).

Definition prependInt64 (x : Z) (b : Buffer) : outcome Buffer :=
  let be64 := i64 (hostToNetwork64 (u64 x)) in prepend (le_split 8 be64) 8 b.
Definition prependInt32 (x : Z) (b : Buffer) : outcome Buffer :=
  let be32 := i32 (hostToNetwork32 (u32 x)) in prepend (le_split 4 be32) 4 b.
Definition prependInt16 (x : Z) (b : Buffer) : outcome Buffer :=
  let be16 := i16 (hostToNetwork16 (u16 x)) in prepend (le_split 2 be16) 2 b.
Definition prependInt8 (x : Z) (b : Buffer) : outcome Buffer :=
  prepend (le_split 1 x) 1 b.

Definition shrink (reserve : Z) (b : Buffer) : outcome Buffer :=
  other ← new_buffer kInitialSize;
  other ← ensureWritableBytes (u64 (readableBytes b + reserve)) other;
  other ← append_piece (toStringPiece b) other;
  Ok (swap b other).1.

(** What [readv(2)] answers when offered buffers of the given lengths: an
    [errno], or the bytes received, to be laid out over the buffers in turn. *)
Inductive readv_result :=
  | ReadvError (errno : Z)
  | ReadvData (d : list byte).

Definition extrabuf_size : Z := 65536.

(** Returns the buffer, the value of [readFd] and [*savedErrno] if it is set. *)
Definition readFd (readv : list Z -> readv_result) (b : Buffer) :
    outcome (Buffer * Z * option Z) :=
  let writable := writableBytes b in
  let vec := if writable <? extrabuf_size then [writable; extrabuf_size] else [writable] in
  match readv vec with
  | ReadvError errno => Ok (b, -1, Some errno)
  | ReadvData d =>
      let n := zlen d in
      let '(d0, extrabuf) := (ztake writable d, zdrop writable d) in
      v ← zstore (writerIndex_ b) d0 (buffer_ b);
      let b1 := mkBuffer v (readerIndex_ b) (writerIndex_ b) in
      if n <=? writable
      then Ok (mkBuffer v (readerIndex_ b) (u64 (writerIndex_ b + n)), n, None)
      else
        b2 ← append extrabuf (u64 (n - writable))
               (mkBuffer v (readerIndex_ b) (zlen v));
        Ok (b2, n, None)
  end.

(** ** Invariant and abstraction *)

Definition wf (b : Buffer) : Prop :=
  kCheapPrepend <= zlen (buffer_ b) /\ zlen (buffer_ b) <= max_size /\
  0 <= readerIndex_ b <= writerIndex_ b /\ writerIndex_ b <= zlen (buffer_ b).

(** The readable bytes: what a [Buffer] stands for. *)
Definition content (b : Buffer) : list byte := zslice (readerIndex_ b) (writerIndex_ b) (buffer_ b).

Ltac wf_unfold :=
  unfold wf, readableBytes, writableBytes, prependableBytes, peek, beginWrite, range,
    kCheapPrepend, kInitialSize, max_size in *; simpl in *.

Lemma readable_wf b : wf b -> readableBytes b = zlen (content b).
Proof.
  intros (? & ? & ? & ?). unfold content, readableBytes, max_size in *.
  rewrite zlen_slice by lia. cint; lia.
Qed.

Lemma readable_eq b : wf b -> readableBytes b = writerIndex_ b - readerIndex_ b.
Proof. intros H. wf_unfold. cint; lia. Qed.

Lemma writable_eq b : wf b -> writableBytes b = zlen (buffer_ b) - writerIndex_ b.
Proof. intros H. wf_unfold. cint; lia. Qed.

Lemma content_len b : wf b -> zlen (content b) = writerIndex_ b - readerIndex_ b.
Proof. intros (? & ? & ? & ?). unfold content. by rewrite zlen_slice by lia. Qed.

(** [b'] is a valid state with contents [c] that grew by at most [extra]. *)
Definition becomes (b b' : Buffer) (c : list byte) (extra : Z) : Prop :=
  wf b' /\ content b' = c /\ zlen (buffer_ b') <= zlen (buffer_ b) + extra.

Lemma becomes_refl b extra : wf b -> 0 <= extra -> becomes b b (content b) extra.
Proof. intros. unfold becomes. split_and!; [done..|lia]. Qed.

Lemma vec_resize_grow n v :
  zlen v <= n <= max_size ->
  vec_resize n v = Ok (v ++ replicate (Z.to_nat (n - zlen v)) Byte.x00).
Proof.
  intros [Hn Hm]. unfold vec_resize.
  destruct (Z.gtb_spec n max_size); [lia|]. by rewrite ztake_all by lia.
Qed.

Lemma new_buffer_spec n :
  0 <= n <= max_size - 8 ->
  exists b, new_buffer n = Ok b /\ wf b /\ content b = [] /\
    prependableBytes b = kCheapPrepend /\ writableBytes b = n.
Proof.
  intros Hn. unfold new_buffer. unfold max_size, kCheapPrepend in *. cint.
  rewrite vec_resize_grow by (zlist; unfold max_size; lia). bind_simpl.
  set (b := mkBuffer _ _ _).
  assert (zlen (buffer_ b) = 8 + n) as Hl.
  { subst b. simpl. rewrite zlen_replicate; zlia. }
  assert (wf b) as Hb by (wf_unfold; lia).
  rewrite (readable_eq b), (writable_eq b) by done. rewrite Hl. unfold prependableBytes. simpl.
  run_checks. exists b. split_and!; [done..|].
  rewrite writable_eq by done. rewrite Hl. simpl. lia.
Qed.

(** [makeSpace] keeps the contents and the cheap prepend area, by growing the
    array or by moving the readable bytes to the front. *)
Lemma makeSpace_spec len b :
  wf b -> writableBytes b < len -> zlen (buffer_ b) + len <= max_size ->
  exists b', makeSpace len b = Ok b' /\ becomes b b' (content b) len /\
    len <= writableBytes b' /\ Z.min kCheapPrepend (readerIndex_ b) <= readerIndex_ b'.
Proof.
  intros Hb Hlen Hmax. pose proof (writable_eq b Hb) as Hw.
  pose proof (readable_eq b Hb) as Hr. pose proof Hb as (? & ? & ? & ?).
  unfold makeSpace. rewrite Hw in *. unfold prependableBytes, kCheapPrepend, max_size in *. cint.
  destruct (Z.ltb_spec (zlen (buffer_ b) - writerIndex_ b + readerIndex_ b) (len + 8)).
  - rewrite vec_resize_grow by (unfold max_size; lia). bind_simpl.
    eexists. split; [done|]. set (b' := mkBuffer _ _ _).
    assert (zlen (buffer_ b') = writerIndex_ b + len) as Hl.
    { subst b'. simpl. rewrite zlen_app, zlen_replicate; lia. }
    assert (wf b') as Hb' by (unfold wf, kCheapPrepend, max_size; rewrite Hl; simpl; lia).
    unfold becomes. split_and!; [done| |lia| |simpl; lia].
    + unfold content. simpl. rewrite <-(ztake_all (zlen (buffer_ b)) (buffer_ b)) at 2 by lia.
      unfold zslice. rewrite zdrop_app, ztake_app by lia.
      rewrite (ztake_all (zlen (buffer_ b))) by lia. rewrite zlen_drop by lia.
      replace (_ - _ - _) with (writerIndex_ b - zlen (buffer_ b)) by lia.
      unfold ztake at 2. rewrite Z2Nat.nonpos by lia. by rewrite app_nil_r.
    + rewrite writable_eq by done. rewrite Hl. simpl. lia.
  - run_checks. unfold range.
    assert (zlen (content b) = writerIndex_ b - readerIndex_ b) as Hc by by apply content_len.
    unfold content in Hc.
    rewrite zstore_Ok by lia. bind_simpl.
    set (b' := mkBuffer _ _ _).
    assert (zlen (buffer_ b') = zlen (buffer_ b)) as Hl.
    { subst b'. simpl. apply zlen_stored; lia. }
    assert (writerIndex_ b' = 8 + (writerIndex_ b - readerIndex_ b)) as Hwr.
    { subst b'. simpl. lia. }
    assert (wf b') as Hb' by (unfold wf, kCheapPrepend, max_size; rewrite Hl, Hwr; simpl; lia).
    rewrite (readable_eq b') by done. rewrite Hwr. simpl readerIndex_.
    rewrite Hr. run_checks. eexists. split; [done|].
    unfold becomes. split_and!; [done| |lia| |simpl; lia].
    + unfold content. rewrite Hwr. simpl. rewrite <-Hc. apply zslice_stored_new; lia.
    + rewrite writable_eq by done. rewrite Hl, Hwr. lia.
Qed.

Lemma ensureWritableBytes_spec len b :
  wf b -> 0 <= len -> zlen (buffer_ b) + len <= max_size ->
  exists b', ensureWritableBytes len b = Ok b' /\ becomes b b' (content b) len /\
    len <= writableBytes b' /\ Z.min kCheapPrepend (readerIndex_ b) <= readerIndex_ b'.
Proof.
  intros Hb Hlen Hmax. unfold ensureWritableBytes.
  destruct (Z.ltb_spec (writableBytes b) len) as [Hlt|Hge].
  - destruct (makeSpace_spec len b) as (b' & -> & H & Hw & Hp); [done..|].
    bind_simpl. run_checks. by exists b'.
  - bind_simpl. run_checks. exists b.
    split_and!; [done|by apply becomes_refl|done|lia].
Qed.

(** How far the array can grow, and that the contents only move forward. *)
Lemma ensureWritableBytes_size len b b' :
  wf b -> 0 <= len -> zlen (buffer_ b) + len <= max_size -> ensureWritableBytes len b = Ok b' ->
  zlen (buffer_ b') <= Z.max (zlen (buffer_ b)) (writerIndex_ b + len) /\ writerIndex_ b' <= writerIndex_ b.
Proof.
  intros Hb Hlen Hmax. pose proof (readable_eq b Hb) as Hr. pose proof Hb as (? & ? & ? & ?).
  unfold ensureWritableBytes, makeSpace, vec_resize. unfold max_size, kCheapPrepend in *.
  intros E. apply bind_Ok in E as (b1 & E1 & E). outcome_inv E.
  destruct (Z.ltb_spec (writableBytes b) len); [|by simplify_eq; lia].
  rewrite (u64_small (len + 8)), (u64_small (writerIndex_ b + len)) in E1 by lia.
  destruct (u64 (writableBytes b + prependableBytes b) <? len + 8).
  - destruct (Z.gtb_spec (writerIndex_ b + len) (2 ^ 63 - 1)); [lia|]. injection E1 as <-. cbn [buffer_ writerIndex_].
    rewrite zlen_app. rewrite writable_eq in * by done.
    rewrite ztake_all, zlen_replicate by lia. lia.
  - pose proof (content_len b Hb) as Hc. unfold content in Hc. unfold range in E1.
    apply bind_Ok in E1 as (? & H8%assert_Ok & E1). rewrite zstore_Ok in E1 by lia. cbn in E1. outcome_inv E1.
    cbn [buffer_ writerIndex_]. rewrite Hr. cint. rewrite zlen_stored by lia. lia.
Qed.

(** Bytes stored in the writable part and then accounted for are appended. *)
Lemma fill_spec s b :
  wf b -> zlen s <= writableBytes b ->
  exists b1 b2, fill s b = Ok b1 /\ writableBytes b1 = writableBytes b /\
    hasWritten (zlen s) b1 = Ok b2 /\ becomes b b2 (content b ++ s) 0 /\
    zlen (buffer_ b2) = zlen (buffer_ b) /\
    readerIndex_ b2 = readerIndex_ b /\ writerIndex_ b2 = writerIndex_ b + zlen s.
Proof.
  intros Hb Hs. pose proof Hb as (? & ? & ? & ?). pose proof (zlen_nonneg s).
  rewrite writable_eq in Hs by done. unfold fill, beginWrite. rewrite zstore_Ok by lia. bind_simpl.
  set (v := ztake (writerIndex_ b) _ ++ _).
  assert (zlen v = zlen (buffer_ b)) as Hv by (apply zlen_stored; lia).
  set (b1 := mkBuffer v _ _). assert (wf b1) as Hb1 by (unfold wf; simpl; by rewrite Hv).
  assert (writableBytes b1 = zlen (buffer_ b) - writerIndex_ b) as Hw.
  { rewrite writable_eq by done. simpl. by rewrite Hv. }
  exists b1, (mkBuffer v (readerIndex_ b) (writerIndex_ b + zlen s)).
  split; [done|]. split; [by rewrite (writable_eq b)|].
  unfold hasWritten. rewrite Hw. run_checks. unfold max_size in *. simpl. cint.
  split; [done|]. unfold becomes, wf, max_size. simpl. rewrite Hv. split_and!; [lia..| |lia|done|done|done].
  unfold content. simpl. rewrite (zslice_split _ (writerIndex_ b)) by lia. f_equal; subst v.
  - apply zslice_stored_below; lia.
  - apply zslice_stored_new; lia.
Qed.

Lemma append_spec data len b :
  wf b -> 0 <= len <= zlen data -> zlen (buffer_ b) + len <= max_size ->
  exists b', append data len b = Ok b' /\
    becomes b b' (content b ++ ztake len data) len /\
    Z.min kCheapPrepend (readerIndex_ b) <= readerIndex_ b'.
Proof.
  intros Hb Hlen Hmax. unfold append.
  destruct (ensureWritableBytes_spec len b) as (b1 & -> & (Hb1 & Hc & Hs) & Hw & Hp); [lia||done..|].
  bind_simpl. run_checks.
  assert (zlen (ztake len data) = len) as Hl by (apply zlen_take; lia).
  destruct (fill_spec (ztake len data) b1) as (b2 & b3 & -> & _ & H3 & (Hb3 & Hc3 & _) & Hz & Hr & _);
    [done|lia|]. rewrite Hl in H3. bind_simpl. exists b3.
  split; [done|]. rewrite Hc in Hc3. unfold becomes. split_and!; [done|done|lia|lia].
Qed.

(** Appending a [std::string] or a literal of less than 2 GiB. *)
Lemma append_string_spec s b :
  wf b -> zlen s < 2 ^ 31 -> zlen (buffer_ b) + zlen s <= max_size ->
  exists b', append_string s b = Ok b' /\ becomes b b' (content b ++ s) (zlen s) /\
    Z.min kCheapPrepend (readerIndex_ b) <= readerIndex_ b'.
Proof.
  intros Hb Hs Hmax. unfold append_string, append_piece. simpl. zlen_pos. cint.
  destruct (append_spec s (zlen s) b) as (b' & -> & Hc & Hp); [done|lia..|].
  rewrite ztake_all in Hc by lia. by exists b'.
Qed.

Lemma retrieve_spec len b :
  wf b -> 0 <= len <= zlen (content b) ->
  exists b', retrieve len b = Ok b' /\ becomes b b' (zdrop len (content b)) 0.
Proof.
  intros Hb Hlen. pose proof (content_len b Hb) as Hc. pose proof Hb as (? & ? & ? & ?).
  unfold retrieve. rewrite readable_wf by done. run_checks.
  destruct (Z.ltb_spec len (zlen (content b))).
  - unfold max_size in *. cint. eexists. split; [done|]. unfold becomes, wf, max_size. simpl.
    split_and!; [lia..| |lia]. unfold content. simpl. rewrite zslice_drop; [done|lia..].
  - eexists. split; [done|]. unfold becomes, wf. simpl.
    unfold kCheapPrepend in *. split_and!; [lia..| |lia].
    rewrite zdrop_all by lia. apply zslice_empty.
Qed.

Lemma retrieveAll_spec b : wf b -> becomes b (retrieveAll b) [] 0.
Proof.
  intros (? & ? & ? & ?). unfold becomes, wf. simpl. unfold kCheapPrepend in *.
  split_and!; [lia..|apply zslice_empty|lia].
Qed.

Lemma retrieveUntil_spec end_ b :
  wf b -> peek b <= end_ <= beginWrite b ->
  exists b', retrieveUntil end_ b = Ok b' /\ becomes b b' (zdrop (end_ - peek b) (content b)) 0.
Proof.
  intros Hb Hend. unfold retrieveUntil. run_checks. apply retrieve_spec; [done|].
  rewrite content_len by done. unfold peek, beginWrite in *. lia.
Qed.

Lemma content_take len b :
  wf b -> 0 <= len <= zlen (content b) ->
  range b (peek b) (peek b + len) = ztake len (content b).
Proof.
  intros Hb Hlen. rewrite content_len in Hlen by done. destruct Hb as (? & ? & ? & ?).
  unfold range, content, peek. rewrite zslice_take; [done|lia..].
Qed.

Lemma retrieveAsString_spec len b :
  wf b -> 0 <= len <= zlen (content b) ->
  exists b', retrieveAsString len b = Ok (b', ztake len (content b)) /\
    becomes b b' (zdrop len (content b)) 0.
Proof.
  intros Hb Hlen. unfold retrieveAsString. rewrite readable_wf by done. run_checks.
  rewrite content_take by done.
  destruct (retrieve_spec len b) as (b' & -> & H); [done..|]. by exists b'.
Qed.

Lemma unwrite_spec len b :
  wf b -> 0 <= len <= zlen (content b) ->
  exists b', unwrite len b = Ok b' /\ becomes b b' (ztake (zlen (content b) - len) (content b)) 0.
Proof.
  intros Hb Hlen. pose proof (content_len b Hb) as Hc. pose proof Hb as (? & ? & ? & ?).
  unfold unwrite. rewrite readable_wf by done. run_checks. unfold max_size in *. cint.
  eexists. split; [done|]. unfold becomes, wf, max_size. simpl.
  split_and!; [lia..| |lia]. rewrite Hc at 1. unfold content. simpl.
  rewrite zslice_take by lia. f_equal. lia.
Qed.

(** [prepend] writes in front of the readable bytes. *)
Lemma prepend_spec data len b :
  wf b -> 0 <= len <= zlen data -> len <= prependableBytes b ->
  exists b', prepend data len b = Ok b' /\ becomes b b' (ztake len data ++ content b) 0 /\
    prependableBytes b' = prependableBytes b - len.
Proof.
  intros Hb Hlen Hp. pose proof Hb as (? & ? & ? & ?). unfold prependableBytes, max_size in *.
  unfold prepend, prependableBytes. run_checks. cint.
  assert (zlen (ztake len data) = len) as Hl by (apply zlen_take; lia).
  rewrite zstore_Ok by lia. bind_simpl. eexists. split; [done|].
  unfold becomes, wf, max_size. simpl. rewrite zlen_stored by lia.
  split_and!; [lia..| |lia|done]. unfold content. simpl.
  rewrite (zslice_split _ (readerIndex_ b)) by lia. f_equal.
  - replace (zslice _ (readerIndex_ b)) with
      (@zslice byte (readerIndex_ b - len) (readerIndex_ b - len + zlen (ztake len data)))
      by (f_equal; lia).
    apply zslice_stored_new; lia.
  - apply zslice_stored_above; lia.
Qed.

(** [shrink] drops the spare space and keeps the contents. *)
Lemma shrink_spec reserve b :
  wf b -> 0 <= reserve -> zlen (content b) < 2 ^ 31 ->
  1032 + 2 * zlen (content b) + reserve <= max_size ->
  exists b', shrink reserve b = Ok b' /\ wf b' /\ content b' = content b /\
    zlen (buffer_ b') <= 1032 + 2 * zlen (content b) + reserve.
Proof.
  intros Hb Hr Hc Hmax. unfold shrink, swap. cbn [fst]. zlen_pos. pose proof Hb as (? & ? & ? & ?).
  destruct (new_buffer_spec kInitialSize) as (o & -> & Ho & Hoc & Hop & How);
    [unfold kInitialSize, max_size; lia|]. bind_simpl.
  rewrite writable_eq in How by done.
  assert (zlen (buffer_ o) = 1032) as Hol.
  { pose proof (content_len o Ho) as Ho'. rewrite Hoc in Ho'. unfold prependableBytes in Hop.
    unfold kCheapPrepend, kInitialSize in *. change (zlen (@nil byte)) with 0 in Ho'. lia. }
  rewrite readable_wf by done. unfold max_size in *. cint.
  destruct (ensureWritableBytes_spec (zlen (content b) + reserve) o)
    as (o1 & -> & (Ho1 & Hoc1 & Hs1) & _ & _); [done|unfold max_size; lia..|]. bind_simpl.
  unfold append_piece, toStringPiece. simpl fst. simpl snd.
  rewrite readable_wf by done. cint.
  destruct (append_spec (zdrop (peek b) (buffer_ b)) (zlen (content b)) o1)
    as (o2 & -> & (Ho2 & Hoc2 & Hs2) & _).
  { done. }
  { rewrite content_len by done. unfold peek. rewrite zlen_drop by lia. lia. }
  { unfold max_size. lia. }
  bind_simpl. exists o2. split_and!; [done|done| |lia].
  rewrite Hoc2, Hoc1, Hoc. simpl. rewrite content_len by done. done.
Qed.

(** ** Integers in network order *)

Inductive int_width := W8 | W16 | W32 | W64.
Definition nbytes (w : int_width) : nat :=
  match w with W8 => 1 | W16 => 2 | W32 => 4 | W64 => 8 end.
Definition nbits (w : int_width) : Z := Z.of_nat (nbytes w) * 8.

Definition appendInt (w : int_width) : Z -> Buffer -> outcome Buffer :=
  match w with W8 => appendInt8 | W16 => appendInt16 | W32 => appendInt32 | W64 => appendInt64 end.
Definition prependInt (w : int_width) : Z -> Buffer -> outcome Buffer :=
  match w with W8 => prependInt8 | W16 => prependInt16 | W32 => prependInt32 | W64 => prependInt64 end.
Definition peekInt (w : int_width) : Buffer -> outcome Z :=
  match w with W8 => peekInt8 | W16 => peekInt16 | W32 => peekInt32 | W64 => peekInt64 end.
Definition readInt (w : int_width) : Buffer -> outcome (Buffer * Z) :=
  match w with W8 => readInt8 | W16 => readInt16 | W32 => readInt32 | W64 => readInt64 end.

(** The signed value of big-endian bytes. *)
Definition be_value (w : int_width) (l : list byte) : Z := wraps (nbits w) (le_combine (reverse l)).

Lemma be_value_be_bytes w x :
  - 2 ^ (nbits w - 1) <= x < 2 ^ (nbits w - 1) -> be_value w (be_bytes (nbytes w) x) = x.
Proof.
  intros Hx. unfold be_value, be_bytes. rewrite reverse_involutive, le_combine_split.
  fold (nbits w). fold (wrapu (nbits w) x).
  rewrite wraps_wrapu by (destruct w; done). apply wraps_small; [done|by destruct w].
Qed.

Lemma wire_bytes n w x :
  Z.of_nat n * 8 = w -> 0 < w -> le_split n (wraps w (bswap n (wrapu w x))) = be_bytes n x.
Proof.
  intros Hn Hw. rewrite le_split_wraps by done. rewrite bswap_wrapu by done.
  apply le_split_bswap.
Qed.

Lemma wire_value n w l :
  Z.of_nat n * 8 = w -> 0 < w -> length l = n ->
  wraps w (bswap n (wrapu w (wraps w (le_combine l)))) = wraps w (le_combine (reverse l)).
Proof.
  intros Hn Hw Hl. rewrite wrapu_wraps, bswap_wrapu by done. unfold bswap.
  by rewrite split_le_combine'.
Qed.

Lemma appendInt_spec w x b :
  wf b -> zlen (buffer_ b) + 8 <= max_size ->
  exists b', appendInt w x b = Ok b' /\
    becomes b b' (content b ++ be_bytes (nbytes w) x) 8 /\
    Z.min kCheapPrepend (readerIndex_ b) <= readerIndex_ b'.
Proof.
  intros Hb Hmax.
  assert (forall d, zlen d = Z.of_nat (nbytes w) -> exists b',
    append d (Z.of_nat (nbytes w)) b = Ok b' /\ becomes b b' (content b ++ d) 8 /\
    Z.min kCheapPrepend (readerIndex_ b) <= readerIndex_ b') as H.
  { intros d Hd. destruct (append_spec d (Z.of_nat (nbytes w)) b) as (b' & -> & Hc & Hp);
      [done|lia|destruct w; simpl; lia|].
    rewrite ztake_all in Hc by lia. exists b'. split_and!; [done| |done].
    destruct Hc as (? & ? & ?). split_and!; [done..|]. destruct w; simpl in *; lia. }
  specialize (H (be_bytes (nbytes w) x) (zlen_be_bytes _ _)).
  destruct w; simpl appendInt; unfold appendInt8, appendInt16, appendInt32, appendInt64,
    hostToNetwork16, hostToNetwork32, hostToNetwork64; rewrite ?wire_bytes by done; exact H.
Qed.

Lemma prependInt_spec w x b :
  wf b -> Z.of_nat (nbytes w) <= prependableBytes b ->
  exists b', prependInt w x b = Ok b' /\ becomes b b' (be_bytes (nbytes w) x ++ content b) 0 /\
    prependableBytes b' = prependableBytes b - Z.of_nat (nbytes w).
Proof.
  intros Hb Hp.
  destruct (prepend_spec (be_bytes (nbytes w) x) (Z.of_nat (nbytes w)) b) as (b' & H & Hc & Hp');
    [done|rewrite zlen_be_bytes; lia|done|].
  rewrite ztake_all in Hc by (rewrite zlen_be_bytes; lia).
  exists b'. split_and!; [|done..]. revert H.
  destruct w; simpl prependInt; unfold prependInt8, prependInt16, prependInt32, prependInt64,
    hostToNetwork16, hostToNetwork32, hostToNetwork64; rewrite ?wire_bytes by done; done.
Qed.

Lemma peekInt_spec w b :
  wf b -> Z.of_nat (nbytes w) <= zlen (content b) ->
  peekInt w b = Ok (be_value w (ztake (Z.of_nat (nbytes w)) (content b))).
Proof.
  intros Hb Hn.
  assert (length (ztake (Z.of_nat (nbytes w)) (content b)) = nbytes w) as Hl.
  { apply Nat2Z.inj. fold (zlen (ztake (Z.of_nat (nbytes w)) (content b))).
    rewrite zlen_take; lia. }
  destruct w; simpl peekInt; unfold peekInt8, peekInt16, peekInt32, peekInt64,
    networkToHost16, networkToHost32, networkToHost64; simpl in Hn, Hl;
    rewrite readable_wf by done; run_checks; rewrite content_take by (done || lia).
  1: { do 2 f_equal. destruct (ztake _ _) as [|c [|]]; by simplify_eq/=. }
  all: rewrite wire_value by done; done.
Qed.

Lemma readInt_spec w b :
  wf b -> Z.of_nat (nbytes w) <= zlen (content b) ->
  exists b', readInt w b = Ok (b', be_value w (ztake (Z.of_nat (nbytes w)) (content b))) /\
    becomes b b' (zdrop (Z.of_nat (nbytes w)) (content b)) 0.
Proof.
  intros Hb Hn. pose proof (peekInt_spec w b Hb Hn) as Hp.
  destruct (retrieve_spec (Z.of_nat (nbytes w)) b) as (b' & Hr & H); [done|lia|].
  exists b'. split; [|done].
  destruct w; simpl in *; unfold readInt8, readInt16, readInt32, readInt64,
    retrieveInt8, retrieveInt16, retrieveInt32, retrieveInt64; rewrite Hp; bind_simpl;
    apply bind_Ok; exists b'; (split; [exact Hr|done]).
Qed.

(** ** Searching the readable bytes *)

Lemma findCRLF_spec b :
  wf b ->
  findCRLF b =
    let i := std_search kCRLF (content b) in
    if i =? zlen (content b) then None else Some (peek b + i).
Proof.
  intros Hb. unfold findCRLF, content, range, peek, beginWrite. cbv zeta.
  fold (content b). rewrite content_len by done.
  destruct (Z.eqb_spec (std_search kCRLF (content b)) (writerIndex_ b - readerIndex_ b));
    destruct (Z.eqb_spec (readerIndex_ b + std_search kCRLF (content b)) (writerIndex_ b));
    (done || lia).
Qed.

Lemma findCRLF_from_spec b start :
  wf b -> peek b <= start <= beginWrite b ->
  findCRLF_from b start =
    let c := zdrop (start - peek b) (content b) in
    let i := std_search kCRLF c in
    Ok (if i =? zlen c then None else Some (start + i)).
Proof.
  intros Hb Hs. unfold findCRLF_from. run_checks. unfold peek, beginWrite, range in *. cbv zeta.
  pose proof Hb as (? & ? & ? & ?). unfold content. rewrite zslice_drop by lia.
  replace (readerIndex_ b + (start - readerIndex_ b)) with start by lia.
  rewrite zlen_slice by lia.
  set (i := std_search _ _).
  destruct (Z.eqb_spec i (writerIndex_ b - start)), (Z.eqb_spec (start + i) (writerIndex_ b));
    (done || lia).
Qed.

Lemma findEOL_spec b :
  wf b -> findEOL b = Z.add (peek b) <$> memchr Byte.x0a (content b).
Proof.
  intros Hb. unfold findEOL. rewrite readable_eq by done. unfold content, range, peek.
  do 3 f_equal. lia.
Qed.

(** ** Reading from a socket *)

Definition sum_lengths (vec : list Z) : Z := foldr Z.add 0 vec.

(** [readv(2)] never delivers more bytes than it is offered room for. *)
Definition readv_fits (readv : list Z -> readv_result) : Prop :=
  forall vec d, Forall (Z.le 0) vec -> readv vec = ReadvData d -> zlen d <= sum_lengths vec.

Lemma readFd_spec readv b :
  wf b -> readv_fits readv -> zlen (buffer_ b) + extrabuf_size <= max_size ->
  let vec := if writableBytes b <? extrabuf_size
             then [writableBytes b; extrabuf_size] else [writableBytes b] in
  match readv vec with
  | ReadvError e => readFd readv b = Ok (b, -1, Some e)
  | ReadvData d => exists b', readFd readv b = Ok (b', zlen d, None) /\
                     becomes b b' (content b ++ d) extrabuf_size
  end.
Proof.
  intros Hb Hfit Hmax vec. pose proof Hb as (Hlo & Hsz & Hi & Hhi).
  pose proof (writable_eq b Hb) as Hw. unfold readFd. fold vec.
  destruct (readv vec) as [e|d] eqn:Hv; [done|].
  assert (zlen d <= writableBytes b + extrabuf_size) as Hd.
  { apply Hfit in Hv; subst vec; unfold extrabuf_size in *;
      destruct (_ <? _); simpl in *; try lia; repeat constructor; lia. }
  unfold extrabuf_size, max_size in *. zlen_pos.
  destruct (Z.leb_spec (zlen d) (writableBytes b)) as [Hle|Hgt].
  - rewrite ztake_all by lia. rewrite zstore_Ok by lia. bind_simpl. cint.
    eexists. split; [done|]. unfold becomes, wf, max_size, content. simpl.
    rewrite zlen_stored by lia. split_and!; [lia..| |lia].
    rewrite (zslice_split _ (writerIndex_ b)) by lia. f_equal.
    + apply zslice_stored_below; lia.
    + apply zslice_stored_new; lia.
  - assert (zlen (ztake (writableBytes b) d) = writableBytes b) as Hl by (apply zlen_take; lia).
    rewrite zstore_Ok by lia. bind_simpl. rewrite zlen_stored by lia. cint.
    set (v := ztake (writerIndex_ b) (buffer_ b) ++ _).
    set (b1 := mkBuffer v _ _).
    assert (zlen v = zlen (buffer_ b)) as Hlv by (apply zlen_stored; lia).
    assert (wf b1) as Hb1.
    { unfold wf, max_size. subst b1. simpl. rewrite Hlv. lia. }
    assert (content b1 = content b ++ ztake (writableBytes b) d) as Hc1.
    { unfold content. subst b1. simpl.
      rewrite (zslice_split _ (writerIndex_ b)) by lia. f_equal.
      + apply zslice_stored_below; lia.
      + replace (zlen (buffer_ b)) with (writerIndex_ b + zlen (ztake (writableBytes b) d)) by lia.
        apply zslice_stored_new; lia. }
    destruct (append_spec (zdrop (writableBytes b) d) (zlen d - writableBytes b) b1)
      as (b2 & -> & (Hb2 & Hc2 & Hs2) & _).
    { done. }
    { rewrite zlen_drop; lia. }
    { unfold max_size. subst b1. simpl. rewrite Hlv. lia. }
    bind_simpl. exists b2. split; [done|]. unfold becomes. split_and!; [done| |].
    + rewrite Hc2, Hc1, <-app_assoc. f_equal.
      rewrite (ztake_all (zlen d - writableBytes b)) by (rewrite zlen_drop; lia).
      apply ztake_zdrop.
    + subst b1. simpl in Hs2. rewrite Hlv in Hs2. lia.
Qed.

(** C22: [readFd] appends exactly the bytes the kernel delivered, whether they
    fit the free space or spill into the 64 KiB stack buffer, returns their
    number, and on an error leaves the buffer alone and reports the errno. *)
Theorem readFd_appends readv b :
  wf b -> readv_fits readv -> zlen (buffer_ b) + extrabuf_size <= max_size ->
  let vec := if writableBytes b <? extrabuf_size
             then [writableBytes b; extrabuf_size] else [writableBytes b] in
  match readv vec with
  | ReadvError e => readFd readv b = Ok (b, -1, Some e)
  | ReadvData d => exists b', readFd readv b = Ok (b', zlen d, None) /\
                     becomes b b' (content b ++ d) extrabuf_size
  end.
Proof. apply readFd_spec. Qed.

Definition sample_readv (vec : list Z) : readv_result :=
  ReadvData (ztake (sum_lengths vec) (bytes "hello world")).

Lemma sample_readv_fits : readv_fits sample_readv.
Proof.
  intros vec d Hvec [= <-].
  assert (0 <= sum_lengths vec) by (induction Hvec; simpl; lia).
  destruct (Z.le_gt_cases (zlen (bytes "hello world")) (sum_lengths vec)).
  - by rewrite ztake_all.
  - rewrite zlen_take; lia.
Qed.

Definition sample_buffer : Buffer := mkBuffer (replicate 12 Byte.x00) 8 8.

Lemma sample_buffer_wf : wf sample_buffer.
Proof. unfold wf. vm_compute. intuition congruence. Qed.

Lemma readFd_appends_witness :
  exists b', readFd sample_readv sample_buffer = Ok (b', 11, None) /\
    becomes sample_buffer b' (bytes "hello world") extrabuf_size.
Proof.
  refine (readFd_appends sample_readv sample_buffer sample_buffer_wf sample_readv_fits _).
  vm_compute. congruence.
Defined.

(** ** The abstract byte queue and the refinement *)

(** The operations a client performs, each on the value of the last one. *)
Inductive op :=
  | Append (d : list byte)
  | AppendInt (w : int_width) (x : Z)
  | Retrieve (len : Z)
  | RetrieveAll
  | RetrieveAsString (len : Z)
  | PeekInt (w : int_width)
  | ReadInt (w : int_width)
  | EnsureWritable (len : Z)
  | Unwrite (len : Z)
  | Shrink (reserve : Z)
  | FindCRLF.

Inductive out :=
  | ONone
  | OBytes (l : list byte)
  | OInt (z : Z)
  | OPos (p : option Z).  (** relative to the first readable byte *)

Definition exec (o : op) (b : Buffer) : outcome (Buffer * out) :=
  match o with
  | Append d => b' ← append d (zlen d) b; Ok (b', ONone)
  | AppendInt w x => b' ← appendInt w x b; Ok (b', ONone)
  | Retrieve len => b' ← retrieve len b; Ok (b', ONone)
  | RetrieveAll => Ok (retrieveAll b, ONone)
  | RetrieveAsString len => r ← retrieveAsString len b; Ok (r.1, OBytes r.2)
  | PeekInt w => x ← peekInt w b; Ok (b, OInt x)
  | ReadInt w => r ← readInt w b; Ok (r.1, OInt r.2)
  | EnsureWritable len => b' ← ensureWritableBytes len b; Ok (b', ONone)
  | Unwrite len => b' ← unwrite len b; Ok (b', ONone)
  | Shrink reserve => b' ← shrink reserve b; Ok (b', ONone)
  | FindCRLF => Ok (b, OPos ((fun p => p - peek b) <$> findCRLF b))
  end.

Fixpoint run (ops : list op) (b : Buffer) : outcome (Buffer * list out) :=
  match ops with
  | [] => Ok (b, [])
  | o :: ops => r ← exec o b; r' ← run ops r.1; Ok (r'.1, r.2 :: r'.2)
  end.

(** The specification: a queue of bytes.  [None]: the caller broke a
    precondition. *)
Definition q_step (o : op) (q : list byte) : option (list byte * out) :=
  let ok (n : Z) := (0 <=? n) && (n <=? zlen q) in
  match o with
  | Append d => Some (q ++ d, ONone)
  | AppendInt w x => Some (q ++ be_bytes (nbytes w) x, ONone)
  | Retrieve len => if ok len then Some (zdrop len q, ONone) else None
  | RetrieveAll => Some ([], ONone)
  | RetrieveAsString len =>
      if ok len then Some (zdrop len q, OBytes (ztake len q)) else None
  | PeekInt w =>
      let n := Z.of_nat (nbytes w) in
      if ok n then Some (q, OInt (be_value w (ztake n q))) else None
  | ReadInt w =>
      let n := Z.of_nat (nbytes w) in
      if ok n then Some (zdrop n q, OInt (be_value w (ztake n q))) else None
  | EnsureWritable len => if 0 <=? len then Some (q, ONone) else None
  | Unwrite len => if ok len then Some (ztake (zlen q - len) q, ONone) else None
  | Shrink reserve =>
      if (0 <=? reserve) && (zlen q <? 2 ^ 31) then Some (q, ONone) else None
  | FindCRLF =>
      let i := std_search kCRLF q in
      Some (q, OPos (if i =? zlen q then None else Some i))
  end.

Fixpoint q_run (ops : list op) (q : list byte) : option (list byte * list out) :=
  match ops with
  | [] => Some (q, [])
  | o :: ops =>
      r ← q_step o q; r' ← q_run ops r.1; Some (r'.1, r.2 :: r'.2)
  end.

(** How much an operation can make the array grow. *)
Definition cost (o : op) : Z :=
  match o with
  | Append d => zlen d
  | AppendInt _ _ => 8
  | EnsureWritable len => len
  | Shrink reserve => 2 ^ 33 + reserve
  | _ => 0
  end.

Lemma cost_nonneg o q r : q_step o q = Some r -> 0 <= cost o.
Proof. destruct o; simpl; intros H; repeat case_match; simplify_eq; zlia. Qed.

(** One operation of the buffer does one operation of the queue. *)
Lemma exec_refines o b q' r :
  wf b -> q_step o (content b) = Some (q', r) -> zlen (buffer_ b) + cost o <= max_size ->
  exists b', exec o b = Ok (b', r) /\ wf b' /\ content b' = q' /\
    zlen (buffer_ b') <= zlen (buffer_ b) + cost o.
Proof.
  intros Hb Hq Hmax. assert (zlen (content b) <= zlen (buffer_ b)) as Hcb.
  { rewrite content_len by done. destruct Hb as (? & ? & ? & ?). lia. }
  destruct o; simpl in Hq |- *; repeat case_match; simplify_eq; simpl in Hmax.
  - destruct (append_spec d (zlen d) b) as (b' & -> & (? & Hc & ?) & _); [done|zlia|done|].
    rewrite ztake_all in Hc by lia. by exists b'.
  - destruct (appendInt_spec w x b) as (b' & -> & (? & ? & ?) & _); [done..|]. by exists b'.
  - destruct (retrieve_spec len b) as (b' & -> & ? & ? & ?); [done|lia|]. by exists b'.
  - destruct (retrieveAll_spec b) as (? & ? & ?); [done|]. by eexists.
  - destruct (retrieveAsString_spec len b) as (b' & -> & ? & ? & ?); [done|lia|]. by exists b'.
  - rewrite peekInt_spec by (done || lia). exists b. split_and!; [done..|simpl; lia].
  - destruct (readInt_spec w b) as (b' & -> & ? & ? & ?); [done|lia|]. by exists b'.
  - destruct (ensureWritableBytes_spec len b) as (b' & -> & (? & ? & ?) & _); [done|lia|done|].
    by exists b'.
  - destruct (unwrite_spec len b) as (b' & -> & ? & ? & ?); [done|lia|]. by exists b'.
  - destruct (shrink_spec reserve b) as (b' & -> & ? & ? & ?); [done|lia..|].
    exists b'. split_and!; [done..|lia].
  - exists b. rewrite findCRLF_spec by done. cbv zeta.
    match goal with H : (_ =? _) = true |- _ => rewrite H end. split_and!; [done..|lia].
  - exists b. rewrite findCRLF_spec by done. cbv zeta.
    match goal with H : (_ =? _) = false |- _ => rewrite H end. split_and!; [|done..|lia].
    simpl. do 4 f_equal. lia.
Qed.

(** C1: for every sequence of operations that respects the queue's
    preconditions, the buffer runs to completion, no assertion fails and no
    access leaves the array, it returns exactly what the queue returns and its
    readable bytes are the queue's contents. *)
Theorem buffer_refines_queue ops b q' outs :
  wf b -> q_run ops (content b) = Some (q', outs) ->
  zlen (buffer_ b) + foldr Z.add 0 (cost <$> ops) <= max_size ->
  exists b', run ops b = Ok (b', outs) /\ wf b' /\ content b' = q'.
Proof.
  revert b q' outs. induction ops as [|o ops IH]; intros b q' outs Hb Hq Hmax.
  { simpl in Hq. simplify_eq. by exists b. }
  simpl in Hq. destruct (q_step o (content b)) as [[q1 r]|] eqn:Ho; simplify_eq/=.
  destruct (q_run ops q1) as [[q2 rs]|] eqn:Hr; simplify_eq/=.
  assert (0 <= foldr Z.add 0 (cost <$> ops)) as Hpos.
  { clear -Hr. revert q1 q' rs Hr. induction ops as [|o ops IH]; intros q1 q2 rs Hr; [done|].
    simpl in Hr. destruct (q_step o q1) as [[q3 r]|] eqn:Ho; simplify_eq/=.
    apply cost_nonneg in Ho. destruct (q_run ops q3) as [[]|] eqn:E; simplify_eq/=.
    apply IH in E. simpl. lia. }
  destruct (exec_refines o b q1 r) as (b1 & -> & Hb1 & Hc1 & Hs); [done|done|lia|].
  bind_simpl. simpl fst. destruct (IH b1 q' rs) as (b2 & -> & ? & ?).
  { done. } { by rewrite Hc1. } { lia. }
  by exists b2.
Qed.

Definition sample_ops : list op :=
  [Append (bytes "ab"); AppendInt W32 (-2); FindCRLF; Retrieve 1; Unwrite 0;
   RetrieveAsString 1; ReadInt W32; EnsureWritable 100; Shrink 10; RetrieveAll].

Lemma buffer_refines_queue_witness :
  exists b', run sample_ops sample_buffer =
    Ok (b', [ONone; ONone; OPos None; ONone; ONone; OBytes (bytes "b"); OInt (-2);
             ONone; ONone; ONone]) /\ wf b' /\ content b' = [].
Proof.
  apply (buffer_refines_queue sample_ops sample_buffer); [exact sample_buffer_wf| |];
    vm_compute; congruence.
Defined.

(** an integer of any width that is appended in network order and read
    back, after the bytes in front of it are consumed, is the same integer. *)
Theorem int_roundtrip w x b :
  wf b -> - 2 ^ (nbits w - 1) <= x < 2 ^ (nbits w - 1) ->
  zlen (buffer_ b) + 8 <= max_size ->
  exists b1 b2 b3, appendInt w x b = Ok b1 /\ retrieve (zlen (content b)) b1 = Ok b2 /\
    readInt w b2 = Ok (b3, x) /\ content b3 = [].
Proof.
  intros Hb Hx Hmax. zlen_pos. set (n := Z.of_nat (nbytes w)).
  destruct (appendInt_spec w x b) as (b1 & Ha & (Hb1 & Hc1 & _) & _); [done..|].
  assert (zlen (be_bytes (nbytes w) x) = n) as Hn by apply zlen_be_bytes.
  destruct (retrieve_spec (zlen (content b)) b1) as (b2 & Hr & Hb2 & Hc2 & _).
  { done. } { rewrite Hc1. zlia. }
  rewrite Hc1, zdrop_app_exact in Hc2 by done.
  destruct (readInt_spec w b2) as (b3 & Hi & Hb3 & Hc3 & _).
  { done. } { rewrite Hc2. lia. }
  rewrite Hc2 in Hi, Hc3. rewrite zdrop_all in Hc3 by lia.
  rewrite ztake_all, be_value_be_bytes in Hi by (done || lia).
  by exists b1, b2, b3.
Qed.

Lemma int_roundtrip_witness :
  exists b1 b2 b3, appendInt W16 (-300) sample_buffer = Ok b1 /\
    retrieve 0 b1 = Ok b2 /\ readInt W16 b2 = Ok (b3, -300) /\ content b3 = [].
Proof.
  apply (int_roundtrip W16 (-300) sample_buffer); [exact sample_buffer_wf| |];
    vm_compute; intuition congruence.
Defined.

End Buffer.
