(* ===== verification/BufferStream.v ===== *)
(** * Protobuf's output stream over a buffer ([src/net/protobuf/BufferStream.h])

    [BufferOutputStream] lends protobuf the writable part of a [Buffer]: [Next]
    hands all of it out and counts it as written, the client stores its bytes
    through the pointer and gives the rest back with [BackUp]. *)

From S2P Require Import Prelude Buffer.

Module BufferStream.
Import Buffer.Buffer.

Record BufferOutputStream := mkBufferOutputStream {
  out_ : Buffer;
  originalSize_ : Z
}.

Definition new_stream (buf : Buffer) : BufferOutputStream :=
  mkBufferOutputStream buf (readableBytes buf).

(** Returns the stream, [*data] and [*size]; the method always returns [true]. *)
Definition Next (s : BufferOutputStream) : outcome (BufferOutputStream * Z * Z) :=
  b1 ← ensureWritableBytes 4096 (out_ s);
  let data := beginWrite b1 in
  let size := i32 (writableBytes b1) in
  b2 ← hasWritten (u64 size) b1;
  Ok (mkBufferOutputStream b2 (originalSize_ s), data, size).

Definition BackUp (count : Z) (s : BufferOutputStream) : outcome BufferOutputStream :=
  b ← unwrite (u64 count) (out_ s);
  Ok (mkBufferOutputStream b (originalSize_ s)).

Definition ByteCount (s : BufferOutputStream) : Z :=
  i64 (u64 (readableBytes (out_ s) - originalSize_ s)).

(** ** A client

    A client is asked for bytes with the size of the area it may fill; it stores
    them at [*data] and backs up over what it did not use. *)
Definition client := list (Z -> list byte).

Definition store_at (data : Z) (bs : list byte) (s : BufferOutputStream) : outcome BufferOutputStream :=
  v ← zstore data bs (buffer_ (out_ s));
  Ok (mkBufferOutputStream (mkBuffer v (readerIndex_ (out_ s)) (writerIndex_ (out_ s))) (originalSize_ s)).

Fixpoint serve (c : client) (s : BufferOutputStream) : outcome (BufferOutputStream * list byte) :=
  match c with
  | [] => Ok (s, [])
  | f :: c =>
      '(s, data, size) ← Next s;
      s ← store_at data (f size) s;
      s ← BackUp (size - zlen (f size)) s;
      '(s, bs) ← serve c s;
      Ok (s, f size ++ bs)
  end.

(** The client stays inside the areas it is lent and stores at most [k] bytes
    in all. *)
Fixpoint polite (c : client) (k : Z) : Prop :=
  match c with
  | [] => 0 <= k
  | f :: c => exists m, (forall n, 0 <= n -> zlen (f n) <= Z.min n m) /\ polite c (k - m)
  end.

(** One round: the client's bytes, and only they, are appended. *)
Lemma serve_round f s :
  wf (out_ s) -> (forall n, 0 <= n -> zlen (f n) <= n) ->
  zlen (buffer_ (out_ s)) + 4096 < 2 ^ 31 ->
  exists s1 data size s2 s3, Next s = Ok (s1, data, size) /\ 4096 <= size /\
    store_at data (f size) s1 = Ok s2 /\ BackUp (size - zlen (f size)) s2 = Ok s3 /\
    becomes (out_ s) (out_ s3) (content (out_ s) ++ f size) 4096 /\
    writerIndex_ (out_ s3) <= writerIndex_ (out_ s) + zlen (f size) /\
    zlen (buffer_ (out_ s3)) <= Z.max (zlen (buffer_ (out_ s))) (writerIndex_ (out_ s) + 4096) /\
    originalSize_ s3 = originalSize_ s.
Proof.
  intros Hb Hf Hmax. destruct s as [b o]. simpl in *. unfold Next. simpl.
  destruct (ensureWritableBytes_spec 4096 b) as (b1 & E1 & (Hb1 & Hc & Hs) & Hw & _);
    [done|lia|unfold max_size; lia|].
  destruct (ensureWritableBytes_size 4096 b b1) as [Hz Hwr]; [done|lia|unfold max_size; lia|done|].
  rewrite E1. bind_simpl. pose proof Hb1 as (? & ? & ? & ?). rewrite writable_eq in * by done. cint.
  unfold hasWritten. rewrite writable_eq by done. run_checks. cint.
  set (n := zlen (buffer_ b1) - writerIndex_ b1) in *.
  pose proof (Hf n ltac:(lia)) as Hn. pose proof (zlen_nonneg (f n)).
  set (v := ztake (writerIndex_ b1) (buffer_ b1) ++ f n ++ zdrop (writerIndex_ b1 + zlen (f n)) (buffer_ b1)).
  assert (zlen v = zlen (buffer_ b1)) as Hv by (apply zlen_stored; lia).
  eexists _, (writerIndex_ b1), n, (mkBufferOutputStream (mkBuffer v (readerIndex_ b1) (writerIndex_ b1 + n)) o),
    (mkBufferOutputStream (mkBuffer v (readerIndex_ b1) (writerIndex_ b1 + zlen (f n))) o).
  split; [done|]. split; [lia|]. unfold store_at, BackUp. simpl. rewrite zstore_Ok by lia. split; [done|]. cint.
  unfold unwrite. rewrite readable_eq by (unfold wf, max_size in *; simpl; rewrite Hv; lia). simpl.
  run_checks. cint. replace (_ - (n - _)) with (writerIndex_ b1 + zlen (f n)) by lia.
  unfold becomes, wf. simpl. rewrite Hv. split_and!; [done|lia..| |lia|lia|lia|done].
  rewrite <-Hc. unfold content. simpl. rewrite (zslice_split _ (writerIndex_ b1)) by lia. f_equal; subst v.
  - apply zslice_stored_below; lia.
  - apply zslice_stored_new; lia.
Qed.

Lemma serve_spec c : forall s k,
  wf (out_ s) -> polite c k ->
  Z.max (zlen (buffer_ (out_ s))) (writerIndex_ (out_ s) + k + 4096) + 4096 < 2 ^ 31 ->
  exists s' bs, serve c s = Ok (s', bs) /\ wf (out_ s') /\ content (out_ s') = content (out_ s) ++ bs /\
    originalSize_ s' = originalSize_ s.
Proof.
  induction c as [|f c IH]; intros s k Hb Hp Hmax.
  { exists s, []. split_and!; [done..|by rewrite app_nil_r|done]. }
  destruct Hp as (m & Hf & Hp).
  destruct (serve_round f s) as (s1 & d & n & s2 & s3 & E1 & Hn & E2 & E3 & (Hb3 & Hc3 & _) & Hw3 & Hz3 & Ho3);
    [done|intros n Hn; specialize (Hf n Hn); lia|lia|]. pose proof (Hf n ltac:(lia)). pose proof (zlen_nonneg (f n)).
  assert (0 <= k - m) as Hk.
  { clear -Hp. revert Hp. generalize (k - m). induction c as [|g c IH]; simpl; [lia|].
    intros z (m' & Hg & Hc). specialize (IH _ Hc). pose proof (Hg 0). pose proof (zlen_nonneg (g 0)). lia. }
  destruct (IH s3 (k - m)) as (s' & bs & E & Hb' & Hc' & Ho'); [done|done|lia|].
  cbn [serve]. rewrite E1. cbn. rewrite E2. cbn. rewrite E3. cbn. rewrite E. cbn.
  exists s', (f n ++ bs). split_and!; [done..| |congruence]. by rewrite Hc', Hc3, app_assoc.
Qed.

(** What protobuf stores through the stream, and nothing else, is appended to
    the buffer in order, whatever the sizes of the areas it is lent and however
    little of each it uses, and [ByteCount] is the number of bytes stored. *)
Theorem stream_appends buf c k :
  wf buf -> polite c k -> Z.max (zlen (buffer_ buf)) (writerIndex_ buf + k + 4096) + 4096 < 2 ^ 31 ->
  exists s bs, serve c (new_stream buf) = Ok (s, bs) /\ wf (out_ s) /\
    content (out_ s) = content buf ++ bs /\ ByteCount s = zlen bs.
Proof.
  intros Hb Hp Hmax. destruct (serve_spec c (new_stream buf) k) as (s & bs & E & Hs & Hc & Ho); [done..|].
  exists s, bs. split_and!; [done..|]. unfold ByteCount. rewrite Ho. simpl. rewrite !readable_wf, Hc by done.
  simpl. pose proof (content_len (out_ s) Hs) as Hl. destruct Hs as (_ & ? & ? & ?). rewrite Hc in Hl. simpl in Hl.
  rewrite zlen_app in *. pose proof (zlen_nonneg bs). pose proof (zlen_nonneg (content buf)). unfold max_size in *.
  rewrite u64_small, i64_small; lia.
Qed.

Lemma stream_appends_witness :
  let c := [fun n => ztake n (replicate 5000 Byte.x61); fun _ => []; fun n => ztake n [Byte.x62]] in
  let b := mkBuffer (replicate 20 Byte.x00) 8 8 in
  exists s bs, serve c (new_stream b) = Ok (s, bs) /\ wf (out_ s) /\ content (out_ s) = content b ++ bs /\ ByteCount s = zlen bs.
Proof.
  intros c b. apply (stream_appends b c 6000).
  - unfold wf, max_size, kCheapPrepend, b. vm_compute. intuition congruence.
  - assert (forall (l : list byte) n, 0 <= n -> zlen (ztake n l) <= Z.min n (zlen l)) as H.
    { intros l n Hn. unfold zlen, ztake. rewrite length_take. lia. }
    exists 5000. split; [intros n Hn; by apply H|]. exists 0. split; [intros n Hn; unfold zlen; simpl; lia|].
    exists 1. split; [intros n Hn; by apply H|]. simpl. lia.
  - vm_compute. done.
Defined.
End BufferStream.
