(* ===== verification/ZlibStream.v ===== *)
(** * Compression into a buffer ([src/net/ZlibStream.h])

    [ZlibOutputStream] compresses what is written to it into a [Buffer].  zlib
    is a parameter: an abstract state with [deflateInit], [deflate] and
    [deflateEnd], under the contract that zlib's manual documents
    ([deflate_contract]).  [ZlibInputStream] declares its methods and does not
    define them. *)

From S2P Require Import Prelude Buffer.

Module ZlibStream.
Import Buffer.Buffer.

Definition Z_OK : Z := 0.
Definition Z_STREAM_END : Z := 1.
Definition Z_NO_FLUSH : Z := 0.
Definition Z_FINISH : Z := 4.

(** What a call of [deflate] does: its value, how many bytes it took from
    [next_in], the bytes it stored at [next_out], and zlib's next state. *)
Record deflated_by (D : Type) := mkDeflated {
  code : Z;
  taken : Z;
  made : list byte;
  after : D
}.
Arguments mkDeflated {D} _ _ _ _.
Arguments code {D} _.
Arguments taken {D} _.
Arguments made {D} _.
Arguments after {D} _.

(** [deflate d input n flush]: with [input] at [next_in] and [n] bytes of room. *)
Class Zlib (D : Type) := {
  deflateInit : Z * D;
  deflate : D -> list byte -> Z -> Z -> deflated_by D;
  deflateEnd : D -> Z
}.

Section Stream.
Context {D : Type} `{Zlib D}.

(** [next_in] is [NULL] or an offset into a block of memory, which the caller
    leaves alone while bytes of it are available.  [next_out] and [avail_out] are set
    before every use. *)
Record ZlibOutputStream := mkZlibOutputStream {
  output_ : Buffer;
  zstate : D;
  next_in : option (list byte * Z);
  avail_in : Z;
  total_in : Z;
  total_out : Z;
  zerror_ : Z;
  bufferSize_ : Z
}.

Definition new_stream (output : Buffer) : ZlibOutputStream :=
  mkZlibOutputStream output (deflateInit.2) None 0 0 0 (deflateInit.1) 1024.

Definition set_zerror (e : Z) (s : ZlibOutputStream) : ZlibOutputStream :=
  mkZlibOutputStream (output_ s) (zstate s) (next_in s) (avail_in s) (total_in s) (total_out s) e (bufferSize_ s).

Definition set_input (p : option (list byte * Z)) (n : Z) (s : ZlibOutputStream) : ZlibOutputStream :=
  mkZlibOutputStream (output_ s) (zstate s) p n (total_in s) (total_out s) (zerror_ s) (bufferSize_ s).

Definition zlibErrorCode (s : ZlibOutputStream) : Z := zerror_ s.
Definition inputBytes (s : ZlibOutputStream) : Z := i64 (total_in s).
Definition outputBytes (s : ZlibOutputStream) : Z := i64 (total_out s).
Definition internalOutputBufferSize (s : ZlibOutputStream) : Z := bufferSize_ s.

(** The bytes at [next_in]. *)
Definition input (s : ZlibOutputStream) : list byte :=
  match next_in s with
  | None => []
  | Some (mem, off) => zslice off (off + avail_in s) mem
  end.

Definition compress (flush : Z) (s : ZlibOutputStream) : outcome (ZlibOutputStream * Z) :=
  out ← ensureWritableBytes (u64 (bufferSize_ s)) (output_ s);
  let avail_out := u32 (i32 (writableBytes out)) in
  in_bounds (avail_in s <=? zlen (input s));;
  let r := deflate (zstate s) (input s) avail_out flush in
  out ← fill (made r) out;
  let avail_out := u32 (avail_out - zlen (made r)) in
  out ← hasWritten (u64 (writableBytes out - avail_out)) out;
  let size := if (writableBytes out =? 0) && (bufferSize_ s <? 65536)
              then i32 (bufferSize_ s * 2) else bufferSize_ s in
  Ok (mkZlibOutputStream out (after r)
        ((fun p => (p.1, p.2 + taken r)) <$> next_in s) (u32 (avail_in s - taken r))
        (u64 (total_in s + taken r)) (u64 (total_out s + zlen (made r)))
        (zerror_ s) size, code r).

(** The loops take fuel; [None] when it runs out. *)
Fixpoint write_loop (fuel : nat) (s : ZlibOutputStream) : option (outcome ZlibOutputStream) :=
  match fuel with
  | O => None
  | S fuel =>
      if (0 <? avail_in s) && (zerror_ s =? Z_OK)
      then match compress Z_NO_FLUSH s with
           | Ok (s, e) => write_loop fuel (set_zerror e s)
           | Err e => Some (Err e)
           end
      else Some (Ok s)
  end.

(** [write(StringPiece buf)]: the bytes at [buf.data()] and [buf.size()]. *)
Definition write (fuel : nat) (buf : list byte * Z) (s : ZlibOutputStream) :
    option (outcome (ZlibOutputStream * bool)) :=
  if negb (zerror_ s =? Z_OK) then Some (Ok (s, false))
  else if negb (bool_decide (next_in s = None) && (avail_in s =? 0)) then Some (Err AssertFail)
  else
    match write_loop fuel (set_input (Some (buf.1, 0)) (u32 buf.2) s) with
    | None => None
    | Some (Err e) => Some (Err e)
    | Some (Ok s) =>
        if avail_in s =? 0
        then
          if bool_decide (snd <$> next_in s = Some buf.2)
          then Some (Ok (set_input None 0 s, zerror_ s =? Z_OK))
          else Some (Err AssertFail)
        else Some (Ok (s, zerror_ s =? Z_OK))
    end.

(** [write(Buffer* input)]: also returns the input. *)
Definition write_buffer (inp : Buffer) (s : ZlibOutputStream) :
    outcome (ZlibOutputStream * Buffer * bool) :=
  if negb (zerror_ s =? Z_OK) then Ok (s, inp, false)
  else
    let s := set_input (Some (buffer_ inp, peek inp)) (u32 (i32 (readableBytes inp))) s in
    s ← (if (0 <? avail_in s) && (zerror_ s =? Z_OK)
         then '(s, e) ← compress Z_NO_FLUSH s; Ok (set_zerror e s)
         else Ok s);
    inp ← retrieve (u64 (readableBytes inp - avail_in s)) inp;
    Ok (s, inp, zerror_ s =? Z_OK).

Fixpoint finish_loop (fuel : nat) (s : ZlibOutputStream) : option (outcome ZlibOutputStream) :=
  match fuel with
  | O => None
  | S fuel =>
      if zerror_ s =? Z_OK
      then match compress Z_FINISH s with
           | Ok (s, e) => finish_loop fuel (set_zerror e s)
           | Err e => Some (Err e)
           end
      else Some (Ok s)
  end.

Definition finish (fuel : nat) (s : ZlibOutputStream) : option (outcome (ZlibOutputStream * bool)) :=
  if negb (zerror_ s =? Z_OK) then Some (Ok (s, false))
  else
    match finish_loop fuel s with
    | None => None
    | Some (Err e) => Some (Err e)
    | Some (Ok s) => Some (Ok (set_zerror Z_STREAM_END s, deflateEnd (zstate s) =? Z_OK))
    end.

(** ** The contract of zlib

    A stream in progress is [None] while its input comes in, and [Some rest] once
    [Z_FINISH] has returned [Z_OK] with [rest] of its input not yet taken.  The
    manual says which calls may follow: [Z_NO_FLUSH] with more input or
    [Z_FINISH] at first, and then only [Z_FINISH] with no new input.  The lengths
    are [uInt]s, and there is room for some output. *)
Definition allowed (p : option (list byte)) (flush : Z) (inp : list byte) (n : Z) : Prop :=
  0 < n < 2 ^ 32 /\ zlen inp < 2 ^ 32 /\
  match p with
  | None => flush = Z_NO_FLUSH /\ inp <> [] \/ flush = Z_FINISH
  | Some rest => flush = Z_FINISH /\ inp = rest
  end.

Definition next_phase (flush : Z) (inp : list byte) (r : deflated_by D) : option (list byte) :=
  if flush =? Z_FINISH then Some (zdrop (taken r) inp) else None.

(** [deflated p d i o]: zlib is in state [d] after such calls that returned
    [Z_OK], took the bytes [i] and made the bytes [o]. *)
Inductive deflated : option (list byte) -> D -> list byte -> list byte -> Prop :=
  | deflated_init : deflated None (deflateInit.2) [] []
  | deflated_step p d i o inp n flush :
      deflated p d i o -> allowed p flush inp n -> code (deflate d inp n flush) = Z_OK ->
      deflated (next_phase flush inp (deflate d inp n flush)) (after (deflate d inp n flush))
        (i ++ ztake (taken (deflate d inp n flush)) inp) (o ++ made (deflate d inp n flush)).

(** What the manual promises of these calls: [deflate] stays within its
    input and output; it stops when the input is used up or the output is full,
    and [Z_FINISH] ends the stream if there is room; the output is finite
    ([remaining d inp] bounds what is still to come if [inp] is all that is
    still to be compressed); a finished stream inflates to its input and can be
    released.  Nothing is promised of any other call. *)
Record deflate_contract (inflate : list byte -> option (list byte)) (remaining : D -> list byte -> Z) : Prop := {
  init_ok : deflateInit.1 = Z_OK;
  stays_within p d i o inp n flush : deflated p d i o -> allowed p flush inp n ->
    0 <= taken (deflate d inp n flush) <= zlen inp /\ zlen (made (deflate d inp n flush)) <= n;
  no_flush_stops p d i o inp n : deflated p d i o -> allowed p Z_NO_FLUSH inp n ->
    code (deflate d inp n Z_NO_FLUSH) = Z_OK /\
    (taken (deflate d inp n Z_NO_FLUSH) = zlen inp \/ zlen (made (deflate d inp n Z_NO_FLUSH)) = n);
  finish_stops p d i o inp n : deflated p d i o -> allowed p Z_FINISH inp n ->
    code (deflate d inp n Z_FINISH) = Z_STREAM_END /\ taken (deflate d inp n Z_FINISH) = zlen inp \/
    code (deflate d inp n Z_FINISH) = Z_OK /\ zlen (made (deflate d inp n Z_FINISH)) = n;
  finite_output p d i o inp rest n flush :
    deflated p d i o -> allowed p flush inp n -> (flush = Z_FINISH -> rest = []) ->
    remaining (after (deflate d inp n flush)) (zdrop (taken (deflate d inp n flush)) inp ++ rest) +
      zlen (made (deflate d inp n flush)) <= remaining d (inp ++ rest);
  remaining_nonneg d inp : 0 <= remaining d inp;
  lossless p d i o inp n :
    deflated p d i o -> allowed p Z_FINISH inp n -> code (deflate d inp n Z_FINISH) = Z_STREAM_END ->
    inflate (o ++ made (deflate d inp n Z_FINISH)) = Some (i ++ inp) /\
    deflateEnd (after (deflate d inp n Z_FINISH)) = Z_OK
}.

(** ** Invariant *)

(** The internal buffer sizes: 1024 doubled up to 65536. *)
Definition sizes : list Z := [1024; 2048; 4096; 8192; 16384; 32768; 65536].

Lemma sizes_range z : z ∈ sizes -> 1024 <= z <= 65536.
Proof. revert z. apply Forall_forall. repeat constructor; lia. Qed.

Lemma sizes_double z : z ∈ sizes -> z < 65536 -> i32 (z * 2) ∈ sizes.
Proof.
  revert z. assert (Forall (fun z => z < 65536 -> bool_decide (i32 (z * 2) ∈ sizes)) sizes) as F.
  { repeat constructor; lia. }
  intros z Hz Hlt. eapply bool_decide_unpack. rewrite Forall_forall in F. by apply F.
Qed.

(** The stream is in phase [p], has taken [i], and appended [o] to the [base] that was in the
    output buffer at first. *)
Record inv (p : option (list byte)) (base i o : list byte) (s : ZlibOutputStream) : Prop := {
  inv_wf : wf (output_ s);
  inv_content : content (output_ s) = base ++ o;
  inv_deflated : deflated p (zstate s) i o;
  inv_input : zlen (input s) = avail_in s;
  inv_offset mem off : next_in s = Some (mem, off) -> 0 <= off;
  inv_avail : 0 <= avail_in s < 2 ^ 32;
  inv_size : bufferSize_ s ∈ sizes;
  inv_in : total_in s = u64 (zlen i);
  inv_out : total_out s = u64 (zlen o)
}.

(** The output buffer stays below 2 GiB while [k] more bytes are appended. *)
Definition fits (k : Z) (s : ZlibOutputStream) : Prop :=
  Z.max (zlen (buffer_ (output_ s))) (writerIndex_ (output_ s) + k + 65536) + 65536 < 2 ^ 31.

Lemma u64_add a b : u64 (u64 a + b) = u64 (a + b).
Proof. unfold wrapu. by rewrite Zplus_mod_idemp_l. Qed.

(** What [compress] does to the stream, by what [deflate] answers. *)
Record compressed (r : deflated_by D) (s s' : ZlibOutputStream) : Prop := {
  comp_wf : wf (output_ s');
  comp_content : content (output_ s') = content (output_ s) ++ made r;
  comp_state : zstate s' = after r;
  comp_input : input s' = zdrop (taken r) (input s);
  comp_next : next_in s' = (fun p => (p.1, p.2 + taken r)) <$> next_in s;
  comp_avail : avail_in s' = avail_in s - taken r;
  comp_size : bufferSize_ s' ∈ sizes;
  comp_in : total_in s' = u64 (total_in s + taken r);
  comp_out : total_out s' = u64 (total_out s + zlen (made r));
  comp_error : zerror_ s' = zerror_ s;
  comp_fits k k' : fits k s -> k' + zlen (made r) <= k -> fits k' s'
}.

Section Laws.
Context (inflate : list byte -> option (list byte)) (remaining : D -> list byte -> Z).
Context (C : deflate_contract inflate remaining).

Lemma compress_spec p base i o s flush k :
  inv p base i o s -> fits k s -> 0 <= k -> (forall n, 0 < n < 2 ^ 32 -> allowed p flush (input s) n) ->
  exists n s', 1024 <= n < 2 ^ 32 /\ let r := deflate (zstate s) (input s) n flush in
    compress flush s = Ok (s', code r) /\ compressed r s s'.
Proof.
  intros [Hwf Hct Hd Hin Hoff Hav Hsz Hti Hto] Hf Hk Hal. pose proof (sizes_range _ Hsz) as Hr.
  unfold fits in Hf. pose proof Hwf as (? & ? & ? & ?). unfold compress. rewrite u64_small by lia.
  destruct (ensureWritableBytes_spec (bufferSize_ s) (output_ s)) as (b1 & E1 & (Hb1 & Hc1 & _) & Hw & _);
    [done|lia|unfold max_size; lia|].
  destruct (ensureWritableBytes_size (bufferSize_ s) (output_ s) b1) as [Hz Hwr]; [done|lia|unfold max_size; lia|done|].
  rewrite E1. bind_simpl. pose proof Hb1 as (? & ? & ? & ?). pose proof (writable_eq b1 Hb1) as Hwe.
  rewrite (i32_small (writableBytes b1)), (u32_small (writableBytes b1)) by lia. run_checks.
  set (n := writableBytes b1) in *. exists n. set (r := deflate _ _ _ _).
  destruct (stays_within _ _ C _ _ _ _ (input s) n flush Hd (Hal n ltac:(lia))) as [Ht Hm]. fold r in Ht, Hm.
  destruct (fill_spec (made r) b1) as (b2 & b3 & E2 & Hw2 & E3 & (Hb3 & Hc3 & _) & Hz3 & _ & Hwr3); [done|done|].
  rewrite E2. bind_simpl. pose proof (zlen_nonneg (made r)). rewrite Hw2. fold n.
  rewrite (u32_small (n - _)), (u64_small (n - _)) by lia. replace (n - (n - _)) with (zlen (made r)) by lia.
  rewrite E3. bind_simpl. eexists. split; [lia|]. split; [done|]. constructor; simpl; try done.
  - by rewrite Hc3, Hc1.
  - unfold input in *. simpl. destruct (next_in s) as [[mem off]|] eqn:En; simpl in *.
    + specialize (Hoff mem off eq_refl). rewrite u32_small by lia.
      replace (off + taken r + (avail_in s - taken r)) with (off + avail_in s) by lia.
      unfold zslice. rewrite zdrop_ztake by lia. rewrite zdrop_zdrop by lia. f_equal. lia.
    + destruct Ht as [? ?]. unfold zdrop. by rewrite drop_nil.
  - rewrite u32_small; lia.
  - destruct (Z.eqb_spec (writableBytes b3) 0), (Z.ltb_spec (bufferSize_ s) 65536); simpl; try done.
    by apply sizes_double.
  - intros k1 k' Hk1 Hle. unfold fits in *. simpl. rewrite Hz3. lia.
Qed.

Lemma compressed_inv p base i o n flush s s' :
  inv p base i o s -> allowed p flush (input s) n -> let r := deflate (zstate s) (input s) n flush in
  compressed r s s' -> code r = Z_OK ->
  inv (next_phase flush (input s) r) base (i ++ ztake (taken r) (input s)) (o ++ made r) s'.
Proof.
  intros [Hwf Hct Hd Hin Hoff Hav Hsz Hti Hto] Hn r Hc Hcode. destruct Hc.
  destruct (stays_within _ _ C _ _ _ _ (input s) n flush Hd Hn) as [Ht Hm]. fold r in Ht, Hm.
  constructor; try done.
  - by rewrite comp_content0, Hct, app_assoc.
  - rewrite comp_state0. by apply (deflated_step p).
  - rewrite comp_input0, comp_avail0, zlen_drop; lia.
  - intros mem off. rewrite comp_next0. destruct (next_in s) as [[mem' off']|] eqn:En; [|done].
    intros [= <- <-]. simpl. specialize (Hoff mem' off' eq_refl). lia.
  - lia.
  - rewrite comp_in0, Hti, u64_add, zlen_app, zlen_take; [done|lia].
  - by rewrite comp_out0, Hto, u64_add, zlen_app.
Qed.

(** [K] bounds the output of a session. *)
Context (K : Z).

(** The state between two operations: no error so far, and room for all that is
    still to come when [rest] is still to be written. *)
Definition ready (p : option (list byte)) (base i o rest : list byte) (s : ZlibOutputStream) : Prop :=
  inv p base i o s /\ zerror_ s = Z_OK /\ fits (remaining (zstate s) rest) s /\ remaining (zstate s) rest <= K.

Lemma set_zerror_OK s : zerror_ s = Z_OK -> set_zerror Z_OK s = s.
Proof. destruct s. simpl. by intros ->. Qed.

(** One call of [deflate] that returned [Z_OK]. *)
Lemma compress_step p base i o rest flush s :
  ready p base i o (input s ++ rest) s -> (flush = Z_FINISH -> rest = []) ->
  (forall n, 0 < n < 2 ^ 32 -> allowed p flush (input s) n) ->
  exists n s', 1024 <= n < 2 ^ 32 /\ let r := deflate (zstate s) (input s) n flush in
    compress flush s = Ok (s', code r) /\ compressed r s s' /\ 0 <= taken r <= zlen (input s) /\
    (code r = Z_OK ->
      ready (next_phase flush (input s) r) base (i ++ ztake (taken r) (input s)) (o ++ made r) (input s' ++ rest) s' /\
      remaining (zstate s') (input s' ++ rest) + zlen (made r) <= remaining (zstate s) (input s ++ rest)).
Proof.
  intros (Hi & He & Hf & HK) Hfl Hal.
  destruct (compress_spec p base i o s flush _ Hi Hf) as (n & s' & Hn & E & Hc); [apply (remaining_nonneg _ _ C)|done|].
  exists n, s'. split; [done|]. intros r. split; [done|]. split; [done|].
  destruct (stays_within _ _ C _ _ _ _ (input s) n flush (inv_deflated _ _ _ _ _ Hi) (Hal n ltac:(lia))) as [Ht _].
  split; [done|]. intros Hcode.
  assert (remaining (zstate s') (input s' ++ rest) + zlen (made r) <= remaining (zstate s) (input s ++ rest)) as Hrem.
  { rewrite (comp_state _ _ _ Hc), (comp_input _ _ _ Hc).
    apply (finite_output _ _ C p _ i o); [apply Hi|apply Hal; lia|done]. }
  split; [|done]. pose proof (zlen_nonneg (made r)). split; [|split; [|split; [|lia]]].
  - apply (compressed_inv p base i o n flush); [done|apply Hal; lia|done|done].
  - by rewrite (comp_error _ _ _ Hc).
  - apply (comp_fits _ _ _ Hc _ _ Hf Hrem).
Qed.

Lemma input_nil p base i o s : inv p base i o s -> avail_in s = 0 -> input s = [].
Proof. intros Hi Ha. pose proof (inv_input _ _ _ _ _ Hi) as Hl. rewrite Ha in Hl. by apply nil_length_inv; unfold zlen in Hl; lia. Qed.

Lemma input_short p base i o s : inv p base i o s -> zlen (input s) < 2 ^ 32.
Proof. intros Hi. pose proof (inv_input _ _ _ _ _ Hi). pose proof (inv_avail _ _ _ _ _ Hi). lia. Qed.

Lemma may_write base i o s n :
  inv None base i o s -> 0 < zlen (input s) -> 0 < n < 2 ^ 32 -> allowed None Z_NO_FLUSH (input s) n.
Proof. intros Hi Hp Hn. split; [done|]. split; [by eapply input_short|]. left. split; [done|]. by intros E; rewrite E in Hp. Qed.

(** The loop of [write(StringPiece)] takes the whole input. *)
Lemma write_loop_spec base rest mem e : forall fuel i o off s,
  ready None base i o (input s ++ rest) s -> next_in s = Some (mem, off) -> off + avail_in s = e ->
  (Z.to_nat (remaining (zstate s) (input s ++ rest)) + 1 < fuel)%nat ->
  exists s' o', write_loop fuel s = Some (Ok s') /\ ready None base (i ++ input s) o' rest s' /\
    next_in s' = Some (mem, e) /\ avail_in s' = 0.
Proof.
  induction fuel as [|fuel IH]; intros i o off s Hr Hp He Hf; [lia|]. cbn [write_loop].
  pose proof Hr as (Hi & Hz & Hfit). rewrite Hz, Z.eqb_refl, andb_true_r.
  destruct (Z.ltb_spec 0 (avail_in s)) as [Hpos|Hzero]; pose proof (inv_avail _ _ _ _ _ Hi);
    rewrite <-(inv_input _ _ _ _ _ Hi) in Hpos || idtac.
  2:{ assert (avail_in s = 0) as Ha by lia. rewrite (input_nil _ _ _ _ _ Hi Ha) in *. rewrite app_nil_r.
      exists s, o. split_and!; [done..| |done]. rewrite Hp. do 2 f_equal. lia. }
  destruct (compress_step None base i o rest Z_NO_FLUSH s Hr) as (n & s1 & Hn & E & Hc & Ht & Hgo); [done|by eauto using may_write|].
  set (r := deflate _ _ _ _) in *. rewrite E.
  destruct (no_flush_stops _ _ C _ _ i o (input s) n (inv_deflated _ _ _ _ _ Hi)) as [Hcode Hall];
    [apply (may_write base i o); [done..|lia]|].
  fold r in Hcode, Hall. destruct (Hgo Hcode) as [Hr1 Hrem]. rewrite Hcode, set_zerror_OK by apply Hr1.
  pose proof (comp_next _ _ _ Hc) as Hp1. rewrite Hp in Hp1. simpl in Hp1.
  pose proof (remaining_nonneg _ _ C (zstate s1) (input s1 ++ rest)).
  destruct (decide (avail_in s1 = 0)) as [Ha1|Ha1].
  - destruct fuel as [|fuel]; [lia|]. cbn [write_loop]. rewrite Ha1. simpl.
    pose proof (comp_avail _ _ _ Hc) as Hav. rewrite Ha1 in Hav. pose proof (inv_input _ _ _ _ _ Hi).
    rewrite (ztake_all (taken r)) in Hr1 by lia.
    rewrite (input_nil _ _ _ _ _ (proj1 Hr1) Ha1) in Hr1. exists s1, (o ++ made r).
    split_and!; [done|done| |done]. rewrite Hp1. do 2 f_equal. lia.
  - pose proof (comp_avail _ _ _ Hc). pose proof (inv_input _ _ _ _ _ Hi). destruct Hall as [Hall|Hall]; [lia|].
    destruct (IH _ _ (off + taken r) s1 Hr1 Hp1) as (s' & o' & E' & Hr' & Hp' & Ha'); [lia|lia|].
    exists s', o'. split_and!; [done| |done|done].
    by rewrite (comp_input _ _ _ Hc), <-app_assoc, ztake_zdrop in Hr'.
Qed.

Definition idle (s : ZlibOutputStream) : Prop := next_in s = None /\ avail_in s = 0.

Lemma idle_input s : idle s -> input s = [].
Proof. intros [E _]. unfold input. by rewrite E. Qed.

Lemma set_input_ready None base i o rest mem off n s :
  ready None base i o rest s -> 0 <= off -> 0 <= n < 2 ^ 32 -> off + n <= zlen mem ->
  ready None base i o rest (set_input (Some (mem, off)) n s).
Proof.
  intros ([] & He & Hf) Ho Hn Hm. split; [|done]. constructor; simpl; try done.
  - unfold input. simpl. rewrite zlen_slice; lia.
  - by intros ? ? [= <- <-].
Qed.

Lemma write_spec base i o rest fuel buf s :
  ready None base i o (buf ++ rest) s -> idle s -> zlen buf < 2 ^ 31 ->
  (Z.to_nat (remaining (zstate s) (buf ++ rest)) + 1 < fuel)%nat ->
  exists s' o', write fuel (buf, zlen buf) s = Some (Ok (s', true)) /\ ready None base (i ++ buf) o' rest s' /\ idle s'.
Proof.
  intros Hr [Hn Ha] Hlen Hf. unfold write. cbn [fst snd]. pose proof Hr as (Hi & Hz & _). pose proof (zlen_nonneg buf).
  rewrite Hz, Hn, Ha. rewrite bool_decide_eq_true_2 by done. cbn [negb andb Z.eqb Z_OK]. rewrite u32_small by lia.
  set (s0 := set_input (Some (buf, 0)) (zlen buf) s).
  assert (input s0 = buf) as Hb by apply zslice_full.
  destruct (write_loop_spec base rest buf (zlen buf) fuel i o 0 s0) as (s' & o' & E & Hr' & Hp' & Ha'); [|done|done| |].
  - rewrite Hb. by apply set_input_ready; [done|lia..].
  - by rewrite Hb.
  - rewrite E, Ha', Hp'. cbn. rewrite bool_decide_eq_true_2 by done. rewrite Hb in Hr'.
    destruct Hr' as ([] & He' & Hf'). rewrite He'. exists (set_input None 0 s'), o'.
    split; [done|]. split; [|done]. split; [|done]. constructor; simpl; try done.
Qed.

(** One [write] of a buffer takes a prefix of the input, all of it unless the
    output is full, in which case less output remains. *)
Lemma write_buffer_spec base i o rest inp s :
  ready None base i o (content inp ++ rest) s -> wf inp -> zlen (content inp) < 2 ^ 31 ->
  exists s' inp' o' k, write_buffer inp s = Ok (s', inp', true) /\ 0 <= k <= zlen (content inp) /\
    wf inp' /\ content inp' = zdrop k (content inp) /\
    ready None base (i ++ ztake k (content inp)) o' (content inp' ++ rest) s' /\
    input s' = content inp' /\ next_in s' <> None /\
    (k = zlen (content inp) \/
     remaining (zstate s') (content inp' ++ rest) < remaining (zstate s) (content inp ++ rest)).
Proof.
  intros Hr Hb Hlen. unfold write_buffer. pose proof Hr as (Hi & Hz & Hfit). rewrite Hz. cbn [negb Z.eqb Z_OK].
  pose proof (zlen_nonneg (content inp)). rewrite readable_wf by done. cint.
  pose proof (content_len inp Hb) as Hcl. pose proof Hb as (? & ? & ? & ?).
  set (s0 := set_input (Some (buffer_ inp, peek inp)) (zlen (content inp)) s).
  assert (ready None base i o (content inp ++ rest) s0) as Hr0.
  { apply set_input_ready; [done|unfold peek; lia|lia|unfold peek; lia]. }
  assert (input s0 = content inp) as Hb0.
  { unfold input, s0, content, peek. cbn [next_in set_input avail_in]. f_equal. unfold content in Hcl. lia. }
  cbn [zerror_ set_input avail_in]. change (zerror_ s0) with (zerror_ s). change (avail_in s0) with (zlen (content inp)).
  rewrite Hz. cbn [Z.eqb Z_OK]. rewrite andb_true_r. destruct (Z.ltb_spec 0 (zlen (content inp))) as [Hp|Hp].
  - rewrite <-Hb0 in Hr0. destruct (compress_step None base i o rest Z_NO_FLUSH s0 Hr0) as (n & s1 & Hn & E & Hc & Ht & Hgo);
      [done|intros; apply (may_write base i o); [apply Hr0|by rewrite Hb0|done]|].
    set (r := deflate _ _ _ _) in *. rewrite E. cbn [mbind outcome_bind].
    destruct (no_flush_stops _ _ C _ _ i o (input s0) n (inv_deflated _ _ _ _ _ (proj1 Hr0))) as [Hcode Hall];
      [apply (may_write base i o); [apply Hr0|by rewrite Hb0|lia]|].
    fold r in Hcode, Hall. destruct (Hgo Hcode) as [Hr1 Hrem]. rewrite Hcode, set_zerror_OK by apply Hr1.
    pose proof (comp_avail _ _ _ Hc) as Hav. change (avail_in s0) with (zlen (content inp)) in Hav.
    rewrite Hav, Hb0 in *. replace (zlen (content inp) - (zlen (content inp) - taken r)) with (taken r) by lia. cint.
    destruct (retrieve_spec (taken r) inp Hb Ht) as (inp' & E2 & Hb' & Hc' & _). rewrite E2. bind_simpl.
    rewrite (proj1 (proj2 Hr1)). pose proof (comp_input _ _ _ Hc) as Hin. rewrite Hb0 in Hin.
    exists s1, inp', (o ++ made r), (taken r). rewrite Hin, Hc' in *. split_and!; try done; try lia.
    + rewrite (comp_next _ _ _ Hc). done.
    + destruct Hall; [by left|right]. change (zstate s) with (zstate s0). lia.
  - cbn [mbind outcome_bind]. change (avail_in s0) with (zlen (content inp)). rewrite Z.sub_diag. cint.
    destruct (retrieve_spec 0 inp Hb) as (inp' & E2 & Hb' & Hc' & _); [lia|]. rewrite E2. bind_simpl.
    change (zerror_ s0) with (zerror_ s). rewrite Hz. rewrite zdrop_0 in Hc'.
    exists s0, inp', o, 0. rewrite Hc', ztake_0, app_nil_r, zdrop_0. split_and!; try done; try lia.
Qed.

Lemma may_finish p base i o s n :
  inv p base i o s -> p = None \/ p = Some (input s) -> 0 < n < 2 ^ 32 -> allowed p Z_FINISH (input s) n.
Proof. intros Hi Hp Hn. split; [done|]. split; [by eapply input_short|]. destruct Hp as [-> | ->]; auto. Qed.

(** The loop of [finish]: after the first call no input is added. *)
Lemma finish_loop_spec base : forall fuel p i o s,
  ready p base i o (input s) s -> p = None \/ p = Some (input s) -> (Z.to_nat (remaining (zstate s) (input s)) + 1 < fuel)%nat ->
  exists s' z, finish_loop fuel s = Some (Ok s') /\ wf (output_ s') /\ content (output_ s') = base ++ z /\
    inflate z = Some (i ++ input s) /\ deflateEnd (zstate s') = Z_OK /\
    total_in s' = u64 (zlen (i ++ input s)) /\ total_out s' = u64 (zlen z).
Proof.
  induction fuel as [|fuel IH]; intros p i o s Hr Hp Hf; [lia|]. cbn [finish_loop].
  pose proof Hr as (Hi & Hz & Hfit). rewrite Hz, Z.eqb_refl.
  rewrite <-(app_nil_r (input s)) in Hr at 1.
  destruct (compress_step p base i o [] Z_FINISH s Hr) as (n & s1 & Hn & E & Hc & Ht & Hgo); [done|by eauto using may_finish|].
  assert (allowed p Z_FINISH (input s) n) as Hal by (apply (may_finish p base i o); [done..|lia]).
  set (r := deflate _ _ _ _) in *. rewrite E. rewrite !app_nil_r in Hgo.
  destruct (finish_stops _ _ C _ _ i o (input s) n (inv_deflated _ _ _ _ _ Hi) Hal) as [[Hcode Htk]|[Hcode Hm]]; fold r in Hcode.
  - destruct fuel as [|fuel]; [lia|]. rewrite Hcode. cbn.
    destruct (lossless _ _ C _ _ i o (input s) n (inv_deflated _ _ _ _ _ Hi) Hal Hcode) as [Hl Hend]. fold r in Hl, Hend, Htk.
    exists (set_zerror Z_STREAM_END s1), (o ++ made r). destruct Hi, Hc. simpl. split_and!; try done.
    + by rewrite comp_content0, inv_content0, app_assoc.
    + by rewrite comp_state0.
    + by rewrite comp_in0, inv_in0, u64_add, zlen_app, Htk.
    + by rewrite comp_out0, inv_out0, u64_add, zlen_app.
  - destruct (Hgo Hcode) as [Hr1 Hrem]. rewrite Hcode, set_zerror_OK by apply Hr1. fold r in Hm.
    pose proof (remaining_nonneg _ _ C (zstate s1) (input s1)).
    destruct (IH _ _ _ s1 Hr1) as (s' & z & E' & Hwf & Hct & Hinf & Hrest); [right|lia|].
    { by rewrite (comp_input _ _ _ Hc). }
    rewrite (comp_input _ _ _ Hc), <-app_assoc, ztake_zdrop in Hinf, Hrest.
    destruct Hrest as (? & ? & ?). exists s', z. by split_and!.
Qed.

(** ** A session: pieces, then a buffer to the end, then [finish] *)

Fixpoint write_pieces (fuel : nat) (bufs : list (list byte)) (s : ZlibOutputStream) :
    option (outcome (ZlibOutputStream * bool)) :=
  match bufs with
  | [] => Some (Ok (s, true))
  | buf :: bufs =>
      match write fuel (buf, zlen buf) s with
      | Some (Ok (s, true)) => write_pieces fuel bufs s
      | r => r
      end
  end.

(** [while (input->readableBytes() > 0 && stream.write(input)) ;] *)
Fixpoint drain (fuel : nat) (inp : Buffer) (s : ZlibOutputStream) :
    option (outcome (ZlibOutputStream * Buffer * bool)) :=
  match fuel with
  | O => None
  | S fuel =>
      if readableBytes inp =? 0 then Some (Ok (s, inp, true))
      else match write_buffer inp s with
           | Ok (s, inp, true) => drain fuel inp s
           | r => Some r
           end
  end.

Lemma write_pieces_spec base rest fuel : (Z.to_nat K + 1 < fuel)%nat -> forall bufs i o s,
  ready None base i o (concat bufs ++ rest) s -> idle s -> Forall (fun b => zlen b < 2 ^ 31) bufs ->
  exists s' o', write_pieces fuel bufs s = Some (Ok (s', true)) /\ ready None base (i ++ concat bufs) o' rest s' /\ idle s'.
Proof.
  intros Hf. induction bufs as [|buf bufs IH]; intros i o s Hr Hid Hl; simpl in *.
  { exists s, o. by rewrite app_nil_r. }
  apply Forall_cons in Hl as [Hl Hls]. rewrite <-app_assoc in Hr. pose proof Hr as (_ & _ & _ & HK).
  destruct (write_spec base i o (concat bufs ++ rest) fuel buf s Hr Hid Hl) as (s1 & o1 & E & Hr1 & Hid1); [lia|].
  destruct (IH _ _ _ Hr1 Hid1 Hls) as (s' & o' & E' & Hr' & Hid'). rewrite E. exists s', o'.
  by rewrite app_assoc.
Qed.

Lemma drain_spec base rest : forall fuel inp i o s,
  ready None base i o (content inp ++ rest) s -> (content inp = [] -> input s = []) -> wf inp ->
  zlen (content inp) < 2 ^ 31 -> (Z.to_nat (remaining (zstate s) (content inp ++ rest)) + 1 < fuel)%nat ->
  exists s' inp' o', drain fuel inp s = Some (Ok (s', inp', true)) /\ ready None base (i ++ content inp) o' rest s' /\
    input s' = [] /\ wf inp' /\ content inp' = [].
Proof.
  assert (forall fuel inp i o s, (0 < fuel)%nat -> ready None base i o (content inp ++ rest) s -> wf inp ->
    content inp = [] -> input s = [] ->
    exists s' inp' o', drain fuel inp s = Some (Ok (s', inp', true)) /\ ready None base (i ++ content inp) o' rest s' /\
      input s' = [] /\ wf inp' /\ content inp' = []) as Hend.
  { intros fuel inp i o s Hf Hr Hb Hc Hin. destruct fuel as [|fuel]; [lia|]. cbn [drain].
    rewrite readable_wf, Hc in * by done. exists s, inp, o. by rewrite app_nil_r. }
  induction fuel as [|fuel IH]; intros inp i o s Hr Hin Hb Hl Hf; [lia|].
  destruct (decide (content inp = [])) as [Hc|Hc]; [apply (Hend _ _ _ o); [lia|by auto..]|].
  destruct (write_buffer_spec base i o rest inp s Hr Hb Hl) as (s1 & inp1 & o1 & k & E & Hk & Hb1 & Hc1 & Hr1 & Hin1 & _ & Hp).
  cbn [drain]. rewrite readable_wf by done. destruct (Z.eqb_spec (zlen (content inp)) 0) as [Hz|Hz].
  { exfalso. apply Hc, nil_length_inv. unfold zlen in Hz. lia. }
  rewrite E. pose proof (remaining_nonneg _ _ C (zstate s1) (content inp1 ++ rest)).
  rewrite <-(ztake_zdrop k (content inp)), <-Hc1, app_assoc. destruct Hp as [->|Hp].
  - rewrite zdrop_all in Hc1 by lia. apply (Hend _ _ _ o1); [lia|done..|congruence].
  - apply (IH _ _ o1); [done|congruence|done|rewrite Hc1, zlen_drop; lia|lia].
Qed.

End Laws.

(** Once [deflate] or [finish] has set an error, nothing is written any more. *)
Lemma error_sticks fuel buf inp s :
  zerror_ s <> Z_OK ->
  write fuel buf s = Some (Ok (s, false)) /\ write_buffer inp s = Ok (s, inp, false) /\ finish fuel s = Some (Ok (s, false)).
Proof. intros Hz. unfold write, write_buffer, finish. by rewrite (proj2 (Z.eqb_neq _ _) Hz). Qed.

(** [write] of a buffer leaves [next_in] pointing into it, also when all of it
    was taken, so that a [write] of a piece fails its assertion afterwards. *)
Theorem piece_after_buffer_asserts fuel inp s s' inp' buf :
  write_buffer inp s = Ok (s', inp', true) -> write fuel buf s' = Some (Err AssertFail).
Proof.
  unfold write_buffer. destruct (negb (zerror_ s =? Z_OK)); [done|]. set (s0 := set_input _ _ _). intros E.
  apply bind_Ok in E as (s1 & E1 & E). apply bind_Ok in E as (inp1 & _ & E). injection E as <- <- Hz.
  assert (next_in s1 <> None) as Hn.
  { destruct ((0 <? avail_in s0) && _); [|by injection E1 as <-].
    apply bind_Ok in E1 as ([s2 e] & E1 & E2). injection E2 as <-. unfold compress in E1. outcome_inv E1. done. }
  unfold write. rewrite Hz. cbn [negb]. by rewrite bool_decide_eq_false_2.
Qed.

(** C21: what is written to a [ZlibOutputStream], as pieces and then from a
    buffer, and finished, is appended to its output buffer as one zlib stream that
    inflates to exactly the bytes written: every call returns [true], the loops
    end, no assertion fails whatever sizes [deflate] takes and makes, the counters
    are the lengths, the input buffer is emptied, and later writes are refused.
    zlib is any implementation of [deflate_contract]; the pieces and the output
    buffer stay below 2 GiB. *)
Theorem zlib_roundtrip inflate remaining out bufs inp fuel :
  deflate_contract inflate remaining -> wf out -> wf inp -> zlen (content inp) < 2 ^ 31 ->
  Forall (fun b => zlen b < 2 ^ 31) bufs -> zlen (concat bufs ++ content inp) < 2 ^ 63 ->
  let K := remaining (deflateInit.2) (concat bufs ++ content inp) in
  fits K (new_stream out) -> (Z.to_nat K + 1 < fuel)%nat ->
  exists s1 s2 inp' s3 z,
    write_pieces fuel bufs (new_stream out) = Some (Ok (s1, true)) /\
    drain fuel inp s1 = Some (Ok (s2, inp', true)) /\ finish fuel s2 = Some (Ok (s3, true)) /\
    content (output_ s3) = content out ++ z /\ inflate z = Some (concat bufs ++ content inp) /\
    content inp' = [] /\ inputBytes s3 = zlen (concat bufs ++ content inp) /\ outputBytes s3 = zlen z /\
    forall buf, write fuel buf s3 = Some (Ok (s3, false)).
Proof.
  intros C Hout Hinp Hli Hl Hlen K Hfit Hf.
  assert (ready remaining K None (content out) [] [] (concat bufs ++ content inp ++ []) (new_stream out)) as Hr.
  { rewrite app_nil_r. split; [|split; [apply (init_ok _ _ C)|split; [done|done]]].
    constructor; simpl; try done; [by rewrite app_nil_r|constructor|set_solver]. }
  destruct (write_pieces_spec inflate remaining C K (content out) (content inp ++ []) fuel Hf bufs [] [] (new_stream out))
    as (s1 & o1 & E1 & Hr1 & Hid1); [done|done|done|].
  destruct (drain_spec inflate remaining C K (content out) [] fuel inp (concat bufs) o1 s1)
    as (s2 & inp' & o2 & E2 & Hr2 & Hin2 & Hb' & Hc'); [done|intros _; by apply idle_input|done|done| |].
  { destruct Hr1 as (_ & _ & _ & HK). lia. }
  destruct (finish_loop_spec inflate remaining C K (content out) fuel None (concat bufs ++ content inp) o2 s2)
    as (s3 & z & E3 & Hb3 & Hc3 & Hz & Hend & Ht & Hto); [by rewrite Hin2|by left| |].
  { destruct Hr2 as (_ & _ & _ & HK). rewrite Hin2. lia. }
  rewrite Hin2, app_nil_r in *. exists s1, s2, inp', (set_zerror Z_STREAM_END s3), z.
  split; [done|]. split; [done|]. unfold finish. rewrite (proj1 (proj2 Hr2)), E3. cbn [negb Z.eqb Z_OK]. rewrite Hend.
  split; [done|]. unfold inputBytes, outputBytes. cbn [total_in total_out set_zerror output_].
  pose proof (content_len (output_ s3) Hb3) as Hlz. destruct Hb3 as (_ & Hmx & ? & ?). rewrite Hc3, zlen_app in Hlz.
  pose proof (zlen_nonneg z). pose proof (zlen_nonneg (content out)). unfold max_size in Hmx.
  pose proof (zlen_nonneg (concat bufs ++ content inp)). rewrite Ht, Hto, !u64_small, !i64_small by lia.
  split_and!; try done.
Qed.

End Stream.

(** A codec that keeps its input until the stream is finished, and refuses what
    zlib refuses: input after [Z_FINISH] ([Z_STREAM_ERROR], [Z_BUF_ERROR]) and
    an early release ([Z_DATA_ERROR]).  It satisfies the contract.  Its state is
    whether the stream is being finished, and the bytes it holds. *)
#[local] Instance holding : Zlib (bool * list byte) := {
  deflateInit := (Z_OK, (false, []));
  deflate := fun '(finishing, held) inp n flush =>
    if negb (flush =? Z_FINISH)
    then if finishing then mkDeflated (-2) 0 [] (finishing, held)
         else mkDeflated Z_OK (zlen inp) [] (false, held ++ inp)
    else if finishing && negb (zlen inp =? 0) then mkDeflated (-5) 0 [] (finishing, held)
    else mkDeflated (if zlen (held ++ inp) <=? n then Z_STREAM_END else Z_OK)
           (zlen inp) (ztake n (held ++ inp)) (true, zdrop n (held ++ inp));
  deflateEnd := fun '(finishing, held) => if finishing && (zlen held =? 0) then Z_OK else -3
}.

Lemma zlen_take_min {A} n (l : list A) : 0 <= n -> zlen (ztake n l) = Z.min n (zlen l).
Proof. intros. unfold zlen, ztake. rewrite length_take. lia. Qed.

Lemma zlen_drop_max {A} n (l : list A) : 0 <= n -> zlen (zdrop n l) = Z.max 0 (zlen l - n).
Proof. intros. unfold zlen, zdrop. rewrite length_drop. lia. Qed.

Lemma holding_holds p (d : bool * list byte) i o :
  deflated p d i o -> i = o ++ d.2 /\ p = if d.1 then Some [] else None.
Proof.
  induction 1 as [|p [fin held] i o inp n flush _ [-> ->] [Hn [_ Hal]] Hcode]; [done|].
  simpl in *. unfold next_phase. destruct fin; [destruct Hal as [-> ->]|destruct Hal as [[-> _]| ->]]; simpl in *.
  - by rewrite <-!app_assoc, !app_nil_r, ztake_zdrop.
  - by rewrite app_nil_r, ztake_all, <-app_assoc.
  - by rewrite ztake_all, <-!app_assoc, ztake_zdrop, zdrop_all.
Qed.

Lemma holding_contract : deflate_contract Some (fun (d : bool * list byte) inp => zlen d.2 + zlen inp).
Proof.
  constructor; simpl; try done.
  - intros p [fin held] i o inp n flush Hd (Hn & _ & Hal). destruct (holding_holds _ _ _ _ Hd) as [-> ->].
    pose proof (zlen_nonneg inp). pose proof (zlen_nonneg (held ++ inp)).
    simpl in *. destruct fin; [destruct Hal as [-> ->]|destruct Hal as [[-> _]| ->]]; simpl;
      rewrite ?zlen_take_min; lia || (unfold zlen; simpl; lia).
  - intros p [fin held] i o inp n Hd (Hn & _ & Hal). destruct (holding_holds _ _ _ _ Hd) as [-> ->].
    simpl in *. destruct fin; [by destruct Hal|]. simpl. auto.
  - intros p [fin held] i o inp n Hd (Hn & _ & Hal). destruct (holding_holds _ _ _ _ Hd) as [-> ->].
    simpl in *. assert (fin && negb (zlen inp =? 0) = false) as -> by (destruct fin; [by destruct Hal as [_ ->]|done]).
    simpl. rewrite zlen_take_min by lia. destruct (Z.leb_spec (zlen (held ++ inp)) n); [left|right]; split; lia || done.
  - intros p [fin held] i o inp rest n flush Hd (Hn & _ & Hal) Hfl. destruct (holding_holds _ _ _ _ Hd) as [-> ->].
    pose proof (zlen_nonneg inp). pose proof (zlen_nonneg held).
    simpl in *. destruct fin; [destruct Hal as [-> ->]|destruct Hal as [[-> _]| ->]]; simpl.
    + rewrite Hfl, !app_nil_r, zlen_take_min, zlen_drop_max by (lia || done). unfold zlen; simpl; lia.
    + rewrite (zdrop_all (zlen inp)), !zlen_app by lia. unfold zlen; simpl; lia.
    + rewrite Hfl by done. rewrite !app_nil_r, (zdrop_all (zlen inp)), zlen_take_min, zlen_drop_max, zlen_app by lia.
      unfold zlen; simpl; lia.
  - intros [fin held] inp. pose proof (zlen_nonneg inp). pose proof (zlen_nonneg held). simpl. lia.
  - intros p [fin held] i o inp n Hd (Hn & _ & Hal) Hcode. destruct (holding_holds _ _ _ _ Hd) as [-> ->]. simpl in *.
    assert (fin && negb (zlen inp =? 0) = false) as E by (destruct fin; [by destruct Hal as [_ ->]|done]).
    rewrite E in *. simpl in *. destruct (Z.leb_spec (zlen (held ++ inp)) n); [|done].
    by rewrite ztake_all, zdrop_all, app_assoc by lia.
Qed.

Lemma zlib_roundtrip_witness :
  let out := mkBuffer (replicate 16 Byte.x00) 8 8 in
  let bufs := [bytes "GET "; []; replicate 3000 Byte.x61] in
  let inp := mkBuffer (replicate 3000 Byte.x62) 8 2990 in
  exists s1 s2 inp' s3 z,
    write_pieces 7000 bufs (new_stream out) = Some (Ok (s1, true)) /\
    drain 7000 inp s1 = Some (Ok (s2, inp', true)) /\ finish 7000 s2 = Some (Ok (s3, true)) /\
    content (output_ s3) = content out ++ z /\ Some z = Some (concat bufs ++ content inp) /\
    content inp' = [] /\ inputBytes s3 = zlen (concat bufs ++ content inp) /\ outputBytes s3 = zlen z /\
    forall buf, write 7000 buf s3 = Some (Ok (s3, false)).
Proof.
  intros out bufs inp. apply (zlib_roundtrip Some (fun (d : bool * list byte) i => zlen d.2 + zlen i) out bufs inp 7000).
  - apply holding_contract.
  - split_and!; vm_compute; congruence.
  - split_and!; vm_compute; congruence.
  - vm_compute. congruence.
  - repeat constructor; vm_compute; congruence.
  - vm_compute. congruence.
  - vm_compute. congruence.
  - apply Nat.ltb_lt. vm_compute. done.
Defined.
End ZlibStream.
