(* ===== verification/GzipFile.v ===== *)
(** * Compressed files ([src/base/GzipFile.h])

    zlib's file functions are a parameter: what they return, and a handle a
    successful [gzopen] has not returned before.  The objects of a program live
    at addresses; which handles are open and which were closed is its state. *)

From S2P Require Import Prelude.

Module GzipFile.

(** [gzFile], null when [gzopen] failed. *)
Definition gzFile : Type := option nat.

Record GzipFile := mkGzip { file_ : gzFile }.

(** The objects, the number of handles [gzopen] has returned, and the handles
    [gzclose] was called with. *)
Record program := mkProgram {
  objects : gmap nat GzipFile;
  opened : nat;
  closes : list nat }.

Definition new_program : program := mkProgram ∅ 0 [].

(** The arguments [gzopen] is called with by the four ways to open a file. *)
Inductive mode := ForRead | ForAppend | ForWriteExclusive | ForWriteTruncate.
Definition mode_text (m : mode) : list byte :=
  match m with
  | ForRead => bytes "rbe" | ForAppend => bytes "abe" | ForWriteExclusive => bytes "wbxe" | ForWriteTruncate => bytes "wbe"
  end.

(** An open function makes the object; [ok] is whether [gzopen] succeeds. *)
Definition open_ (ok : bool) (a : nat) (p : program) : program :=
  if ok then mkProgram (<[a := mkGzip (Some (opened p))]> (objects p)) (S (opened p)) (closes p)
  else mkProgram (<[a := mkGzip None]> (objects p)) (opened p) (closes p).

Definition valid (f : GzipFile) : bool := match file_ f with Some _ => true | None => false end.

(** [GzipFile(GzipFile&& rhs)] at [a], with [rhs] at [b]. *)
Definition move_construct (a b : nat) (p : program) : program :=
  match objects p !! b with
  | Some rhs => mkProgram (<[a := mkGzip (file_ rhs)]> (<[b := mkGzip None]> (objects p))) (opened p) (closes p)
  | None => p
  end.

Definition swap (a b : nat) (p : program) : program :=
  match objects p !! a, objects p !! b with
  | Some x, Some y => mkProgram (<[a := mkGzip (file_ y)]> (<[b := mkGzip (file_ x)]> (objects p))) (opened p) (closes p)
  | _, _ => p
  end.

(** [operator=(GzipFile&&)] *)
Definition move_assign (a b : nat) (p : program) : program := swap a b p.

Definition dtor (a : nat) (p : program) : program :=
  match objects p !! a with
  | Some f => mkProgram (delete a (objects p)) (opened p)
                (match file_ f with Some h => closes p ++ [h] | None => closes p end)
  | None => p
  end.

(** ** Forwarding to zlib *)

Section zlib.
(** What zlib's functions return; [None] is the null handle. *)
Context (gzread : gzFile -> Z -> Z) (gzwrite : gzFile -> list byte -> Z) (gztell gzoffset : gzFile -> Z) (gzbuffer : gzFile -> Z -> Z).

Definition setBuffer (f : GzipFile) (size : Z) : bool := gzbuffer (file_ f) size =? 0.
Definition read (f : GzipFile) (len : Z) : Z := gzread (file_ f) len.
Definition write (f : GzipFile) (buf : list byte) : Z := gzwrite (file_ f) buf.
Definition tell (f : GzipFile) : Z := gztell (file_ f).
Definition offset (f : GzipFile) : Z := gzoffset (file_ f).
End zlib.

(** ** Ownership *)

Inductive action :=
  | Open (m : mode) (ok : bool) (a : nat)
  | MoveConstruct (a b : nat)
  | MoveAssign (a b : nat)
  | Swap (a b : nat)
  | Destroy (a : nat).

(** An object is made where there is none; the others exist. *)
Definition allowed (act : action) (p : program) : bool :=
  match act with
  | Open _ _ a => bool_decide (objects p !! a = None)
  | MoveConstruct a b => bool_decide (objects p !! a = None) && bool_decide (is_Some (objects p !! b))
  | MoveAssign a b | Swap a b => bool_decide (is_Some (objects p !! a)) && bool_decide (is_Some (objects p !! b))
  | Destroy a => bool_decide (is_Some (objects p !! a))
  end.

Definition perform (act : action) (p : program) : program :=
  match act with
  | Open _ ok a => open_ ok a p
  | MoveConstruct a b => move_construct a b p
  | MoveAssign a b => move_assign a b p
  | Swap a b => swap a b p
  | Destroy a => dtor a p
  end.

Inductive reachable : program -> Prop :=
  | reachable_new : reachable new_program
  | reachable_act act p : reachable p -> allowed act p = true -> reachable (perform act p).

(** The object at [a] holds the handle [h]. *)
Definition holds (p : program) (a h : nat) : Prop := file_ <$> objects p !! a = Some (Some h).

(** Every handle is held by one object, or was closed once. *)
Record owned (p : program) : Prop := {
  o_unique a b h : holds p a h -> holds p b h -> a = b;
  o_open a h : holds p a h -> (h < opened p)%nat /\ h ∉ closes p;
  o_closed h : h ∈ closes p -> (h < opened p)%nat;
  o_once : NoDup (closes p);
  o_kept h : (h < opened p)%nat -> h ∈ closes p \/ exists a, holds p a h }.

Lemma holds_insert p a f n cs c h :
  holds (mkProgram (<[a := f]> (objects p)) n cs) c h <-> (c = a /\ file_ f = Some h) \/ (c <> a /\ holds p c h).
Proof.
  unfold holds. cbn [objects]. destruct (decide (c = a)) as [->|Hne].
  - rewrite lookup_insert_eq. cbn [fmap option_fmap option_map]. split; [intros [= ->]; by left|by intros [[_ ->]|[? _]]].
  - rewrite lookup_insert_ne by done. split; [by right|by intros [[? _]|[_ ?]]].
Qed.

Lemma owned_open ok a p : objects p !! a = None -> owned p -> owned (open_ ok a p).
Proof.
  intros Ha Ho. assert (forall h, ~ holds p a h) as Hno by (intros h; unfold holds; by rewrite Ha).
  unfold open_. destruct ok; constructor; cbn [opened closes]; try setoid_rewrite holds_insert; cbn [file_].
  - intros c d h Hc Hd. destruct Hc as [[-> [= <-]]|[_ Hc]], Hd as [[-> Hd]|[_ Hd]]; [done| | |by eapply (o_unique _ Ho)].
    + apply (o_open _ Ho) in Hd. lia.
    + injection Hd as <-. apply (o_open _ Ho) in Hc. lia.
  - intros c h [[_ [= <-]]|[_ Hc]]; [split; [lia|]|].
    + intros Hh%(o_closed _ Ho). lia.
    + apply (o_open _ Ho) in Hc as [? ?]. split; [lia|done].
  - intros h Hh%(o_closed _ Ho). lia.
  - apply Ho.
  - intros h Hh. destruct (decide (h = opened p)) as [->|]; [right; exists a; by left|].
    destruct (o_kept _ Ho h) as [?|[c Hc]]; [lia|by left|]. right. exists c. right. split; [|done]. intros ->. by apply (Hno h).
  - intros c d h [[_ ?]|[_ Hc]] [[_ ?]|[_ Hd]]; try done. by eapply (o_unique _ Ho).
  - intros c h [[_ ?]|[_ Hc]]; [done|]. by apply (o_open _ Ho) in Hc.
  - apply Ho.
  - apply Ho.
  - intros h Hh. destruct (o_kept _ Ho h Hh) as [?|[c Hc]]; [by left|]. right. exists c. right. split; [|done]. intros ->. by apply (Hno h).
Qed.

(** A change of the objects that renames the holders keeps ownership: moves and
    swaps do. *)
Lemma owned_permute p p' (g : nat -> nat) :
  opened p' = opened p -> closes p' = closes p -> (forall a, g (g a) = a) ->
  (forall a h, holds p' a h <-> holds p (g a) h) -> owned p -> owned p'.
Proof.
  intros En Ec Hg Hh Ho. constructor; rewrite ?En, ?Ec.
  - intros a b h Ha%Hh Hb%Hh. rewrite <- (Hg a), <- (Hg b). f_equal. by eapply (o_unique _ Ho).
  - intros a h Ha%Hh. by apply (o_open _ Ho) in Ha.
  - apply Ho.
  - apply Ho.
  - intros h Hl. destruct (o_kept _ Ho h Hl) as [?|[a Ha]]; [by left|]. right. exists (g a). apply Hh. by rewrite Hg.
Qed.

(** The names [a] and [b] exchanged. *)
Definition exchange (a b c : nat) : nat := if decide (c = a) then b else if decide (c = b) then a else c.

Lemma exchange_twice a b c : exchange a b (exchange a b c) = c.
Proof. unfold exchange. repeat case_decide; congruence. Qed.

Lemma swap_holds a b p c h :
  is_Some (objects p !! a) -> is_Some (objects p !! b) -> holds (swap a b p) c h <-> holds p (exchange a b c) h.
Proof.
  intros [x Hx] [y Hy]. unfold swap, exchange, holds. rewrite Hx, Hy. cbn [objects].
  destruct (decide (c = a)) as [->|Hca]; [by rewrite lookup_insert_eq, Hy|]. rewrite lookup_insert_ne by done.
  destruct (decide (c = b)) as [->|]; [by rewrite lookup_insert_eq, Hx|by rewrite lookup_insert_ne].
Qed.

Lemma move_construct_holds a b p c h :
  objects p !! a = None -> is_Some (objects p !! b) -> holds (move_construct a b p) c h <-> holds p (exchange a b c) h.
Proof.
  intros Ha [y Hy]. unfold move_construct, exchange, holds. rewrite Hy. cbn [objects].
  destruct (decide (c = a)) as [->|Hca]; [by rewrite lookup_insert_eq, Hy|]. rewrite lookup_insert_ne by done.
  destruct (decide (c = b)) as [->|]; [by rewrite lookup_insert_eq, Ha|by rewrite lookup_insert_ne].
Qed.

Lemma owned_dtor a p : is_Some (objects p !! a) -> owned p -> owned (dtor a p).
Proof.
  intros [f Hf] Ho. unfold dtor. rewrite Hf.
  set (p' := mkProgram _ _ _).
  assert (forall c h, holds p' c h <-> c <> a /\ holds p c h) as Hh.
  { intros c h. unfold holds, p'. cbn [objects]. destruct (decide (c = a)) as [->|]; [rewrite lookup_delete_eq|rewrite lookup_delete_ne by done]; (split; [done|by intros [? ?]]). }
  assert (forall h, h ∈ closes p' <-> h ∈ closes p \/ holds p a h) as Hc.
  { intros h. unfold p', holds. cbn [closes]. rewrite Hf. cbn [fmap option_fmap option_map].
    destruct (file_ f) as [g|]; [rewrite elem_of_app, list_elem_of_singleton|].
    - split; [intros [?| ->]; [by left|by right]|intros [?|[= ->]]; [by left|by right]].
    - split; [by left|by intros [?|?]]. }
  constructor.
  - intros c d h [_ Hc1]%Hh [_ Hd1]%Hh. by eapply (o_unique _ Ho).
  - intros c h [Hne Hc1]%Hh. destruct (o_open _ Ho _ _ Hc1) as [? ?]. split; [done|]. intros [?|Ha]%Hc; [done|].
    apply Hne. by eapply (o_unique _ Ho).
  - intros h [?%(o_closed _ Ho)|Ha]%Hc; [done|]. by destruct (o_open _ Ho _ _ Ha).
  - unfold p'. cbn [closes]. destruct (file_ f) as [g|] eqn:Eg; [|apply Ho]. apply NoDup_app. split; [apply Ho|]. split; [|apply NoDup_singleton].
    intros h Hh1 ->%list_elem_of_singleton. apply (o_open _ Ho a g) in Hh1; [done|]. unfold holds. by rewrite Hf, <- Eg.
  - intros h Hl. destruct (o_kept _ Ho h Hl) as [?|[c Hc1]]; [left; apply Hc; by left|].
    destruct (decide (c = a)) as [->|]; [left; apply Hc; by right|]. right. exists c. by apply Hh.
Qed.

Lemma reachable_owned p : reachable p -> owned p.
Proof.
  induction 1 as [|act p _ IH Ha].
  - assert (forall a h, ~ holds new_program a h) as Hno by (intros a h; unfold holds; cbn [objects new_program]; by rewrite lookup_empty).
    constructor; cbn [closes opened new_program].
    + by intros a b h ?%Hno.
    + by intros a h ?%Hno.
    + by intros h ?%not_elem_of_nil.
    + apply NoDup_nil_2.
    + lia.
  - destruct act as [m ok a|a b|a b|a b|a]; cbn in Ha |- *.
    + apply bool_decide_eq_true in Ha. by apply owned_open.
    + apply andb_true_iff in Ha as [H1%bool_decide_eq_true H2%bool_decide_eq_true].
      apply (owned_permute p _ (exchange a b)); [| |apply exchange_twice|intros; by apply move_construct_holds|done];
        unfold move_construct; by destruct (objects p !! b).
    + apply andb_true_iff in Ha as [H1%bool_decide_eq_true H2%bool_decide_eq_true].
      apply (owned_permute p _ (exchange a b)); [| |apply exchange_twice|intros; by apply swap_holds|done];
        unfold move_assign, swap; destruct (objects p !! a), (objects p !! b); done.
    + apply andb_true_iff in Ha as [H1%bool_decide_eq_true H2%bool_decide_eq_true].
      apply (owned_permute p _ (exchange a b)); [| |apply exchange_twice|intros; by apply swap_holds|done];
        unfold swap; destruct (objects p !! a), (objects p !! b); done.
    + apply bool_decide_eq_true in Ha. by apply owned_dtor.
Qed.

(** However the objects are opened, moved, assigned, swapped and destroyed: no
    handle is closed twice or used after it was closed, and once all objects are
    gone every handle [gzopen] returned has been closed. *)
Theorem gzip_closed_once p :
  reachable p ->
  NoDup (closes p) /\ (forall a h, holds p a h -> h ∉ closes p) /\
  (objects p = ∅ -> forall h, (h < opened p)%nat <-> h ∈ closes p).
Proof.
  intros Ho%reachable_owned. split; [apply Ho|]. split; [intros a h Ha; by destruct (o_open _ Ho _ _ Ha)|].
  intros He h. split; [|apply Ho]. intros Hl. destruct (o_kept _ Ho h Hl) as [?|[a Ha]]; [done|]. unfold holds in Ha. by rewrite He, lookup_empty in Ha.
Qed.

(** Assigning to an object that holds a file does not close that file: it stays
    open in the object assigned from, until that one is destroyed. *)
Example assignment_keeps_old_file :
  let p := move_assign 0 1 (open_ true 1 (open_ true 0 new_program)) in
  closes p = [] /\ file_ <$> objects p !! 1%nat = Some (Some 0%nat) /\ closes (dtor 1 p) = [0%nat].
Proof. split_and!; reflexivity. Qed.
End GzipFile.
