(* ===== verification/Date.v ===== *)
(** * Julian day numbers and the Gregorian calendar
    ([src/base/Date.h], [src/base/Date.cpp])

    The arithmetic is C [int] arithmetic; the reference is the calendar
    itself: month lengths, leap years and the day after a day. *)

From S2P Require Import Prelude Decimal.

Module Date.

Record YearMonthDay := mkYMD { year : Z; month : Z; day : Z }.

#[global] Instance ymd_eq_dec : EqDecision YearMonthDay.
Proof. solve_decision. Defined.

Definition getJulianDayNumber (year month day : Z) : Z :=
  (let a := (14 - month) / 12 in
   let y := year + 4800 - a in
   let m := month + 12 * a - 3 in
   day + (153 * m + 2) / 5 + y * 365 + y / 4 - y / 100 + y / 400 - 32045)%int.

Definition getYearMonthDay (julianDayNumber : Z) : YearMonthDay :=
  (let a := julianDayNumber + 32044 in
   let b := (4 * a + 3) / 146097 in
   let c := a - (b * 146097) / 4 in
   let d := (4 * c + 3) / 1461 in
   let e := c - (1461 * d) / 4 in
   let m := (5 * e + 2) / 153 in
   mkYMD (b * 100 + d - 4800 + m / 10)
         (m + 3 - 12 * (m / 10))
         (e - (153 * m + 2) / 5 + 1))%int.

Definition kJulianDayOf1970_01_01 : Z := getJulianDayNumber 1970 1 1.
Definition kDaysPerWeek : Z := 7.

(** A [Date] is its Julian day number. *)
Definition date_of (y m d : Z) : Z := getJulianDayNumber y m d.
Definition invalid_date : Z := 0.
Definition valid (julianDayNumber_ : Z) : bool := julianDayNumber_ >? 0.
Definition weekDay (julianDayNumber_ : Z) : Z := ((julianDayNumber_ + 1) %% kDaysPerWeek)%int.

(** From a [struct tm], whose years count from 1900 and whose months from 0. *)
Definition date_of_tm (tm_year tm_mon tm_mday : Z) : Z := getJulianDayNumber (tm_year + 1900)%int (tm_mon + 1)%int tm_mday.

Definition year_of (julianDayNumber_ : Z) : Z := year (getYearMonthDay julianDayNumber_).
Definition month_of (julianDayNumber_ : Z) : Z := month (getYearMonthDay julianDayNumber_).
Definition day_of (julianDayNumber_ : Z) : Z := day (getYearMonthDay julianDayNumber_).

(** [operator<] and [operator==] *)
Definition date_lt (x y : Z) : bool := x <? y.
Definition date_eq (x y : Z) : bool := x =? y.

(** [snprintf(buf, 32, "%4d-%02d-%02d", ...)] *)
Definition toIsoString (julianDayNumber_ : Z) : list byte :=
  let ymd := getYearMonthDay julianDayNumber_ in
  snprintf 32 (decw 4 (year ymd) ++ bytes "-" ++ dec0 2 (month ymd) ++ bytes "-" ++ dec0 2 (day ymd)).

(** ** The calendar *)

Definition is_leap (y : Z) : bool :=
  (y mod 4 =? 0) && (negb (y mod 100 =? 0) || (y mod 400 =? 0)).

Definition days_in_month (y m : Z) : Z :=
  if m =? 2 then (if is_leap y then 29 else 28)
  else if (m =? 4) || (m =? 6) || (m =? 9) || (m =? 11) then 30
  else 31.

Definition valid_ymd (x : YearMonthDay) : Prop :=
  1 <= month x <= 12 /\ 1 <= day x <= days_in_month (year x) (month x).

Definition next_day (x : YearMonthDay) : YearMonthDay :=
  if day x <? days_in_month (year x) (month x) then mkYMD (year x) (month x) (day x + 1)
  else if month x <? 12 then mkYMD (year x) (month x + 1) 1
  else mkYMD (year x + 1) 1 1.

(** The day number of a date. *)
Definition jdn_of (x : YearMonthDay) : Z := getJulianDayNumber (year x) (month x) (day x).

(** ** The arithmetic without the width

    Years from March: [y] counts them from 1 March -4800, [m] the months. *)
Definition jdn (y m : Z) (d : Z) : Z :=
  d + (153 * m + 2) / 5 + y * 365 + y / 4 - y / 100 + y / 400 - 32045.

(** Lets [lia] use division by constants. *)
Ltac divlia := Z.to_euclidean_division_equations; lia.

(** The dates whose conversion stays within [int]: 1 March -4800 to the
    year 1460000. *)
Definition in_range (x : YearMonthDay) : Prop := -4800 < year x <= 1460000.

(** Removes, innermost first, the conversions to [int] that change nothing. *)
Ltac unwrap :=
  repeat match goal with
  | |- context [wraps 32 ?z] =>
      lazymatch z with
      | context [wraps _ _] => fail
      | _ => rewrite (i32_small z) by divlia
      end
  end.

Lemma getJulianDayNumber_eq y m d :
  1 <= m <= 12 -> 0 <= d <= 31 -> -4800 < y <= 1460000 ->
  getJulianDayNumber y m d =
    if m <=? 2 then jdn (y + 4799) (m + 9) d else jdn (y + 4800) (m - 3) d.
Proof.
  intros Hm Hd Hy. unfold getJulianDayNumber, jdn. cbv zeta.
  rewrite (i32_small (14 - m)) by lia.
  destruct (Z.leb_spec m 2).
  - replace (Z.quot (14 - m) 12) with 1 by divlia. unwrap. divlia.
  - replace (Z.quot (14 - m) 12) with 0 by divlia. unwrap. divlia.
Qed.

(** How [getYearMonthDay] takes a day number apart: centuries [b], years [d],
    days [e] from 1 March and months [m]. *)
Lemma getYearMonthDay_parts j :
  -32044 <= j <= 536838866 ->
  exists b c d e m,
    0 <= b /\ 0 <= c <= 36524 /\ (c = 36524 -> b mod 4 = 3) /\ j + 32044 = 36524 * b + b / 4 + c /\
    0 <= d <= 99 /\ 0 <= e <= 365 /\ (e = 365 -> d mod 4 = 3) /\ c = 365 * d + d / 4 + e /\
    0 <= m <= 11 /\ m = (5 * e + 2) / 153 /\
    getYearMonthDay j =
      mkYMD (100 * b + d - 4800 + m / 10) (m + 3 - 12 * (m / 10)) (e - (153 * m + 2) / 5 + 1).
Proof.
  intros Hj. unfold getYearMonthDay. cbv zeta.
  rewrite (i32_small (j + 32044)) by lia. remember (j + 32044) as a eqn:Ea.
  assert (0 <= a <= 536870910) as Ha by lia.
  remember ((4 * a + 3) / 146097) as b eqn:Eb.
  assert (0 <= b <= 14700 /\ 146097 * b <= 4 * a + 3 < 146097 * b + 146097) as [Hb Hb'] by divlia.
  replace (wraps 32 (Z.quot _ 146097)) with b
    by (unwrap; rewrite Z.quot_div_nonneg by lia; unwrap; done).
  remember (a - 146097 * b / 4) as c eqn:Ec.
  assert (0 <= c <= 36524 /\ (c = 36524 -> b mod 4 = 3) /\ a = 36524 * b + b / 4 + c)
    as (Hc & Hc3 & Hac) by divlia.
  replace (wraps 32 (a - _)) with c by (unwrap; divlia).
  remember ((4 * c + 3) / 1461) as d eqn:Ed.
  assert (0 <= d <= 99 /\ 1461 * d <= 4 * c + 3 < 1461 * d + 1461) as [Hd Hd'] by divlia.
  replace (wraps 32 (Z.quot _ 1461)) with d
    by (unwrap; rewrite Z.quot_div_nonneg by lia; unwrap; done).
  remember (c - 1461 * d / 4) as e eqn:Ee.
  assert (0 <= e <= 365 /\ (e = 365 -> d mod 4 = 3) /\ c = 365 * d + d / 4 + e)
    as (He & He3 & Hce) by divlia.
  replace (wraps 32 (c - _)) with e by (unwrap; divlia).
  remember ((5 * e + 2) / 153) as m eqn:Em. assert (0 <= m <= 11) as Hm by divlia.
  replace (wraps 32 (Z.quot _ 153)) with m
    by (unwrap; rewrite Z.quot_div_nonneg by lia; unwrap; done).
  exists b, c, d, e, m. split_and!; try done; try lia.
  assert (0 <= m / 10 <= 1) by divlia. f_equal; unwrap; divlia.
Qed.

(** Evaluates the closed quotients and comparisons of the goal. *)
Ltac zeval :=
  repeat match goal with
  | |- context [Z.div ?x ?y] =>
      let v := eval vm_compute in (Z.div x y) in
      lazymatch v with
      | Z0 => change (Z.div x y) with v
      | Zpos _ => change (Z.div x y) with v
      end
  | |- context [Z.eqb ?x ?y] =>
      let v := eval vm_compute in (Z.eqb x y) in
      lazymatch v with
      | true => change (Z.eqb x y) with true
      | false => change (Z.eqb x y) with false
      end
  | |- context [Z.leb ?x ?y] =>
      let v := eval vm_compute in (Z.leb x y) in
      lazymatch v with
      | true => change (Z.leb x y) with true
      | false => change (Z.leb x y) with false
      end
  end; cbn [orb andb negb].

(** Splits on the month, so that month offsets become numbers. *)
Ltac month_cases m :=
  assert (m = 0 \/ m = 1 \/ m = 2 \/ m = 3 \/ m = 4 \/ m = 5 \/ m = 6 \/ m = 7 \/ m = 8 \/
          m = 9 \/ m = 10 \/ m = 11) as Hmonth by lia;
  destruct Hmonth as [->|[->|[->|[->|[->|[->|[->|[->|[->|[->|[->| ->]]]]]]]]]]].

Lemma is_leapP y : is_leap y = true <-> y mod 4 = 0 /\ (y mod 100 <> 0 \/ y mod 400 = 0).
Proof.
  unfold is_leap.
  destruct (Z.eqb_spec (y mod 4) 0), (Z.eqb_spec (y mod 100) 0), (Z.eqb_spec (y mod 400) 0);
    simpl; intuition lia.
Qed.

Lemma is_leap_false y : is_leap y = false <-> y mod 4 <> 0 \/ (y mod 100 = 0 /\ y mod 400 <> 0).
Proof.
  unfold is_leap.
  destruct (Z.eqb_spec (y mod 4) 0), (Z.eqb_spec (y mod 100) 0), (Z.eqb_spec (y mod 400) 0);
    simpl; intuition lia.
Qed.

Ltac leap_cases :=
  match goal with
  | |- context [is_leap ?y] =>
      let E := fresh "Eleap" in
      destruct (is_leap y) eqn:E; [apply is_leapP in E|apply is_leap_false in E]
  end.

(** The date of every day number is a date of the calendar. *)
Lemma getYearMonthDay_valid j :
  -32044 <= j <= 536838866 -> valid_ymd (getYearMonthDay j).
Proof.
  intros Hj. destruct (getYearMonthDay_parts j Hj)
    as (b & c & d & e & m & Hb & Hc & Hc3 & Hac & Hd & He & He3 & Hce & Hm & Hme & ->).
  unfold valid_ymd. simpl. split; [divlia|]. unfold days_in_month.
  month_cases m;
    zeval; try (split; divlia).
  leap_cases; split; divlia.
Qed.

(** First day of the March-based year [y]. *)
Definition year_start (y : Z) : Z := y * 365 + y / 4 - y / 100 + y / 400.

(** Day of the March-based year of day [d] of its month [m]. *)
Definition year_day (m d : Z) : Z := d - 1 + (153 * m + 2) / 5.

Lemma jdn_year_day y m d : jdn y m d = year_start y + year_day m d - 32044.
Proof. unfold jdn, year_start, year_day. lia. Qed.

Lemma year_start_mono y y' : 0 <= y -> y < y' -> year_start (y + 1) <= year_start y'.
Proof.
  intros Hy Hlt. unfold year_start.
  assert (exists k, y' = y + 1 + k /\ 0 <= k) as (k & -> & Hk) by (exists (y' - y - 1); lia).
  clear Hlt.
  pose proof (Z.div_le_mono (y + 1) (y + 1 + k) 4).
  pose proof (Z.div_le_mono (y + 1) (y + 1 + k) 400).
  assert ((y + 1 + k) / 100 <= (y + 1) / 100 + k + 1) by divlia.
  assert ((y + 1 + k) / 100 - (y + 1) / 100 <= k) by divlia. lia.
Qed.

(** The March-based year and month of a date, its position in [getJulianDayNumber]. *)
Definition march_year (x : YearMonthDay) : Z :=
  if month x <=? 2 then year x + 4799 else year x + 4800.
Definition march_month (x : YearMonthDay) : Z :=
  if month x <=? 2 then month x + 9 else month x - 3.

Lemma march_month_range x : valid_ymd x -> 0 <= march_month x <= 11.
Proof. intros [? ?]. unfold march_month. destruct (Z.leb_spec (month x) 2); lia. Qed.

Lemma days_in_month_le y m : 28 <= days_in_month y m <= 31.
Proof. unfold days_in_month. repeat case_match; lia. Qed.

Lemma date_jdn x :
  valid_ymd x -> in_range x ->
  jdn_of x =
    year_start (march_year x) + year_day (march_month x) (day x) - 32044.
Proof.
  intros [Hm Hd] Hr. pose proof (days_in_month_le (year x) (month x)).
  unfold jdn_of. rewrite getJulianDayNumber_eq by (unfold in_range in *; lia).
  unfold march_year, march_month.
  destruct (month x <=? 2); apply jdn_year_day.
Qed.

(** The day within its year fits in that year ... *)
Lemma year_day_range x :
  valid_ymd x -> in_range x ->
  0 <= year_day (march_month x) (day x) < year_start (march_year x + 1) - year_start (march_year x).
Proof.
  intros [Hm Hd] Hr. unfold in_range in Hr. destruct x as [y m d]; simpl in *.
  unfold march_year, march_month, year_day, year_start. simpl.
  unfold days_in_month in Hd.
  assert (m = 1 \/ m = 2 \/ 2 < m) as [->|[->|Hm2]] by lia; zeval; zeval.
  - change (1 <=? 2) with true. cbn. cbn in Hd. split; divlia.
  - change (2 <=? 2) with true. cbn. change (2 =? 2) with true in Hd. cbn in Hd. revert Hd.
    leap_cases; intros; split; divlia.
  - rewrite (proj2 (Z.leb_gt m 2)) by lia.
    assert (d <= 31) by (revert Hd; repeat case_match; lia).
    split; divlia.
Qed.

(** ... and gives the month back. *)
Lemma year_day_month x :
  valid_ymd x -> march_month x = (5 * year_day (march_month x) (day x) + 2) / 153.
Proof.
  intros [Hm Hd]. destruct x as [y m d]; simpl in *.
  unfold march_month, year_day. simpl. unfold days_in_month in Hd.
  assert (m = 1 \/ m = 2 \/ m = 3 \/ m = 4 \/ m = 5 \/ m = 6 \/ m = 7 \/ m = 8 \/ m = 9 \/
          m = 10 \/ m = 11 \/ m = 12) as Hcases by lia.
  destruct Hcases as [->|[->|[->|[->|[->|[->|[->|[->|[->|[->|[->| ->]]]]]]]]]]];
    cbn in Hd |- *; zeval; try divlia.
  destruct (is_leap y); divlia.
Qed.

Lemma march_year_nonneg x : in_range x -> 0 <= march_year x.
Proof. unfold in_range, march_year. destruct (month x <=? 2); lia. Qed.

Lemma march_inj x x' :
  valid_ymd x -> valid_ymd x' -> march_year x = march_year x' ->
  march_month x = march_month x' -> day x = day x' -> x = x'.
Proof.
  intros [Hm _] [Hm' _]. unfold march_year, march_month.
  destruct x as [y m d], x' as [y' m' d']; simpl in *.
  destruct (Z.leb_spec m 2), (Z.leb_spec m' 2); intros; f_equal; lia.
Qed.

(** Different dates have different day numbers. *)
Lemma getJulianDayNumber_inj x x' :
  valid_ymd x -> valid_ymd x' -> in_range x -> in_range x' ->
  jdn_of x = jdn_of x' -> x = x'.
Proof.
  intros Hv Hv' Hr Hr'. rewrite !date_jdn by done.
  pose proof (year_day_range x Hv Hr). pose proof (year_day_range x' Hv' Hr').
  pose proof (march_year_nonneg x Hr). pose proof (march_year_nonneg x' Hr'). intros E.
  assert (march_year x = march_year x') as Ey.
  { destruct (Z.lt_trichotomy (march_year x) (march_year x')) as [Hl|[?|Hl]]; [|done|];
      apply year_start_mono in Hl; lia. }
  rewrite Ey in *.
  assert (year_day (march_month x) (day x) = year_day (march_month x') (day x')) as Ed by lia.
  assert (march_month x = march_month x') as Em
    by (rewrite (year_day_month x), (year_day_month x') by done; by rewrite Ed).
  apply march_inj; [done..|]. rewrite Em in Ed. unfold year_day in Ed. lia.
Qed.

(** ** The order of dates *)

(** [x] comes before [x'] in the calendar. *)
Definition earlier (x x' : YearMonthDay) : Prop :=
  year x < year x' \/ (year x = year x' /\ (month x < month x' \/ (month x = month x' /\ day x < day x'))).

Lemma earlier_total x x' : earlier x x' \/ x = x' \/ earlier x' x.
Proof.
  destruct x as [y m d], x' as [y' m' d']. unfold earlier. cbn [year month day].
  destruct (Z.lt_trichotomy y y') as [?|[->|?]]; [lia| |lia].
  destruct (Z.lt_trichotomy m m') as [?|[->|?]]; [lia| |lia].
  destruct (Z.lt_trichotomy d d') as [?|[->|?]]; [lia|by right; left|lia].
Qed.

(** The calendar order, with the year starting in March. *)
Lemma earlier_march x x' :
  valid_ymd x -> valid_ymd x' -> earlier x x' ->
  march_year x < march_year x' \/ (march_year x = march_year x' /\
    (march_month x < march_month x' \/ (march_month x = march_month x' /\ day x < day x'))).
Proof.
  intros [Hm _] [Hm' _] He. unfold earlier, march_year, march_month in *.
  destruct (Z.leb_spec (month x) 2), (Z.leb_spec (month x') 2); lia.
Qed.

Lemma earlier_jdn x x' :
  valid_ymd x -> valid_ymd x' -> in_range x -> in_range x' -> earlier x x' -> jdn_of x < jdn_of x'.
Proof.
  intros Hv Hv' Hr Hr' He. rewrite !date_jdn by done.
  pose proof (year_day_range x Hv Hr). pose proof (year_day_range x' Hv' Hr'). pose proof (march_year_nonneg x Hr).
  destruct (earlier_march x x' Hv Hv' He) as [Hy|[Ey [Hm|[Em Hd]]]].
  - pose proof (year_start_mono (march_year x) (march_year x') ltac:(done) Hy). lia.
  - rewrite Ey. assert (year_day (march_month x) (day x) < year_day (march_month x') (day x')); [|lia].
    pose proof (year_day_month x Hv). pose proof (year_day_month x' Hv'). apply Z.nle_gt. intros Hle.
    pose proof (Z.div_le_mono (5 * year_day (march_month x') (day x') + 2) (5 * year_day (march_month x) (day x) + 2) 153). lia.
  - rewrite Ey, Em. unfold year_day. lia.
Qed.

(** The comparisons of dates are those of the calendar. *)
Theorem dates_ordered x x' :
  valid_ymd x -> valid_ymd x' -> in_range x -> in_range x' ->
  (date_lt (jdn_of x) (jdn_of x') = true <-> earlier x x') /\ (date_eq (jdn_of x) (jdn_of x') = true <-> x = x').
Proof.
  intros Hv Hv' Hr Hr'. unfold date_lt, date_eq. rewrite Z.ltb_lt, Z.eqb_eq.
  split; [|split; [by apply getJulianDayNumber_inj|by intros ->]]. split; [|by apply earlier_jdn].
  intros Hlt. destruct (earlier_total x x') as [?|[->|He]]; [done|lia|].
  pose proof (earlier_jdn x' x Hv' Hv Hr' Hr He). lia.
Qed.

(** The day numbers of the years in range that a [Date] may hold. *)
Definition jdn_range (j : Z) : Prop := 0 <= j <= 533000000.

Lemma getYearMonthDay_year j : jdn_range j -> -4800 < year (getYearMonthDay j) < 1460000.
Proof.
  intros Hj. unfold jdn_range in Hj.
  destruct (getYearMonthDay_parts j ltac:(lia))
    as (b & c & d & e & m & Hb & Hc & Hc3 & Hac & Hd & He & He3 & Hce & Hm & Hme & ->).
  simpl. divlia.
Qed.

(** From 1970 to the end of 9999 a year has four digits. *)
Lemma getYearMonthDay_four_digits j : 2440588 <= j < 5373485 -> 1970 <= year (getYearMonthDay j) <= 9999.
Proof.
  intros Hj. destruct (getYearMonthDay_parts j ltac:(lia))
    as (b & c & d & e & m & Hb & Hc & Hc3 & Hac & Hd & He & He3 & Hce & Hm & Hme & ->).
  simpl. divlia.
Qed.

Lemma getYearMonthDay_in_range j : jdn_range j -> in_range (getYearMonthDay j).
Proof. intros Hj%getYearMonthDay_year. unfold in_range. lia. Qed.

Lemma JulianDayNumber_YearMonthDay j :
  jdn_range j ->
  jdn_of (getYearMonthDay j) = j.
Proof.
  intros Hj. pose proof (getYearMonthDay_in_range j Hj) as Hr.
  unfold jdn_range in Hj.
  pose proof (getYearMonthDay_valid j ltac:(lia)) as Hv.
  rewrite date_jdn by done. clear Hv Hr.
  destruct (getYearMonthDay_parts j ltac:(lia))
    as (b & c & d & e & m & Hb & Hc & Hc3 & Hac & Hd & He & He3 & Hce & Hm & Hme & ->).
  unfold march_year, march_month, year_day, year_start; simpl.
  destruct (Z.leb_spec (m + 3 - 12 * (m / 10)) 2).
  - assert (m / 10 = 1) as E by divlia. rewrite E in *.
    replace (100 * b + d - 4800 + 1 + 4799) with (100 * b + d) by lia.
    replace (m + 3 - 12 * 1 + 9) with m by lia. divlia.
  - assert (m / 10 = 0) as E by divlia. rewrite E in *.
    replace (100 * b + d - 4800 + 0 + 4800) with (100 * b + d) by lia.
    replace (m + 3 - 12 * 0 - 3) with m by lia. divlia.
Qed.

Lemma next_day_valid x : valid_ymd x -> valid_ymd (next_day x).
Proof.
  intros [Hm Hd]. unfold valid_ymd, next_day.
  destruct (Z.ltb_spec (day x) (days_in_month (year x) (month x))); simpl; [lia|].
  destruct (Z.ltb_spec (month x) 12); simpl.
  - pose proof (days_in_month_le (year x) (month x + 1)). lia.
  - pose proof (days_in_month_le (year x + 1) 1). lia.
Qed.

(** The day number of the next day is the next number. *)
Lemma next_day_jdn x :
  valid_ymd x -> in_range x -> in_range (next_day x) ->
  jdn_of (next_day x) = jdn_of x + 1.
Proof.
  intros Hv Hr Hr'. rewrite !date_jdn by auto using next_day_valid.
  destruct Hv as [Hm Hd]. destruct x as [y m d]; unfold in_range in *; simpl in *.
  unfold next_day; simpl. destruct (Z.ltb_spec d (days_in_month y m)); simpl.
  { unfold march_year, march_month, year_day; simpl. lia. }
  assert (d = days_in_month y m) as -> by lia. clear Hd Hr'.
  assert (m = 1 \/ m = 2 \/ m = 3 \/ m = 4 \/ m = 5 \/ m = 6 \/ m = 7 \/ m = 8 \/ m = 9 \/
          m = 10 \/ m = 11 \/ m = 12) as Hcases by lia.
  unfold march_year, march_month, year_day, year_start, days_in_month.
  destruct Hcases as [->|[->|[->|[->|[->|[->|[->|[->|[->|[->|[->| ->]]]]]]]]]]];
    cbn -[Z.div is_leap Z.leb]; zeval; cbn -[Z.div is_leap]; zeval; try divlia.
  leap_cases; divlia.
Qed.

Lemma next_day_in_range x : -4800 < year x < 1460000 -> in_range (next_day x).
Proof. intros. unfold in_range, next_day. repeat case_match; cbn [year]; lia. Qed.

Lemma jdn_range_valid j : jdn_range j -> valid_ymd (getYearMonthDay j).
Proof. unfold jdn_range. intros. apply getYearMonthDay_valid; lia. Qed.

Lemma getYearMonthDay_succ j :
  jdn_range j -> jdn_range (j + 1) -> getYearMonthDay (j + 1) = next_day (getYearMonthDay j).
Proof.
  intros Hj Hj'.
  pose proof (JulianDayNumber_YearMonthDay j Hj) as Ej.
  pose proof (JulianDayNumber_YearMonthDay (j + 1) Hj') as Ej'.
  pose proof (jdn_range_valid j Hj). pose proof (jdn_range_valid (j + 1) Hj').
  pose proof (getYearMonthDay_year j Hj) as Hr%next_day_in_range.
  pose proof (getYearMonthDay_in_range j Hj). pose proof (getYearMonthDay_in_range _ Hj').
  generalize dependent (getYearMonthDay j). generalize dependent (getYearMonthDay (j + 1)).
  intros x' Ex' ?? x Ex ???.
  apply getJulianDayNumber_inj; [done|by apply next_day_valid|done|done|].
  rewrite next_day_jdn by done. lia.
Qed.

Lemma kJulianDayOf1970_01_01_eq : kJulianDayOf1970_01_01 = 2440588.
Proof. vm_compute. reflexivity. Qed.

#[global] Opaque kJulianDayOf1970_01_01.

(** C23: [getYearMonthDay] counts the days of the Gregorian calendar: the date
    of the [n]-th day after 1970-01-01 is reached from 1970-01-01 by going
    [n] times to the next day of the calendar, for as long as the arithmetic
    stays within [int] (over a million years). *)
Theorem getYearMonthDay_counts_days (n : nat) :
  Z.of_nat n <= 530000000 ->
  getYearMonthDay (kJulianDayOf1970_01_01 + Z.of_nat n) = Nat.iter n next_day (mkYMD 1970 1 1).
Proof.
  pose proof kJulianDayOf1970_01_01_eq as E. induction n as [|n IH]; intros Hn.
  { rewrite E. reflexivity. }
  rewrite Nat.iter_succ, <-IH, <-getYearMonthDay_succ by (unfold jdn_range; lia).
  f_equal. lia.
Qed.

Lemma getYearMonthDay_counts_days_witness :
  getYearMonthDay (kJulianDayOf1970_01_01 + Z.of_nat 59) = mkYMD 1970 3 1.
Proof. rewrite (getYearMonthDay_counts_days 59); [reflexivity|lia]. Defined.

(** Day number and date are inverse to each other: every day number in
    range comes back from its date, which is a date of the calendar, and
    every calendar date in range comes back from its day number. *)
Theorem date_roundtrip :
  (forall j, jdn_range j ->
     valid_ymd (getYearMonthDay j) /\
     jdn_of (getYearMonthDay j) = j) /\
  (forall x, valid_ymd x -> in_range x -> jdn_range (jdn_of x) ->
     getYearMonthDay (jdn_of x) = x).
Proof.
  split.
  - intros j Hj. split; [|by apply JulianDayNumber_YearMonthDay].
    by apply jdn_range_valid.
  - intros x Hv Hr Hj.     apply getJulianDayNumber_inj; auto using getYearMonthDay_in_range.
    + by apply jdn_range_valid.
    + by apply JulianDayNumber_YearMonthDay.
Qed.

Lemma date_roundtrip_witness :
  getYearMonthDay (date_of 2024 2 29) = mkYMD 2024 2 29.
Proof.
  unfold date_of. apply (proj2 date_roundtrip (mkYMD 2024 2 29)); vm_compute; repeat split; discriminate.
Defined.

End Date.
