(* ===== verification/TimeZone.v ===== *)
(** * Time zones ([src/base/TimeZone.h], [src/base/TimeZone.cpp])

    [time_t] is a 64-bit [Z].  A zone file is the bytes [fread] delivers; the
    parser is a small monad over the unread bytes and the [Data] being filled,
    because what was filled before an exception stays. *)

From S2P Require Import Prelude CxxStd Endian Decimal Date.

Module TimeZone.
Import Date.

Record Transition := mkTransition { gmttime : Z; localtime : Z; localtimeIdx : Z }.
Record Localtime := mkLocaltime { gmtOffset : Z; isDst : bool; arrbIdx : Z }.

(** [Comp::operator()] and [Comp::equal]. *)
Definition Comp_lt (compareGmt : bool) (lhs rhs : Transition) : bool :=
  if compareGmt then gmttime lhs <? gmttime rhs else localtime lhs <? localtime rhs.
Definition Comp_equal (compareGmt : bool) (lhs rhs : Transition) : bool :=
  if compareGmt then gmttime lhs =? gmttime rhs else localtime lhs =? localtime rhs.

Record tm := mkTm {
  tm_sec : Z; tm_min : Z; tm_hour : Z; tm_mday : Z; tm_mon : Z; tm_year : Z;
  tm_wday : Z; tm_yday : Z; tm_isdst : Z; tm_gmtoff : Z; tm_zone : list byte }.

(** [utc->tm_sec], [tm_min] and [tm_hour] of [fillHMS(unsigned seconds, ...)]. *)
Definition fillHMS (seconds : Z) : Z * Z * Z :=
  let minutes := seconds / 60 in
  (seconds mod 60, minutes mod 60, minutes / 60).

Definition kSecondsPerDay : Z := 86400.

Record Data := mkData {
  transitions : list Transition;
  localtimes : list Localtime;
  names : list (list byte);
  abbreviation : list byte }.

Definition empty_data : Data := mkData [] [] [] [].

(** ** Reading a zone file *)

(** A step returns [None] when it throws [logic_error]. *)
Definition parser (A : Type) : Type := list byte -> Data -> outcome (option A * list byte * Data).

#[local] Instance parser_ret : MRet parser := fun A a inp d => Ok (Some a, inp, d).
#[local] Instance parser_bind : MBind parser := fun A B f m inp d =>
  match m inp d with
  | Ok (Some a, inp', d') => f a inp' d'
  | Ok (None, inp', d') => Ok (None, inp', d')
  | Err e => Err e
  end.

Definition throw_ {A} : parser A := fun inp d => Ok (None, inp, d).
Definition lift {A} (m : outcome A) : parser A := fun inp d => a ← m; Ok (Some a, inp, d).
Definition get_data : parser Data := fun inp d => Ok (Some d, inp, d).
Definition set_data (d : Data) : parser unit := fun inp _ => Ok (Some (), inp, d).

(** [fread] of [n] bytes; fewer are left only at the end of the file. *)
Definition fread (n : Z) : parser (list byte) := fun inp d =>
  if zlen inp <? n then Ok (None, [], d) else Ok (Some (ztake n inp), zdrop n inp, d).

(** [char buf[n]] needs [n >= 0]. *)
Definition readBytes (n : Z) : parser (list byte) := lift (in_bounds (0 <=? n));; fread n.
Definition readInt32 : parser Z := x ← fread 4; mret (i32 (bswap 4 (le_combine x))).
Definition readUInt8 : parser Z := x ← fread 1; mret (le_combine x).

(** [for (int i = 0; i < n; ++i) v.push_back(m)] *)
Fixpoint replicateM {A} (n : nat) (m : parser A) : parser (list A) :=
  match n with
  | O => mret []
  | S n' => x ← m; xs ← replicateM n' m; mret (x :: xs)
  end.

(** The loop over [typecnt], which fills [data->localtimes] as it goes. *)
Fixpoint read_types (n : nat) : parser unit :=
  match n with
  | O => mret ()
  | S n' =>
      gmtoff ← readInt32;
      isdst ← readUInt8;
      abbrind ← readUInt8;
      d ← get_data;
      set_data (mkData (transitions d)
        (localtimes d ++ [mkLocaltime gmtoff (negb (isdst =? 0)) abbrind])
        (names d) (abbreviation d));;
      read_types n'
  end.

(** The loop that fills [data->transitions]; the index is not checked. *)
Fixpoint make_transitions (trans locals : list Z) : parser unit :=
  match trans, locals with
  | t :: trans', localIdx :: locals' =>
      d ← get_data;
      match localtimes d !! Z.to_nat localIdx with
      | None => lift (Err OutOfBounds)
      | Some lt =>
          set_data (mkData (transitions d ++ [mkTransition t (i64 (t + gmtOffset lt)) localIdx])
            (localtimes d) (names d) (abbreviation d));;
          make_transitions trans' locals'
      end
  | _, _ => mret ()
  end.

Definition parse_zone : parser unit :=
  head ← readBytes 4;
  (if decide (head = bytes "TZif") then mret () else throw_);;
  _ ← readBytes 1;
  _ ← readBytes 15;
  isgmtcnt ← readInt32;
  isstdcnt ← readInt32;
  leapcnt ← readInt32;
  timecnt ← readInt32;
  typecnt ← readInt32;
  charcnt ← readInt32;
  (* [trans.reserve(timecnt)] throws [length_error], a [logic_error] *)
  (if timecnt <? 0 then throw_ else mret ());;
  trans ← replicateM (Z.to_nat timecnt) readInt32;
  locals ← replicateM (Z.to_nat timecnt) readUInt8;
  read_types (Z.to_nat typecnt);;
  make_transitions trans locals;;
  abbr ← readBytes charcnt;
  d ← get_data;
  set_data (mkData (transitions d) (localtimes d) (names d) abbr).

(** [readTimeZoneFile]; [file] is [None] when [fopen] fails.  The result is
    [true] on every path. *)
Definition readTimeZoneFile (file : option (list byte)) (d : Data) : outcome (bool * Data) :=
  match file with
  | None => Ok (true, d)
  | Some content => '(_, _, d') ← parse_zone content d; Ok (true, d')
  end.

(** ** Looking a time up *)

Definition localtime_at (d : Data) (i : Z) : outcome Localtime :=
  match localtimes d !! Z.to_nat i with
  | Some l => in_bounds (0 <=? i);; Ok l
  | None => Err OutOfBounds
  end.

Definition findLocaltime (d : Data) (sentry : Transition) (comp : bool) : outcome Localtime :=
  match transitions d with
  | [] => localtime_at d 0
  | t0 :: _ =>
      if Comp_lt comp sentry t0 then localtime_at d 0
      else
        let i := std_lower_bound (fun t => Comp_lt comp t sentry) (transitions d) in
        match transitions d !! i with
        | Some transI =>
            if negb (Comp_equal comp sentry transI) then
              assert_ (negb (i =? 0)%nat);;
              match transitions d !! (i - 1)%nat with
              | Some prev => localtime_at d (localtimeIdx prev)
              | None => Err OutOfBounds
              end
            else localtime_at d (localtimeIdx transI)
        | None =>
            match last (transitions d) with
            | Some b => localtime_at d (localtimeIdx b)
            | None => Err OutOfBounds
            end
        end
  end.

(** A [TimeZone] holds a shared pointer to its data. *)
Definition TimeZone : Type := option Data.

Definition tz_from_file (file : option (list byte)) : outcome TimeZone :=
  '(ok, d) ← readTimeZoneFile file empty_data; Ok (if (ok : bool) then Some d else None).
Definition tz_fixed (eastOfUtc : Z) (name : list byte) : TimeZone :=
  Some (mkData [] [mkLocaltime eastOfUtc false 0] [] name).
Definition tz_valid (tz : TimeZone) : bool := match tz with Some _ => true | None => false end.

(** ** Converting *)

Definition toUtcTime (secondsSinceEpoch : Z) (yday : bool) : tm :=
  let seconds := i32 (Z.rem secondsSinceEpoch kSecondsPerDay) in
  let days := i32 (Z.quot secondsSinceEpoch kSecondsPerDay) in
  let '(seconds, days) :=
    if seconds <? 0 then ((seconds + kSecondsPerDay)%int, (days - 1)%int) else (seconds, days) in
  let '(sec, min, hour) := fillHMS (u32 seconds) in
  let date := (days + kJulianDayOf1970_01_01)%int in
  let ymd := getYearMonthDay date in
  mkTm sec min hour (day ymd) (month ymd - 1)%int (year ymd - 1900)%int (weekDay date)
    (if yday then (date - date_of (year ymd) 1 1)%int else 0) 0 0 (bytes "GMT").

Definition fromUtcTime_fields (year month day hour minute seconds : Z) : Z :=
  let date := date_of year month day in
  let secondsInDay := (hour * 3600 + minute * 60 + seconds)%int in
  let days := (date - kJulianDayOf1970_01_01)%int in
  i64 (i64 (days * kSecondsPerDay) + secondsInDay).

Definition fromUtcTime (utc : tm) : Z :=
  fromUtcTime_fields (tm_year utc + 1900)%int (tm_mon utc + 1)%int (tm_mday utc)
    (tm_hour utc) (tm_min utc) (tm_sec utc).

(** The C library's [gmtime_r] and [timegm] break a time down along the same
    calendar; on broken-down times in their ranges they are the two above. *)
Definition gmtime_r (t : Z) : tm := toUtcTime t true.
Definition timegm (t : tm) : Z := fromUtcTime t.

(** The C string that starts at an offset. *)
Definition c_str (off : Z) (s : list byte) : list byte :=
  let t := zdrop off s in ztake (std_find Byte.x00 t) t.

Definition toLocalTime (tz : TimeZone) (seconds : Z) : outcome tm :=
  match tz with
  | None => Err AssertFail
  | Some d =>
      local ← findLocaltime d (mkTransition seconds 0 0) true;
      let t := gmtime_r (i64 (seconds + gmtOffset local)) in
      in_bounds ((0 <=? arrbIdx local) && (arrbIdx local <=? zlen (abbreviation d)));;
      Ok (mkTm (tm_sec t) (tm_min t) (tm_hour t) (tm_mday t) (tm_mon t) (tm_year t)
            (tm_wday t) (tm_yday t) (if isDst local then 1 else 0) (gmtOffset local)
            (c_str (arrbIdx local) (abbreviation d)))
  end.

Definition fromLocalTime (tz : TimeZone) (localTm : tm) : outcome Z :=
  match tz with
  | None => Err AssertFail
  | Some d =>
      let seconds := timegm localTm in
      local ← findLocaltime d (mkTransition 0 seconds 0) false;
      seconds ←
        (if negb (tm_isdst localTm =? 0) then
           tryTm ← toLocalTime tz (i64 (seconds - gmtOffset local));
           Ok (if (tm_isdst tryTm =? 0) && (tm_hour tryTm =? tm_hour localTm)
                  && (tm_min tryTm =? tm_min localTm)
               then i64 (seconds - 3600) else seconds)
         else Ok seconds);
      Ok (i64 (seconds - gmtOffset local))
  end.

(** ** UTC *)

(** Day and second of the day of a time, and the times whose date [Date] can hold. *)
Definition day_of (t : Z) : Z := t / kSecondsPerDay.
Definition utc_range (t : Z) : Prop := jdn_range (day_of t + kJulianDayOf1970_01_01).

Lemma utc_split t :
  utc_range t ->
  exists s, 0 <= s < 86400 /\ t = 86400 * day_of t + s /\
  forall yday, toUtcTime t yday =
    let '(sec, min, hour) := fillHMS s in
    let date := day_of t + kJulianDayOf1970_01_01 in
    let ymd := getYearMonthDay date in
    mkTm sec min hour (day ymd) (month ymd - 1)%int (year ymd - 1900)%int (weekDay date)
      (if yday then (date - date_of (year ymd) 1 1)%int else 0) 0 0 (bytes "GMT").
Proof.
  unfold utc_range, day_of, jdn_range, kSecondsPerDay. rewrite kJulianDayOf1970_01_01_eq.
  intros Hr. exists (t mod 86400). split; [apply Z.mod_pos_bound; lia|].
  split; [apply Z.div_mod; lia|]. intros yday. unfold toUtcTime, kSecondsPerDay.
  rewrite kJulianDayOf1970_01_01_eq.
  rewrite (i32_small (Z.rem t 86400)) by divlia. rewrite (i32_small (Z.quot t 86400)) by divlia.
  destruct (Z.ltb_spec (Z.rem t 86400) 0).
  - replace (wraps 32 (Z.rem t 86400 + 86400)) with (t mod 86400) by (unwrap; divlia).
    replace (wraps 32 (Z.quot t 86400 - 1)) with (t / 86400) by (unwrap; divlia).
    rewrite (u32_small (t mod 86400)) by divlia.
    rewrite (i32_small (t / 86400 + 2440588)) by divlia. done.
  - replace (Z.rem t 86400) with (t mod 86400) by divlia.
    replace (Z.quot t 86400) with (t / 86400) by divlia.
    rewrite (u32_small (t mod 86400)) by divlia.
    rewrite (i32_small (t / 86400 + 2440588)) by divlia. done.
Qed.

#[local] Opaque getYearMonthDay getJulianDayNumber wraps.

Definition days_in_year (y : Z) : Z := if is_leap y then 366 else 365.

Lemma day_of_year x :
  valid_ymd x -> in_range x -> 
  0 <= jdn_of x - getJulianDayNumber (year x) 1 1 < days_in_year (year x).
Proof.
  intros Hv Hr. rewrite date_jdn by done.
  destruct Hv as [Hm Hd]. destruct x as [y m d]; unfold in_range in Hr; simpl in *.
  rewrite getJulianDayNumber_eq by lia. change (1 <=? 2) with true.
  rewrite jdn_year_day. unfold days_in_month in Hd. unfold days_in_year.
  unfold march_year, march_month, year_day, year_start; simpl.
  assert (m = 1 \/ m = 2 \/ m = 3 \/ m = 4 \/ m = 5 \/ m = 6 \/ m = 7 \/ m = 8 \/ m = 9 \/
          m = 10 \/ m = 11 \/ m = 12) as Hcases by lia.
  destruct (is_leap y) eqn:E; [apply is_leapP in E|apply is_leap_false in E];
  destruct Hcases as [->|[->|[->|[->|[->|[->|[->|[->|[->|[->|[->| ->]]]]]]]]]]];
    cbn in Hd; zeval; divlia.
Qed.

Lemma fromUtcTime_toUtcTime t yday : utc_range t -> fromUtcTime (toUtcTime t yday) = t.
Proof.
  intros Hr. destruct (utc_split t Hr) as (s & Hs & Ht & E). rewrite E. clear E.
  unfold fillHMS. cbv zeta. unfold utc_range in Hr.
  pose proof (jdn_range_valid _ Hr) as [Hm Hd]. pose proof (getYearMonthDay_in_range _ Hr) as Hi.
  pose proof (JulianDayNumber_YearMonthDay _ Hr) as Hj. unfold jdn_of in Hj.
  unfold in_range in Hi. unfold jdn_range in Hr.
  generalize dependent (getYearMonthDay (day_of t + kJulianDayOf1970_01_01)). intros x Hm Hd Hi Hj.
  unfold fromUtcTime, fromUtcTime_fields, kSecondsPerDay.
  cbn [tm_sec tm_min tm_hour tm_mon tm_year tm_mday].
  rewrite (i32_small (month x - 1)), (i32_small (year x - 1900)) by lia.
  replace (year x - 1900 + 1900) with (year x) by lia.
  replace (month x - 1 + 1) with (month x) by lia.
  rewrite (i32_small (year x)), (i32_small (month x)) by lia.
  unfold date_of. rewrite Hj. rewrite kJulianDayOf1970_01_01_eq in *. unwrap.
  rewrite (i64_small (_ * 86400)) by lia. rewrite i64_small; divlia.
Qed.

(** [toUtcTime] and [fromUtcTime]: for every time whose date is in range
    the broken-down time has its fields in their ranges, its date is the
    calendar date of that day, the day of the week advances from Thursday
    1 January 1970, [tm_yday] counts from 1 January, and [fromUtcTime] gives
    the time back. *)
Theorem utc_roundtrip t yday :
  utc_range t ->
  let u := toUtcTime t yday in
  fromUtcTime u = t /\
  0 <= tm_sec u < 60 /\ 0 <= tm_min u < 60 /\ 0 <= tm_hour u < 24 /\
  tm_hour u * 3600 + tm_min u * 60 + tm_sec u = t mod kSecondsPerDay /\
  mkYMD (tm_year u + 1900) (tm_mon u + 1) (tm_mday u) =
    getYearMonthDay (kJulianDayOf1970_01_01 + day_of t) /\
  tm_wday u = (4 + day_of t) mod 7 /\
  (yday = true -> tm_yday u = day_of t + kJulianDayOf1970_01_01 - date_of (tm_year u + 1900) 1 1 /\
                  0 <= tm_yday u < days_in_year (tm_year u + 1900)).
Proof.
  intros Hr u. split; [by apply fromUtcTime_toUtcTime|]. subst u. destruct (utc_split t Hr) as (s & Hs & Ht & E). rewrite E. clear E.
  unfold fillHMS. cbv zeta.
  assert (t mod kSecondsPerDay = s) as ->.
  { symmetry. apply (Z.mod_unique_pos t kSecondsPerDay (day_of t)); unfold kSecondsPerDay; lia. }
  unfold utc_range in Hr. rewrite (Z.add_comm kJulianDayOf1970_01_01).
  assert (day_of t = day_of t + kJulianDayOf1970_01_01 - kJulianDayOf1970_01_01) as Hday by lia.
  remember (day_of t + kJulianDayOf1970_01_01) as j eqn:Ej. clear Ej.
  pose proof (jdn_range_valid j Hr) as Hv. pose proof (getYearMonthDay_in_range j Hr) as Hi.
  pose proof (JulianDayNumber_YearMonthDay j Hr) as Hj.
  pose proof (day_of_year _ Hv Hi) as Hyd. rewrite Hj in Hyd.
  unfold jdn_range in Hr. rewrite kJulianDayOf1970_01_01_eq in *.
  generalize dependent (getYearMonthDay j). intros x Hv Hi Hj Hyd.
  pose proof (days_in_month_le (year x) (month x)) as Hdm.
  destruct Hv as [Hm Hd]. unfold in_range in Hi.
  cbn [tm_sec tm_min tm_hour tm_mon tm_year tm_mday tm_wday tm_yday].
  rewrite (i32_small (month x - 1)), (i32_small (year x - 1900)) by lia.
  replace (year x - 1900 + 1900) with (year x) by lia.
  replace (month x - 1 + 1) with (month x) by lia.
  assert (days_in_year (year x) <= 366) by (unfold days_in_year; case_match; lia).
  split_and!; try divlia.
  - by destruct x.
  - unfold weekDay, kDaysPerWeek. unwrap. divlia.
  - intros ->. unfold date_of in *. rewrite i32_small by lia. lia.
Qed.

Lemma utc_roundtrip_witness :
  fromUtcTime (toUtcTime (-1) true) = -1 /\
  toUtcTime (-1) true = mkTm 59 59 23 31 11 69 3 364 0 0 (bytes "GMT").
Proof.
  split; [|vm_compute; reflexivity].
  apply (utc_roundtrip (-1) true). vm_compute. split; discriminate.
Defined.


(** ** Zones *)

Definition key (comp : bool) (t : Transition) : Z := if comp then gmttime t else localtime t.
Definition key_lt (comp : bool) (t u : Transition) : Prop := key comp t < key comp u.

(** Zone data a lookup can use: transitions in order, indices in range. *)
Definition zone_wf (comp : bool) (d : Data) : Prop :=
  StronglySorted (key_lt comp) (transitions d) /\ localtimes d <> [] /\
  Forall (fun t => 0 <= localtimeIdx t < zlen (localtimes d)) (transitions d).

(** The transition in force at [k]: the last one at or before [k]. *)
Definition in_force (comp : bool) (k : Z) (l : list Transition) : option Transition :=
  last (filter (fun t => key comp t <= k) l).

Lemma split_transitions comp k l :
  StronglySorted (key_lt comp) l ->
  exists l1 l2, l = l1 ++ l2 /\ Forall (fun t => key comp t < k) l1 /\
    Forall (fun t => k <= key comp t) l2.
Proof.
  intros Hs. induction Hs as [|t l Hs IH Hall]; [by exists [], []|].
  destruct (Z.lt_ge_cases (key comp t) k).
  - destruct IH as (l1 & l2 & -> & H1 & H2). exists (t :: l1), l2. split_and!; [done| |done].
    by constructor.
  - exists [], (t :: l). split_and!; [done..|]. constructor; [done|].
    eapply Forall_impl; [exact Hall|]. unfold key_lt. simpl. lia.
Qed.

Lemma filter_all_true l (P : Transition -> Prop) `{!forall t, Decision (P t)} :
  Forall P l -> filter P l = l.
Proof.
  induction 1 as [|t l Ht _ IH]; [done|]. rewrite filter_cons_True by done. by rewrite IH.
Qed.

Lemma filter_all_false l (P : Transition -> Prop) `{!forall t, Decision (P t)} :
  Forall (fun t => ~ P t) l -> filter P l = [].
Proof.
  induction 1 as [|t l Ht _ IH]; [done|]. rewrite filter_cons_False by done. by rewrite IH.
Qed.

Lemma in_force_split comp k l1 l2 :
  StronglySorted (key_lt comp) (l1 ++ l2) -> Forall (fun t => key comp t < k) l1 ->
  Forall (fun t => k <= key comp t) l2 ->
  in_force comp k (l1 ++ l2) =
    match l2 with
    | t :: _ => if key comp t =? k then Some t else last l1
    | [] => last l1
    end.
Proof.
  intros Hs H1 H2. unfold in_force. rewrite filter_app.
  rewrite (filter_all_true l1) by (eapply Forall_impl; [exact H1|]; simpl; lia).
  destruct l2 as [|t l2]; [by rewrite app_nil_r|].
  apply Forall_cons in H2 as [Ht H2].
  assert (StronglySorted (key_lt comp) (t :: l2)) as Ht2.
  { clear -Hs. induction l1 as [|x l1 IH]; [done|]. apply IH. by inversion Hs. }
  apply StronglySorted_inv in Ht2 as [_ Ht2].
  destruct (Z.eqb_spec (key comp t) k) as [E|E].
  - rewrite filter_cons_True by lia. rewrite (filter_all_false l2).
    + by rewrite last_snoc.
    + eapply Forall_impl; [exact Ht2|]. unfold key_lt. simpl. lia.
  - rewrite filter_cons_False by lia. rewrite (filter_all_false l2).
    + by rewrite app_nil_r.
    + eapply Forall_impl; [exact Ht2|]. unfold key_lt. simpl. lia.
Qed.

Lemma localtime_at_Ok d i :
  0 <= i < zlen (localtimes d) -> exists l, localtime_at d i = Ok l /\ localtimes d !! Z.to_nat i = Some l.
Proof.
  intros Hi. unfold localtime_at, zlen in *.
  destruct (lookup_lt_is_Some_2 (localtimes d) (Z.to_nat i)) as [l E]; [lia|].
  rewrite E. exists l. split; [|done]. by run_checks.
Qed.

Lemma Comp_lt_key comp t u : Comp_lt comp t u = (key comp t <? key comp u).
Proof. by destruct comp. Qed.
Lemma Comp_equal_key comp t u : Comp_equal comp t u = (key comp t =? key comp u).
Proof. by destruct comp. Qed.

(** The two places where the lookup ends: before the first transition, and
    at the boundary [lower_bound] found. *)
Lemma findLocaltime_first comp d sentry l2 :
  transitions d = l2 -> Forall (fun t => key comp sentry <= key comp t) l2 ->
  findLocaltime d sentry comp =
    localtime_at d match l2 with
                   | t :: _ => if key comp t =? key comp sentry then localtimeIdx t else 0
                   | [] => 0
                   end.
Proof.
  intros E H2. unfold findLocaltime. rewrite E. destruct l2 as [|t l2]; [done|].
  rewrite (std_lower_bound_spec _ [] (t :: l2)); cycle 1; [done| |].
  { eapply Forall_impl; [exact H2|]. intros u. rewrite Comp_lt_key. simpl. lia. }
  apply Forall_cons in H2 as [Ht _]. rewrite Comp_lt_key. cbn [lookup list_lookup length].
  rewrite Comp_equal_key.
  destruct (Z.ltb_spec (key comp sentry) (key comp t)), (Z.eqb_spec (key comp t) (key comp sentry)),
    (Z.eqb_spec (key comp sentry) (key comp t)); try lia; done.
Qed.

Lemma findLocaltime_later comp d sentry l1 tl l2 :
  transitions d = l1 ++ l2 -> last l1 = Some tl ->
  Forall (fun t => key comp t < key comp sentry) l1 ->
  Forall (fun t => key comp sentry <= key comp t) l2 ->
  findLocaltime d sentry comp =
    localtime_at d match l2 with
                   | t :: _ => if key comp t =? key comp sentry then localtimeIdx t else localtimeIdx tl
                   | [] => localtimeIdx tl
                   end.
Proof.
  intros E El H1 H2. unfold findLocaltime. rewrite E.
  rewrite std_lower_bound_spec; cycle 1.
  { eapply Forall_impl; [exact H1|]. intros u. rewrite Comp_lt_key. simpl. lia. }
  { eapply Forall_impl; [exact H2|]. intros u. rewrite Comp_lt_key. simpl. lia. }
  rewrite lookup_app_r, Nat.sub_diag by lia.
  destruct l1 as [|t1 l1]; [done|]. pose proof H1 as [Ht1 _]%Forall_cons.
  cbn [app]. rewrite Comp_lt_key, (proj2 (Z.ltb_ge _ (key comp t1))) by lia.
  change (t1 :: l1 ++ l2) with ((t1 :: l1) ++ l2).
  destruct l2 as [|t2 l2]; cbn [lookup list_lookup]; [by rewrite app_nil_r, El|].
  rewrite Comp_equal_key, Z.eqb_sym. destruct (Z.eqb_spec (key comp t2) (key comp sentry)); [done|].
  cbn [negb]. rewrite assert_true by done. bind_simpl.
  change (match list_lookup ?i ?l with Some p => ?f p | None => ?g end)
    with (match l !! i with Some p => f p | None => g end).
  rewrite lookup_app_l by (simpl; lia).
  rewrite last_lookup in El. by rewrite Nat.sub_1_r, El.
Qed.

(** C24: [findLocaltime] finds the local time type in force: on zone data in
    order its bisection returns the type of the last transition at or before
    the time asked for, or the first type when there is none, and the
    assertion before stepping back holds. *)
Theorem findLocaltime_in_force comp d sentry :
  zone_wf comp d ->
  exists l, findLocaltime d sentry comp = Ok l /\
    localtimes d !! match in_force comp (key comp sentry) (transitions d) with
                    | Some t => Z.to_nat (localtimeIdx t)
                    | None => 0%nat
                    end = Some l.
Proof.
  intros (Hs & Hne & Hidx).
  destruct (split_transitions comp (key comp sentry) _ Hs) as (l1 & l2 & E & H1 & H2).
  assert (0 <= 0 < zlen (localtimes d)) as H0.
  { destruct (localtimes d); [done|]. zlia. }
  assert (forall t, t ∈ l1 ++ l2 -> exists l, localtime_at d (localtimeIdx t) = Ok l /\
            localtimes d !! Z.to_nat (localtimeIdx t) = Some l) as Hat.
  { intros t Ht. apply localtime_at_Ok. rewrite Forall_forall, E in Hidx. auto. }
  rewrite E in Hs |- *. rewrite in_force_split by done.
  destruct (last l1) as [tl|] eqn:El.
  - rewrite (findLocaltime_later comp d sentry l1 tl l2) by done.
    assert (tl ∈ l1) by (rewrite last_lookup in El; by eapply list_elem_of_lookup_2).
    destruct l2 as [|t2 l2]; [|case_match]; apply Hat; set_solver.
  - apply last_None in El as ->. rewrite (findLocaltime_first comp d sentry l2) by done.
    destruct l2 as [|t2 l2]; [|case_match]; try (by apply localtime_at_Ok). apply Hat; set_solver.
Qed.

Definition sample_zone : Data :=
  mkData [mkTransition 100 3700 1; mkTransition 200 200 0]
    [mkLocaltime 0 false 0; mkLocaltime 3600 true 4] [] (bytes "GMT").

Lemma findLocaltime_in_force_witness :
  exists l, findLocaltime sample_zone (mkTransition 150 0 0) true = Ok l /\
    localtimes sample_zone !! 1%nat = Some l.
Proof.
  apply (findLocaltime_in_force true sample_zone (mkTransition 150 0 0)).
  split_and!; [|done|].
  - repeat constructor.
  - repeat constructor; vm_compute; discriminate.
Defined.

(** ** Zone files *)

(** What a version 1 zone file says. *)
Record Zone := mkZone {
  z_version : byte; z_reserved : list byte;
  z_isgmtcnt : Z; z_isstdcnt : Z; z_leapcnt : Z;
  z_trans : list (Z * Z);
  z_types : list Localtime;
  z_chars : list byte }.

Definition int32_ok (x : Z) : Prop := -2147483648 <= x < 2147483648.

Definition Zone_wf (z : Zone) : Prop :=
  zlen (z_reserved z) = 15 /\
  zlen (z_trans z) < 2147483648 /\ zlen (z_types z) < 2147483648 /\
  zlen (z_chars z) < 2147483648 /\
  Forall (fun ti => int32_ok ti.1 /\ 0 <= ti.2 < 256 /\ ti.2 < zlen (z_types z)) (z_trans z) /\
  Forall (fun l => int32_ok (gmtOffset l) /\ 0 <= arrbIdx l < 256) (z_types z).

Definition type_bytes (l : Localtime) : list byte :=
  be_bytes 4 (gmtOffset l) ++
  [byte.of_Z (if isDst l then 1 else 0)] ++ [byte.of_Z (arrbIdx l)].

Definition zone_bytes (z : Zone) (tail : list byte) : list byte :=
  bytes "TZif" ++ [z_version z] ++ z_reserved z ++
  be_bytes 4 (z_isgmtcnt z) ++ be_bytes 4 (z_isstdcnt z) ++ be_bytes 4 (z_leapcnt z) ++
  be_bytes 4 (zlen (z_trans z)) ++ be_bytes 4 (zlen (z_types z)) ++ be_bytes 4 (zlen (z_chars z)) ++
  concat (be_bytes 4 <$> (z_trans z).*1) ++
  concat ((fun i => [byte.of_Z i]) <$> (z_trans z).*2) ++
  concat (type_bytes <$> z_types z) ++ z_chars z ++ tail.

Definition zone_transition (types : list Localtime) (ti : Z * Z) : Transition :=
  mkTransition ti.1
    (ti.1 + match types !! Z.to_nat ti.2 with Some l => gmtOffset l | None => 0 end) ti.2.

Definition zone_data (z : Zone) : Data :=
  mkData (zone_transition (z_types z) <$> z_trans z) (z_types z) [] (z_chars z).

Lemma parser_bind_run {A B} (f : A -> parser B) (m : parser A) inp d a inp' d' :
  m inp d = Ok (Some a, inp', d') -> mbind f m inp d = f a inp' d'.
Proof. unfold mbind, parser_bind. by intros ->. Qed.

Lemma fread_run n a inp d : zlen a = n -> fread n (a ++ inp) d = Ok (Some a, inp, d).
Proof.
  intros <-. unfold fread. zlen_pos. rewrite (proj2 (Z.ltb_ge _ _)) by zlia.
  by rewrite ztake_app_exact, zdrop_app_exact.
Qed.

Lemma readBytes_run n a inp d :
  zlen a = n -> readBytes n (a ++ inp) d = Ok (Some a, inp, d).
Proof.
  intros <-. unfold readBytes. zlen_pos.
  erewrite parser_bind_run; [by apply fread_run|].
  unfold lift. by rewrite in_bounds_true by lia.
Qed.

Lemma readInt32_run x inp d :
  int32_ok x -> readInt32 (be_bytes 4 x ++ inp) d = Ok (Some x, inp, d).
Proof.
  intros Hx. unfold readInt32. erewrite parser_bind_run by (apply fread_run, zlen_be_bytes).
  rewrite bswap_be_bytes. unfold mret, parser_ret. do 3 f_equal.
  change (x mod _) with (u32 x). f_equal. rewrite wraps_wrapu by lia. by apply i32_small.
Qed.

Lemma readUInt8_run x inp d :
  0 <= x < 256 -> readUInt8 (byte.of_Z x :: inp) d = Ok (Some x, inp, d).
Proof.
  intros Hx. unfold readUInt8.
  erewrite parser_bind_run by (apply (fread_run 1 [byte.of_Z x]); reflexivity).
  unfold mret, parser_ret. do 3 f_equal. unfold le_combine.
  rewrite byte.unsigned_of_Z. unfold byte.wrap. rewrite Z.mod_small by lia.
  rewrite Z.shiftl_0_l, Z.lor_0_r. done.
Qed.

Lemma replicateM_run {A} (m : parser A) (enc : A -> list byte) (xs : list A) inp d :
  (forall x inp, x ∈ xs -> m (enc x ++ inp) d = Ok (Some x, inp, d)) ->
  replicateM (length xs) m (concat (enc <$> xs) ++ inp) d = Ok (Some xs, inp, d).
Proof.
  induction xs as [|x xs IH]; intros Hm; [done|]. cbn [length replicateM concat fmap list_fmap].
  rewrite <-app_assoc. erewrite parser_bind_run by (apply Hm; set_solver).
  erewrite parser_bind_run by (apply IH; set_solver). done.
Qed.

Lemma read_types_run types inp d :
  Forall (fun l => int32_ok (gmtOffset l) /\ 0 <= arrbIdx l < 256) types ->
  read_types (length types) (concat (type_bytes <$> types) ++ inp) d =
    Ok (Some (), inp, mkData (transitions d) (localtimes d ++ types) (names d) (abbreviation d)).
Proof.
  revert d. induction types as [|l types IH]; intros d H.
  { simpl. rewrite app_nil_r. by destruct d. }
  apply Forall_cons in H as [[H1 H2] H]. cbn [length read_types concat fmap list_fmap].
  unfold type_bytes at 1. rewrite <-!app_assoc.
  erewrite parser_bind_run by by apply readInt32_run.
  erewrite parser_bind_run by (apply readUInt8_run; case_match; lia).
  erewrite parser_bind_run by by apply readUInt8_run.
  erewrite parser_bind_run by reflexivity. erewrite parser_bind_run by reflexivity.
  rewrite IH by done. cbn. rewrite <-app_assoc. cbn. do 5 f_equal.
  destruct l as [off dst idx]; simpl. by destruct dst.
Qed.

Lemma make_transitions_run tis inp d :
  Forall (fun ti => int32_ok ti.1 /\ 0 <= ti.2 < 256 /\ ti.2 < zlen (localtimes d)) tis ->
  Forall (fun l => int32_ok (gmtOffset l) /\ 0 <= arrbIdx l < 256) (localtimes d) ->
  make_transitions (tis.*1) (tis.*2) inp d =
    Ok (Some (), inp, mkData (transitions d ++ (zone_transition (localtimes d) <$> tis))
                        (localtimes d) (names d) (abbreviation d)).
Proof.
  intros H Hl. revert d H Hl. induction tis as [|[t i] tis IH]; intros d H Hl.
  { simpl. rewrite app_nil_r. by destruct d. }
  apply Forall_cons in H as [(Ht & Hi & Hi') H]. cbn [fmap list_fmap make_transitions fst snd].
  cbn [fst snd] in *.
  erewrite parser_bind_run by reflexivity.
  destruct (lookup_lt_is_Some_2 (localtimes d) (Z.to_nat i)) as [l E]; [unfold zlen in *; lia|].
  rewrite E. erewrite parser_bind_run by reflexivity. rewrite IH by done. cbn.
  rewrite <-app_assoc. cbn. unfold zone_transition at 2. cbn. rewrite E.
  rewrite Forall_lookup in Hl. destruct (Hl _ _ E) as [Ho _].
  unfold int32_ok in *. rewrite i64_small by lia. done.
Qed.

(** C25: Reading a version 1 zone file gives the zone it describes: the
    transitions with their local times, the types and the abbreviations, with
    whatever follows the version 1 block left unread. *)
Theorem readTimeZoneFile_reads z tail :
  Zone_wf z -> int32_ok (z_isgmtcnt z) -> int32_ok (z_isstdcnt z) -> int32_ok (z_leapcnt z) ->
  readTimeZoneFile (Some (zone_bytes z tail)) empty_data = Ok (true, zone_data z).
Proof.
  intros (Hres & Hnt & Hny & Hnc & Htr & Hty) Hg Hs Hl. cbn [readTimeZoneFile].
  assert (parse_zone (zone_bytes z tail) empty_data = Ok (Some (), tail, zone_data z)) as ->;
    [|done].
  unfold parse_zone, zone_bytes. zlen_pos.
  erewrite parser_bind_run by (apply readBytes_run; reflexivity).
  rewrite decide_True by done. erewrite parser_bind_run by reflexivity.
  erewrite parser_bind_run by (apply (readBytes_run 1 [_]); reflexivity).
  erewrite parser_bind_run by by apply readBytes_run.
  do 3 erewrite parser_bind_run by by apply readInt32_run.
  do 3 erewrite parser_bind_run by (apply readInt32_run; unfold int32_ok; lia).
  rewrite (proj2 (Z.ltb_ge _ 0)) by lia. erewrite parser_bind_run by reflexivity.
  unfold zlen. rewrite !Nat2Z.id.
  rewrite <-(length_fmap fst (z_trans z)).
  erewrite parser_bind_run.
  2: { apply replicateM_run. intros t inp Ht. apply readInt32_run.
       apply list_elem_of_fmap in Ht as (ti & -> & Hti). rewrite Forall_forall in Htr.
       by apply Htr. }
  rewrite length_fmap, <-(length_fmap snd (z_trans z)).
  erewrite parser_bind_run.
  2: { apply (replicateM_run readUInt8 (fun i => [byte.of_Z i])). intros t inp Ht.
       apply readUInt8_run. apply list_elem_of_fmap in Ht as (ti & -> & Hti).
       rewrite Forall_forall in Htr. by apply Htr. }
  erewrite parser_bind_run by by apply read_types_run.
  erewrite parser_bind_run by by apply make_transitions_run.
  erewrite parser_bind_run by by apply readBytes_run. done.
Qed.

Definition sample_image : Zone :=
  mkZone Byte.x32 (replicate 15 Byte.x00) 0 0 0 [(100, 1); (200, 0)]
    [mkLocaltime 0 false 0; mkLocaltime 3600 true 4] (bytes "GMT").

Lemma readTimeZoneFile_reads_witness :
  readTimeZoneFile (Some (zone_bytes sample_image (bytes "rest"))) empty_data =
    Ok (true, zone_data sample_image).
Proof.
  apply readTimeZoneFile_reads; [|vm_compute; split; congruence..].
  split_and!; [reflexivity|reflexivity..| |];
    repeat constructor; vm_compute; congruence.
Defined.

(** A zone read from a missing or malformed file reports itself valid,
    yet has no local time type, and converting a time in it reads past the
    end of the empty vector. *)
Theorem unreadable_zone_is_valid file t :
  file = None \/ (exists s, file = Some s /\ 4 <= zlen s /\ ztake 4 s <> bytes "TZif") ->
  exists tz, tz_from_file file = Ok tz /\ tz_valid tz = true /\
    toLocalTime tz t = Err OutOfBounds.
Proof.
  intros Hf. exists (Some empty_data). split; [|done].
  destruct Hf as [->|(s & -> & Hlen & Hhead)]; [done|].
  unfold tz_from_file, readTimeZoneFile.
  assert (parse_zone s empty_data = Ok (None, zdrop 4 s, empty_data)) as ->; [|done].
  rewrite <-(ztake_zdrop 4 s) at 1. unfold parse_zone.
  erewrite parser_bind_run by (apply readBytes_run; rewrite zlen_take; lia).
  by rewrite decide_False.
Qed.

Lemma unreadable_zone_is_valid_witness :
  exists tz, tz_from_file (Some (bytes "#!/bin/sh")) = Ok tz /\ tz_valid tz = true /\
    toLocalTime tz 0 = Err OutOfBounds.
Proof.
  apply unreadable_zone_is_valid. right. exists (bytes "#!/bin/sh").
  split_and!; [done|vm_compute; discriminate|vm_compute; discriminate].
Defined.

Lemma findLocaltime_fixed off name sentry comp :
  findLocaltime (mkData [] [mkLocaltime off false 0] [] name) sentry comp =
    Ok (mkLocaltime off false 0).
Proof. done. Qed.

(** In a fixed zone converting to local time adds the offset and
    converting back returns the time. *)
Theorem fixed_zone_roundtrip off name t :
  utc_range (t + off) -> int32_ok off ->
  exists u, toLocalTime (tz_fixed off name) t = Ok u /\
    fromLocalTime (tz_fixed off name) u = Ok t /\
    fromUtcTime u = t + off /\ tm_gmtoff u = off /\ tm_isdst u = 0.
Proof.
  intros Hr Ho. unfold int32_ok in Ho.
  assert (-46100000000000 <= t + off <= 46100000000000) as Ht.
  { revert Hr. unfold utc_range, jdn_range, day_of, kSecondsPerDay.
    rewrite kJulianDayOf1970_01_01_eq. intros. divlia. }
  pose proof (fromUtcTime_toUtcTime (t + off) true Hr) as Hrt.
  unfold toLocalTime, fromLocalTime, tz_fixed. rewrite findLocaltime_fixed. bind_simpl.
  cbn [gmtOffset isDst arrbIdx abbreviation]. rewrite (i64_small (t + off)) by lia.
  rewrite in_bounds_true by (zlen_pos; lia). bind_simpl.
  eexists. split; [done|]. unfold gmtime_r, timegm, fromUtcTime in *.
  cbn [tm_sec tm_min tm_hour tm_mon tm_year tm_mday tm_isdst tm_gmtoff]. split_and!; try done.
  rewrite Hrt, findLocaltime_fixed. bind_simpl. cbn [negb Z.eqb gmtOffset]. bind_simpl.
  rewrite i64_small by lia. f_equal. lia.
Qed.

Lemma fixed_zone_roundtrip_witness :
  exists u, toLocalTime (tz_fixed 28800 (bytes "CST")) 1700000000 = Ok u /\
    fromLocalTime (tz_fixed 28800 (bytes "CST")) u = Ok 1700000000 /\
    fromUtcTime u = 1700000000 + 28800 /\ tm_gmtoff u = 28800 /\ tm_isdst u = 0.
Proof. apply fixed_zone_roundtrip; vm_compute; split; congruence. Defined.

End TimeZone.
