(* ===== verification/Timestamp.v ===== *)
(** * Time stamps ([src/base/Timestamp.h], [src/base/Timestamp.cpp])

    A [Timestamp] is its count of microseconds since the epoch.  A [double]
    is an IEEE 754 binary64 number of the Standard Library's [SpecFloat]. *)

From Stdlib Require Import SpecFloat.
From S2P Require Import Prelude Decimal Date TimeZone.

Module Timestamp.

Definition kMicroSecondsPerSecond : Z := 1000000.

Definition invalid : Z := 0.
Definition valid (t : Z) : bool := t >? 0.
Definition secondsSinceEpoch (t : Z) : Z := Z.quot t kMicroSecondsPerSecond.
Definition fromUnixTime (t microseconds : Z) : Z :=
  i64 (i64 (t * kMicroSecondsPerSecond) + microseconds).
(** [gettimeofday] fills in [tv]. *)
Definition now (tv_sec tv_usec : Z) : Z := i64 (i64 (tv_sec * kMicroSecondsPerSecond) + tv_usec).

(** ** Doubles *)
Definition double : Type := spec_float.
Definition double_of_Z (z : Z) : double := binary_normalize 53 1024 z 0 false.
Definition dmul (x y : double) : double := SFmul 53 1024 x y.
Definition ddiv (x y : double) : double := SFdiv 53 1024 x y.
(** [x > 0.0] *)
Definition dpositive (x : double) : bool :=
  match SFcompare x (S754_zero false) with Some Gt => true | _ => false end.

(** [static_cast<int64_t>(x)]: truncates; [None] when the value does not fit. *)
Definition int64_of_double (x : double) : option Z :=
  match x with
  | S754_zero _ => Some 0
  | S754_finite s m e =>
      let a := if 0 <=? e then Z.shiftl (Zpos m) e else Z.shiftr (Zpos m) (- e) in
      let v := if s then - a else a in
      if (- 2 ^ 63 <=? v) && (v <? 2 ^ 63) then Some v else None
  | _ => None
  end.

Definition timeDifference (high low : Z) : double :=
  ddiv (double_of_Z (i64 (high - low))) (double_of_Z kMicroSecondsPerSecond).

Definition addTime (timestamp : Z) (seconds : double) : outcome Z :=
  match int64_of_double (dmul seconds (double_of_Z kMicroSecondsPerSecond)) with
  | Some delta => Ok (i64 (timestamp + delta))
  | None => Err OutOfBounds
  end.

(** ** Printing *)
Definition toString (t : Z) : list byte :=
  let seconds := Z.quot t kMicroSecondsPerSecond in
  let microseconds := Z.rem t kMicroSecondsPerSecond in
  snprintf 31 (dec seconds ++ bytes "." ++ dec0 6 microseconds).

Definition toFormattedString (t : Z) (showMicroseconds : bool) : list byte :=
  let seconds := Z.quot t kMicroSecondsPerSecond in
  let tm_time := TimeZone.gmtime_r seconds in
  let d := decw 4 (TimeZone.tm_year tm_time + 1900)%int ++
           dec0 2 (TimeZone.tm_mon tm_time + 1)%int ++ dec0 2 (TimeZone.tm_mday tm_time) ++
           bytes " " ++ dec0 2 (TimeZone.tm_hour tm_time) ++ bytes ":" ++
           dec0 2 (TimeZone.tm_min tm_time) ++ bytes ":" ++ dec0 2 (TimeZone.tm_sec tm_time) in
  if showMicroseconds then
    let microseconds := i32 (Z.rem t kMicroSecondsPerSecond) in
    snprintf 64 (d ++ bytes "." ++ dec0 6 microseconds)
  else snprintf 64 d.

Lemma pad_left_value w s : dec_value (pad_left Byte.x30 w s) = dec_value s.
Proof.
  unfold pad_left, dec_value. rewrite fmap_app.
  induction (Z.to_nat (w - zlen s)) as [|n IH]; [done|]. simpl replicate.
  rewrite <-IH. done.
Qed.

Lemma dec_nonneg z : 0 <= z -> dec z = dec_nat z.
Proof. intros. unfold dec. by rewrite (proj2 (Z.ltb_ge z 0)). Qed.

(** A time stamp at or after the epoch prints without being cut off as
    its seconds, a point and six digits, and both numbers read back to the
    time stamp. *)
Theorem toString_reads_back t :
  0 <= t < 2 ^ 63 ->
  exists s u, toString t = s ++ bytes "." ++ u /\ zlen u = 6 /\
    dec_value s * kMicroSecondsPerSecond + dec_value u = t.
Proof.
  intros Ht. unfold toString, kMicroSecondsPerSecond.
  rewrite Z.quot_div_nonneg, Z.rem_mod_nonneg by lia.
  pose proof (Z.mod_pos_bound t 1000000 ltac:(lia)).
  assert (0 <= t / 1000000 < 10 ^ 13) by (split; [apply Z.div_pos; lia|apply Z.div_lt_upper_bound; lia]).
  rewrite dec_nonneg by lia. exists (dec_nat (t / 1000000)), (dec0 6 (t mod 1000000)).
  pose proof (dec_nat_length (t / 1000000) 13 ltac:(lia) ltac:(lia)).
  assert (zlen (dec0 6 (t mod 1000000)) = 6) as E by (apply zlen_dec0; lia).
  split_and!; [|done|].
  - unfold snprintf. apply ztake_all. rewrite !zlen_app, E.
    change (zlen (bytes ".")) with 1. lia.
  - rewrite dec_value_dec_nat by lia. unfold dec0. rewrite (proj2 (Z.ltb_ge _ 0)) by lia.
    rewrite pad_left_value, dec_value_dec_nat by lia. pose proof (Z.div_mod t 1000000). lia.
Qed.

Lemma toString_reads_back_witness :
  exists s u, toString 1700000000000042 = s ++ bytes "." ++ u /\ zlen u = 6 /\
    dec_value s * kMicroSecondsPerSecond + dec_value u = 1700000000000042.
Proof. apply toString_reads_back. lia. Defined.

(** Half a second later, and the difference of the two times. *)
Example addTime_half :
  addTime 1700000000000000 (ddiv (double_of_Z 1) (double_of_Z 2)) = Ok 1700000000500000.
Proof. vm_compute. reflexivity. Qed.

End Timestamp.
