(* ===== verification/Http.v ===== *)
(** * HTTP requests, responses and the server's message handler
    ([src/net/http/HttpRequest.h], [HttpContext.h], [HttpContext.cpp],
    [HttpResponse.h], [HttpResponse.cpp], [HttpServer.cpp])

    The parser works on a [Buffer]; its reference works on the plain list of
    the readable bytes.  The request handler a user installs is a parameter. *)

From S2P Require Import Prelude CxxStd Decimal Buffer.

Module Http.
Import Buffer.

(** ** Requests *)

Inductive Method := kInvalid | kGet | kPost | kHead | kPut | kDelete.
Inductive Version := kUnknown | kHttp10 | kHttp11.

#[global] Instance Method_eq_dec : EqDecision Method.
Proof. solve_decision. Defined.
#[global] Instance Version_eq_dec : EqDecision Version.
Proof. solve_decision. Defined.

(** [std::map<string, string>] *)
Definition header_map : Type := list (list byte * list byte).

Record HttpRequest := mkRequest {
  method_ : Method;
  version_ : Version;
  path_ : list byte;
  query_ : list byte;
  receiveTime_ : Z;
  headers_ : header_map }.

Definition new_request : HttpRequest := mkRequest kInvalid kUnknown [] [] 0 [].

Definition setVersion (v : Version) (r : HttpRequest) : HttpRequest :=
  mkRequest (method_ r) v (path_ r) (query_ r) (receiveTime_ r) (headers_ r).
Definition setPath (p : list byte) (r : HttpRequest) : HttpRequest :=
  mkRequest (method_ r) (version_ r) p (query_ r) (receiveTime_ r) (headers_ r).
Definition setQuery (q : list byte) (r : HttpRequest) : HttpRequest :=
  mkRequest (method_ r) (version_ r) (path_ r) q (receiveTime_ r) (headers_ r).
Definition setReceiveTime (t : Z) (r : HttpRequest) : HttpRequest :=
  mkRequest (method_ r) (version_ r) (path_ r) (query_ r) t (headers_ r).

Definition method_of (m : list byte) : Method :=
  if decide (m = bytes "GET") then kGet
  else if decide (m = bytes "POST") then kPost
  else if decide (m = bytes "HEAD") then kHead
  else if decide (m = bytes "PUT") then kPut
  else if decide (m = bytes "DELETE") then kDelete
  else kInvalid.

(** [setMethod(start, end)], where [m] are the characters in between. *)
Definition setMethod (m : list byte) (r : HttpRequest) : outcome (HttpRequest * bool) :=
  assert_ (bool_decide (method_ r = kInvalid));;
  let k := method_of m in
  Ok (mkRequest k (version_ r) (path_ r) (query_ r) (receiveTime_ r) (headers_ r),
      negb (bool_decide (k = kInvalid))).

Definition methodString (r : HttpRequest) : list byte :=
  match method_ r with
  | kGet => bytes "GET"
  | kPost => bytes "POST"
  | kHead => bytes "HEAD"
  | kPut => bytes "PUT"
  | kDelete => bytes "DELETE"
  | kInvalid => bytes "UNKNOWN"
  end.

(** [isspace] in the C locale. *)
Definition isspace (c : byte) : bool :=
  let n := byte.unsigned c in ((9 <=? n) && (n <=? 13)) || (n =? 32).

Fixpoint skip_space (s : list byte) : list byte :=
  match s with
  | [] => []
  | c :: s' => if isspace c then skip_space s' else s
  end.

(** [while (!value.empty() && isspace(value[value.size()-1])) value.resize(...)] *)
Definition trim_right (s : list byte) : list byte := reverse (skip_space (reverse s)).

(** [addHeader(start, colon, end)] on the line [start, end). *)
Definition addHeader (line : list byte) (colon : Z) (r : HttpRequest) : HttpRequest :=
  let field := ztake colon line in
  let value := trim_right (skip_space (zdrop (colon + 1) line)) in
  mkRequest (method_ r) (version_ r) (path_ r) (query_ r) (receiveTime_ r)
    (map_set string_ltb field value (headers_ r)).

Definition getHeader (field : list byte) (r : HttpRequest) : list byte :=
  match map_find string_ltb field (headers_ r) with Some v => v | None => [] end.

(** [swap], member by member. *)
Definition swap (a b : HttpRequest) : HttpRequest * HttpRequest :=
  (mkRequest (method_ b) (version_ b) (path_ b) (query_ b) (receiveTime_ b) (headers_ b),
   mkRequest (method_ a) (version_ a) (path_ a) (query_ a) (receiveTime_ a) (headers_ a)).

(** No member is forgotten. *)
Lemma swap_exchanges a b : swap a b = (b, a).
Proof. by destruct a, b. Qed.

(** ** The parser *)

Inductive HttpRequestParseState := kExpectRequestLine | kExpectHeaders | kExpectBody | kGotAll.

#[global] Instance HttpRequestParseState_eq_dec : EqDecision HttpRequestParseState.
Proof. solve_decision. Defined.

Record HttpContext := mkContext { state_ : HttpRequestParseState; request_ : HttpRequest }.

Definition new_context : HttpContext := mkContext kExpectRequestLine new_request.
Definition gotAll (c : HttpContext) : bool := bool_decide (state_ c = kGotAll).
Definition reset (c : HttpContext) : HttpContext := mkContext kExpectRequestLine new_request.

(** [processRequestLine(begin, end)] on the characters in between; pointers
    are offsets from [begin]. *)
Definition processRequestLine (line : list byte) (r : HttpRequest) : outcome (HttpRequest * bool) :=
  let end_ := zlen line in
  let space := std_find Byte.x20 line in
  if space =? end_ then Ok (r, false)
  else
    '(r, ok) ← setMethod (zslice 0 space line) r;
    if negb ok then Ok (r, false)
    else
      let start := space + 1 in
      let space := start + std_find Byte.x20 (zslice start end_ line) in
      if space =? end_ then Ok (r, false)
      else
        let question := start + std_find Byte.x3f (zslice start space line) in
        let r :=
          if negb (question =? space)
          then setQuery (zslice question space line) (setPath (zslice start question line) r)
          else setPath (zslice start space line) r in
        let start := space + 1 in
        if (end_ - start =? 8) && bool_decide (zslice start (end_ - 1) line = bytes "HTTP/1.")
        then
          if decide (zslice (end_ - 1) end_ line = bytes "1") then Ok (setVersion kHttp11 r, true)
          else if decide (zslice (end_ - 1) end_ line = bytes "0") then Ok (setVersion kHttp10 r, true)
          else Ok (r, false)
        else Ok (r, false).

(** One round of the loop of [parseRequest]: the context and buffer after it,
    [ok] and [hasMore]. *)
Definition parse_round (receiveTime : Z) (c : HttpContext) (buf : Buffer) :
    outcome (HttpContext * Buffer * bool * bool) :=
  match state_ c with
  | kExpectRequestLine =>
      match findCRLF buf with
      | Some crlf =>
          '(r, ok) ← processRequestLine (range buf (peek buf) crlf) (request_ c);
          if (ok : bool) then
            buf' ← retrieveUntil (crlf + 2) buf;
            Ok (mkContext kExpectHeaders (setReceiveTime receiveTime r), buf', true, true)
          else Ok (mkContext kExpectRequestLine r, buf, false, false)
      | None => Ok (c, buf, true, false)
      end
  | kExpectHeaders =>
      match findCRLF buf with
      | Some crlf =>
          let colon := peek buf + std_find Byte.x3a (range buf (peek buf) crlf) in
          let '(c', hasMore) :=
            if negb (colon =? crlf)
            then (mkContext kExpectHeaders
                    (addHeader (range buf (peek buf) crlf) (colon - peek buf) (request_ c)), true)
            else (mkContext kGotAll (request_ c), false) in
          buf' ← retrieveUntil (crlf + 2) buf;
          Ok (c', buf', true, hasMore)
      | None => Ok (c, buf, true, false)
      end
  | kExpectBody | kGotAll => Ok (c, buf, true, true)
  end.

(** The loop, with fuel; [None] when the fuel runs out. *)
Fixpoint parse_loop (fuel : nat) (receiveTime : Z) (c : HttpContext) (buf : Buffer) :
    option (outcome (HttpContext * Buffer * bool)) :=
  match fuel with
  | O => None
  | S f =>
      match parse_round receiveTime c buf with
      | Err e => Some (Err e)
      | Ok (c', buf', ok, hasMore) =>
          if (hasMore : bool) then parse_loop f receiveTime c' buf' else Some (Ok (c', buf', ok))
      end
  end.

(** Every round but the last takes a line of at least two bytes. *)
Definition parseRequest (receiveTime : Z) (c : HttpContext) (buf : Buffer) :
    option (outcome (HttpContext * Buffer * bool)) :=
  parse_loop (S (Z.to_nat (readableBytes buf))) receiveTime c buf.

(** ** Responses *)

Inductive HttpStatusCode := kUnknownStatus | k200Ok | k301MovedPermanently | k400BadRequest | k404NotFound.

Definition status_number (s : HttpStatusCode) : Z :=
  match s with
  | kUnknownStatus => 0
  | k200Ok => 200
  | k301MovedPermanently => 301
  | k400BadRequest => 400
  | k404NotFound => 404
  end.

Record HttpResponse := mkResponse {
  resp_headers_ : header_map;
  statusCode_ : HttpStatusCode;
  statusMessage_ : list byte;
  closeConnection_ : bool;
  body_ : list byte }.

Definition new_response (close : bool) : HttpResponse := mkResponse [] kUnknownStatus [] close [].
Definition setStatusCode (c : HttpStatusCode) (r : HttpResponse) : HttpResponse :=
  mkResponse (resp_headers_ r) c (statusMessage_ r) (closeConnection_ r) (body_ r).
Definition setStatusMessage (m : list byte) (r : HttpResponse) : HttpResponse :=
  mkResponse (resp_headers_ r) (statusCode_ r) m (closeConnection_ r) (body_ r).
Definition setCloseConnection (on : bool) (r : HttpResponse) : HttpResponse :=
  mkResponse (resp_headers_ r) (statusCode_ r) (statusMessage_ r) on (body_ r).
Definition resp_addHeader (key value : list byte) (r : HttpResponse) : HttpResponse :=
  mkResponse (map_set string_ltb key value (resp_headers_ r)) (statusCode_ r) (statusMessage_ r)
    (closeConnection_ r) (body_ r).
Definition setContentType (t : list byte) (r : HttpResponse) : HttpResponse :=
  resp_addHeader (bytes "Content-Type") t r.
Definition setBody (body : list byte) (r : HttpResponse) : HttpResponse :=
  mkResponse (resp_headers_ r) (statusCode_ r) (statusMessage_ r) (closeConnection_ r) body.

Definition crlf_str : list byte := [Byte.x0d; Byte.x0a].

Fixpoint append_headers (hs : header_map) (output : Buffer) : outcome Buffer :=
  match hs with
  | [] => Ok output
  | (k, v) :: hs' =>
      o ← append_string k output;
      o ← append_string (bytes ": ") o;
      o ← append_string v o;
      o ← append_string crlf_str o;
      append_headers hs' o
  end.

Definition appendToBuffer (r : HttpResponse) (output : Buffer) : outcome Buffer :=
  o ← append_string
        (snprintf 32 (bytes "HTTP/1.1 " ++ dec (status_number (statusCode_ r)) ++ bytes " ")) output;
  o ← append_string (statusMessage_ r) o;
  o ← append_string crlf_str o;
  o ← (if closeConnection_ r then append_string (bytes "Connection: close" ++ crlf_str) o
       else
         o ← append_string
               (snprintf 32 (bytes "Content-Length: " ++ dec (zlen (body_ r)) ++ crlf_str)) o;
         append_string (bytes "Connection: Keep-Alive" ++ crlf_str) o);
  o ← append_headers (resp_headers_ r) o;
  o ← append_string crlf_str o;
  append_string (body_ r) o.

(** ** The server *)

Definition defaultHttpCallback (req : HttpRequest) (resp : HttpResponse) : HttpResponse :=
  setCloseConnection true (setStatusMessage (bytes "Not Found") (setStatusCode k404NotFound resp)).

(** What the handlers ask of the connection. *)
Inductive conn_action := Send (data : list byte) | Shutdown.

Section server.
Context (httpCallback_ : HttpRequest -> HttpResponse -> HttpResponse).

Definition onRequest (req : HttpRequest) : outcome (list conn_action) :=
  let connection := getHeader (bytes "Connection") req in
  let close := bool_decide (connection = bytes "close") ||
    (bool_decide (version_ req = kHttp10) && negb (bool_decide (connection = bytes "Keep-Alive"))) in
  let response := httpCallback_ req (new_response close) in
  buf ← new_buffer kInitialSize;
  buf ← appendToBuffer response buf;
  Ok (Send (content buf) :: if closeConnection_ response then [Shutdown] else []).

(** [onConnection]: a fresh context when the connection is up. *)
Definition onConnection (connected : bool) (context : option HttpContext) : option HttpContext :=
  if connected then Some new_context else context.

Definition bad_request : list byte :=
  bytes "HTTP/1.1 400 Bad Request" ++ crlf_str ++ crlf_str.

(** [onMessage]: the new context and buffer and the actions, in order;
    [None] when the parser does not come back. *)
Definition onMessage (receiveTime : Z) (context : HttpContext) (buf : Buffer) :
    option (outcome (HttpContext * Buffer * list conn_action)) :=
  match parseRequest receiveTime context buf with
  | None => None
  | Some res => Some (
      '(c, buf', ok) ← res;
      let acts := if negb ok then [Send bad_request; Shutdown] else [] in
      if gotAll c then
        acts' ← onRequest (request_ c);
        Ok (reset c, buf', acts ++ acts')
      else Ok (c, buf', acts))
  end.
End server.

(** ** Reference parser on the readable bytes *)

(** The first line and what follows it. *)
Definition split_line (s : list byte) : option (list byte * list byte) :=
  let i := std_search kCRLF s in
  if i =? zlen s then None else Some (ztake i s, zdrop (i + 2) s).

Definition ref_round (t : Z) (c : HttpContext) (s : list byte) :
    outcome (HttpContext * list byte * bool * bool) :=
  match state_ c, split_line s with
  | kExpectRequestLine, Some (line, rest) =>
      '(r, ok) ← processRequestLine line (request_ c);
      Ok (if (ok : bool) then (mkContext kExpectHeaders (setReceiveTime t r), rest, true, true)
          else (mkContext kExpectRequestLine r, s, false, false))
  | kExpectHeaders, Some (line, rest) =>
      let colon := std_find Byte.x3a line in
      Ok (if colon =? zlen line then (mkContext kGotAll (request_ c), rest, true, false)
          else (mkContext kExpectHeaders (addHeader line colon (request_ c)), rest, true, true))
  | (kExpectRequestLine | kExpectHeaders), None => Ok (c, s, true, false)
  | (kExpectBody | kGotAll), _ => Ok (c, s, true, true)
  end.

Fixpoint ref_loop (fuel : nat) (t : Z) (c : HttpContext) (s : list byte) :
    option (outcome (HttpContext * list byte * bool)) :=
  match fuel with
  | O => None
  | S f =>
      match ref_round t c s with
      | Err e => Some (Err e)
      | Ok (c', s', ok, hasMore) =>
          if (hasMore : bool) then ref_loop f t c' s' else Some (Ok (c', s', ok))
      end
  end.

(** The loop stops: it is waiting for a request line or for headers. *)
Definition parsing (c : HttpContext) : Prop :=
  state_ c = kExpectRequestLine \/ state_ c = kExpectHeaders.

Lemma split_line_Some s line rest :
  split_line s = Some (line, rest) -> s = line ++ kCRLF ++ rest.
Proof.
  unfold split_line. destruct (std_searchP kCRLF s) as [|l1 l2 -> _]; [done|..].
  { by rewrite Z.eqb_refl. }
  destruct (_ =? _); [done|]. intros [= <- <-]. rewrite ztake_app_exact by done.
  rewrite zdrop_app by (zlen_pos; lia). rewrite zdrop_all by lia.
  by replace (zlen l1 + 2 - zlen l1) with 2 by lia.
Qed.

Lemma split_line_None s : split_line s = None -> forall l1 l2, s <> l1 ++ kCRLF ++ l2.
Proof.
  unfold split_line. destruct (std_searchP kCRLF s) as [Hno|l1 l2 -> _]; [done|done|].
  destruct (Z.eqb_spec (zlen l1) (zlen (l1 ++ kCRLF ++ l2))) as [E|]; [|done].
  rewrite !zlen_app in E. change (zlen kCRLF) with 2 in E. zlen_pos. lia.
Qed.

Lemma search_CRLF_app s k :
  std_search kCRLF s <> zlen s -> std_search kCRLF (s ++ k) = std_search kCRLF s.
Proof.
  induction s as [|x s IH]; [done|]. intros Hs. cbn [app std_search] in *.
  destruct s as [|y s].
  { exfalso. apply Hs. simpl. destruct (Byte.eqb _ x); done. }
  change (is_prefix kCRLF (x :: (y :: s) ++ k)) with (is_prefix kCRLF (x :: y :: s)).
  destruct (is_prefix kCRLF (x :: y :: s)); [done|].
  rewrite IH; [done|]. intros E. apply Hs. rewrite E. by zlist.
Qed.

(** The line a search finds is not changed by what arrives later. *)
Lemma split_line_app s line rest k :
  split_line s = Some (line, rest) -> split_line (s ++ k) = Some (line, rest ++ k).
Proof.
  intros H. pose proof (split_line_Some _ _ _ H) as E. revert H. unfold split_line. cbv zeta.
  destruct (Z.eqb_spec (std_search kCRLF s) (zlen s)) as [|Hne]; [done|].
  rewrite search_CRLF_app by done.
  pose proof (std_search_range kCRLF s ltac:(done)) as Hr. intros [= El Er].
  assert (zlen line = std_search kCRLF s) as Hl by (rewrite <-El at 1; apply zlen_take; lia).
  destruct (Z.eqb_spec (std_search kCRLF s) (zlen (s ++ k))) as [Hc|_].
  { rewrite zlen_app in Hc. zlen_pos. lia. }
  rewrite <-Hl, E, <-!app_assoc. do 2 f_equal; [by rewrite ztake_app_exact|].
  rewrite app_assoc. apply zdrop_app_exact. by rewrite zlen_app.
Qed.

(** ** The buffer parser implements the reference *)

Definition round_refines (buf : Buffer) (m : outcome (HttpContext * Buffer * bool * bool))
    (m' : outcome (HttpContext * list byte * bool * bool)) : Prop :=
  match m, m' with
  | Ok (c, b, ok, more), Ok (c', s, ok', more') =>
      c = c' /\ ok = ok' /\ more = more' /\ becomes buf b s 0
  | Err e, Err e' => e = e'
  | _, _ => False
  end.

Lemma findCRLF_split buf :
  wf buf ->
  match split_line (content buf) with
  | Some (line, rest) =>
      exists b', findCRLF buf = Some (peek buf + zlen line) /\
        range buf (peek buf) (peek buf + zlen line) = line /\
        retrieveUntil (peek buf + zlen line + 2) buf = Ok b' /\ becomes buf b' rest 0
  | None => findCRLF buf = None
  end.
Proof.
  intros Hb. rewrite findCRLF_spec by done. unfold split_line. cbv zeta.
  destruct (Z.eqb_spec (std_search kCRLF (content buf)) (zlen (content buf))) as [|Hne]; [done|].
  destruct (std_searchP kCRLF (content buf) ltac:(done)) as [|l1 l2 E _]; [done|].
  assert (zlen (content buf) = zlen l1 + 2 + zlen l2) as Hlen
    by (rewrite E, !zlen_app; change (zlen kCRLF) with 2; lia).
  pose proof (content_len buf Hb) as Hc. zlen_pos.
  rewrite E, ztake_app_exact by done.
  destruct (retrieveUntil_spec (peek buf + zlen l1 + 2) buf) as (b' & Hr & Hbe);
    [done|unfold peek, beginWrite; lia|].
  exists b'. split_and!; [done| |done|].
  - unfold range. unfold peek. pose proof Hb as (? & ? & ? & ?).
    rewrite <-(zslice_take _ (writerIndex_ buf)) by lia. fold (content buf).
    by rewrite E, ztake_app_exact.
  - rewrite E in Hbe. by replace (peek buf + zlen l1 + 2 - peek buf) with (zlen l1 + 2) in Hbe by lia.
Qed.

Lemma parse_round_refines t c buf :
  wf buf -> round_refines buf (parse_round t c buf) (ref_round t c (content buf)).
Proof.
  intros Hb. unfold parse_round, ref_round. pose proof (findCRLF_split buf Hb) as H.
  pose proof (becomes_refl buf 0 Hb ltac:(lia)) as Hsame.
  destruct (state_ c), (split_line (content buf)) as [[line rest]|];
    try (by simpl; split_and!); try (by rewrite H; simpl; split_and!).
  - destruct H as (b' & -> & Hl & Hr & Hbe). rewrite Hl.
    destruct (processRequestLine line (request_ c)) as [[r []]|e]; bind_simpl; [|done..].
    rewrite Hr. simpl. by split_and!.
  - destruct H as (b' & -> & Hl & Hr & Hbe). rewrite Hl.
    destruct (Z.eqb_spec (peek buf + std_find Byte.x3a line) (peek buf + zlen line));
      destruct (Z.eqb_spec (std_find Byte.x3a line) (zlen line)); try lia; cbn [negb];
      rewrite Hr; simpl; split_and!; try done.
    do 2 f_equal. lia.
Qed.

Definition loop_refines (buf : Buffer) (m : option (outcome (HttpContext * Buffer * bool)))
    (m' : option (outcome (HttpContext * list byte * bool))) : Prop :=
  match m, m' with
  | Some (Ok (c, b, ok)), Some (Ok (c', s, ok')) => c = c' /\ ok = ok' /\ becomes buf b s 0
  | Some (Err e), Some (Err e') => e = e'
  | None, None => True
  | _, _ => False
  end.

Lemma becomes_trans b1 b2 b3 c2 c3 m n :
  becomes b1 b2 c2 m -> becomes b2 b3 c3 n -> becomes b1 b3 c3 (m + n).
Proof. intros (? & ? & ?) (? & ? & ?). unfold becomes. split_and!; [done..|lia]. Qed.

Lemma parse_loop_refines fuel t c buf :
  wf buf -> loop_refines buf (parse_loop fuel t c buf) (ref_loop fuel t c (content buf)).
Proof.
  revert c buf. induction fuel as [|f IH]; intros c buf Hb; [done|]. simpl.
  pose proof (parse_round_refines t c buf Hb) as H. unfold round_refines in H.
  destruct (parse_round t c buf) as [[[[c1 b1] ok] more]|e],
    (ref_round t c (content buf)) as [[[[c2 s] ok'] more']|e']; try done.
  destruct H as (<- & <- & <- & Hbe). destruct more; [|by simpl].
  pose proof Hbe as (Hb1 & <- & _). specialize (IH c1 b1 Hb1).
  unfold loop_refines in *. destruct (parse_loop f t c1 b1) as [[[[??]?]|]|],
    (ref_loop f t c1 (content b1)) as [[[[??]?]|]|]; try done.
  destruct IH as (-> & -> & Hbe'). split_and!; [done..|].
  apply (becomes_trans _ _ _ _ _ 0 0 Hbe Hbe').
Qed.

(** ** Termination *)

Lemma ref_round_shrinks t c s c' s' ok :
  parsing c -> ref_round t c s = Ok (c', s', ok, true) ->
  parsing c' /\ (length s' < length s)%nat.
Proof.
  unfold ref_round. intros [E|E]; rewrite E; destruct (split_line s) as [[line rest]|] eqn:Hl; try done;
    apply split_line_Some in Hl as ->.
  - destruct (processRequestLine line (request_ c)) as [[r []]|e]; simpl; intros [= <- <- <-].
    split; [by right|]. rewrite length_app. simpl. lia.
  - destruct (_ =? _); intros [= <- <- <-]. split; [by right|]. rewrite length_app. simpl. lia.
Qed.

Lemma ref_loop_total fuel t c s :
  parsing c -> (length s < fuel)%nat -> is_Some (ref_loop fuel t c s).
Proof.
  revert c s. induction fuel as [|f IH]; intros c s Hc Hf; [lia|]. simpl.
  destruct (ref_round t c s) as [[[[c' s'] ok] []]|e] eqn:E; [|by eexists..].
  apply ref_round_shrinks in E as [??]; [|done]. apply IH; [done|lia].
Qed.

Lemma ref_loop_mono f f' t c s r :
  ref_loop f t c s = Some r -> (f <= f')%nat -> ref_loop f' t c s = Some r.
Proof.
  revert f' c s. induction f as [|f IH]; intros f' c s; [done|]. intros H Hf.
  destruct f' as [|f']; [lia|]. simpl in *.
  destruct (ref_round t c s) as [[[[c' s'] ok] []]|e]; [|done..]. apply IH; [done|lia].
Qed.

(** [parseRequest] in terms of the reference. *)
Lemma parseRequest_refines t c buf :
  wf buf -> parsing c ->
  loop_refines buf (parseRequest t c buf) (ref_loop (S (length (content buf))) t c (content buf)).
Proof.
  intros Hb Hc. unfold parseRequest. rewrite readable_wf by done. unfold zlen. rewrite Nat2Z.id.
  by apply parse_loop_refines.
Qed.

(** Two results that agree on everything but the spare room of the buffer. *)
Definition same_result (m m' : option (outcome (HttpContext * Buffer * bool))) : Prop :=
  match m, m' with
  | Some (Ok (c, b, ok)), Some (Ok (c', b', ok')) => c = c' /\ ok = ok' /\ content b = content b'
  | Some (Err e), Some (Err e') => e = e'
  | _, _ => False
  end.

Lemma ref_loop_parsing f t c s c' s' ok :
  parsing c -> ref_loop f t c s = Some (Ok (c', s', ok)) -> parsing c' \/ state_ c' = kGotAll.
Proof.
  revert c s. induction f as [|f IH]; intros c s Hc; [done|]. simpl.
  destruct (ref_round t c s) as [[[[c1 s1] ok1] []]|e] eqn:E; [| |done].
  { apply IH. by eapply ref_round_shrinks in E as [??]. }
  intros [= <- <- <-]. revert E. unfold ref_round.
  destruct Hc as [Hc|Hc]; rewrite Hc; destruct (split_line s) as [[line rest]|].
  - destruct (processRequestLine _ _) as [[r []]|]; simpl; intros [= <- <- <-]. left. by left.
  - intros [= <- <- <-]. left. by left.
  - destruct (_ =? _); intros [= <- <- <-]. by right.
  - intros [= <- <- <-]. left. by right.
Qed.

(** One more chunk: parsing the first part and then the rest is parsing both. *)
Lemma ref_loop_app f t c a c1 a1 b f' :
  parsing c -> ref_loop f t c a = Some (Ok (c1, a1, true)) -> state_ c1 <> kGotAll ->
  (length (a ++ b) < f')%nat ->
  ref_loop f' t c (a ++ b) = ref_loop (S (length (a1 ++ b))) t c1 (a1 ++ b).
Proof.
  revert c a f'. induction f as [|f IH]; intros c a f' Hc; [done|]. simpl ref_loop at 1.
  destruct (ref_round t c a) as [[[[c2 a2] ok2] []]|e] eqn:E; [| |done].
  - intros H Hg Hf. pose proof (ref_round_shrinks _ _ _ _ _ _ Hc E) as [Hc2 Hlen].
    destruct f' as [|f']; [lia|]. cbn [ref_loop].
    assert (ref_round t c (a ++ b) = Ok (c2, a2 ++ b, ok2, true)) as ->.
    { revert E. unfold ref_round. destruct Hc as [Hc|Hc]; rewrite Hc;
        destruct (split_line a) as [[line rest]|] eqn:Hl; try done;
        rewrite (split_line_app _ _ _ _ Hl).
      - destruct (processRequestLine _ _) as [[r []]|]; simpl; congruence.
      - destruct (_ =? _); simpl; congruence. }
    apply IH; [done..|]. rewrite length_app in *. lia.
  - intros [= <- <- ->] Hg Hf.
    assert (c2 = c /\ a2 = a) as [-> ->].
    { revert E. unfold ref_round. destruct Hc as [Hc|Hc]; rewrite Hc;
        destruct (split_line a) as [[line rest]|].
      - destruct (processRequestLine _ _) as [[r []]|]; simpl; congruence.
      - by intros [= <- <-].
      - destruct (_ =? _); intros [= <- <-]. done.
      - by intros [= <- <-]. }
    destruct (ref_loop_total (S (length (a ++ b))) t c (a ++ b)) as [r Hr]; [done|lia|].
    rewrite Hr. by apply (ref_loop_mono _ _ _ _ _ _ Hr).
Qed.


(** A request line can only fail in [setMethod]'s assertion. *)
Lemma processRequestLine_Err line r e :
  processRequestLine line r = Err e -> e = AssertFail /\ method_ r <> kInvalid.
Proof.
  unfold processRequestLine, setMethod. cbv zeta. destruct (_ =? _); [done|].
  destruct (bool_decide (method_ r = kInvalid)) eqn:E.
  - simpl. intros H. exfalso. revert H. repeat (case_match; try done).
  - intros [= <-]. split; [done|]. by apply bool_decide_eq_false in E.
Qed.

Lemma ref_loop_headers f t c s r :
  state_ c = kExpectHeaders -> ref_loop f t c s = Some r -> exists c' s', r = Ok (c', s', true).
Proof.
  revert c s. induction f as [|f IH]; intros c s Hc; [done|]. simpl.
  unfold ref_round. rewrite Hc. destruct (split_line s) as [[line rest]|].
  - destruct (_ =? _); [intros [= <-]; by eauto|]. by apply IH.
  - intros [= <-]. by eauto.
Qed.

Lemma ref_loop_verdict f t c s r :
  parsing c -> ref_loop f t c s = Some r ->
  match r with
  | Ok (c', s', ok) => ok = false -> s' = s
  | Err e => e = AssertFail /\ state_ c = kExpectRequestLine /\ method_ (request_ c) <> kInvalid
  end.
Proof.
  intros [Hc|Hc] H; [|by apply ref_loop_headers in H as (c' & s' & ->)].
  destruct f as [|f]; [done|]. simpl in H. unfold ref_round in H. rewrite Hc in H.
  destruct (split_line s) as [[line rest]|]; [|by injection H as <-].
  destruct (processRequestLine line (request_ c)) as [[q []]|e] eqn:E; simpl in H.
  - apply ref_loop_headers in H as (c' & s' & ->); done.
  - by injection H as <-.
  - injection H as <-. apply processRequestLine_Err in E as []. done.
Qed.

(** C27: [parseRequest] always comes back while a request is being received,
    leaves a valid buffer, keeps the bytes of a request line it rejects, and
    stops with a failed assertion only when it is handed a request line while
    an earlier, rejected one has already set the method. *)
Theorem parseRequest_total t c buf :
  wf buf -> parsing c ->
  match parseRequest t c buf with
  | Some (Ok (c', buf', ok)) =>
      wf buf' /\ (parsing c' \/ state_ c' = kGotAll) /\ (ok = false -> content buf' = content buf)
  | Some (Err e) => e = AssertFail /\ state_ c = kExpectRequestLine /\ method_ (request_ c) <> kInvalid
  | None => False
  end.
Proof.
  intros Hb Hc. pose proof (parseRequest_refines t c buf Hb Hc) as H.
  destruct (ref_loop_total (S (length (content buf))) t c (content buf)) as [r Hr]; [done|lia|].
  pose proof (ref_loop_verdict _ _ _ _ _ Hc Hr) as Hv.
  rewrite Hr in H. unfold loop_refines in H.
  destruct (parseRequest t c buf) as [[[[c' b'] ok]|e]|], r as [[[c2 s2] ok2]|e2]; try done.
  - destruct H as (-> & -> & (Hb' & <- & _)). split_and!; [done| |done].
    by eapply ref_loop_parsing.
  - by rewrite H.
Qed.

(** ** Round trip *)

(** A request as a client writes it. *)
Record message := mkMessage {
  m_method : Method; m_path : list byte; m_query : list byte; m_version : Version;
  m_headers : list (list byte * list byte) }.

Definition method_name (m : Method) : list byte := methodString (mkRequest m kUnknown [] [] 0 []).
Definition version_name (v : Version) : list byte :=
  match v with
  | kHttp11 => bytes "HTTP/1.1"
  | kHttp10 => bytes "HTTP/1.0"
  | kUnknown => []
  end.

Definition request_line (m : message) : list byte :=
  method_name (m_method m) ++ bytes " " ++ (m_path m ++ m_query m) ++ bytes " " ++
  version_name (m_version m).
Definition header_line (h : list byte * list byte) : list byte := h.1 ++ bytes ": " ++ h.2.

Definition message_bytes (m : message) : list byte :=
  request_line m ++ kCRLF ++
  concat ((fun h => header_line h ++ kCRLF) <$> m_headers m) ++ kCRLF.

(** Values keep their text when they neither start nor end with white space. *)
Definition trimmed (v : list byte) : Prop :=
  match head v with Some c => isspace c = false | None => True end /\
  match last v with Some c => isspace c = false | None => True end.

Definition message_ok (m : message) : Prop :=
  m_method m <> kInvalid /\ m_version m <> kUnknown /\
  Byte.x20 ∉ m_path m /\ Byte.x3f ∉ m_path m /\ Byte.x0d ∉ m_path m /\
  Byte.x20 ∉ m_query m /\ Byte.x0d ∉ m_query m /\
  (m_query m = [] \/ exists q, m_query m = Byte.x3f :: q) /\
  Forall (fun h => Byte.x3a ∉ h.1 /\ Byte.x0d ∉ h.1 /\ Byte.x0d ∉ h.2 /\ trimmed h.2) (m_headers m).

Definition message_request (t : Z) (m : message) : HttpRequest :=
  mkRequest (m_method m) (m_version m) (m_path m) (m_query m) t
    (foldl (fun hs h => map_set string_ltb h.1 h.2 hs) [] (m_headers m)).

Lemma std_find_absent x l : x ∉ l -> std_find x l = zlen l.
Proof.
  intros H. apply std_find_if_none. apply Forall_forall. intros y Hy.
  apply byte_eqb_false. by intros ->.
Qed.

Lemma std_find_app x l k : x ∉ l -> std_find x (l ++ x :: k) = zlen l.
Proof.
  intros H. apply std_find_if_app; [|apply byte_eqb_refl]. apply Forall_forall. intros y Hy.
  apply byte_eqb_false. by intros ->.
Qed.

(** A line without CR ends at the CRLF that follows it. *)
Lemma split_line_at line rest : Byte.x0d ∉ line -> split_line (line ++ kCRLF ++ rest) = Some (line, rest).
Proof.
  intros H. assert (std_search kCRLF (line ++ kCRLF ++ rest) = zlen line) as E.
  { induction line as [|x line IH]; [done|].
    apply not_elem_of_cons in H as [Hx H]. change ((x :: line) ++ ?k) with (x :: line ++ k).
    cbn [std_search]. replace (is_prefix kCRLF _) with false.
    - rewrite IH by done. by zlist.
    - symmetry. apply not_true_iff_false. intros [k E]%is_prefixP. by injection E. }
  unfold split_line. cbv zeta. rewrite E.
  rewrite (proj2 (Z.eqb_neq _ _)).
  2: { rewrite !zlen_app. change (zlen kCRLF) with 2. zlen_pos. lia. }
  rewrite ztake_app_exact by done. rewrite app_assoc, zdrop_app_exact; [done|].
  by rewrite zlen_app.
Qed.

Lemma skip_space_trimmed v :
  match head v with Some c => isspace c = false | None => True end -> skip_space v = v.
Proof. destruct v as [|c v]; simpl; [done|]. by intros ->. Qed.

Lemma header_value v : trimmed v -> trim_right (skip_space (Byte.x20 :: v)) = v.
Proof.
  intros [Hh Hl]. change (skip_space (Byte.x20 :: v)) with (skip_space v).
  rewrite skip_space_trimmed by done. unfold trim_right.
  rewrite skip_space_trimmed; [by rewrite reverse_involutive|].
  by rewrite head_reverse.
Qed.

Lemma ref_round_header t r h rest :
  Byte.x3a ∉ h.1 /\ Byte.x0d ∉ h.1 /\ Byte.x0d ∉ h.2 /\ trimmed h.2 ->
  ref_round t (mkContext kExpectHeaders r) (header_line h ++ kCRLF ++ rest) =
    Ok (mkContext kExpectHeaders
          (mkRequest (method_ r) (version_ r) (path_ r) (query_ r) (receiveTime_ r)
             (map_set string_ltb h.1 h.2 (headers_ r))), rest, true, true).
Proof.
  destruct h as [k v]; cbn [fst snd]. intros (Hc & Hk & Hv & Ht). unfold ref_round. cbn [state_ request_].
  rewrite split_line_at.
  2: { unfold header_line. simpl. rewrite !not_elem_of_app. set_solver. }
  unfold header_line. cbn [fst snd].
  change (k ++ bytes ": " ++ v) with (k ++ Byte.x3a :: Byte.x20 :: v).
  rewrite std_find_app by done. cbv zeta.
  rewrite (proj2 (Z.eqb_neq _ _)) by (rewrite zlen_app; zlist; zlen_pos; lia).
  unfold addHeader. rewrite ztake_app_exact by done.
  change (k ++ Byte.x3a :: Byte.x20 :: v) with (k ++ [Byte.x3a] ++ (Byte.x20 :: v)).
  rewrite app_assoc, zdrop_app_exact by (rewrite zlen_app; done).
  by rewrite header_value.
Qed.

Lemma ref_loop_headers_run t hs : forall r rest f,
  Forall (fun h => Byte.x3a ∉ h.1 /\ Byte.x0d ∉ h.1 /\ Byte.x0d ∉ h.2 /\ trimmed h.2) hs ->
  (length hs < f)%nat ->
  ref_loop f t (mkContext kExpectHeaders r)
    (concat ((fun h => header_line h ++ kCRLF) <$> hs) ++ kCRLF ++ rest) =
  Some (Ok (mkContext kGotAll
    (mkRequest (method_ r) (version_ r) (path_ r) (query_ r) (receiveTime_ r)
       (foldl (fun m h => map_set string_ltb h.1 h.2 m) (headers_ r) hs)), rest, true)).
Proof.
  induction hs as [|h hs IH]; intros r rest f H Hf; (destruct f as [|f]; [simpl in Hf; lia|]).
  { cbn [fmap list_fmap concat app foldl ref_loop]. unfold ref_round. cbn [state_ request_].
    change (kCRLF ++ rest) with ([] ++ kCRLF ++ rest).
    rewrite split_line_at by set_solver. simpl. by destruct r. }
  apply Forall_cons in H as [Hh H]. cbn [fmap list_fmap concat foldl].
  cbn [ref_loop]. rewrite <-!app_assoc. rewrite ref_round_header by done. cbv beta iota.
  rewrite IH; [done..|]. simpl in Hf. lia.
Qed.

Lemma zslice_mid (line a l k : list byte) i j :
  line = a ++ l ++ k -> zlen a = i -> i + zlen l = j -> zslice i j line = l.
Proof.
  intros -> <- <-. unfold zslice. rewrite zdrop_app_exact by done. apply ztake_app_exact. lia.
Qed.

Lemma method_of_name m : m <> kInvalid -> method_of (method_name m) = m /\ Byte.x20 ∉ method_name m.
Proof. destruct m; [done|..]; intros _; (split; [reflexivity|]); vm_compute; set_solver. Qed.

(** The target of a request line is cut at the first question mark. *)
Lemma target_split p q :
  Byte.x3f ∉ p -> (q = [] \/ exists q', q = Byte.x3f :: q') ->
  std_find Byte.x3f (p ++ q) = zlen p.
Proof.
  intros Hp [->|[q' ->]]; [|by apply std_find_app].
  rewrite app_nil_r. by apply std_find_absent.
Qed.

Lemma version_name_split v :
  v <> kUnknown ->
  exists d, version_name v = bytes "HTTP/1." ++ [d] /\
    d = if decide (v = kHttp11) then Byte.x31 else Byte.x30.
Proof. destruct v; [done|..]; intros _; eexists; split; reflexivity. Qed.

Lemma slice_parts a b (l : list byte) :
  0 <= a <= b -> ztake a l ++ zslice a b l ++ zdrop b l = l.
Proof.
  intros H. rewrite <-(ztake_zdrop a l) at 4. f_equal.
  rewrite <-(ztake_zdrop (b - a) (zdrop a l)). rewrite zdrop_zdrop by lia.
  by replace (a + (b - a)) with b by lia.
Qed.

(** The two cuts of a request line, at its spaces. *)
Lemma request_line_cuts name target ver line :
  Byte.x20 ∉ name -> Byte.x20 ∉ target -> line = name ++ Byte.x20 :: target ++ Byte.x20 :: ver ->
  let i := zlen name + 1 in
  let j := i + zlen target in
  zlen line = j + 1 + zlen ver /\ std_find Byte.x20 line = zlen name /\
  zslice 0 (zlen name) line = name /\
  i + std_find Byte.x20 (zslice i (zlen line) line) = j /\ zslice i j line = target /\
  (forall a b, 0 <= a <= b -> b <= zlen target -> zslice (i + a) (i + b) line = zslice a b target) /\
  (forall a b, 0 <= a <= b -> b <= zlen ver -> zslice (j + 1 + a) (j + 1 + b) line = zslice a b ver).
Proof.
  intros Hn Ht E. cbv zeta.
  assert (zlen line = zlen name + 1 + zlen target + 1 + zlen ver) as Hlen by (subst line; zlia).
  zlen_pos. split_and!.
  - done.
  - subst line. by apply std_find_app.
  - by apply (zslice_mid line [] name (Byte.x20 :: target ++ Byte.x20 :: ver)).
  - assert (zslice (zlen name + 1) (zlen line) line = target ++ Byte.x20 :: ver) as ->.
    { apply (zslice_mid line (name ++ [Byte.x20]) _ []); [|zlia..].
      subst line. by rewrite app_nil_r, <-app_assoc. }
    by rewrite std_find_app.
  - apply (zslice_mid line (name ++ [Byte.x20]) target (Byte.x20 :: ver)); [|zlia..].
    subst line. by rewrite <-app_assoc.
  - intros a b Ha Hb. 
    apply (zslice_mid line (name ++ [Byte.x20] ++ ztake a target) _
             (zdrop b target ++ Byte.x20 :: ver)); [|zlia..].
    subst line. rewrite <-!app_assoc. cbn [app]. do 2 f_equal.
    rewrite <-(slice_parts a b target Ha) at 1. by rewrite <-!app_assoc.
  - intros a b Ha Hb.
    apply (zslice_mid line ((name ++ Byte.x20 :: target ++ [Byte.x20]) ++ ztake a ver) _
             (zdrop b ver)); [|zlia..].
    subst line. rewrite <-!app_assoc. cbn [app]. rewrite <-!app_assoc. cbn [app]. do 4 f_equal.
    by rewrite (slice_parts a b ver Ha).
Qed.

Lemma processRequestLine_ok m r :
  message_ok m -> method_ r = kInvalid -> query_ r = [] ->
  processRequestLine (request_line m) r =
    Ok (mkRequest (m_method m) (m_version m) (m_path m) (m_query m) (receiveTime_ r) (headers_ r), true).
Proof.
  intros (Hm & Hv & Hp1 & Hp2 & _ & Hq1 & _ & Hq & _) Hr Hqr.
  destruct (method_of_name _ Hm) as [Emo Hsp].
  assert (Byte.x20 ∉ m_path m ++ m_query m) as Htg by set_solver.
  destruct (request_line_cuts (method_name (m_method m)) (m_path m ++ m_query m)
    (version_name (m_version m)) (request_line m) Hsp Htg eq_refl) as (El & Ef & Es & Ej & Et & Hcut & Hver).
  unfold processRequestLine. cbv zeta. rewrite Ef, Es, Ej, Et, El.
  assert (zlen (version_name (m_version m)) = 8) as E8 by by destruct (m_version m).
  rewrite E8 in *. zlen_pos.
  rewrite (proj2 (Z.eqb_neq (zlen (method_name _)) _)) by lia.
  unfold setMethod. rewrite (bool_decide_eq_true_2 (method_ r = kInvalid)) by done.
  rewrite Emo. cbn [assert_]. bind_simpl.
  rewrite (bool_decide_eq_false_2 (m_method m = kInvalid)) by done. cbn [negb].
  rewrite (proj2 (Z.eqb_neq (_ + 1 + zlen (_ ++ _)) _)) by lia.
  rewrite target_split by done.
  rewrite (proj2 (Z.eqb_eq (_ - _) 8)) by lia.
  pose proof (Hver 0 7 ltac:(lia) ltac:(lia)) as H07. pose proof (Hver 7 8 ltac:(lia) ltac:(lia)) as H78.
  set (j := zlen (method_name (m_method m)) + 1 + zlen (m_path m ++ m_query m)) in *.
  replace (j + 1 + 0) with (j + 1) in H07 by lia.
  replace (j + 1 + 8 - 1) with (j + 1 + 7) by lia. rewrite H07, H78. subst j.
  replace (if negb _ then _ else _) with
    (mkRequest (m_method m) (version_ r) (m_path m) (m_query m) (receiveTime_ r) (headers_ r)).
  - destruct (m_version m); done.
  - set (i := zlen (method_name (m_method m)) + 1) in *.
    pose proof (Hcut 0 (zlen (m_path m)) ltac:(zlia) ltac:(zlia)) as Hpath.
    pose proof (Hcut (zlen (m_path m)) (zlen (m_path m ++ m_query m)) ltac:(zlia) ltac:(zlia)) as Hquery.
    rewrite Z.add_0_r in Hpath. rewrite Hpath, Hquery.
    assert (zslice 0 (zlen (m_path m)) (m_path m ++ m_query m) = m_path m) as ->
      by by apply (zslice_mid _ [] (m_path m) (m_query m)).
    assert (zslice (zlen (m_path m)) (zlen (m_path m ++ m_query m)) (m_path m ++ m_query m) =
            m_query m) as ->
      by (apply (zslice_mid _ (m_path m) (m_query m) []); by rewrite ?app_nil_r, ?zlen_app).
    destruct Hq as [Hq|[q Hq]]; rewrite Hq.
    + rewrite app_nil_r, Z.eqb_refl. cbn. by rewrite Hqr.
    + rewrite (proj2 (Z.eqb_neq (i + zlen (m_path m)) _)) by (zlist; zlen_pos; lia). done.
Qed.

Lemma request_line_no_CR m : message_ok m -> Byte.x0d ∉ request_line m.
Proof.
  intros (Hm & Hv & _ & _ & Hp & _ & Hq & _). unfold request_line.
  rewrite !not_elem_of_app. split_and!; try done.
  - destruct (m_method m); vm_compute; set_solver.
  - vm_compute; set_solver.
  - vm_compute; set_solver.
  - destruct (m_version m); vm_compute; set_solver.
Qed.

Lemma concat_length_ge hs :
  (length hs <= length (concat ((fun h : list byte * list byte => header_line h ++ kCRLF) <$> hs)))%nat.
Proof. induction hs as [|h hs IH]; csimpl; [lia|]. rewrite !length_app. simpl. lia. Qed.

Lemma ref_loop_message t m rest :
  message_ok m ->
  ref_loop (S (length (message_bytes m ++ rest))) t new_context (message_bytes m ++ rest) =
    Some (Ok (mkContext kGotAll (message_request t m), rest, true)).
Proof.
  intros Hm. unfold message_bytes. rewrite <-!app_assoc. cbn [ref_loop].
  unfold ref_round at 1. cbn [state_ new_context request_].
  rewrite split_line_at by by apply request_line_no_CR.
  rewrite processRequestLine_ok by done. bind_simpl. cbv beta iota.
  rewrite ref_loop_headers_run; [done|by apply Hm|].
  pose proof (concat_length_ge (m_headers m)). rewrite !length_app. simpl. lia.
Qed.

(** C13: A request as a client writes it is parsed back: whatever the bytes
    that follow it, the parser accepts it and returns its method, path, query,
    version and headers (the last value for a repeated field), and leaves
    exactly the bytes that follow. *)
Theorem parse_message t m rest buf :
  message_ok m -> wf buf -> content buf = message_bytes m ++ rest ->
  exists buf', parseRequest t new_context buf =
      Some (Ok (mkContext kGotAll (message_request t m), buf', true)) /\
    wf buf' /\ content buf' = rest.
Proof.
  intros Hm Hb Hc. pose proof (parseRequest_refines t new_context buf Hb ltac:(by left)) as H.
  rewrite Hc, ref_loop_message in H by done. unfold loop_refines in H.
  destruct (parseRequest t new_context buf) as [[[[c b] ok]|e]|]; try done.
  destruct H as (-> & -> & (? & ? & _)). by exists b.
Qed.

(** ** Writing a response *)

Definition header_text (h : list byte * list byte) : list byte := h.1 ++ bytes ": " ++ h.2 ++ crlf_str.

Definition response_text (r : HttpResponse) : list byte :=
  bytes "HTTP/1.1 " ++ dec (status_number (statusCode_ r)) ++ bytes " " ++ statusMessage_ r ++ crlf_str ++
  (if closeConnection_ r then bytes "Connection: close" ++ crlf_str
   else bytes "Content-Length: " ++ dec (zlen (body_ r)) ++ crlf_str ++
        bytes "Connection: Keep-Alive" ++ crlf_str) ++
  concat (header_text <$> resp_headers_ r) ++ crlf_str ++ body_ r.

(** [f] appends [s], in any buffer that has room for it. *)
Definition appends (f : Buffer -> outcome Buffer) (s : list byte) : Prop :=
  forall b, wf b -> zlen (buffer_ b) + zlen s <= max_size ->
    exists b', f b = Ok b' /\ becomes b b' (content b ++ s) (zlen s).

Lemma appends_string s : zlen s < 2 ^ 31 -> appends (append_string s) s.
Proof.
  intros Hs b Hb Hm. destruct (append_string_spec s b) as (b' & ? & ? & _); [done..|]. by exists b'.
Qed.

Lemma appends_bind f g s k : appends f s -> appends g k -> appends (fun b => x ← f b; g x) (s ++ k).
Proof.
  intros Hf Hg b Hb Hm. rewrite zlen_app in Hm. zlen_pos.
  destruct (Hf b Hb ltac:(lia)) as (b1 & -> & (Hb1 & Hc1 & Hs1)). bind_simpl.
  destruct (Hg b1 Hb1 ltac:(lia)) as (b2 & -> & (Hb2 & Hc2 & Hs2)). exists b2. split; [done|].
  unfold becomes. rewrite Hc2, Hc1, zlen_app, app_assoc. split_and!; [done..|lia].
Qed.

Lemma appends_nil : appends Ok [].
Proof.
  intros b Hb _. exists b. split; [done|]. rewrite app_nil_r. by apply becomes_refl.
Qed.

Lemma appends_eq f s s' : s = s' -> appends f s -> appends f s'.
Proof. by intros ->. Qed.

Lemma append_headers_appends hs :
  zlen (concat (header_text <$> hs)) < 2 ^ 31 -> appends (append_headers hs) (concat (header_text <$> hs)).
Proof.
  induction hs as [|[k v] hs IH]; csimpl; intros Hs; [apply appends_nil|].
  unfold header_text at 1 in Hs. cbn [fst snd] in Hs. rewrite !zlen_app in Hs. zlen_pos.
  unfold header_text at 1. cbn [fst snd]. rewrite <-!app_assoc. cbn [append_headers].
  repeat (apply appends_bind; [apply appends_string; lia|]). apply IH. lia.
Qed.

Lemma status_line_short c :
  snprintf 32 (bytes "HTTP/1.1 " ++ dec (status_number c) ++ bytes " ") =
  bytes "HTTP/1.1 " ++ dec (status_number c) ++ bytes " ".
Proof. by destruct c. Qed.

Lemma content_length_short n :
  0 <= n < 2 ^ 31 ->
  snprintf 32 (bytes "Content-Length: " ++ dec n ++ crlf_str) = bytes "Content-Length: " ++ dec n ++ crlf_str.
Proof.
  intros Hn. unfold dec. rewrite (proj2 (Z.ltb_ge n 0)) by lia.
  pose proof (dec_nat_length n 10 ltac:(lia) ltac:(lia)).
  unfold snprintf. apply ztake_all. rewrite !zlen_app.
  change (zlen (bytes "Content-Length: ")) with 16. change (zlen crlf_str) with 2. lia.
Qed.

(** The length of a text is at least that of each of its parts. *)
Ltac part_short :=
  match goal with
  | H : zlen (response_text _) < _ |- _ =>
      unfold response_text in H; repeat case_match; rewrite ?zlen_app in *; zlen_pos; lia
  end.

Lemma appendToBuffer_appends r :
  zlen (response_text r) < 2 ^ 31 -> appends (appendToBuffer r) (response_text r).
Proof.
  intros Hs. unfold appendToBuffer. rewrite status_line_short.
  rewrite content_length_short by (zlen_pos; part_short).
  apply (appends_eq _ ((bytes "HTTP/1.1 " ++ dec (status_number (statusCode_ r)) ++ bytes " ") ++
    statusMessage_ r ++ crlf_str ++
    (if closeConnection_ r then bytes "Connection: close" ++ crlf_str
     else (bytes "Content-Length: " ++ dec (zlen (body_ r)) ++ crlf_str) ++
          bytes "Connection: Keep-Alive" ++ crlf_str) ++
    concat (header_text <$> resp_headers_ r) ++ crlf_str ++ body_ r)).
  { unfold response_text. by destruct (closeConnection_ r); rewrite <-!app_assoc. }
  do 3 (apply appends_bind; [apply appends_string; part_short|]).
  apply appends_bind.
  { destruct (closeConnection_ r) eqn:E; [apply appends_string; part_short|].
    apply appends_bind; apply appends_string; part_short. }
  apply appends_bind; [apply append_headers_appends; part_short|].
  apply appends_bind; apply appends_string; part_short.
Qed.

(** ** Serving a request *)

Definition wants_close (m : message) : bool :=
  let v := getHeader (bytes "Connection") (message_request 0 m) in
  bool_decide (v = bytes "close") ||
  (bool_decide (m_version m = kHttp10) && negb (bool_decide (v = bytes "Keep-Alive"))).

Definition answer (cb : HttpRequest -> HttpResponse -> HttpResponse) (t : Z) (m : message) : HttpResponse :=
  cb (message_request t m) (new_response (wants_close m)).

(** The text of the response, and the end of the connection if it says so. *)
Lemma onRequest_answers cb t m :
  zlen (response_text (answer cb t m)) < 2 ^ 31 ->
  onRequest cb (message_request t m) =
    Ok (Send (response_text (answer cb t m)) :: if closeConnection_ (answer cb t m) then [Shutdown] else []).
Proof.
  intros Hr. unfold onRequest.
  change (cb (message_request t m) (new_response (bool_decide _ || _))) with (answer cb t m).
  destruct (new_buffer_spec kInitialSize) as (b0 & -> & Hb0 & Hc0 & Hp0 & Hw0).
  { unfold kInitialSize, max_size. lia. }
  bind_simpl. rewrite writable_eq in Hw0 by done.
  destruct (appendToBuffer_appends _ Hr b0 Hb0) as (b1 & -> & (Hb1 & Hc1 & _)).
  { unfold kInitialSize, max_size in *. pose proof Hb0 as (? & ? & ? & ?).
    pose proof (content_len b0 Hb0) as Hl. rewrite Hc0, zlen_nil in Hl.
    unfold prependableBytes, kCheapPrepend in *. lia. }
  bind_simpl. by rewrite Hc1, Hc0.
Qed.

(** The server answers a request it has received completely with exactly
    the text of the response the callback fills in (status line, [Connection]
    and, on a kept connection, [Content-Length], the callback's headers and
    the body), asks for the connection to be closed when the response says
    so, and is ready for the next request with the bytes that follow still in
    the buffer.  The response starts out as closing when the client asks for
    it, or speaks HTTP/1.0 without asking for keep-alive. *)
Theorem onMessage_answers cb t m rest buf :
  message_ok m -> wf buf -> content buf = message_bytes m ++ rest ->
  zlen (response_text (answer cb t m)) < 2 ^ 31 ->
  exists buf', onMessage cb t new_context buf =
      Some (Ok (new_context, buf',
        Send (response_text (answer cb t m)) ::
        if closeConnection_ (answer cb t m) then [Shutdown] else [])) /\
    wf buf' /\ content buf' = rest.
Proof.
  intros Hm Hb Hc Hr.
  pose proof (parseRequest_refines t new_context buf Hb ltac:(by left)) as H.
  rewrite Hc, ref_loop_message in H by done. unfold loop_refines in H. unfold onMessage.
  destruct (parseRequest t new_context buf) as [[[[c b] ok]|e]|]; try done.
  destruct H as (-> & -> & (? & ? & _)). exists b. split; [|done]. f_equal. bind_simpl.
  change (gotAll _) with true. cbv iota. cbn [request_]. by rewrite onRequest_answers.
Qed.

(** What may follow the method on a request line: a target and a version. *)
Definition acceptable (rest : list byte) : Prop :=
  exists target v, v <> kUnknown /\ Byte.x20 ∉ target /\ rest = target ++ Byte.x20 :: version_name v.

Lemma version_of_ends l :
  zlen l = 8 -> zslice 0 7 l = bytes "HTTP/1." ->
  (zslice 7 8 l = bytes "1" -> l = version_name kHttp11) /\ (zslice 7 8 l = bytes "0" -> l = version_name kHttp10).
Proof.
  intros Hl H7. pose proof (slice_parts 0 7 l ltac:(lia)) as E. change (ztake 0 l) with (@nil byte) in E. cbn [app] in E.
  assert (zslice 7 8 l = zdrop 7 l) as H8 by (unfold zslice; apply ztake_all; rewrite zlen_drop; lia).
  rewrite H7, <-H8 in E. split; intros H; by rewrite <-E, H.
Qed.

(** A line that starts with a known method and a space. *)
Lemma processRequestLine_method m rest r :
  m <> kInvalid ->
  let line := method_name m ++ Byte.x20 :: rest in
  if decide (method_ r = kInvalid)
  then exists r' ok, processRequestLine line r = Ok (r', ok) /\ method_ r' = m /\ (ok = true -> acceptable rest)
  else processRequestLine line r = Err AssertFail.
Proof.
  intros Hm line. destruct (method_of_name _ Hm) as [Emo Hsp]. unfold processRequestLine. cbv zeta.
  assert (std_find Byte.x20 line = zlen (method_name m)) as -> by by apply std_find_app.
  assert (zlen line = zlen (method_name m) + 1 + zlen rest) as El by (unfold line; zlia). zlen_pos.
  rewrite (proj2 (Z.eqb_neq (zlen (method_name _)) _)) by lia.
  assert (zslice 0 (zlen (method_name m)) line = method_name m) as -> by by apply (zslice_mid line [] (method_name m) (Byte.x20 :: rest)).
  unfold setMethod. rewrite Emo.
  destruct (decide (method_ r = kInvalid)); [|by rewrite (bool_decide_eq_false_2 (method_ r = kInvalid))].
  rewrite (bool_decide_eq_true_2 (method_ r = kInvalid)) by done. cbn [assert_]. bind_simpl.
  rewrite (bool_decide_eq_false_2 (m = kInvalid)) by done. cbn [negb].
  destruct (decide (Byte.x20 ∈ rest)) as [(target & ver & Er & Ht)%list_elem_of_split_l|Hno].
  2: { assert (zslice (zlen (method_name m) + 1) (zlen line) line = rest) as ->.
       { apply (zslice_mid line (method_name m ++ [Byte.x20]) rest []); [|zlia..].
         unfold line. by rewrite app_nil_r, <-app_assoc. }
       rewrite std_find_absent by done. rewrite El, Z.eqb_refl. by do 2 eexists. }
  destruct (request_line_cuts (method_name m) target ver line Hsp Ht) as (El' & _ & _ & Ej & _ & _ & Hver);
    [unfold line; by rewrite Er|].
  rewrite Ej. set (j := zlen (method_name m) + 1 + zlen target) in *. zlen_pos.
  rewrite (proj2 (Z.eqb_neq j _)) by lia. set (r1 := if negb _ then _ else _).
  assert (method_ r1 = m) as Hr1 by (subst r1; by case_match).
  destruct (zlen line - (j + 1) =? 8) eqn:E8; cbn [andb]; [|by do 2 eexists]. apply Z.eqb_eq in E8.
  pose proof (Hver 0 7 ltac:(lia) ltac:(lia)) as H07. pose proof (Hver 7 8 ltac:(lia) ltac:(lia)) as H78.
  replace (j + 1 + 0) with (j + 1) in H07 by lia. replace (j + 1 + 8) with (zlen line) in H78 by lia.
  replace (zlen line - 1) with (j + 1 + 7) by lia. rewrite H07, H78.
  destruct (bool_decide _) eqn:E7; [|by do 2 eexists]. apply bool_decide_eq_true in E7.
  destruct (version_of_ends ver) as [Hv1 Hv0]; [lia|done|].
  case_decide as D1; [|case_decide as D0]; do 2 eexists; (split_and!; [done|done|]); try done; intros _; exists target;
    [exists kHttp11|exists kHttp10]; (split_and!; [done|done|]); rewrite Er; do 2 f_equal; auto.
Qed.

(** C28: When the first line of a client is a known method and a space but not a
    target and a known version after that (another version, no second space, more
    spaces), the server sends 400 and shuts the connection down for writing, but
    keeps the line and the method it set: the next bytes from the client stop the
    program with the assertion of [setMethod]. *)
Theorem rejected_request_asserts cb t t' m tail rest buf :
  m <> kInvalid -> ~ acceptable tail ->
  wf buf -> split_line (content buf) = Some (method_name m ++ Byte.x20 :: tail, rest) ->
  exists c buf', onMessage cb t new_context buf = Some (Ok (c, buf', [Send bad_request; Shutdown])) /\
    wf buf' /\ content buf' = content buf /\
    forall more buf2, wf buf2 -> content buf2 = content buf' ++ more ->
      onMessage cb t' c buf2 = Some (Err AssertFail).
Proof.
  intros Hm Hbad Hb Hl.
  destruct (processRequestLine_method m tail new_request Hm) as (r & ok & Ep & Hr & Hok).
  destruct ok; [by destruct Hbad; apply Hok|].
  pose proof (parseRequest_refines t new_context buf Hb ltac:(by left)) as H.
  cbn [ref_loop] in H. unfold ref_round in H at 1. cbn [state_ new_context request_] in H.
  rewrite Hl, Ep in H. simpl in H.
  unfold onMessage. destruct (parseRequest t new_context buf) as [[[[c b] ok]|e]|]; try done.
  destruct H as (-> & -> & (Hb' & Hc' & _)). do 2 eexists. split; [done|].
  rewrite Hc'. split_and!; [done|done|]. intros more buf2 Hb2 Hc2.
  match goal with |- context [parseRequest t' ?c buf2] =>
    pose proof (parseRequest_refines t' c buf2 Hb2 ltac:(by left)) as H end.
  rewrite Hc2 in H. cbn [ref_loop] in H. unfold ref_round in H at 1. cbn [state_ request_] in H.
  rewrite (split_line_app _ _ _ _ Hl) in H.
  pose proof (processRequestLine_method m tail r Hm) as Hagain. cbv zeta in Hagain.
  rewrite decide_False, Hagain in * by (by rewrite Hr). simpl in H.
  destruct (parseRequest t' _ buf2) as [[[[??]?]|?]|]; try done. by rewrite H.
Qed.

(** ** Witnesses *)

Definition sample_message : message :=
  mkMessage kGet (bytes "/index.html") (bytes "?q=1") kHttp11
    [(bytes "Host", bytes "chenshuo.com"); (bytes "Connection", bytes "close")].

Lemma sample_message_ok : message_ok sample_message.
Proof.
  assert (forall h, h ∈ m_headers sample_message ->
    Byte.x3a ∉ h.1 /\ Byte.x0d ∉ h.1 /\ Byte.x0d ∉ h.2 /\ trimmed h.2) as Hh.
  { intros h Hh. cbn in Hh. rewrite !elem_of_cons, elem_of_nil in Hh.
    destruct Hh as [->|[->|[]]]; (split_and!; [vm_compute; set_solver..|done]). }
  unfold message_ok. rewrite Forall_forall.
  split_and!; try done; try (vm_compute; set_solver).
Qed.

(** A buffer that holds given bytes. *)
Definition buffer_with (s : list byte) : Buffer := mkBuffer (replicate 8 Byte.x00 ++ s) 8 (8 + zlen s).

Lemma buffer_with_wf s : zlen s <= 2 ^ 62 -> wf (buffer_with s) /\ content (buffer_with s) = s.
Proof.
  intros Hs. zlen_pos. unfold wf, content, buffer_with, max_size, kCheapPrepend. cbn [buffer_ readerIndex_ writerIndex_].
  assert (zlen (replicate 8 Byte.x00) = 8) as E by done.
  rewrite zlen_app, E. split; [lia|]. apply (zslice_mid _ (replicate 8 Byte.x00) s []); [|done|lia].
  by rewrite app_nil_r.
Qed.

Lemma parse_message_witness :
  exists buf', parseRequest 7 new_context (buffer_with (message_bytes sample_message ++ bytes "GET")) =
      Some (Ok (mkContext kGotAll (message_request 7 sample_message), buf', true)) /\
    wf buf' /\ content buf' = bytes "GET".
Proof.
  apply parse_message; [apply sample_message_ok|apply buffer_with_wf..]; vm_compute; discriminate.
Defined.

Definition hello_callback (req : HttpRequest) (resp : HttpResponse) : HttpResponse :=
  setBody (bytes "hello") (setContentType (bytes "text/plain")
    (setStatusMessage (bytes "OK") (setStatusCode k200Ok resp))).

Lemma onMessage_answers_witness :
  exists buf', onMessage hello_callback 7 new_context (buffer_with (message_bytes sample_message ++ bytes "GET")) =
      Some (Ok (new_context, buf',
        Send (response_text (answer hello_callback 7 sample_message)) :: [Shutdown])) /\
    wf buf' /\ content buf' = bytes "GET".
Proof.
  apply (onMessage_answers hello_callback 7 sample_message (bytes "GET"));
    [apply sample_message_ok|apply buffer_with_wf..|]; vm_compute; congruence.
Defined.

Lemma parseRequest_total_witness :
  match parseRequest 7 new_context (buffer_with (bytes "GET /")) with
  | Some (Ok (c', buf', ok)) => wf buf' /\ (parsing c' \/ state_ c' = kGotAll) /\
      (ok = false -> content buf' = content (buffer_with (bytes "GET /")))
  | Some (Err e) => e = AssertFail /\ kExpectRequestLine = kExpectRequestLine /\ kInvalid <> kInvalid
  | None => False
  end.
Proof.
  apply (parseRequest_total 7 new_context (buffer_with (bytes "GET /"))).
  - apply buffer_with_wf. vm_compute. discriminate.
  - by left.
Defined.

Definition crlf_string (s : string) : list byte := bytes s ++ crlf_str.

Definition first_chunk : list byte := crlf_string "GET / HTTP/1.1" ++ bytes "Ho".
Definition after_first : HttpContext * Buffer :=
  match parseRequest 7 new_context (buffer_with first_chunk) with
  | Some (Ok (c, b, _)) => (c, b)
  | _ => (new_context, buffer_with [])
  end.


(** A client that speaks a newer version. *)
Definition http2_request : list byte := bytes "GET /index.html?q=1 HTTP/2.0" ++ kCRLF ++ bytes "Host: a" ++ kCRLF.

Lemma http2_unacceptable : ~ acceptable (bytes "/index.html?q=1 HTTP/2.0").
Proof.
  intros (target & v & Hv & _ & E). assert (zlen (version_name v) = 8) as H8 by by destruct v.
  change (bytes "/index.html?q=1 HTTP/2.0") with (bytes "/index.html?q=1" ++ bytes " HTTP/2.0") in E.
  apply app_inj_2 in E as [_ E]; [by destruct v|]. apply (inj Z.of_nat). cbn [length]. fold (zlen (version_name v)).
  rewrite Nat2Z.inj_succ. fold (zlen (version_name v)). rewrite H8. reflexivity.
Qed.

Lemma rejected_request_asserts_witness :
  exists c buf', onMessage hello_callback 7 new_context (buffer_with http2_request) =
      Some (Ok (c, buf', [Send bad_request; Shutdown])) /\
    wf buf' /\ content buf' = content (buffer_with http2_request) /\
    forall more buf2, wf buf2 -> content buf2 = content buf' ++ more ->
      onMessage hello_callback 8 c buf2 = Some (Err AssertFail).
Proof.
  apply (rejected_request_asserts hello_callback 7 8 kGet (bytes "/index.html?q=1 HTTP/2.0") (bytes "Host: a" ++ kCRLF)).
  - discriminate.
  - apply http2_unacceptable.
  - apply buffer_with_wf. vm_compute. discriminate.
  - vm_compute. reflexivity.
Defined.

End Http.
