(* ===== verification/HttpSession.v ===== *)
(** * A client of the HTTP server

    The composition of [TcpConnection::handleRead], [Buffer::readFd] and
    [HttpServer::onMessage]: the reads of a connection, each with the bytes the
    kernel had and the time of the poll, and the actions of the server. *)

From S2P Require Import Prelude Buffer Http.

Module HttpSession.
Import Buffer Http.

(** ** Parsing bytes that arrive at different times *)

Lemma ref_round_app t c a b :
  is_Some (split_line a) -> parsing c ->
  ref_round t c (a ++ b) = ('(c', s', ok, more) ← ref_round t c a; Ok (c', s' ++ b, ok, more)).
Proof.
  intros [[line rest] Hl] Hc. unfold ref_round. rewrite Hl, (split_line_app _ _ _ b Hl).
  destruct Hc as [-> | ->]; [|by destruct (_ =? _)].
  by destruct (processRequestLine line (request_ c)) as [[r []]|e].
Qed.

(** A result other than waiting is not changed by what arrives later. *)
Lemma ref_loop_final f t c a res :
  parsing c -> ref_loop f t c a = Some res ->
  (exists c1 a1, res = Ok (c1, a1, true) /\ parsing c1) \/
  forall b f', (length (a ++ b) < f')%nat -> ref_loop f' t c (a ++ b) = Some ('(c', s', ok) ← res; Ok (c', s' ++ b, ok)).
Proof.
  revert c a. induction f as [|f IH]; intros c a Hc; [done|]. cbn [ref_loop]. intros H.
  destruct (split_line a) as [[line rest]|] eqn:Hl.
  2:{ left. unfold ref_round in H. rewrite Hl in H. destruct Hc as [Hc|Hc]; rewrite Hc in H; injection H as <-; exists c, a; split; [done|by left|done|by right]. }
  assert (is_Some (split_line a)) as Hs by (rewrite Hl; by eexists).
  destruct (ref_round t c a) as [[[[c2 a2] ok2] []]|e] eqn:E.
  - pose proof (ref_round_shrinks _ _ _ _ _ _ Hc E) as [Hc2 Hlen]. destruct (IH c2 a2 Hc2 H) as [?|Hf]; [by left|right].
    intros b f' Hf'. destruct f' as [|f']; [lia|]. cbn [ref_loop]. rewrite ref_round_app, E by done. bind_simpl. cbv iota beta.
    apply Hf. rewrite length_app in *. lia.
  - injection H as <-. right. intros b f' Hf'. destruct f' as [|f']; [lia|]. cbn [ref_loop]. by rewrite ref_round_app, E by done.
  - injection H as <-. right. intros b f' Hf'. destruct f' as [|f']; [lia|]. cbn [ref_loop]. by rewrite ref_round_app, E by done.
Qed.

(** Only the request line takes the time. *)
Lemma ref_loop_headers_time f t t' c s : state_ c = kExpectHeaders -> ref_loop f t c s = ref_loop f t' c s.
Proof.
  revert c s. induction f as [|f IH]; intros c s Hc; [done|]. cbn [ref_loop]. unfold ref_round. rewrite Hc.
  destruct (split_line s) as [[line rest]|]; [|done]. by destruct (_ =? _); [|apply IH].
Qed.

Lemma ref_loop_headers_stays f t c s c' s' ok :
  state_ c = kExpectHeaders -> ref_loop f t c s = Some (Ok (c', s', ok)) -> state_ c' <> kExpectRequestLine.
Proof.
  revert c s. induction f as [|f IH]; intros c s Hc; [done|]. cbn [ref_loop]. unfold ref_round. rewrite Hc.
  destruct (split_line s) as [[line rest]|]; [destruct (_ =? _)|].
  - by intros [= <- _ _].
  - by apply IH.
  - intros [= <- _ _]. by rewrite Hc.
Qed.

(** Still waiting for a request line, nothing has happened. *)
Lemma ref_loop_waits_line f t c s c' s' :
  state_ c = kExpectRequestLine -> ref_loop f t c s = Some (Ok (c', s', true)) -> state_ c' = kExpectRequestLine -> c' = c /\ s' = s.
Proof.
  destruct f as [|f]; [done|]. cbn [ref_loop]. unfold ref_round. intros Hc. rewrite Hc.
  destruct (split_line s) as [[line rest]|]; [|by intros [= <- <-]].
  destruct (processRequestLine line (request_ c)) as [[r []]|e]; cbn; intros H Hs; try done.
  by eapply ref_loop_headers_stays in H.
Qed.

(** ** The session *)

Section session.
Context (cb : HttpRequest -> HttpResponse -> HttpResponse).

(** [handleRead] at the time [t], with [d] in the socket and [onMessage] as the
    message callback. *)
Definition read_and_answer (t : Z) (d : list byte) (c : HttpContext) (b : Buffer) :
    option (outcome (HttpContext * Buffer * list conn_action)) :=
  match readFd (fun _ => ReadvData d) b with
  | Err e => Some (Err e)
  | Ok (b, n, _) => if 0 <? n then onMessage cb t c b else Some (Ok (c, b, []))
  end.

Fixpoint serve (reads : list (Z * list byte)) (c : HttpContext) (b : Buffer) :
    option (outcome (HttpContext * Buffer * list conn_action)) :=
  match reads with
  | [] => Some (Ok (c, b, []))
  | (t, d) :: reads =>
      match read_and_answer t d c b with
      | Some (Ok (c, b, acts)) =>
          match serve reads c b with
          | Some (Ok (c, b, acts')) => Some (Ok (c, b, acts ++ acts'))
          | r => r
          end
      | r => r
      end
  end.

(** What the kernel hands over in one read. *)
Definition readable (r : Z * list byte) : Prop := 0 < zlen r.2 <= extrabuf_size.

(** What the server does about one request. *)
Definition answer_actions (t : Z) (m : message) : list conn_action :=
  Send (response_text (answer cb t m)) :: if closeConnection_ (answer cb t m) then [Shutdown] else [].

Lemma chunk_fits b d : wf b -> zlen d <= extrabuf_size ->
  zlen (buffer_ b) + extrabuf_size <= max_size ->
  exists b', readFd (fun _ => ReadvData d) b = Ok (b', zlen d, None) /\ becomes b b' (content b ++ d) extrabuf_size.
Proof.
  intros Hb Hd Hroom.
  set (readv := fun vec => ReadvData (if zlen d <=? sum_lengths vec then d else [])).
  assert (readv_fits readv) as Hfit.
  { intros vec d' Hvec [= <-]. destruct (Z.leb_spec (zlen d) (sum_lengths vec)); [done|]. rewrite zlen_nil.
    unfold sum_lengths. clear -Hvec. induction Hvec; cbn [foldr]; lia. }
  pose proof (readFd_spec readv b Hb Hfit Hroom) as H. cbv zeta in H. set (vec := if _ <? _ then _ else _) in H.
  assert (zlen d <= sum_lengths vec) as Hv.
  { pose proof (writable_eq b Hb) as Hw. destruct Hb as (? & ? & ? & ?). unfold vec, extrabuf_size in *.
    destruct (Z.ltb_spec (writableBytes b) 65536); unfold sum_lengths; cbn [foldr]; lia. }
  assert (readv vec = ReadvData d) as Ev by (unfold readv; by rewrite (proj2 (Z.leb_le _ _) Hv)).
  rewrite Ev in H. destruct H as (b' & E & Hbe). exists b'. split; [|done]. rewrite <- E. unfold readFd. fold vec. by rewrite Ev.
Qed.

(** Halfway through a request: the line is complete once the context has left its
    first state, at one of the times seen. *)
Definition awaiting (m : message) (seen : list Z) (c : HttpContext) (s r : list byte) : Prop :=
  match state_ c with
  | kExpectRequestLine => c = new_context /\ s ++ r = message_bytes m
  | kExpectHeaders => exists t, t ∈ seen /\ forall t',
      ref_loop (S (length (s ++ r))) t' c (s ++ r) = Some (Ok (mkContext kGotAll (message_request t m), [], true))
  | _ => False
  end.

Lemma awaiting_parsing m seen c s r : awaiting m seen c s r -> parsing c.
Proof. unfold awaiting, parsing. destruct (state_ c); [by left|by right|done..]. Qed.

Lemma awaiting_result m seen c s r t :
  message_ok m -> awaiting m seen c s r ->
  exists t0, t0 ∈ t :: seen /\ ref_loop (S (length (s ++ r))) t c (s ++ r) = Some (Ok (mkContext kGotAll (message_request t0 m), [], true)).
Proof.
  intros Hm. unfold awaiting. destruct (state_ c); [|intros (t0 & Ht0 & H)|done..].
  - intros [-> ->]. exists t. split; [set_solver|]. pose proof (ref_loop_message t m [] Hm) as H. by rewrite app_nil_r in H.
  - exists t0. split; [set_solver|apply H].
Qed.

(** One more read: either the request goes on, or it is complete. *)
Lemma awaiting_step m seen c s d r t :
  message_ok m -> awaiting m seen c s (d ++ r) ->
  exists c' s', ref_loop (S (length (s ++ d))) t c (s ++ d) = Some (Ok (c', s', true)) /\
    ((r <> [] /\ gotAll c' = false /\ awaiting m (t :: seen) c' s' r) \/
     (r = [] /\ s' = [] /\ exists t0, t0 ∈ t :: seen /\ c' = mkContext kGotAll (message_request t0 m))).
Proof.
  intros Hm Ha. pose proof (awaiting_parsing _ _ _ _ _ Ha) as Hc.
  destruct (awaiting_result _ _ _ _ _ t Hm Ha) as (t0 & Ht0 & Hfull). rewrite app_assoc in Hfull.
  destruct (ref_loop_total (S (length (s ++ d))) t c (s ++ d)) as [res Hres]; [done|lia|].
  destruct (ref_loop_final _ _ _ _ _ Hc Hres) as [(c1 & a1 & -> & Hc1)|Hfin].
  - exists c1, a1. split; [done|]. left. assert (state_ c1 <> kGotAll) as Hg by (destruct Hc1 as [-> | ->]; done).
    split; [|split; [by apply bool_decide_eq_false|]].
    { intros ->. rewrite app_nil_r in Hfull. rewrite Hres in Hfull. injection Hfull as -> _. done. }
    pose proof (ref_loop_app _ _ _ _ _ _ r (S (length ((s ++ d) ++ r))) Hc Hres Hg ltac:(lia)) as Happ. rewrite Hfull in Happ.
    unfold awaiting. destruct Hc1 as [Hs1|Hs1]; rewrite Hs1.
    + destruct Hc as [Hs|Hs]; [|by eapply ref_loop_headers_stays in Hres].
      destruct (ref_loop_waits_line _ _ _ _ _ _ Hs Hres Hs1) as [-> ->]. unfold awaiting in Ha. rewrite Hs in Ha.
      destruct Ha as [-> <-]. split; [done|by rewrite app_assoc].
    + exists t0. split; [done|]. intros t'. rewrite (ref_loop_headers_time _ t' t) by done. by rewrite <- Happ.
  - rewrite Hfin in Hfull by lia. destruct res as [[[c1 a1] ok]|e]; [|done]. cbn in Hfull. injection Hfull as -> Ha1 ->.
    apply app_eq_nil in Ha1 as [-> ->]. exists (mkContext kGotAll (message_request t0 m)), []. split; [done|]. right. by eauto.
Qed.

(** The responses are of a size the kernel takes. *)
Definition answerable (m : message) : Prop := message_ok m /\ forall t, zlen (response_text (answer cb t m)) < 2 ^ 31.

Lemma read_and_answer_step m seen c b d r t :
  answerable m -> wf b -> awaiting m seen c (content b) (d ++ r) -> 0 < zlen d <= extrabuf_size ->
  zlen (buffer_ b) + extrabuf_size <= max_size ->
  exists c' b' acts, read_and_answer t d c b = Some (Ok (c', b', acts)) /\ wf b' /\
    zlen (buffer_ b') <= zlen (buffer_ b) + extrabuf_size /\
    ((r <> [] /\ acts = [] /\ awaiting m (t :: seen) c' (content b') r) \/
     (r = [] /\ c' = new_context /\ content b' = [] /\ exists t0, t0 ∈ t :: seen /\ acts = answer_actions t0 m)).
Proof.
  intros [Hm Hlen] Hb Ha Hd Hroom. unfold read_and_answer.
  destruct (chunk_fits b d Hb ltac:(lia) Hroom) as (b1 & -> & (Hb1 & Hc1 & Hz1)). rewrite (proj2 (Z.ltb_lt _ _)) by lia.
  pose proof (awaiting_parsing _ _ _ _ _ Ha) as Hc.
  destruct (awaiting_step _ _ _ _ _ _ t Hm Ha) as (c' & s' & Er & Hcase).
  pose proof (parseRequest_refines t c b1 Hb1 Hc) as H. rewrite Hc1, Er in H. unfold loop_refines in H. unfold onMessage.
  destruct (parseRequest t c b1) as [[[[c2 b2] ok]|e]|]; try done. destruct H as (-> & -> & (Hb2 & Hc2 & Hz2)). bind_simpl.
  destruct Hcase as [(Hr & -> & Ha')|(-> & -> & t0 & Ht0 & ->)].
  - exists c', b2, []. split; [done|]. split; [done|]. split; [lia|]. left. by rewrite Hc2.
  - change (gotAll _) with true. cbv iota. cbn [request_]. rewrite onRequest_answers by done. bind_simpl.
    exists new_context, b2, (answer_actions t0 m). split; [done|]. split; [done|]. split; [lia|]. right. split_and!; [done..|]. by exists t0.
Qed.

(** The reads of one request. *)
Lemma serve_request m : answerable m -> forall reads seen c b,
  wf b -> awaiting m seen c (content b) (concat reads.*2) -> reads <> [] -> Forall readable reads ->
  zlen (buffer_ b) + zlen reads * extrabuf_size <= max_size ->
  exists t b', serve reads c b = Some (Ok (new_context, b', answer_actions t m)) /\ t ∈ seen ++ reads.*1 /\ wf b' /\ content b' = [] /\
    zlen (buffer_ b') <= zlen (buffer_ b) + zlen reads * extrabuf_size.
Proof.
  intros Hm. induction reads as [|[t d] reads IH]; intros seen c b Hb Ha Hne Hr Hroom; [done|].
  apply Forall_cons in Hr as [Hd Hr]. rewrite zlen_cons in Hroom |- *. zlen_pos. cbn [serve fmap list_fmap concat fst snd] in *.
  destruct (read_and_answer_step m seen c b d (concat reads.*2) t) as (c' & b' & acts & -> & Hb' & Hz & Hcase); [done|done|done|exact Hd|unfold extrabuf_size in *; lia|].
  destruct Hcase as [(Hrest & -> & Ha')|(Hrest & -> & Hc' & t0 & Ht0 & ->)].
  - destruct (IH (t :: seen) c' b') as (t0 & b2 & -> & Ht0 & Hb2 & Hc2 & Hz2); [done|done|intros ->; by apply Hrest|done|unfold extrabuf_size in *; lia|].
    exists t0, b2. split; [done|]. split; [set_solver|]. split_and!; [done|done|unfold extrabuf_size in *; lia].
  - assert (reads = []) as ->.
    { destruct reads as [|[t1 d1] reads]; [done|]. apply Forall_cons in Hr as [[Hd1 _] _]. cbn in Hrest.
      apply app_eq_nil in Hrest as [-> _]. vm_compute in Hd1. discriminate. }
    exists t0, b'. cbn [serve]. rewrite app_nil_r. split; [done|]. split; [set_solver|]. split_and!; [done|done|unfold extrabuf_size in *; lia].
Qed.

Lemma serve_app xs ys c b :
  serve (xs ++ ys) c b =
  match serve xs c b with
  | Some (Ok (c, b, acts)) => match serve ys c b with Some (Ok (c, b, acts')) => Some (Ok (c, b, acts ++ acts')) | r => r end
  | r => r
  end.
Proof.
  revert c b. induction xs as [|[t d] xs IH]; intros c b; cbn [serve app].
  - by destruct (serve ys c b) as [[[[??]?]|]|].
  - destruct (read_and_answer t d c b) as [[[[c1 b1] acts]|]|]; [|done..]. rewrite IH.
    destruct (serve xs c1 b1) as [[[[c2 b2] acts2]|]|]; [|done..].
    destruct (serve ys c2 b2) as [[[[??]?]|]|]; [|done..]. by rewrite app_assoc.
Qed.

(** An HTTP connection.  A client sends requests, the next one after the
    answer to the last.  However the network cuts their bytes into reads, the
    server answers each request once, in order, with the text of the response its
    callback fills in, given the request as the client wrote it and the time of
    one of its reads, and ends the connection where a response says so; then the
    buffer is empty and the parser as at the start.  (These are the calls [onMessage]
    makes; [HttpServer] has what the connection does with those after a shutdown.) *)
Theorem http_session (session : list (message * list (Z * list byte))) b :
  wf b -> content b = [] ->
  Forall (fun '(m, reads) => answerable m /\ concat reads.*2 = message_bytes m /\ Forall readable reads) session ->
  zlen (buffer_ b) + zlen (concat session.*2) * extrabuf_size <= max_size ->
  exists ts b', serve (concat session.*2) new_context b =
      Some (Ok (new_context, b', concat (zip_with (fun t x => answer_actions t x.1) ts session))) /\
    Forall2 (fun t x => t ∈ x.2.*1) ts session /\ wf b' /\ content b' = [].
Proof.
  intros Hb Hc Hs. revert b Hb Hc. induction Hs as [|[m reads] session (Hm & Hbytes & Hr) _ IH]; intros b Hb Hc Hroom.
  { exists [], b. split; [done|]. split; [constructor|done]. }
  cbn [fmap list_fmap concat snd] in *. rewrite zlen_app in Hroom. zlen_pos. pose proof (zlen_nonneg reads). pose proof (zlen_nonneg (concat session.*2)).
  assert (reads <> []) as Hne.
  { intros ->. cbn in Hbytes. symmetry in Hbytes. apply app_eq_nil in Hbytes as [_ Hbytes]. discriminate Hbytes. }
  destruct (serve_request m Hm reads [] new_context b) as (t & b1 & E1 & Ht & Hb1 & Hc1 & Hz1); try done.
  { cbn. by rewrite Hc, Hbytes. }
  { unfold extrabuf_size in *. lia. }
  destruct (IH b1) as (ts & b2 & E2 & Hts & Hb2 & Hc2); [done|done|unfold extrabuf_size in *; lia|].
  exists (t :: ts), b2. rewrite serve_app, E1, E2. split; [done|]. split; [by constructor|done].
Qed.

(** A request that arrives in the same read as the one before it is not answered
    with it: it stays in the buffer, and the parser looks at it only when more
    bytes arrive, which a client waiting for its answer does not send. *)
Theorem pipelined_request_waits t m1 m2 b :
  answerable m1 -> answerable m2 -> wf b -> content b = [] ->
  0 < zlen (message_bytes m1 ++ message_bytes m2) <= extrabuf_size -> zlen (buffer_ b) + extrabuf_size <= max_size ->
  exists b', serve [(t, message_bytes m1 ++ message_bytes m2)] new_context b = Some (Ok (new_context, b', answer_actions t m1)) /\
    content b' = message_bytes m2.
Proof.
  intros [Hm1 Hl1] _ Hb Hc Hd Hroom. cbn [serve]. unfold read_and_answer.
  destruct (chunk_fits b _ Hb (proj2 Hd) Hroom) as (b1 & -> & (Hb1 & Hc1 & _)). rewrite (proj2 (Z.ltb_lt _ _)) by lia.
  rewrite Hc in Hc1. destruct (onMessage_answers cb t m1 (message_bytes m2) b1 Hm1 Hb1 Hc1 (Hl1 t)) as (b2 & -> & _ & Hc2).
  exists b2. by rewrite app_nil_r.
Qed.
End session.

(** ** A client that sends two requests, the first in two reads *)

Definition get_message : message := mkMessage kGet (bytes "/a") [] kHttp11 [(bytes "Host", bytes "muduo")].

Lemma get_message_ok : message_ok get_message.
Proof.
  assert (forall h, h ∈ m_headers get_message -> Byte.x3a ∉ h.1 /\ Byte.x0d ∉ h.1 /\ Byte.x0d ∉ h.2 /\ trimmed h.2) as Hh.
  { intros h Hh. cbn in Hh. apply list_elem_of_singleton in Hh as ->. split_and!; [vm_compute; set_solver..|done]. }
  unfold message_ok. rewrite Forall_forall. split_and!; try done; try (vm_compute; set_solver).
Qed.

(** An answer that does not depend on the request. *)
Definition fixed_callback (req : HttpRequest) (resp : HttpResponse) : HttpResponse :=
  setBody (bytes "ok") (setStatusMessage (bytes "OK") (setStatusCode k200Ok resp)).

Definition two_requests : list (message * list (Z * list byte)) :=
  [(get_message, [(5, ztake 20 (message_bytes get_message)); (6, zdrop 20 (message_bytes get_message))]);
   (sample_message, [(9, message_bytes sample_message)])].

Lemma two_requests_ok :
  Forall (fun '(m, reads) => answerable fixed_callback m /\ concat reads.*2 = message_bytes m /\ Forall readable reads) two_requests.
Proof.
  repeat apply Forall_cons_2; [| |constructor].
  - split; [split; [apply get_message_ok|intros t; vm_compute; reflexivity]|]. split; [reflexivity|].
    repeat constructor; vm_compute; congruence.
  - split; [split; [apply sample_message_ok|intros t; vm_compute; reflexivity]|]. split; [reflexivity|].
    repeat constructor; vm_compute; congruence.
Qed.

Lemma http_session_witness :
  exists ts b', serve fixed_callback (concat two_requests.*2) new_context (buffer_with []) =
      Some (Ok (new_context, b', concat (zip_with (fun t x => answer_actions fixed_callback t x.1) ts two_requests))) /\
    Forall2 (fun t x => t ∈ x.2.*1) ts two_requests /\ wf b' /\ content b' = [].
Proof.
  apply (http_session fixed_callback two_requests (buffer_with [])).
  - apply buffer_with_wf. vm_compute. congruence.
  - reflexivity.
  - apply two_requests_ok.
  - vm_compute. congruence.
Defined.

Lemma pipelined_request_waits_witness :
  exists b', serve fixed_callback [(5, message_bytes get_message ++ message_bytes sample_message)] new_context (buffer_with []) =
      Some (Ok (new_context, b', answer_actions fixed_callback 5 get_message)) /\ content b' = message_bytes sample_message.
Proof.
  apply (pipelined_request_waits fixed_callback 5 get_message sample_message (buffer_with [])).
  - pose proof two_requests_ok as H. inversion H as [|? ? Hx]. apply Hx.
  - pose proof two_requests_ok as H. inversion H as [|? ? _ H2]. inversion H2 as [|? ? Hx]. apply Hx.
  - apply buffer_with_wf. vm_compute. congruence.
  - reflexivity.
  - vm_compute. split; congruence.
  - vm_compute. congruence.
Defined.
End HttpSession.
