(* ===== verification/HttpServer.v ===== *)
(** * The HTTP server and its connections
    ([src/net/http/HttpServer.h], [HttpServer.cpp])

    Every connection has an [HttpContext] of its own, in its context, and an input
    buffer; what the server asks of a connection that it has shut down is dropped, as
    [TcpConnection::send] and [shutdown] do nothing then.  The events of the connections interleave as the loops of the server run
    them; one event is handled without interruption. *)

From S2P Require Import Prelude Buffer Http HttpSession.

Module HttpServer.
Import Buffer Http HttpSession.

(** The callbacks a [TcpServer] may have been given. *)
Inductive TcpCallback := DefaultCallback | HttpOnConnection | HttpOnMessage.

(** [connected_]: whether [state_] is [kConnected], not [kDisconnecting]. *)
Record Conn := mkConn { context_ : option HttpContext; inputBuffer_ : Buffer; connected_ : bool }.

(** The connection does what it is asked: [send] and [shutdown] test [state_], and
    [shutdown] changes it. *)
Fixpoint perform (connected : bool) (acts : list conn_action) : bool * list conn_action :=
  match acts with
  | [] => (connected, [])
  | a :: acts =>
      if connected then
        let '(o, done) := perform (match a with Send _ => true | Shutdown => false end) acts in (o, a :: done)
      else perform false acts
  end.

Record HttpServer := mkHttp {
  httpCallback_ : HttpRequest -> HttpResponse -> HttpResponse;
  connectionCallback_ : TcpCallback;
  messageCallback_ : TcpCallback;
  started : bool;
  conns : gmap Z Conn;
  (** history: what was sent and shut down on which connection *)
  actions : list (Z * conn_action) }.

Definition new_http_server : HttpServer := mkHttp defaultHttpCallback HttpOnConnection HttpOnMessage false ∅ [].
Definition setHttpCallback (cb : HttpRequest -> HttpResponse -> HttpResponse) (s : HttpServer) : HttpServer :=
  mkHttp cb (connectionCallback_ s) (messageCallback_ s) (started s) (conns s) (actions s).
Definition start (s : HttpServer) : HttpServer :=
  mkHttp (httpCallback_ s) (connectionCallback_ s) (messageCallback_ s) true (conns s) (actions s).

Definition with_conns (cs : gmap Z Conn) (acts : list (Z * conn_action)) (s : HttpServer) : HttpServer :=
  mkHttp (httpCallback_ s) (connectionCallback_ s) (messageCallback_ s) (started s) cs acts.

Inductive event :=
  | Up (c : Z)
  | Read (c t : Z) (d : list byte)
  | Down (c : Z).

Definition conn_of (e : event) : Z := match e with Up c | Read c _ _ | Down c => c end.

(** A connection is read from; its message callback is that of the server.  With the
    HTTP callback a null pointer from [any_cast] is followed. *)
Definition message_read (s : HttpServer) (t : Z) (d : list byte) (cn : Conn) : option (outcome (Conn * list conn_action)) :=
  match messageCallback_ s, context_ cn with
  | HttpOnMessage, Some ctx =>
      match read_and_answer (httpCallback_ s) t d ctx (inputBuffer_ cn) with
      | Some r => Some (
          '(ctx, b, acts) ← r;
          let '(o, acts) := perform (connected_ cn) acts in
          Ok (mkConn (Some ctx) b o, acts))
      | None => None
      end
  | HttpOnMessage, None => Some (Err OutOfBounds)
  | _, _ => Some ('(b, n, _) ← readFd (fun _ => ReadvData d) (inputBuffer_ cn); Ok (mkConn (context_ cn) (if 0 <? n then retrieveAll b else b) (connected_ cn), []))
  end.

(** [None]: the event cannot happen. *)
Definition step (e : event) (s : HttpServer) : option (outcome HttpServer) :=
  match e with
  | Up c =>
      match conns s !! c with
      | Some _ => None
      | None => Some (
          b ← new_buffer kInitialSize;
          let ctx := match connectionCallback_ s with HttpOnConnection => onConnection true None | _ => None end in
          Ok (with_conns (<[c := mkConn ctx b true]> (conns s)) (actions s) s))
      end
  | Read c t d =>
      match conns s !! c with
      | None => None
      | Some cn =>
          match message_read s t d cn with
          | None => None
          | Some r => Some (
              '(cn, acts) ← r;
              Ok (with_conns (<[c := cn]> (conns s)) (actions s ++ ((fun a => (c, a)) <$> acts)) s))
          end
      end
  | Down c =>
      match conns s !! c with
      | None => None
      | Some _ => Some (Ok (with_conns (delete c (conns s)) (actions s) s))
      end
  end.

Fixpoint run (es : list event) (s : HttpServer) : option (outcome HttpServer) :=
  match es with
  | [] => Some (Ok s)
  | e :: es =>
      match step e s with
      | Some (Ok s) => run es s
      | r => r
      end
  end.

(** ** Connections do not see each other *)

(** The part of the history that concerns a connection. *)
Definition of_conn (c : Z) (acts : list (Z * conn_action)) : list conn_action :=
  omap (fun ca => if ca.1 =? c then Some ca.2 else None) acts.
Definition only (c : Z) (es : list event) : list event := filter (fun e => conn_of e = c) es.

(** What a connection can see of the server. *)
Definition same_for (c : Z) (s s' : HttpServer) : Prop :=
  httpCallback_ s = httpCallback_ s' /\ connectionCallback_ s = connectionCallback_ s' /\ messageCallback_ s = messageCallback_ s' /\
  conns s !! c = conns s' !! c /\ of_conn c (actions s) = of_conn c (actions s').

Lemma of_conn_app c a b : of_conn c (a ++ b) = of_conn c a ++ of_conn c b.
Proof. apply omap_app. Qed.
Lemma of_conn_own c acts : of_conn c ((fun a => (c, a)) <$> acts) = acts.
Proof. induction acts as [|a acts IH]; [done|]. cbn. rewrite Z.eqb_refl. cbn. f_equal. apply IH. Qed.
Lemma of_conn_other c d acts : d <> c -> of_conn c ((fun a => (d, a)) <$> acts) = [].
Proof. intros H. induction acts as [|a acts IH]; [done|]. cbn. rewrite (proj2 (Z.eqb_neq d c)) by done. apply IH. Qed.

Ltac see := unfold same_for; cbn [with_conns httpCallback_ connectionCallback_ messageCallback_ conns actions].

Lemma step_other e c s s' : conn_of e <> c -> step e s = Some (Ok s') -> same_for c s' s.
Proof.
  intros Hc H. destruct e as [d|d t x|d]; cbn [conn_of step] in *; destruct (conns s !! d) as [cn|] eqn:E; try done.
  - destruct (new_buffer kInitialSize) as [b|]; [|done]. cbn [mbind outcome_bind] in H. injection H as <-. see. by rewrite lookup_insert_ne.
  - destruct (message_read s t x cn) as [r|]; [|done]. injection H as H. apply bind_Ok in H as ([cn' acts] & _ & H). injection H as <-.
    see. by rewrite lookup_insert_ne, of_conn_app, of_conn_other, app_nil_r by done.
  - injection H as <-. see. by rewrite lookup_delete_ne.
Qed.

Lemma step_own e c s1 s2 s1' :
  conn_of e = c -> same_for c s1 s2 -> step e s1 = Some (Ok s1') -> exists s2', step e s2 = Some (Ok s2') /\ same_for c s1' s2'.
Proof.
  intros Hc (Hcb & Hcc & Hmc & Hcn & Ha) H. destruct e as [d|d t x|d]; cbn [conn_of step] in *; subst d; rewrite <- Hcn.
  - destruct (conns s1 !! c) eqn:E; [done|]. destruct (new_buffer kInitialSize) as [b|]; [|done].
    cbn [mbind outcome_bind] in *. injection H as <-.
    eexists. split; [done|]. see. rewrite !lookup_insert_eq, Hcc. by split_and!.
  - destruct (conns s1 !! c) as [cn|] eqn:E; [|done]. assert (message_read s2 t x cn = message_read s1 t x cn) as ->.
    { unfold message_read. by rewrite Hcb, Hmc. }
    destruct (message_read s1 t x cn) as [r|]; [|done]. injection H as H. apply bind_Ok in H as ([cn' acts] & -> & H). injection H as <-.
    eexists. split; [done|]. see. rewrite !lookup_insert_eq, !of_conn_app, Ha. by split_and!.
  - destruct (conns s1 !! c) as [cn|] eqn:E; [|done]. injection H as <-. eexists. split; [done|]. see. rewrite !lookup_delete_eq. by split_and!.
Qed.

Lemma run_only c es : forall s1 s2 s1',
  same_for c s1 s2 -> run es s1 = Some (Ok s1') -> exists s2', run (only c es) s2 = Some (Ok s2') /\ same_for c s1' s2'.
Proof.
  induction es as [|e es IH]; intros s1 s2 s1' Hs H; cbn [run] in H.
  { injection H as <-. by exists s2. }
  destruct (step e s1) as [[s|]|] eqn:E; [|done..]. unfold only. destruct (decide (conn_of e = c)) as [Hc|Hc].
  - rewrite filter_cons_True by done. destruct (step_own e c s1 s2 s Hc Hs E) as (s' & E' & Hs'). cbn [run]. rewrite E'. by apply (IH s).
  - rewrite filter_cons_False by done. apply (IH s); [|done]. destruct (step_other e c s1 s Hc E) as (A1 & A2 & A3 & A4 & A5).
    destruct Hs as (B1 & B2 & B3 & B4 & B5). split_and!; congruence.
Qed.

Lemma only_only c es : only c (only c es) = only c es.
Proof. unfold only. induction es as [|e es IH]; [done|]. destruct (decide (conn_of e = c)); [by rewrite !filter_cons_True, IH by done|by rewrite !filter_cons_False by done]. Qed.

(** The server does not abort when it would not with any of its clients alone. *)
Lemma run_all es : forall s,
  (forall c, exists s', run (only c es) s = Some (Ok s')) -> exists s', run es s = Some (Ok s').
Proof.
  induction es as [|e es IH]; intros s H; [by exists s|]. cbn [run]. destruct (H (conn_of e)) as (s1 & E).
  unfold only in E. rewrite filter_cons_True in E by done. cbn [run] in E.
  destruct (step e s) as [[s2|]|] eqn:Es; [|done..]. apply IH. intros c.
  destruct (decide (conn_of e = c)) as [<-|Hc]; [by exists s1|]. destruct (H c) as (s3 & E3).
  unfold only in E3. rewrite filter_cons_False in E3 by done. fold (only c es) in E3.
  destruct (run_only c (only c es) s s2 s3) as (s4 & E4 & _); [|done|by rewrite only_only in E4; exists s4].
  destruct (step_other e c s s2 Hc Es) as (A1 & A2 & A3 & A4 & A5). by split_and!.
Qed.

Lemma perform_app o a b :
  perform o (a ++ b) = let '(o1, a1) := perform o a in let '(o2, b1) := perform o1 b in (o2, a1 ++ b1).
Proof.
  revert o. induction a as [|x a IH]; intros o; cbn [perform app]; [by destruct (perform o b)|].
  destruct o; [|apply IH]. rewrite IH. destruct (perform _ a) as [o1 a1]. by destruct (perform o1 b).
Qed.

(** The reads of one connection are a session. *)
Lemma run_reads c reads : forall s ctx b o,
  messageCallback_ s = HttpOnMessage -> conns s !! c = Some (mkConn (Some ctx) b o) ->
  match serve (httpCallback_ s) reads ctx b with
  | Some (Ok (ctx', b', acts)) => exists s', run ((fun r => Read c r.1 r.2) <$> reads) s = Some (Ok s') /\
      conns s' !! c = Some (mkConn (Some ctx') b' (perform o acts).1) /\
      of_conn c (actions s') = of_conn c (actions s) ++ (perform o acts).2
  | _ => forall s', run ((fun r => Read c r.1 r.2) <$> reads) s <> Some (Ok s')
  end.
Proof.
  induction reads as [|[t d] reads IH]; intros s ctx b o Hm Hc; cbn [fmap list_fmap run serve].
  { exists s. cbn. by rewrite app_nil_r. }
  cbn [step fst snd]. rewrite Hc. unfold message_read. rewrite Hm. cbn [context_ inputBuffer_ connected_].
  destruct (read_and_answer (httpCallback_ s) t d ctx b) as [[[[ctx1 b1] acts1]|]|]; [|done..]. bind_simpl. cbn [mbind outcome_bind].
  destruct (perform o acts1) as [o1 d1] eqn:E1. cbn [mbind outcome_bind]. set (s1 := with_conns _ _ _).
  pose proof (IH s1 ctx1 b1 o1 Hm ltac:(apply lookup_insert_eq)) as H. cbn [httpCallback_ with_conns s1] in H.
  change (httpCallback_ s1) with (httpCallback_ s) in H.
  destruct (serve (httpCallback_ s) reads ctx1 b1) as [[[[ctx2 b2] acts2]|]|]; [|done..].
  destruct H as (s' & E & Hc' & Ha). exists s'. rewrite perform_app, E1. destruct (perform o1 acts2) as [o2 d2]. split_and!; [done..|].
  rewrite Ha. unfold s1. see. by rewrite of_conn_app, of_conn_own, <- app_assoc.
Qed.

Abbreviation server cb := (start (setHttpCallback cb new_http_server)).

(** The input buffer of a new connection. *)
Definition fresh_buffer : Buffer := mkBuffer (replicate 1032 Byte.x00) kCheapPrepend kCheapPrepend.

Lemma new_buffer_fresh : new_buffer kInitialSize = Ok fresh_buffer.
Proof. reflexivity. Qed.

(** One client alone: it comes up and is read from. *)
Lemma run_client cb c reads :
  match serve cb reads new_context fresh_buffer with
  | Some (Ok (_, _, acts)) => exists s', run (Up c :: ((fun r => Read c r.1 r.2) <$> reads)) (server cb) = Some (Ok s') /\
      is_Some (conns s' !! c) /\ of_conn c (actions s') = (perform true acts).2
  | _ => forall s', run (Up c :: ((fun r => Read c r.1 r.2) <$> reads)) (server cb) <> Some (Ok s')
  end.
Proof.
  cbn [run step]. change (conns (server cb) !! c) with ((∅ : gmap Z Conn) !! c). rewrite lookup_empty.
  rewrite new_buffer_fresh. bind_simpl. cbn [mbind outcome_bind]. set (s1 := with_conns _ _ _).
  pose proof (run_reads c reads s1 new_context fresh_buffer true eq_refl ltac:(apply lookup_insert_eq)) as H.
  change (httpCallback_ s1) with cb in H. destruct (serve cb reads new_context fresh_buffer) as [[[[? ?] acts]|]|]; [|done..].
  destruct H as (s' & E & Hc & Ha). exists s'. split_and!; [done|by rewrite Hc|done].
Qed.

(** The requests of a client, each with the reads its bytes arrive in: well formed,
    and each begun after the one before it has arrived. *)
Definition session_ok cb (session : list (message * list (Z * list byte))) : Prop :=
  Forall (fun '(m, reads) => answerable cb m /\ concat reads.*2 = message_bytes m /\ Forall readable reads) session /\
  1032 + zlen (concat session.*2) * extrabuf_size <= max_size.

Lemma serve_session cb session :
  session_ok cb session ->
  exists ts b', serve cb (concat session.*2) new_context fresh_buffer =
      Some (Ok (new_context, b', concat (zip_with (fun t x => answer_actions cb t x.1) ts session))) /\
    Forall2 (fun t x => t ∈ x.2.*1) ts session.
Proof.
  intros [Hs Hroom]. destruct (http_session cb session fresh_buffer) as (ts & b' & E & Hts & _); [|reflexivity|done|done|by exists ts, b'].
  vm_compute. repeat split; congruence.
Qed.

(** A client that has sent some of such requests so far, and may have gone. *)
Definition well_behaved cb (c : Z) (es : list event) : Prop :=
  exists session, session_ok cb session /\
    (only c es `prefix_of` Up c :: ((fun r => Read c r.1 r.2) <$> concat session.*2) \/
     only c es = Up c :: ((fun r => Read c r.1 r.2) <$> concat session.*2) ++ [Down c]).

Lemma run_app a b s :
  run (a ++ b) s = match run a s with Some (Ok s') => run b s' | r => r end.
Proof. revert s. induction a as [|e a IH]; intros s; [done|]. cbn [run app]. destruct (step e s) as [[s'|]|]; [apply IH|done..]. Qed.

Lemma well_behaved_runs cb c es : well_behaved cb c es -> exists s, run (only c es) (server cb) = Some (Ok s).
Proof.
  intros (session & Hs & Hp). destruct (serve_session cb session Hs) as (ts & b' & E & _).
  pose proof (run_client cb c (concat session.*2)) as H. rewrite E in H. destruct H as (s' & Er & [cn Hc] & _).
  destruct Hp as [[k Hk] | ->].
  - rewrite Hk, run_app in Er. destruct (run (only c es) (server cb)) as [[s|]|]; [by exists s|done..].
  - rewrite app_comm_cons, run_app, Er. cbn [run step]. rewrite Hc. by eexists.
Qed.

(** What a client is sent: the answers to its requests, up to the first one after
    which the connection is shut down. *)
Fixpoint answers cb (ts : list Z) (ms : list message) : list conn_action :=
  match ts, ms with
  | t :: ts, m :: ms => answer_actions cb t m ++ if closeConnection_ (answer cb t m) then [] else answers cb ts ms
  | _, _ => []
  end.

Lemma perform_shut acts : perform false acts = (false, []).
Proof. by induction acts. Qed.

Lemma perform_answers cb ts (session : list (message * list (Z * list byte))) :
  (perform true (concat (zip_with (fun t x => answer_actions cb t x.1) ts session))).2 = answers cb ts session.*1.
Proof.
  revert session. induction ts as [|t ts IH]; intros [|[m reads] session]; [done..|]. cbn [zip_with concat fmap list_fmap answers fst].
  rewrite perform_app, <- IH. set (later := concat (zip_with _ ts session)). unfold answer_actions.
  destruct (closeConnection_ _); cbn [perform app]; [by rewrite perform_shut|by destruct (perform true later)].
Qed.

(** C7: the HTTP server with many clients, whose reads interleave and cut the bytes
    in any way.  It does not abort when every client sends well-formed requests, each
    begun after the one before it has arrived, and may stop anywhere.  As long as it
    does not abort, whatever bytes the other clients send, a client that sends such
    requests is sent the answers to them, each once, in order, up to the first one
    that closes the connection, each with the text of the response the callback fills
    in, given the request as the client wrote it and the time of one of its reads, and
    nothing else; requests after a closing answer get none.  The server treats it as
    if it had no other client. *)
Theorem http_server_answers cb es :
  ((forall c, well_behaved cb c es) -> exists s, run es (server cb) = Some (Ok s)) /\
  forall s c session, run es (server cb) = Some (Ok s) ->
    only c es = Up c :: ((fun r => Read c r.1 r.2) <$> concat session.*2) -> session_ok cb session ->
    (exists ts, of_conn c (actions s) = answers cb ts session.*1 /\ Forall2 (fun t x => t ∈ x.2.*1) ts session) /\
    exists s', run (only c es) (server cb) = Some (Ok s') /\ same_for c s s'.
Proof.
  split.
  - intros H. apply run_all. intros c. by apply well_behaved_runs.
  - intros s c session H Ho Hs. destruct (run_only c es (server cb) (server cb) s ltac:(by split_and!) H) as (s' & E & Hsame).
    split; [|by exists s']. destruct (serve_session cb session Hs) as (ts & b' & Es & Hts). exists ts. split; [|done].
    pose proof (run_client cb c (concat session.*2)) as Hc. rewrite Es, <- Ho, E in Hc. destruct Hc as (s2 & [= <-] & _ & Ha).
    destruct Hsame as (_ & _ & _ & _ & ->). by rewrite Ha, perform_answers.
Qed.

(** ** Two clients at once

    The second request of each asks for the connection to be closed. *)
Definition sample : list event :=
  [Up 1; Up 2] ++ (concat two_requests.*2 ≫= fun r => [Read 1 r.1 r.2; Read 2 r.1 r.2]) ++ [Down 2].

Lemma two_requests_session : session_ok fixed_callback two_requests.
Proof. split; [apply two_requests_ok|vm_compute; congruence]. Qed.

Lemma sample_well_behaved c : well_behaved fixed_callback c sample.
Proof.
  exists two_requests. split; [apply two_requests_session|].
  destruct (decide (c = 1)) as [->|H1]; [left; exists []; vm_compute; reflexivity|].
  destruct (decide (c = 2)) as [->|H2]; [right; vm_compute; reflexivity|].
  left. assert (Forall (fun e => conn_of e = 1 \/ conn_of e = 2) sample) as H by (vm_compute; repeat constructor; auto).
  assert (only c sample = []) as -> by (induction H as [|e es He _ IH]; [done|]; unfold only; rewrite filter_cons_False by lia; exact IH).
  apply prefix_nil.
Qed.

Lemma http_server_answers_witness :
  exists s, run sample (server fixed_callback) = Some (Ok s) /\
    exists ts, of_conn 1 (actions s) = answers fixed_callback ts two_requests.*1.
Proof.
  destruct (http_server_answers fixed_callback sample) as [Hrun Hall]. destruct (Hrun sample_well_behaved) as (s & E).
  exists s. split; [exact E|].
  destruct (Hall s 1 two_requests E) as ((ts & Ha & _) & _); [vm_compute; reflexivity|apply two_requests_session|].
  exists ts. exact Ha.
Defined.
End HttpServer.
