(* ===== verification/Codec.v ===== *)
(** * Length-prefixed, checksummed messages
    ([src/net/protobuf/ProtobufCodecLite.h], [ProtobufCodecLite.cpp],
    [src/net/protorpc/RpcCodec.cpp])

    Protobuf messages and zlib's Adler-32 are not part of the repository: the
    message type, its serialisation and the checksum are parameters. *)

From S2P Require Import Prelude CxxStd Endian Buffer.

Module Codec.
Import Buffer.

Definition kHeaderLen : Z := 4.
Definition kChecksumLen : Z := 4.
Definition kMaxMessageLen : Z := 67108864.

Inductive ErrorCode :=
  | kNoError | kInvalidLength | kCheckSumError | kInvalidNameLen | kUnknownMessageType | kParseError.

Definition errorCodeToString (e : ErrorCode) : list byte :=
  match e with
  | kNoError => bytes "NoError"
  | kInvalidLength => bytes "InvalidLength"
  | kCheckSumError => bytes "CheckSumError"
  | kInvalidNameLen => bytes "InvalidNameLen"
  | kUnknownMessageType => bytes "UnknownMessageType"
  | kParseError => bytes "ParseError"
  end.

(** [asInt32(buf)] *)
Definition asInt32 (buf : list byte) : outcome Z :=
  in_bounds (4 <=? zlen buf);;
  Ok (i32 (networkToHost32 (u32 (i32 (le_combine (ztake 4 buf)))))).

(** ** Errors of serialisation ([src/net/protorpc/google-inl.h]) *)

(** [GOOGLE_CHECK_EQ] ends the program when the two differ. *)
Definition google_check_eq (a b : Z) : outcome unit := if a =? b then Ok () else Err Fatal.

Definition ByteSizeConsistencyError (before after produced : Z) : outcome unit :=
  google_check_eq before after;;
  google_check_eq produced before;;
  Err Fatal.

(** Whatever the sizes are. *)
Lemma ByteSizeConsistencyError_fatal before after produced : ByteSizeConsistencyError before after produced = Err Fatal.
Proof. unfold ByteSizeConsistencyError, google_check_eq. destruct (before =? after), (produced =? before); done. Qed.

Definition InitializationErrorMessage (action type_name error : list byte) : list byte :=
  bytes "Can't " ++ action ++ bytes " message of type " ++ [Byte.x22] ++ type_name ++ [Byte.x22] ++
  bytes " because it is missing required fields: " ++ error.

Section codec.
Context {Message : Type}.
(** [Message::ByteSize], [SerializeWithCachedSizesToArray] (the bytes it
    writes) and [ParseFromArray]. *)
Context (ByteSize : Message -> Z) (Serialize : Message -> list byte).
Context (ParseFromArray : list byte -> option Message).
(** [adler32(1, buf, len)] *)
Context (adler32 : list byte -> Z).
(** The codec object: its tag and callbacks. *)
Context (tag_ : list byte) (rawCb_ : option (list byte -> bool)).
Context (errorCallback_ : ErrorCode -> Buffer -> Buffer).

Definition kMinMessageLen : Z := i32 (zlen tag_ + kChecksumLen).

Definition checksum (buf : list byte) : Z := i32 (adler32 buf).

(** Returns [byte_size]; a message that changes while it is written is fatal. *)
Definition serializeToBuffer (message : Message) (buf : Buffer) : outcome (Buffer * Z) :=
  let byte_size := ByteSize message in
  buf ← ensureWritableBytes (u64 (byte_size + kChecksumLen)) buf;
  v ← zstore (beginWrite buf) (Serialize message) (buffer_ buf);
  (if zlen (Serialize message) =? byte_size then Ok ()
   else ByteSizeConsistencyError byte_size (ByteSize message) (zlen (Serialize message)));;
  buf ← hasWritten (u64 byte_size) (mkBuffer v (readerIndex_ buf) (writerIndex_ buf));
  Ok (buf, byte_size).

Definition fillEmptyBuffer (message : Message) (buf : Buffer) : outcome Buffer :=
  assert_ (readableBytes buf =? 0);;
  buf ← append_string tag_ buf;
  '(buf, byte_size) ← serializeToBuffer message buf;
  let checkSum := checksum (ztake (i32 (readableBytes buf)) (content buf)) in
  buf ← appendInt32 checkSum buf;
  assert_ (readableBytes buf =? u64 (zlen tag_ + byte_size + kChecksumLen));;
  let len := i32 (hostToNetwork32 (u32 (i32 (readableBytes buf)))) in
  prepend (le_split 4 len) 4 buf.

(** [send]: the bytes handed to the connection. *)
Definition send (message : Message) : outcome (list byte) :=
  buf ← new_buffer kInitialSize;
  buf ← fillEmptyBuffer message buf;
  Ok (content buf).

(** [validateChecksum(buf, len)] on the [len] bytes at [buf]. *)
Definition validateChecksum (data : list byte) : outcome bool :=
  let len := zlen data in
  in_bounds (kChecksumLen <=? len);;
  expectedCheckSum ← asInt32 (zdrop (len - kChecksumLen) data);
  let checkSum := checksum (ztake (len - kChecksumLen) data) in
  Ok (checkSum =? expectedCheckSum).

Definition parseFromBuffer (buf : list byte) : option Message := ParseFromArray buf.

(** [parse(buf, len, message)]: the error code and, without an error, the message. *)
Definition parse (data : list byte) : outcome (ErrorCode + Message) :=
  ok ← validateChecksum data;
  if (ok : bool) then
    in_bounds (zlen tag_ <=? zlen data);;
    if bool_decide (ztake (zlen tag_) data = tag_) then
      let dataLen := zlen data - kChecksumLen - zlen tag_ in
      in_bounds (0 <=? dataLen);;
      match parseFromBuffer (ztake dataLen (zdrop (zlen tag_) data)) with
      | Some m => Ok (inr m)
      | None => Ok (inl kParseError)
      end
    else Ok (inl kUnknownMessageType)
  else Ok (inl kCheckSumError).

(** The callbacks [onMessage] makes, in order. *)
Inductive event :=
  | RawMessage (data : list byte)
  | Delivered (m : Message)
  | ErrorReported (e : ErrorCode).

(** One round of the loop: the buffer, the events and whether it goes on. *)
Definition onMessage_round (buf : Buffer) : outcome (Buffer * list event * bool) :=
  if readableBytes buf >=? u32 (kMinMessageLen + kHeaderLen) then
    len ← peekInt32 buf;
    if (len >? kMaxMessageLen) || (len <? kMinMessageLen) then
      Ok (errorCallback_ kInvalidLength buf, [ErrorReported kInvalidLength], false)
    else if readableBytes buf >=? u64 (kHeaderLen + len) then
      let frame := range buf (peek buf) (peek buf + kHeaderLen + len) in
      let raw := match rawCb_ with Some _ => [RawMessage frame] | None => [] end in
      if match rawCb_ with Some cb => negb (cb frame) | None => false end then
        buf' ← retrieve (kHeaderLen + len) buf;
        Ok (buf', raw, true)
      else
        res ← parse (range buf (peek buf + kHeaderLen) (peek buf + kHeaderLen + len));
        match res with
        | inr m =>
            buf' ← retrieve (kHeaderLen + len) buf;
            Ok (buf', raw ++ [Delivered m], true)
        | inl e => Ok (errorCallback_ e buf, raw ++ [ErrorReported e], false)
        end
    else Ok (buf, [], false)
  else Ok (buf, [], false).

Fixpoint onMessage_loop (fuel : nat) (buf : Buffer) : option (outcome (Buffer * list event)) :=
  match fuel with
  | O => None
  | S f =>
      match onMessage_round buf with
      | Err e => Some (Err e)
      | Ok (buf', evs, false) => Some (Ok (buf', evs))
      | Ok (buf', evs, true) =>
          match onMessage_loop f buf' with
          | Some (Ok (buf'', evs')) => Some (Ok (buf'', evs ++ evs'))
          | r => r
          end
      end
  end.

(** Every round but the last takes a whole frame. *)
Definition onMessage (buf : Buffer) : option (outcome (Buffer * list event)) :=
  onMessage_loop (S (Z.to_nat (readableBytes buf))) buf.

(** ** The wire format *)

Definition payload (m : Message) : list byte := tag_ ++ Serialize m.
Definition body (m : Message) : list byte := payload m ++ be_bytes 4 (checksum (payload m)).
Definition frame (m : Message) : list byte := be_bytes 4 (zlen (body m)) ++ body m.

(** A message that fits the format. *)
Definition sendable (m : Message) : Prop :=
  ByteSize m = zlen (Serialize m) /\ zlen (body m) <= kMaxMessageLen.

Lemma zlen_body m : zlen (body m) = zlen tag_ + zlen (Serialize m) + 4.
Proof. unfold body, payload. rewrite !zlen_app, zlen_be_bytes. lia. Qed.

Lemma zlen_frame m : zlen (frame m) = 4 + zlen (body m).
Proof. unfold frame. by rewrite zlen_app, zlen_be_bytes. Qed.

Lemma checksum_range l : -2147483648 <= checksum l < 2147483648.
Proof. unfold checksum. apply (wraps_range 32). lia. Qed.

Lemma serializeToBuffer_spec m b :
  wf b -> ByteSize m = zlen (Serialize m) -> zlen (Serialize m) < 2 ^ 31 ->
  zlen (buffer_ b) + zlen (Serialize m) + 4 <= max_size ->
  exists b', serializeToBuffer m b = Ok (b', zlen (Serialize m)) /\
    becomes b b' (content b ++ Serialize m) (zlen (Serialize m) + 4) /\
    Z.min kCheapPrepend (readerIndex_ b) <= readerIndex_ b'.
Proof.
  intros Hb Hbs Hs Hm. unfold serializeToBuffer, kChecksumLen. rewrite Hbs. zlen_pos.
  unfold max_size in Hm. cint.
  destruct (ensureWritableBytes_spec (zlen (Serialize m) + 4) b)
    as (b1 & -> & (Hb1 & Hc1 & Hs1) & Hw & Hp); [done|lia|unfold max_size; lia|]. bind_simpl.
  pose proof Hb1 as (? & ? & ? & ?). rewrite writable_eq in Hw by done. unfold beginWrite.
  rewrite zstore_Ok by lia. bind_simpl. rewrite Z.eqb_refl. bind_simpl. cint.
  set (v := ztake _ _ ++ _). assert (zlen v = zlen (buffer_ b1)) as Hv by (apply zlen_stored; lia).
  unfold hasWritten. rewrite writable_eq by (unfold wf; simpl; rewrite Hv; done).
  cbn [buffer_ writerIndex_ readerIndex_]. rewrite Hv. run_checks. unfold max_size in *. cint.
  eexists. split; [done|]. unfold becomes. cbn [buffer_ writerIndex_ readerIndex_].
  split_and!; [|  |lia|done].
  - unfold wf, max_size. simpl. rewrite Hv. lia.
  - unfold content in *. cbn [buffer_ writerIndex_ readerIndex_].
    rewrite (zslice_split _ (writerIndex_ b1)) by lia. rewrite <-Hc1. f_equal.
    + subst v. apply zslice_stored_below; lia.
    + subst v. apply zslice_stored_new; lia.
Qed.

Lemma fillEmptyBuffer_spec m b :
  wf b -> content b = [] -> kCheapPrepend <= readerIndex_ b -> sendable m ->
  zlen (buffer_ b) + zlen (frame m) + 8 <= max_size ->
  exists b', fillEmptyBuffer m b = Ok b' /\ wf b' /\ content b' = frame m.
Proof.
  intros Hb Hc Hr [Hbs Hmax] Hroom. rewrite zlen_frame in Hroom. rewrite zlen_body in *.
  unfold kMaxMessageLen in Hmax. zlen_pos.
  unfold fillEmptyBuffer. rewrite readable_wf, Hc by done. cbn [assert_ Z.eqb zlen length Z.of_nat].
  rewrite assert_true by done. bind_simpl.
  destruct (append_string_spec tag_ b) as (b1 & -> & (Hb1 & Hc1 & Hs1) & Hp1);
    [done|lia..|]. bind_simpl. rewrite Hc in Hc1. simpl in Hc1.
  destruct (serializeToBuffer_spec m b1) as (b2 & -> & (Hb2 & Hc2 & Hs2) & Hp2);
    [done|done|lia|lia|]. bind_simpl. rewrite Hc1 in Hc2. fold (payload m) in Hc2.
  rewrite readable_wf, Hc2 by done.
  assert (zlen (payload m) = zlen tag_ + zlen (Serialize m)) as Hpl by apply zlen_app.
  rewrite i32_small by lia. rewrite (ztake_all (zlen (payload m))) by lia.
  destruct (appendInt_spec W32 (checksum (payload m)) b2) as (b3 & E3 & (Hb3 & Hc3 & Hs3) & Hp3);
    [done|lia|]. cbn [appendInt] in E3. rewrite E3. bind_simpl. rewrite Hc2 in Hc3.
  change (be_bytes (nbytes W32)) with (be_bytes 4) in Hc3. fold (body m) in Hc3.
  rewrite readable_wf, Hc3, zlen_body by done. unfold kChecksumLen, max_size in *.
  rewrite u64_small by lia. rewrite assert_true by lia. bind_simpl.
  rewrite (i32_small (_ + 4)) by lia. unfold hostToNetwork32. rewrite wire_bytes by done.
  unfold kCheapPrepend in *.
  destruct (prepend_spec (be_bytes 4 (zlen (body m))) 4 b3) as (b4 & E4 & (Hb4 & Hc4 & _) & _);
    [done|rewrite zlen_be_bytes; lia|unfold prependableBytes; lia|].
  rewrite zlen_body in E4. rewrite E4. exists b4. split_and!; [done..|].
  rewrite ztake_all, Hc3 in Hc4 by (rewrite zlen_be_bytes; lia). done.
Qed.

(** What [send] hands to the connection is the wire format of the
    message: the length of what follows, the tag, the serialised message and
    the checksum of tag and message, all integers in network order; no
    assertion fails and the length prefix fits in front of the data. *)
Theorem send_wire_format m :
  sendable m -> send m = Ok (be_bytes 4 (zlen (body m)) ++ tag_ ++ Serialize m ++
                             be_bytes 4 (checksum (tag_ ++ Serialize m))).
Proof.
  intros Hm. unfold send.
  destruct (new_buffer_spec kInitialSize) as (b & -> & Hb & Hc & Hp & Hw).
  { unfold kInitialSize, max_size. lia. }
  bind_simpl. destruct (fillEmptyBuffer_spec m b) as (b' & -> & Hb' & Hc'); [done|done| |done| |].
  - unfold prependableBytes in Hp. lia.
  - rewrite writable_eq in Hw by done. pose proof (content_len b Hb) as Hl.
    rewrite Hc, zlen_nil in Hl. unfold prependableBytes, kCheapPrepend, kInitialSize, max_size in *.
    rewrite zlen_frame. destruct Hm as [_ Hm]. unfold kMaxMessageLen in Hm. lia.
  - bind_simpl. rewrite Hc'. unfold frame, body, payload. by rewrite <-!app_assoc.
Qed.

(** ** Receiving *)

Lemma be_value_int32 x : -2147483648 <= x < 2147483648 -> be_value W32 (be_bytes 4 x) = x.
Proof. apply (be_value_be_bytes W32). Qed.

Context (tag_short : zlen tag_ <= 1024).

Lemma kMinMessageLen_eq : kMinMessageLen = zlen tag_ + 4.
Proof. unfold kMinMessageLen, kChecksumLen. zlen_pos. apply i32_small. lia. Qed.

Lemma peekInt32_spec b :
  wf b -> 4 <= zlen (content b) -> peekInt32 b = Ok (be_value W32 (ztake 4 (content b))).
Proof. apply (peekInt_spec W32). Qed.

Lemma parse_total data : zlen tag_ + 4 <= zlen data -> exists res, parse data = Ok res.
Proof.
  intros Hd. unfold parse, validateChecksum, asInt32, kChecksumLen. zlen_pos.
  rewrite !in_bounds_true by zlia. bind_simpl.
  destruct (_ =? _); [|by eexists]. bind_simpl. case_bool_decide; [|by eexists]. bind_simpl.
  case_match; by eexists.
Qed.

Lemma onMessage_round_total b :
  wf b ->
  exists b' evs more, onMessage_round b = Ok (b', evs, more) /\
    (more = true -> wf b' /\ exists n, 0 < n <= zlen (content b) /\ content b' = zdrop n (content b)) /\
    (more = false -> b' = b \/ exists e, ErrorReported e ∈ evs).
Proof.
  intros Hb. unfold onMessage_round. rewrite readable_wf, kMinMessageLen_eq by done.
  unfold kHeaderLen. zlen_pos. rewrite (u32_small (_ + 4)) by lia.
  destruct (Z.geb_spec (zlen (content b)) (zlen tag_ + 4 + 4)) as [Hge|];
    [|do 3 eexists; split_and!; by eauto].
  rewrite peekInt32_spec by (done || lia). bind_simpl.
  set (len := be_value W32 (ztake 4 (content b))). clearbody len.
  destruct ((len >? kMaxMessageLen) || (len <? zlen tag_ + 4)) eqn:Hlen.
  { do 3 eexists. split_and!; [done..|]. intros _. right. eexists. by apply list_elem_of_here. }
  unfold kMaxMessageLen in Hlen. rewrite (u64_small (4 + len)) by lia.
  destruct (Z.geb_spec (zlen (content b)) (4 + len)) as [Hle|];
    [|do 3 eexists; split_and!; by eauto].
  destruct (retrieve_spec (4 + len) b) as (b' & -> & (Hb' & Hc' & _)); [done|lia|].
  assert (wf b' /\ exists n, 0 < n <= zlen (content b) /\ content b' = zdrop n (content b))
    as Hdone by (split; [done|]; exists (4 + len); split; [lia|done]).
  destruct (match rawCb_ with Some cb => _ | None => _ end); [do 3 eexists; by split_and!|].
  pose proof (content_len b Hb). pose proof Hb as (? & ? & ? & ?).
  destruct (parse_total (range b (peek b + 4) (peek b + 4 + len))) as [res ->].
  { unfold range, peek. rewrite zlen_slice; lia. }
  bind_simpl. destruct res as [e|m]; do 3 eexists; split_and!; [done|done| |done..].
  intros _. right. exists e. set_solver.
Qed.

Lemma onMessage_total b :
  wf b ->
  exists b' evs, onMessage b = Some (Ok (b', evs)) /\
    ((forall e, ErrorReported e ∉ evs) -> wf b' /\ exists p, content b = p ++ content b').
Proof.
  intros Hb. unfold onMessage. rewrite readable_wf by done.
  assert (zlen (content b) < Z.of_nat (S (Z.to_nat (zlen (content b))))) as Hf by (zlen_pos; lia).
  revert Hf. generalize (S (Z.to_nat (zlen (content b)))) as fuel. intros fuel. revert b Hb.
  induction fuel as [|f IH]; intros b Hb Hf; [zlen_pos; lia|]. cbn [onMessage_loop].
  destruct (onMessage_round_total b Hb) as (b1 & evs & more & -> & Hmore & Hfalse).
  destruct more.
  - destruct Hmore as (Hb1 & n & Hn & Hc1); [done|].
    destruct (IH b1 Hb1) as (b2 & evs2 & -> & H2); [rewrite Hc1; zlia|].
    do 2 eexists. split; [done|]. intros Hne. destruct H2 as (? & p & Hp); [set_solver|].
    split; [done|]. exists (ztake n (content b) ++ p).
    by rewrite <-app_assoc, <-Hp, Hc1, ztake_zdrop.
  - do 2 eexists. split; [done|]. intros Hne.
    destruct Hfalse as [->|[e He]]; [done|split; [done|by exists []]|]. by destruct (Hne e).
Qed.


(** The parser gets back what the serialiser wrote. *)
Context (parse_serialize : forall m, ParseFromArray (Serialize m) = Some m).

Lemma asInt32_be x l :
  -2147483648 <= x < 2147483648 -> asInt32 (be_bytes 4 x ++ l) = Ok x.
Proof.
  intros Hx. unfold asInt32. pose proof (zlen_be_bytes 4 x). rewrite in_bounds_true by zlia.
  bind_simpl. rewrite ztake_app_exact by apply zlen_be_bytes.
  unfold networkToHost32. rewrite wire_value; [|done|done|].
  - f_equal. apply be_value_int32. lia.
  - pose proof (zlen_be_bytes 4 x). unfold zlen in *. lia.
Qed.

Lemma parse_body m : sendable m -> parse (body m) = Ok (inr m).
Proof.
  intros Hm. pose proof (zlen_body m) as Hn. zlen_pos.
  assert (zlen (payload m) = zlen (body m) - 4) as Hpl.
  { unfold body. rewrite zlen_app, zlen_be_bytes. lia. }
  unfold parse, validateChecksum, kChecksumLen. cbv zeta.
  remember (zlen (body m)) as n eqn:En. clear En.
  rewrite in_bounds_true by lia. bind_simpl.
  assert (zdrop (n - 4) (body m) = be_bytes 4 (checksum (payload m)) ++ []) as ->.
  { rewrite app_nil_r. by apply zdrop_app_exact. }
  rewrite asInt32_be by apply checksum_range. bind_simpl.
  assert (ztake (n - 4) (body m) = payload m) as -> by by apply ztake_app_exact.
  rewrite Z.eqb_refl. rewrite in_bounds_true by lia. bind_simpl.
  assert (body m = tag_ ++ Serialize m ++ be_bytes 4 (checksum (payload m))) as ->
    by (unfold body, payload; by rewrite <-app_assoc).
  rewrite ztake_app_exact, bool_decide_eq_true_2 by done.
  rewrite in_bounds_true by lia. bind_simpl. rewrite zdrop_app_exact by done.
  rewrite ztake_app_exact by lia. unfold parseFromBuffer. by rewrite parse_serialize.
Qed.

(** The callbacks for a whole frame. *)
Definition events_of (m : Message) : list event :=
  match rawCb_ with
  | None => [Delivered m]
  | Some cb => RawMessage (frame m) :: if cb (frame m) then [Delivered m] else []
  end.

Lemma frame_head m rest b :
  wf b -> sendable m -> content b = frame m ++ rest ->
  readableBytes b = 4 + zlen (body m) + zlen rest /\ peekInt32 b = Ok (zlen (body m)).
Proof.
  intros Hb [_ Hm] Hc. rewrite readable_wf, Hc by done. unfold kMaxMessageLen in Hm.
  rewrite zlen_app, zlen_frame. split; [lia|]. zlen_pos.
  rewrite peekInt32_spec; [|done|].
  - rewrite Hc. unfold frame. rewrite <-!app_assoc, ztake_app_exact by apply zlen_be_bytes.
    f_equal. apply be_value_int32. lia.
  - rewrite Hc, zlen_app, zlen_frame. zlen_pos. lia.
Qed.

Lemma onMessage_round_frame m rest b :
  wf b -> sendable m -> content b = frame m ++ rest ->
  exists b', onMessage_round b = Ok (b', events_of m, true) /\ becomes b b' rest 0.
Proof.
  intros Hb Hm Hc. destruct (frame_head m rest b Hb Hm Hc) as [Hr Hp].
  pose proof Hm as [_ Hmax]. pose proof (zlen_body m) as Hbl. unfold kMaxMessageLen in *. zlen_pos.
  destruct (retrieve_spec (kHeaderLen + zlen (body m)) b) as (b' & Hret & Hbe).
  { done. } { rewrite Hc, zlen_app, zlen_frame. unfold kHeaderLen. lia. }
  rewrite Hc, zdrop_app_exact in Hbe by apply zlen_frame.
  exists b'. split; [|done]. unfold onMessage_round. rewrite Hp, Hr, kMinMessageLen_eq.
  unfold kHeaderLen in *.
  rewrite (u32_small (_ + 4)) by lia.
  rewrite Z.geb_leb, (proj2 (Z.leb_le _ _)) by lia. bind_simpl.
  rewrite (u64_small (4 + _)) by lia.
  rewrite Z.gtb_ltb, (proj2 (Z.ltb_ge kMaxMessageLen _)) by (unfold kMaxMessageLen; lia).
  rewrite (proj2 (Z.ltb_ge (zlen (body m)) _)) by lia. cbn [orb].
  rewrite Z.geb_leb, (proj2 (Z.leb_le _ _)) by lia.
  pose proof Hb as (? & ? & ? & ?).
  assert (peek b + 4 + zlen (body m) <= writerIndex_ b) as Hw.
  { pose proof (content_len b Hb) as Hl. rewrite Hc, zlen_app, zlen_frame in Hl. unfold peek. lia. }
  assert (range b (peek b) (peek b + 4 + zlen (body m)) = frame m) as ->.
  { unfold range, peek in *. rewrite <-Z.add_assoc.
    rewrite <-(zslice_take _ (writerIndex_ b)) by lia. fold (content b).
    rewrite Hc. apply ztake_app_exact, zlen_frame. }
  assert (range b (peek b + 4) (peek b + 4 + zlen (body m)) = body m) as ->.
  { unfold range, peek in *. rewrite <-(zslice_take _ (writerIndex_ b)) by lia.
    rewrite <-zslice_drop by lia. fold (content b). rewrite Hc. unfold frame.
    rewrite <-app_assoc, zdrop_app_exact by apply zlen_be_bytes. by apply ztake_app_exact. }
  rewrite parse_body by done. unfold events_of.
  destruct rawCb_ as [cb|]; [destruct (cb (frame m))|]; cbn [negb]; by rewrite ?Hret.
Qed.

(** A frame that has not arrived completely is left alone. *)
Lemma onMessage_round_partial m rest r q b :
  wf b -> sendable m -> frame m ++ rest = r ++ q -> zlen r < zlen (frame m) -> content b = r ->
  onMessage_round b = Ok (b, [], false).
Proof.
  intros Hb Hm Hrq Hlt Hc. unfold onMessage_round. rewrite readable_wf, Hc by done.
  pose proof Hm as [_ Hmax]. pose proof (zlen_body m) as Hbl. unfold kMaxMessageLen in *. zlen_pos.
  rewrite kMinMessageLen_eq. unfold kHeaderLen. rewrite (u32_small (_ + 4)) by lia.
  destruct (Z.geb_spec (zlen r) (zlen tag_ + 4 + 4)) as [Hge|]; [|done].
  rewrite zlen_frame in Hlt.
  rewrite peekInt32_spec by (done || rewrite Hc; lia). rewrite Hc.
  assert (ztake 4 r = be_bytes 4 (zlen (body m))) as ->.
  { assert (ztake 4 (frame m ++ rest) = ztake 4 (r ++ q)) as E by by rewrite Hrq.
    unfold frame in E. rewrite <-app_assoc, ztake_app_exact in E by apply zlen_be_bytes.
    rewrite ztake_app in E by lia.
    unfold ztake in E at 2. rewrite Z2Nat.nonpos in E by lia. rewrite app_nil_r in E. done. }
  rewrite be_value_int32 by lia. bind_simpl.
  rewrite Z.gtb_ltb, (proj2 (Z.ltb_ge kMaxMessageLen _)) by (unfold kMaxMessageLen; lia).
  rewrite (proj2 (Z.ltb_ge (zlen (body m)) _)) by lia. cbn [orb].
  rewrite (u64_small (4 + _)) by lia.
  destruct (Z.geb_spec (zlen r) (4 + zlen (body m))); [lia|done].
Qed.

Definition stream (ms : list Message) : list byte := concat (frame <$> ms).

(** What has arrived of a stream: whole frames and the beginning of one. *)
Lemma stream_split ms p q :
  stream ms = p ++ q ->
  exists ms1 ms2 r, ms = ms1 ++ ms2 /\ p = stream ms1 ++ r /\ stream ms2 = r ++ q /\
    match ms2 with [] => r = [] | m :: _ => zlen r < zlen (frame m) end.
Proof.
  revert p. induction ms as [|m ms IH]; intros p E.
  { symmetry in E. apply app_nil in E as [-> ->]. by exists [], [], []. }
  change (stream (m :: ms)) with (frame m ++ stream ms) in E.
  destruct (Z.lt_ge_cases (zlen p) (zlen (frame m))) as [Hlt|Hge].
  { by exists [], (m :: ms), p. }
  assert (exists p', p = frame m ++ p') as [p' ->].
  { exists (zdrop (zlen (frame m)) p). rewrite <-(ztake_zdrop (zlen (frame m)) p) at 1. f_equal.
    assert (ztake (zlen (frame m)) (p ++ q) = frame m) as H by (rewrite <-E; by apply ztake_app_exact).
    rewrite ztake_app in H by (zlen_pos; lia). unfold ztake in H at 2.
    rewrite Z2Nat.nonpos in H by lia. rewrite app_nil_r in H. done. }
  rewrite <-app_assoc in E. apply app_inv_head in E.
  destruct (IH _ E) as (ms1 & ms2 & r & -> & -> & E2 & Hr).
  exists (m :: ms1), ms2, r. split_and!; [done| |done..].
  change (stream (m :: ms1)) with (frame m ++ stream ms1). by rewrite app_assoc.
Qed.

Definition all_events (ms : list Message) : list event := concat (events_of <$> ms).

(** The loop takes the whole frames and leaves the rest. *)
Lemma onMessage_loop_stream ms2 r q : forall ms1 b fuel,
  wf b -> Forall sendable (ms1 ++ ms2) -> content b = stream ms1 ++ r -> stream ms2 = r ++ q ->
  match ms2 with [] => r = [] | m :: _ => zlen r < zlen (frame m) end ->
  (length ms1 < fuel)%nat ->
  exists b', onMessage_loop fuel b = Some (Ok (b', all_events ms1)) /\ becomes b b' r 0.
Proof.
  induction ms1 as [|m ms1 IH]; intros b fuel Hb Hs Hc E Hr Hf;
    (destruct fuel as [|fuel]; [simpl in Hf; lia|]); cbn [onMessage_loop].
  - assert (onMessage_round b = Ok (b, [], false)) as ->.
    { destruct ms2 as [|m ms2].
      - unfold onMessage_round. rewrite readable_wf, Hc, Hr by done.
        rewrite kMinMessageLen_eq. unfold kHeaderLen. zlen_pos. rewrite u32_small by lia.
        change (zlen (stream [] ++ [])) with 0.
        destruct (Z.geb_spec 0 (zlen tag_ + 4 + 4)); [lia|done].
      - apply (onMessage_round_partial m (stream ms2) r q); try done. by inversion Hs. }
    exists b. split; [done|]. cbn in Hc. rewrite <-Hc. by apply becomes_refl.
  - change (stream (m :: ms1)) with (frame m ++ stream ms1) in Hc. rewrite <-app_assoc in Hc.
    apply Forall_cons in Hs as [Hm Hs].
    destruct (onMessage_round_frame m _ b Hb Hm Hc) as (b1 & -> & Hbe).
    destruct Hbe as (Hb1 & Hc1 & Hs1).
    destruct (IH b1 fuel Hb1 Hs Hc1 E Hr) as (b2 & -> & Hbe2); [simpl in Hf; lia|].
    exists b2. split; [done|]. destruct Hbe2 as (? & ? & ?). split_and!; [done..|lia].
Qed.

Lemma stream_length_ge ms : (length ms <= length (stream ms))%nat.
Proof.
  induction ms as [|m ms IH]; [done|].
  change (stream (m :: ms)) with (frame m ++ stream ms). rewrite length_app.
  pose proof (zlen_frame m) as H. unfold zlen in H. simpl. lia.
Qed.

(** The connection's input: each read appends a chunk and calls [onMessage]. *)
Fixpoint receive (chunks : list (list byte)) (b : Buffer) : option (outcome (Buffer * list event)) :=
  match chunks with
  | [] => Some (Ok (b, []))
  | c :: cs =>
      match append_string c b with
      | Err e => Some (Err e)
      | Ok b1 =>
          match onMessage b1 with
          | Some (Ok (b2, evs)) =>
              match receive cs b2 with
              | Some (Ok (b3, evs')) => Some (Ok (b3, evs ++ evs'))
              | r => r
              end
          | r => r
          end
      end
  end.

Definition chunk_total (chunks : list (list byte)) : Z := foldr (fun c n => zlen c + n) 0 chunks.

Lemma chunk_total_nonneg chunks : 0 <= chunk_total chunks.
Proof. induction chunks as [|c cs IH]; simpl; [lia|]. zlen_pos. lia. Qed.

Lemma receive_stream ms chunks b :
  wf b -> Forall sendable ms -> content b ++ concat chunks = stream ms ->
  match ms with [] => content b = [] | m :: _ => zlen (content b) < zlen (frame m) end ->
  Forall (fun c => zlen c < 2 ^ 31) chunks -> zlen (buffer_ b) + chunk_total chunks <= max_size ->
  exists b', receive chunks b = Some (Ok (b', all_events ms)) /\ wf b' /\ content b' = [].
Proof.
  revert ms b. induction chunks as [|c cs IH]; intros ms b Hb Hs E Hpart Hcs Hroom.
  { simpl in E. rewrite app_nil_r in E. exists b. destruct ms as [|m ms]; [done|].
    exfalso. rewrite E in Hpart. change (stream (m :: ms)) with (frame m ++ stream ms) in Hpart.
    rewrite zlen_app in Hpart. zlen_pos. lia. }
  apply Forall_cons in Hcs as [Hc Hcs]. cbn [receive chunk_total foldr] in *.
  pose proof (chunk_total_nonneg cs). zlen_pos. fold (chunk_total cs) in Hroom.
  destruct (append_string_spec c b) as (b1 & -> & (Hb1 & Hc1 & Hs1) & _); [done|done|lia|].
  cbn [concat] in E. rewrite app_assoc in E. symmetry in E.
  destruct (stream_split ms _ _ E) as (ms1 & ms2 & r & -> & Ep & E2 & Hr).
  unfold onMessage. rewrite readable_wf, Hc1, Ep by done.
  destruct (onMessage_loop_stream ms2 r (concat cs) ms1 b1 (S (Z.to_nat (zlen (stream ms1 ++ r)))))
    as (b2 & -> & (Hb2 & Hc2 & Hs2)); [done|done|by rewrite Hc1|done|done| |].
  { pose proof (stream_length_ge ms1). unfold zlen. rewrite length_app. lia. }
  destruct (IH ms2 b2) as (b3 & -> & Hb3 & Hc3); [done| | | |done| |].
  - by apply Forall_app in Hs as [_ ?].
  - by rewrite Hc2.
  - by rewrite Hc2.
  - lia.
  - exists b3. split; [|done]. do 3 f_equal. unfold all_events. by rewrite fmap_app, concat_app.
Qed.

(** C14: However the network cuts the stream, the receiver gets every message
    once, in order: for any chunks that together make up the frames of [ms],
    appending each and calling [onMessage] after it makes exactly the
    callbacks of those messages and leaves nothing behind. *)
Theorem codec_delivers ms chunks b :
  wf b -> Forall sendable ms -> content b ++ concat chunks = stream ms ->
  match ms with [] => content b = [] | m :: _ => zlen (content b) < zlen (frame m) end ->
  Forall (fun c => zlen c < 2 ^ 31) chunks -> zlen (buffer_ b) + chunk_total chunks <= max_size ->
  exists b', receive chunks b = Some (Ok (b', all_events ms)) /\ wf b' /\ content b' = [].
Proof. apply receive_stream. Qed.

End codec.

(** ** The RPC codec *)
Definition rpctag : list byte := bytes "RPC0".

(** ** Witnesses: messages are texts, the checksum adds the bytes up *)
Definition sum_bytes (l : list byte) : Z := foldr (fun c n => byte.unsigned c + n) 1 l.

Lemma send_wire_format_witness :
  send zlen id sum_bytes rpctag (bytes "hi") =
    Ok (be_bytes 4 10 ++ rpctag ++ bytes "hi" ++ be_bytes 4 (checksum sum_bytes (rpctag ++ bytes "hi"))).
Proof.
  apply (send_wire_format zlen id sum_bytes rpctag (bytes "hi")).
  split; [done|vm_compute; discriminate].
Defined.

Lemma codec_delivers_witness :
  exists b', receive Some sum_bytes rpctag None (fun _ b => b)
      [ztake 5 (stream id sum_bytes rpctag [bytes "hi"; bytes "you"]);
       zdrop 5 (stream id sum_bytes rpctag [bytes "hi"; bytes "you"])] (mkBuffer (replicate 8 Byte.x00) 8 8) =
      Some (Ok (b', [Delivered (bytes "hi"); Delivered (bytes "you")])) /\ wf b' /\ content b' = [].
Proof.
  apply (codec_delivers zlen id Some sum_bytes rpctag None (fun _ b => b)
           ltac:(vm_compute; discriminate) (fun m => eq_refl) [bytes "hi"; bytes "you"]).
  - vm_compute. repeat split; discriminate.
  - repeat constructor; vm_compute; discriminate.
  - reflexivity.
  - reflexivity.
  - repeat constructor.
  - vm_compute. discriminate.
Defined.


End Codec.
