(* ===== verification/Rpc.v ===== *)
(** * Remote procedure calls
    ([src/net/protorpc/RpcChannel.h], [RpcChannel.cpp], [RpcServer.cpp],
    [rpc.proto])

    A channel numbers its calls and matches responses to them.  Messages of
    the user's services are their serialised bytes; objects owned through
    pointers ([response], [done]) are identified by numbers. *)

From S2P Require Import Prelude CxxStd.

Module Rpc.

Inductive MessageType := REQUEST | RESPONSE | ERROR.
Inductive ErrorCode :=
  | NO_ERROR | WRONG_PROTO | NO_SERVICE | NO_METHOD | INVALID_REQUEST | INVALID_RESPONSE | TIMEOUT.

#[global] Instance ErrorCode_eq_dec : EqDecision ErrorCode.
Proof. solve_decision. Defined.

Record RpcMessage := mkRpc {
  type : MessageType;
  id : Z;
  service : list byte;
  method : list byte;
  request : list byte;
  response : option (list byte);
  error : option ErrorCode }.

(** [struct OutstandingCall]; [None] is a null pointer. *)
Record OutstandingCall := mkCall { out_response : option Z; out_done : option Z }.

(** What a [google::protobuf::Service] offers here: its methods by name and
    whether bytes parse as the request of a method. *)
Record Service := mkService {
  FindMethodByName : list byte -> option Z;
  ParsesRequest : Z -> list byte -> bool }.

Record RpcChannel := mkChannel {
  conn_ : Z;
  id_ : Z;
  outstandings_ : list (Z * OutstandingCall);
  services_ : option (list (list byte * Service)) }.

Definition new_channel (conn : Z) : RpcChannel := mkChannel conn 0 [] None.
Definition setServices (s : list (list byte * Service)) (c : RpcChannel) : RpcChannel :=
  mkChannel (conn_ c) (id_ c) (outstandings_ c) (Some s).

(** What a channel does to the outside. *)
Inductive action :=
  | SendMessage (m : RpcMessage)
  | FillResponse (obj : Z) (data : list byte)
  | RunClosure (obj : Z)
  | Delete (obj : Z)
  | CallService (m : Z) (req : list byte) (id : Z).

Definition request_msg (id : Z) (service method req : list byte) : RpcMessage :=
  mkRpc REQUEST id service method req None None.
Definition response_msg (id : Z) (data : list byte) : RpcMessage :=
  mkRpc RESPONSE id [] [] [] (Some data) None.
Definition error_msg (id : Z) (e : ErrorCode) : RpcMessage :=
  mkRpc RESPONSE id [] [] [] None (Some e).

Definition CallMethod (service method req : list byte) (response done : option Z) (c : RpcChannel) :
    RpcChannel * list action :=
  let id := i64 (id_ c + 1) in
  let out := mkCall response done in
  (mkChannel (conn_ c) id (map_set Z.ltb id out (outstandings_ c)) (services_ c),
   [SendMessage (request_msg id service method req)]).

(** The [RESPONSE] branch of [onRpcMessage]. *)
Definition onResponse (m : RpcMessage) (c : RpcChannel) : outcome (RpcChannel * list action) :=
  assert_ (match response m, error m with None, None => false | _, _ => true end);;
  let out := match map_find Z.ltb (id m) (outstandings_ c) with
             | Some out => out
             | None => mkCall None None
             end in
  let c' := mkChannel (conn_ c) (id_ c) (map_erase Z.ltb (id m) (outstandings_ c)) (services_ c) in
  Ok (c',
      match out_response out with
      | None => []
      | Some obj =>
          match response m with Some data => [FillResponse obj data] | None => [] end ++
          match out_done out with Some d => [RunClosure d] | None => [] end ++
          [Delete obj]
      end).

(** The [REQUEST] branch. *)
Definition onRequest (m : RpcMessage) (c : RpcChannel) : RpcChannel * list action :=
  let '(error, acts) :=
    match services_ c with
    | None => (NO_SERVICE, [])
    | Some ss =>
        match map_find string_ltb (service m) ss with
        | None => (NO_SERVICE, [])
        | Some s =>
            match FindMethodByName s (method m) with
            | None => (NO_METHOD, [])
            | Some meth =>
                if ParsesRequest s meth (request m)
                then (NO_ERROR, [CallService meth (request m) (id m)])
                else (INVALID_REQUEST, [])
            end
        end
    end in
  (c, acts ++ if decide (error = NO_ERROR) then [] else [SendMessage (error_msg (id m) error)]).

Definition onRpcMessage (conn : Z) (m : RpcMessage) (c : RpcChannel) :
    outcome (RpcChannel * list action) :=
  assert_ (conn =? conn_ c);;
  match type m with
  | RESPONSE => onResponse m c
  | REQUEST => Ok (onRequest m c)
  | ERROR => Ok (c, [])
  end.

Definition doneCallback (data : list byte) (id : Z) (c : RpcChannel) : RpcChannel * list action :=
  (c, [SendMessage (response_msg id data)]).

(** [~RpcChannel] frees what the calls that never completed own. *)
Definition destroy (c : RpcChannel) : list action :=
  flat_map (fun p =>
    match out_response p.2 with Some o => [Delete o] | None => [] end ++
    match out_done p.2 with Some o => [Delete o] | None => [] end) (outstandings_ c).

(** ** The server *)

Definition registerService (full_name : list byte) (s : Service) (services : list (list byte * Service)) :
    list (list byte * Service) := map_set string_ltb full_name s services.

(** [RpcServer::onConnection]: a channel with the services, or none. *)
Definition onConnection (connected : bool) (conn : Z) (services : list (list byte * Service)) :
    option RpcChannel :=
  if connected then Some (setServices services (new_channel conn)) else None.

(** ** A client's life: calls and messages in any order *)

Inductive op :=
  | Call (service method req : list byte) (response done : Z)
  | Incoming (m : RpcMessage).

Definition step (o : op) (c : RpcChannel) : outcome (RpcChannel * list action) :=
  match o with
  | Call s mt r resp d => Ok (CallMethod s mt r (Some resp) (Some d) c)
  | Incoming m => onRpcMessage (conn_ c) m c
  end.

Fixpoint run (ops : list op) (c : RpcChannel) : outcome (RpcChannel * list action) :=
  match ops with
  | [] => Ok (c, [])
  | o :: ops' =>
      '(c1, acts) ← step o c;
      '(c2, acts') ← run ops' c1;
      Ok (c2, acts ++ acts')
  end.

(** The closures a program passes in, and those that were run. *)
Definition calls_of (ops : list op) : list Z :=
  flat_map (fun o => match o with Call _ _ _ _ d => [d] | Incoming _ => [] end) ops.
Definition closures_run (acts : list action) : list Z :=
  flat_map (fun a => match a with RunClosure d => [d] | _ => [] end) acts.
Definition pending (c : RpcChannel) : list Z :=
  flat_map (fun p => match out_done p.2 with Some d => [d] | None => [] end) (outstandings_ c).

(** Outstanding calls have numbers that were given out, a response object and
    a closure. *)
Definition inv (c : RpcChannel) : Prop :=
  map_sorted Z.ltb (outstandings_ c) /\
  Forall (fun p => 0 < p.1 <= id_ c /\ is_Some (out_response p.2) /\ is_Some (out_done p.2)) (outstandings_ c).

Lemma pending_set (m : list (Z * OutstandingCall)) k out :
  Forall (fun p => p.1 < k) m -> map_set Z.ltb k out m = m ++ [(k, out)].
Proof.
  induction 1 as [|[k' o'] m Hk _ IH]; simpl; [done|]. simpl in Hk.
  rewrite (proj2 (Z.ltb_ge k k')) by lia. rewrite (proj2 (Z.ltb_lt k' k)) by lia. by rewrite IH.
Qed.

Lemma map_erase_split (m : list (Z * OutstandingCall)) k out :
  map_sorted Z.ltb m -> map_find Z.ltb k m = Some out ->
  exists m1 m2, m = m1 ++ (k, out) :: m2 /\ map_erase Z.ltb k m = m1 ++ m2.
Proof.
  intros Hs. induction Hs as [|[k' o'] m Hs IH Hall]; simpl; [done|].
  destruct (Z.ltb_spec k k'); [done|]. destruct (Z.ltb_spec k' k).
  - intros Hf. destruct (IH Hf) as (m1 & m2 & -> & ->). by exists ((k', o') :: m1), m2.
  - intros [= ->]. assert (k' = k) as -> by lia. by exists [], m.
Qed.

Lemma map_erase_missing (m : list (Z * OutstandingCall)) k :
  map_find Z.ltb k m = None -> map_erase Z.ltb k m = m.
Proof.
  induction m as [|[k' o'] m IH]; simpl; [done|].
  destruct (k <? k'); [done|]. destruct (k' <? k); [|done]. intros Hf. by rewrite IH.
Qed.

Lemma closures_run_app a b : closures_run (a ++ b) = closures_run a ++ closures_run b.
Proof. apply flat_map_app. Qed.
Lemma pending_app m1 m2 (c1 c2 c3 : RpcChannel) :
  outstandings_ c1 = m1 ++ m2 -> outstandings_ c2 = m1 -> outstandings_ c3 = m2 ->
  pending c1 = pending c2 ++ pending c3.
Proof. unfold pending. intros -> -> ->. apply flat_map_app. Qed.

Lemma step_call_inv s mt r resp d c :
  inv c -> 0 <= id_ c < 2 ^ 62 ->
  let c' := (CallMethod s mt r (Some resp) (Some d) c).1 in
  inv c' /\ id_ c' = id_ c + 1 /\ pending c' = pending c ++ [d] /\
  map_find Z.ltb (id_ c + 1) (outstandings_ c') = Some (mkCall (Some resp) (Some d)).
Proof.
  intros [Hs Hall] Hid. unfold CallMethod. cbn [fst outstandings_ id_].
  rewrite (i64_small (id_ c + 1)) by lia. split_and!; [split| | |].
  - by apply (map_set_sorted Z.ltb).
  - cbn. apply (map_set_Forall Z.ltb); [simpl; split_and!; [lia|lia|done|done]|].
    eapply Forall_impl; [exact Hall|]. intros p (? & ? & ?). simpl. split_and!; [lia|lia|done|done].
  - done.
  - unfold pending. cbn. rewrite pending_set.
    + rewrite flat_map_app. done.
    + eapply Forall_impl; [exact Hall|]. simpl. intros p [? _]. lia.
  - apply (map_find_set_eq Z.ltb).
Qed.

Lemma step_incoming_inv m c c' acts :
  inv c -> step (Incoming m) c = Ok (c', acts) ->
  inv c' /\ id_ c' = id_ c /\ closures_run acts ++ pending c' ≡ₚ pending c /\
  (forall k, (type m = RESPONSE -> id m <> k) ->
     map_find Z.ltb k (outstandings_ c') = map_find Z.ltb k (outstandings_ c)).
Proof.
  intros [Hs Hall] H. unfold step, onRpcMessage in H. rewrite Z.eqb_refl in H.
  cbn [assert_ mbind outcome_bind] in H. destruct (type m) eqn:Et.
  - unfold onRequest in H.
    destruct (match services_ c with Some _ => _ | None => _ end) as [e acts0] eqn:E.
    injection H as <- <-.
    assert (closures_run (acts0 ++ (if decide (e = NO_ERROR) then [] else [SendMessage (error_msg (id m) e)])) = [])
      as ->; [|done].
    rewrite closures_run_app.
    assert (closures_run acts0 = []) as -> by (revert E; repeat case_match; intros [= <- <-]; done).
    by case_decide.
  - unfold onResponse in H.
    destruct (match response m with Some _ => _ | None => _ end); [|done].
    cbn [assert_ mbind outcome_bind] in H. injection H as <- <-. unfold inv, pending. cbn [outstandings_ id_].
    split_and!; [by apply (map_erase_sorted Z.ltb)|by apply (map_erase_Forall Z.ltb)|done| |].
    + destruct (map_find Z.ltb (id m) (outstandings_ c)) as [out|] eqn:Ef.
      * destruct (map_erase_split _ _ _ Hs Ef) as (m1 & m2 & E1 & E2). rewrite E2.
        rewrite E1 in Hall |- *. apply Forall_app in Hall as [_ [(_ & [r Hr] & [d Hd]) _]%Forall_cons].
        simpl in Hr, Hd. rewrite Hr, Hd, !flat_map_app. simpl. rewrite Hd.
        assert (closures_run (match response m with Some data => [FillResponse r data] | None => [] end ++
                 [RunClosure d; Delete r]) = [d]) as -> by by destruct (response m).
        simpl. by rewrite Permutation_middle.
      * rewrite map_erase_missing by done. done.
    + intros k Hk. apply (map_find_erase_ne Z.ltb); [done|]. by apply Hk.
  - by injection H as <- <-.
Qed.

Lemma run_inv ops c c' acts :
  inv c -> 0 <= id_ c -> id_ c + Z.of_nat (length ops) < 2 ^ 62 -> run ops c = Ok (c', acts) ->
  inv c' /\ id_ c <= id_ c' /\ closures_run acts ++ pending c' ≡ₚ pending c ++ calls_of ops.
Proof.
  revert c acts. induction ops as [|o ops IH]; intros c acts Hc H0 Hid H.
  { injection H as <- <-. cbn. by rewrite app_nil_r. }
  cbn [run] in H. outcome_inv H. destruct a as [c1 acts1]. outcome_inv H.
  destruct a as [c2 acts2]. injection H as <- <-. cbn [length] in Hid.
  destruct o as [s mt r resp d|m].
  - cbn [step] in Ha. pose proof (step_call_inv s mt r resp d c Hc ltac:(lia)) as (Hc1 & Hi1 & Hp1 & _).
    destruct (CallMethod s mt r (Some resp) (Some d) c) as [c1' a1'] eqn:E. cbn [fst] in *.
    injection Ha as <- <-. assert (closures_run a1' = []) as Ha1 by (unfold CallMethod in E; by injection E as <- <-).
    destruct (IH c1' acts2 Hc1) as (Hc2 & Hi2 & Hp2); [lia..|done|].
    split_and!; [done|lia|]. rewrite closures_run_app, Ha1. cbn [app calls_of flat_map].
    rewrite Hp2, Hp1. by rewrite <-app_assoc.
  - destruct (step_incoming_inv _ _ _ _ Hc Ha) as (Hc1 & Hi1 & Hp1 & _).
    destruct (IH c1 acts2 Hc1) as (Hc2 & Hi2 & Hp2); [lia..|done|].
    split_and!; [done|lia|]. rewrite closures_run_app, <-app_assoc. 
    change (calls_of (Incoming m :: ops)) with (calls_of ops).
    rewrite Hp2, app_assoc, Hp1. done.
Qed.

(** No call is lost and none completes twice: whatever calls a client
    makes and whatever messages arrive (responses out of order, duplicated or
    with unknown numbers, requests), the closures that have been run together
    with those of the calls still outstanding are exactly the closures of the
    calls made. *)
Theorem rpc_calls_complete_once conn ops c acts :
  Z.of_nat (length ops) < 2 ^ 62 -> run ops (new_channel conn) = Ok (c, acts) ->
  closures_run acts ++ pending c ≡ₚ calls_of ops.
Proof.
  intros Hlen H. destruct (run_inv ops (new_channel conn) c acts) as (_ & _ & Hp).
  - split; constructor.
  - done.
  - done.
  - done.
  - by rewrite Hp.
Qed.

Lemma onRpcMessage_conn conn m c c' acts :
  onRpcMessage conn m c = Ok (c', acts) -> conn_ c' = conn_ c.
Proof.
  unfold onRpcMessage, onResponse. intros H. apply bind_Ok in H as (_ & _ & H).
  destruct (type m).
  - unfold onRequest in H. destruct (match services_ c with Some _ => _ | None => _ end).
    by injection H as <- <-.
  - apply bind_Ok in H as (_ & _ & H). by injection H as <- <-.
  - by injection H as <- <-.
Qed.

Lemma run_keeps ops k out : forall c c' acts,
  inv c -> 0 <= id_ c -> k <= id_ c -> id_ c + Z.of_nat (length ops) < 2 ^ 62 ->
  map_find Z.ltb k (outstandings_ c) = Some out ->
  (forall m, Incoming m ∈ ops -> type m = RESPONSE -> id m <> k) ->
  run ops c = Ok (c', acts) ->
  inv c' /\ conn_ c' = conn_ c /\ map_find Z.ltb k (outstandings_ c') = Some out.
Proof.
  induction ops as [|o ops IH]; intros c c' acts Hc H0 Hk Hid Hf Hin H.
  { by injection H as <- <-. }
  cbn [run] in H. outcome_inv H. destruct a as [c1 acts1]. outcome_inv H.
  destruct a as [c2 acts2]. injection H as <- <-. cbn [length] in Hid.
  assert (inv c1 /\ id_ c <= id_ c1 <= id_ c + 1 /\ conn_ c1 = conn_ c /\
          map_find Z.ltb k (outstandings_ c1) = Some out) as (Hc1 & Hi1 & Hcc & Hf1).
  { destruct o as [s mt r resp d|m].
    - cbn [step] in Ha. pose proof (step_call_inv s mt r resp d c Hc ltac:(lia)) as (Hc1 & Hi1 & _ & _).
      injection Ha as <- <-. unfold CallMethod in Hc1. cbn [fst id_ conn_ outstandings_] in *.
      rewrite (i64_small (id_ c + 1)) in * by lia. split_and!; [done|lia|lia|done|].
      rewrite (map_find_set_ne Z.ltb); [done|apply Hc|lia].
    - pose proof (step_incoming_inv _ _ _ _ Hc Ha) as (Hc1 & Hi1 & _ & Hk1).
      split_and!; [done|lia|lia| |].
      + by eapply onRpcMessage_conn.
      + rewrite Hk1; [done|]. intros Ht. apply (Hin m); [set_solver|done]. }
  destruct (IH c1 c2 acts2) as (? & Hcc' & ?); [done|lia|lia|lia|done|set_solver|done|].
  split_and!; [done|congruence|done].
Qed.

(** A call goes there and back: the request the client sends makes the
    server run the method named in it on the request bytes, the completion of
    that method answers with the number of the call, and when the answer
    arrives, however many other calls the client made and completed in the
    meantime, it fills in the response object and runs the closure of exactly
    that call, which is then no longer outstanding. *)
Theorem rpc_round_trip client server sname svc mname meth req data resp d ops c2 acts2 :
  inv client -> 0 <= id_ client -> id_ client + 1 + Z.of_nat (length ops) < 2 ^ 62 ->
  services_ server = Some (map_set string_ltb sname svc []) ->
  FindMethodByName svc mname = Some meth -> ParsesRequest svc meth req = true ->
  let k := id_ client + 1 in
  let '(c1, acts1) := CallMethod sname mname req (Some resp) (Some d) client in
  run ops c1 = Ok (c2, acts2) ->
  (forall m, Incoming m ∈ ops -> type m = RESPONSE -> id m <> k) ->
  exists q a,
    acts1 = [SendMessage q] /\
    onRpcMessage (conn_ server) q server = Ok (server, [CallService meth req k]) /\
    doneCallback data k server = (server, [SendMessage a]) /\
    exists c3, onRpcMessage (conn_ client) a c2 =
        Ok (c3, [FillResponse resp data; RunClosure d; Delete resp]) /\
      map_find Z.ltb k (outstandings_ c3) = None.
Proof.
  intros Hc H0 Hid Hs Hm Hp k.
  pose proof (step_call_inv sname mname req resp d client Hc ltac:(lia)) as (Hc1 & Hi1 & _ & Hf1).
  unfold CallMethod in *. cbn [fst] in *. rewrite (i64_small (id_ client + 1)) in * by lia.
  intros Hrun Hin. edestruct (run_keeps ops k) as (Hc2 & Hcc & Hf2);
    [exact Hc1|cbn [id_]; lia|cbn [id_]; lia|cbn [id_]; lia|exact Hf1|exact Hin|exact Hrun|].
  do 2 eexists. split_and!; [done| |done|].
  - unfold onRpcMessage, onRequest. rewrite Z.eqb_refl. cbn [type request_msg assert_]. bind_simpl.
    rewrite Hs. cbn [service request_msg]. rewrite (map_find_set_eq string_ltb).
    cbn [method request id request_msg]. rewrite Hm, Hp. done.
  - cbn [conn_] in Hcc. unfold onRpcMessage, onResponse. rewrite Hcc, Z.eqb_refl.
    cbn [assert_ type response_msg response error id]. bind_simpl. rewrite Hf2. cbn [out_response out_done].
    eexists. split; [done|]. cbn [outstandings_]. apply (map_find_erase_eq Z.ltb). apply Hc2.
Qed.

Definition sample_ops : list op :=
  [Call [] [] [] 1 2; Call [] [] [] 3 4; Incoming (response_msg 2 []); Incoming (response_msg 2 [])].
Definition sample_end : RpcChannel * list action :=
  match run sample_ops (new_channel 9) with Ok r => r | Err _ => (new_channel 9, []) end.

Lemma rpc_calls_complete_once_witness :
  closures_run sample_end.2 ++ pending sample_end.1 ≡ₚ [2; 4].
Proof.
  apply (rpc_calls_complete_once 9 sample_ops sample_end.1 sample_end.2); [|vm_compute; reflexivity].
  vm_compute. reflexivity.
Defined.

Definition echo_service : Service := mkService (fun _ => Some 7) (fun _ _ => true).

Lemma rpc_round_trip_witness :
  exists q a,
    (CallMethod (bytes "Echo") (bytes "say") (bytes "hi") (Some 1) (Some 2) (new_channel 5)).2 =
      [SendMessage q] /\
    onRpcMessage 6 q (setServices (map_set string_ltb (bytes "Echo") echo_service []) (new_channel 6)) =
      Ok (setServices (map_set string_ltb (bytes "Echo") echo_service []) (new_channel 6),
          [CallService 7 (bytes "hi") 1]) /\
    doneCallback (bytes "hi!") 1 (setServices (map_set string_ltb (bytes "Echo") echo_service []) (new_channel 6)) =
      (setServices (map_set string_ltb (bytes "Echo") echo_service []) (new_channel 6), [SendMessage a]) /\
    exists c3, onRpcMessage 5 a (CallMethod (bytes "Echo") (bytes "say") (bytes "hi") (Some 1) (Some 2) (new_channel 5)).1 =
        Ok (c3, [FillResponse 1 (bytes "hi!"); RunClosure 2; Delete 1]) /\
      map_find Z.ltb 1 (outstandings_ c3) = None.
Proof.
  apply (rpc_round_trip (new_channel 5)
    (setServices (map_set string_ltb (bytes "Echo") echo_service []) (new_channel 6))
    (bytes "Echo") echo_service (bytes "say") 7 (bytes "hi") (bytes "hi!") 1 2 [] _ []);
    try done; try (intros m Hm; by apply elem_of_nil in Hm).
  split; constructor.
Defined.

End Rpc.
