(* ===== verification/RpcServer.v ===== *)
(** * A server of remote calls with many connections
    ([src/net/protorpc/RpcServer.h], [RpcServer.cpp])

    Each connection that comes up gets a channel.  The connection owns it, in its
    context; its message callback and the closures of the methods being executed
    have plain pointers to it.  The channels hold a pointer to the server's table of
    services.  Reading a channel that was deleted is [Err OutOfBounds]. *)

From S2P Require Import Prelude CxxStd Rpc.

Module RpcServer.
Import Rpc.

(** [TcpServer]'s default, or [bind(&RpcChannel::onMessage, channel)]. *)
Inductive MessageCallback := DefaultMessage | ChannelMessage (channel : Z).

(** Of a connection, what the server sets. *)
Record Conn := mkConn { messageCallback_ : MessageCallback; context_ : option Z }.

(** A method that was started: the closure [NewCallback(this, doneCallback, response, id)]. *)
Record Job := mkJob { job_channel : Z; job_method : Z; job_request : list byte; job_id : Z }.

Record World := mkWorld {
  registered : list (list byte * Service);
  conns : gmap Z Conn;
  channels : gmap Z RpcChannel;
  next_channel : Z;
  jobs : list Job;
  (** history: the connection each channel was made for, what was sent on which
      connection, and the answers requests call for *)
  opened : gmap Z Z;
  sent : list (Z * RpcMessage);
  due : list (Z * RpcMessage) }.

Definition new_server : World := mkWorld [] ∅ ∅ 0 [] ∅ [] [].

Inductive event :=
  | ERegister (name : list byte) (s : Service)
  | EUp (c : Z)
  | EMessage (c : Z) (m : RpcMessage)
  | EFinish (i : nat)
  | EDown (c : Z).

Section server.
Context (compute : Z -> list byte -> list byte).

(** ** The specification: what a request calls for *)

Definition resolve (services : list (list byte * Service)) (m : RpcMessage) : ErrorCode + Z :=
  match map_find string_ltb (service m) services with
  | None => inl NO_SERVICE
  | Some s =>
      match FindMethodByName s (method m) with
      | None => inl NO_METHOD
      | Some meth => if ParsesRequest s meth (request m) then inr meth else inl INVALID_REQUEST
      end
  end.

Definition owed (services : list (list byte * Service)) (c : Z) (m : RpcMessage) : list (Z * RpcMessage) :=
  match type m with
  | REQUEST =>
      [(c, match resolve services m with
           | inl e => error_msg (id m) e
           | inr meth => response_msg (id m) (compute meth (request m))
           end)]
  | _ => []
  end.

(** ** The server *)

(** The channel behind a pointer; its [services_] points to the server's table. *)
Definition deref (p : Z) (w : World) : outcome RpcChannel :=
  match channels w !! p with
  | Some ch => Ok (setServices (registered w) ch)
  | None => Err OutOfBounds
  end.

Definition sends (c : Z) (acts : list action) : list (Z * RpcMessage) :=
  omap (fun a => match a with SendMessage m => Some (c, m) | _ => None end) acts.
Definition starts (p : Z) (acts : list action) : list Job :=
  omap (fun a => match a with CallService meth req k => Some (mkJob p meth req k) | _ => None end) acts.

Definition connection_up (c : Z) (w : World) : World :=
  match Rpc.onConnection true c (registered w) with
  | Some channel =>
      let p := next_channel w in
      mkWorld (registered w) (<[c := mkConn (ChannelMessage p) (Some p)]> (conns w)) (<[p := channel]> (channels w)) (p + 1)
        (jobs w) (<[p := c]> (opened w)) (sent w) (due w)
  | None => w
  end.

(** The context was the only owner of the channel.  The connection is forgotten. *)
Definition connection_down (c : Z) (cn : Conn) (w : World) : World :=
  mkWorld (registered w) (delete c (conns w))
    (match context_ cn with Some p => delete p (channels w) | None => channels w end)
    (next_channel w) (jobs w) (opened w) (sent w) (due w).

Definition step (e : event) (w : World) : option (outcome World) :=
  match e with
  | ERegister name s =>
      Some (Ok (mkWorld (registerService name s (registered w)) (conns w) (channels w) (next_channel w) (jobs w) (opened w) (sent w) (due w)))
  | EUp c =>
      match conns w !! c with
      | None => Some (Ok (connection_up c w))
      | Some _ => None
      end
  | EMessage c m =>
      match conns w !! c with
      | None => None
      | Some cn => Some
          match messageCallback_ cn with
          | DefaultMessage => Ok w
          | ChannelMessage p =>
              ch ← deref p w;
              '(ch, acts) ← onRpcMessage c m ch;
              Ok (mkWorld (registered w) (conns w) (<[p := ch]> (channels w)) (next_channel w)
                    (jobs w ++ starts p acts) (opened w) (sent w ++ sends (conn_ ch) acts) (due w ++ owed (registered w) c m))
          end
      end
  | EFinish i =>
      match jobs w !! i with
      | None => None
      | Some j => Some (
          ch ← deref (job_channel j) w;
          let '(ch, acts) := doneCallback (compute (job_method j) (job_request j)) (job_id j) ch in
          Ok (mkWorld (registered w) (conns w) (<[job_channel j := ch]> (channels w)) (next_channel w)
                (delete i (jobs w)) (opened w) (sent w ++ sends (conn_ ch) acts) (due w)))
      end
  | EDown c =>
      match conns w !! c with
      | None => None
      | Some cn => Some (Ok (connection_down c cn w))
      end
  end.

Fixpoint run (es : list event) (w : World) : option (outcome World) :=
  match es with
  | [] => Some (Ok w)
  | e :: es =>
      match step e w with
      | Some (Ok w) => run es w
      | r => r
      end
  end.

(** ** What can go wrong *)

(** A response that has neither a result nor an error. *)
Definition malformed (m : RpcMessage) : bool :=
  match type m, response m, error m with RESPONSE, None, None => true | _, _, _ => false end.

(** The connection that asked for the job has gone. *)
Definition client_left (j : Job) (w : World) : Prop :=
  match opened w !! job_channel j with
  | Some c => (conns w !! c ≫= context_) <> Some (job_channel j)
  | None => True
  end.

#[global] Instance client_left_dec j w : Decision (client_left j w).
Proof. unfold client_left. destruct (opened w !! job_channel j); apply _. Defined.

(** The error an event causes. *)
Definition mishap (e : event) (w : World) : option Prelude.error :=
  match e with
  | EMessage c m => if decide (is_Some (conns w !! c)) then if malformed m then Some AssertFail else None else None
  | EFinish i => match jobs w !! i with Some j => if decide (client_left j w) then Some OutOfBounds else None | None => None end
  | _ => None
  end.

(** ** The invariant *)

(** The answer a job will give, on the connection its channel was made for. *)
Definition answer (op : gmap Z Z) (j : Job) : Z * RpcMessage :=
  (default 0 (op !! job_channel j), response_msg (job_id j) (compute (job_method j) (job_request j))).

Record inv (w : World) : Prop := {
  i_conn : forall c cn, conns w !! c = Some cn ->
    exists p ss, cn = mkConn (ChannelMessage p) (Some p) /\ channels w !! p = Some (setServices ss (new_channel c));
  i_chan : forall p ch, channels w !! p = Some ch ->
    exists c ss, ch = setServices ss (new_channel c) /\ conns w !! c = Some (mkConn (ChannelMessage p) (Some p)) /\ opened w !! p = Some c;
  i_opened : forall p c, opened w !! p = Some c -> p < next_channel w;
  i_jobs : Forall (fun j => is_Some (opened w !! job_channel j)) (jobs w);
  i_due : sent w ++ (answer (opened w) <$> jobs w) ≡ₚ due w }.

Lemma answer_ext op op' js :
  Forall (fun j => op' !! job_channel j = op !! job_channel j) js -> answer op' <$> js = answer op <$> js.
Proof. intros H. apply Forall_fmap_ext_1. eapply Forall_impl; [exact H|]. intros j Hj. unfold answer. by rewrite Hj. Qed.

(** The channel of a job exists exactly as long as its connection. *)
Lemma job_live w j :
  inv w -> j ∈ jobs w ->
  if decide (client_left j w) then channels w !! job_channel j = None
  else exists c ss, opened w !! job_channel j = Some c /\ channels w !! job_channel j = Some (setServices ss (new_channel c)).
Proof.
  intros Hi Hj. pose proof (i_jobs _ Hi) as Hjobs. rewrite Forall_forall in Hjobs. destruct (Hjobs _ Hj) as [c Hc].
  unfold client_left. destruct (decide _) as [Hl|Hl]; rewrite Hc in Hl.
  - destruct (channels w !! job_channel j) as [ch|] eqn:E; [|done]. destruct (i_chan _ Hi _ _ E) as (c' & ss & -> & Hc' & Ho).
    rewrite Hc in Ho. injection Ho as <-. by rewrite Hc' in Hl.
  - apply dec_stable in Hl. destruct (conns w !! c) as [cn|] eqn:E; [|done]. destruct (i_conn _ Hi _ _ E) as (p & ss & -> & Hp).
    cbn in Hl. injection Hl as ->. by exists c, ss.
Qed.

(** What a channel of the server makes of a message. *)
Lemma channel_acts ss c m :
  malformed m = false ->
  exists acts, onRpcMessage c m (setServices ss (new_channel c)) = Ok (setServices ss (new_channel c), acts) /\
    forall p op, op !! p = Some c -> sends c acts ++ (answer op <$> starts p acts) = owed ss c m.
Proof.
  intros Hm. unfold onRpcMessage. cbn [conn_ setServices new_channel]. rewrite Z.eqb_refl. cbn [assert_]. bind_simpl.
  unfold owed, malformed in *. destruct (type m).
  - unfold onRequest, resolve, answer. cbn [services_ setServices]. destruct (map_find string_ltb (service m) ss) as [s|]; [|(eexists; split; [reflexivity|intros; reflexivity])].
    destruct (FindMethodByName s (method m)) as [meth|]; [|(eexists; split; [reflexivity|intros; reflexivity])]. destruct (ParsesRequest s meth (request m)); [|(eexists; split; [reflexivity|intros; reflexivity])].
    eexists. split; [done|]. intros p op Hp. cbn. by rewrite Hp.
  - unfold onResponse. assert (match response m, error m with None, None => false | _, _ => true end = true) as ->.
    { by destruct (response m), (error m). }
    cbn [assert_ outstandings_ map_find map_erase]. bind_simpl. eexists. split; [reflexivity|intros; reflexivity].
  - eexists. split; [reflexivity|intros; reflexivity].
Qed.

Lemma malformed_asserts ss c m : malformed m = true -> onRpcMessage c m (setServices ss (new_channel c)) = Err AssertFail.
Proof.
  intros Hm. unfold malformed, onRpcMessage, onResponse in *. cbn [conn_ setServices new_channel]. rewrite Z.eqb_refl.
  by destruct (type m), (response m), (error m).
Qed.

Lemma up_inv c w : inv w -> conns w !! c = None -> inv (connection_up c w).
Proof.
  intros [Hconn Hchan Hop Hjobs Hdue] Hc. unfold connection_up. cbn [Rpc.onConnection].
  assert (opened w !! next_channel w = None) as Hfresh.
  { destruct (opened w !! next_channel w) as [d|] eqn:E; [|done]. apply Hop in E. lia. }
  assert (Forall (fun j => job_channel j <> next_channel w) (jobs w)) as Hne.
  { eapply Forall_impl; [exact Hjobs|]. intros j [d Hd] E. by rewrite E, Hfresh in Hd. }
  assert (forall p ch, channels w !! p = Some ch -> p <> next_channel w) as Hold.
  { intros p ch H ->. destruct (Hchan _ _ H) as (d & ss & _ & _ & Ho). congruence. }
  split; cbn [conns channels jobs sent due next_channel opened].
  - intros d cn. destruct (decide (d = c)) as [->|Hd].
    + rewrite lookup_insert_eq. intros [= <-]. do 2 eexists. split; [done|]. by rewrite lookup_insert_eq.
    + rewrite lookup_insert_ne by done. intros H. destruct (Hconn _ _ H) as (p & ss & -> & Hp). exists p, ss. split; [done|].
      rewrite lookup_insert_ne; [done|]. by apply not_eq_sym, (Hold _ _ Hp).
  - intros p ch. destruct (decide (p = next_channel w)) as [->|Hp].
    + rewrite lookup_insert_eq. intros [= <-]. do 2 eexists. split; [done|]. by rewrite !lookup_insert_eq.
    + rewrite lookup_insert_ne by done. intros H. destruct (Hchan _ _ H) as (d & ss & -> & Hd & Ho).
      exists d, ss. split; [done|]. rewrite !lookup_insert_ne by congruence. done.
  - intros p d. rewrite lookup_insert_Some. intros [[<- _]|[_ H%Hop]]; lia.
  - eapply Forall_impl; [exact (proj2 (Forall_and _ _) (conj Hjobs Hne))|]. cbn. intros j [Hj Hn]. by rewrite lookup_insert_ne by done.
  - rewrite (answer_ext (opened w)); [done|]. eapply Forall_impl; [exact Hne|]. cbn. intros j Hj. by rewrite lookup_insert_ne by done.
Qed.

Lemma down_inv c cn w : inv w -> conns w !! c = Some cn -> inv (connection_down c cn w).
Proof.
  intros [Hconn Hchan Hop Hjobs Hdue] Hc. destruct (Hconn _ _ Hc) as (p & ss & -> & Hp).
  split; cbn [connection_down context_ conns channels jobs sent due next_channel opened]; [| |done..].
  - intros d cn [Hd H]%lookup_delete_Some. destruct (Hconn _ _ H) as (q & ss' & -> & Hq). exists q, ss'. split; [done|].
    rewrite lookup_delete_ne; [done|]. intros ->. rewrite Hp in Hq. by injection Hq as <- _.
  - intros q ch [Hq H]%lookup_delete_Some. destruct (Hchan _ _ H) as (d & ss' & -> & Hd & Ho).
    exists d, ss'. split; [done|]. rewrite lookup_delete_ne; [done|]. intros ->. rewrite Hc in Hd. by injection Hd as <-.
Qed.

(** A channel is stored back, with the table of services as it is now. *)
Lemma stored_inv w p c ss js sn dn :
  inv w -> channels w !! p = Some (setServices ss (new_channel c)) ->
  Forall (fun j => is_Some (opened w !! job_channel j)) js -> sn ++ (answer (opened w) <$> js) ≡ₚ dn ->
  inv (mkWorld (registered w) (conns w) (<[p := setServices (registered w) (new_channel c)]> (channels w)) (next_channel w) js (opened w) sn dn).
Proof.
  intros [Hconn Hchan Hop _ _] Hp Hjs Hdue. split; cbn [conns channels jobs sent due next_channel opened]; [| |done..].
  - intros d cn H. destruct (Hconn _ _ H) as (q & ss' & -> & Hq). destruct (decide (q = p)) as [->|Hne].
    + rewrite Hp in Hq. injection Hq as <- _. do 2 eexists. split; [done|]. by rewrite lookup_insert_eq.
    + exists q, ss'. split; [done|]. by rewrite lookup_insert_ne.
  - intros q ch. destruct (decide (q = p)) as [->|Hne].
    + rewrite lookup_insert_eq. intros [= <-]. destruct (Hchan _ _ Hp) as (d & ss' & E & Hd & Ho).
      injection E as <- _. by do 2 eexists.
    + rewrite lookup_insert_ne by done. apply Hchan.
Qed.

(** An event causes the error that [mishap] says, and otherwise keeps the invariant. *)
Lemma rpc_server_step e w res :
  inv w -> step e w = Some res ->
  match res with Ok w' => mishap e w = None /\ inv w' | Err x => mishap e w = Some x end.
Proof.
  intros Hi Hs. destruct e as [name s|c|c m|i|c]; cbn [step mishap] in *.
  - injection Hs as <-. split; [done|]. destruct Hi. by split.
  - destruct (conns w !! c) eqn:E; [done|]. injection Hs as <-. split; [done|]. by apply up_inv.
  - destruct (conns w !! c) as [cn|] eqn:E; [|done]. injection Hs as <-. destruct (i_conn _ Hi _ _ E) as (p & ss & -> & Hp).
    cbn [messageCallback_]. unfold deref. rewrite Hp. bind_simpl. rewrite decide_True by done.
    change (setServices (registered w) (setServices ss (new_channel c))) with (setServices (registered w) (new_channel c)).
    destruct (malformed m) eqn:Em; [by rewrite (malformed_asserts _ _ _ Em)|].
    destruct (channel_acts (registered w) c m Em) as (acts & -> & Hacts). bind_simpl. split; [done|].
    destruct (i_chan _ Hi _ _ Hp) as (c' & ss' & Ec & _ & Ho). injection Ec as <- _.
    apply stored_inv with (ss := ss); [done|done| |].
    + apply Forall_app. split; [apply Hi|]. apply Forall_forall. intros j Hj. apply list_elem_of_omap in Hj as (a & _ & Ha).
      destruct a; try done. injection Ha as <-. cbn. by rewrite Ho.
    + rewrite fmap_app, <- (i_due _ Hi), <- (Hacts p (opened w) Ho). cbn [conn_ setServices new_channel]. solve_Permutation.
  - destruct (jobs w !! i) as [j|] eqn:E; [|done]. injection Hs as <-. pose proof (i_jobs _ Hi) as Hjobs.
    pose proof (job_live w j Hi ltac:(by eapply list_elem_of_lookup_2)) as Hlive.
    destruct (decide (client_left j w)) as [Hl|Hl]; unfold deref; [by rewrite Hlive|].
    destruct Hlive as (c & ss & Ho & Hch). rewrite Hch. bind_simpl. cbn [doneCallback]. split; [done|].
    apply (stored_inv w (job_channel j) c ss); [done|done|by apply Forall_delete|].
    rewrite <- (i_due _ Hi). pose proof (fmap_Permutation (answer (opened w)) _ _ (delete_Permutation _ _ _ E)) as ->.
    cbn [fmap list_fmap]. unfold answer at 2. rewrite Ho. cbn. solve_Permutation.
  - destruct (conns w !! c) as [cn|] eqn:E; [|done]. injection Hs as <-. split; [done|]. by apply down_inv.
Qed.

Lemma rpc_server_run es : forall w res, inv w -> run es w = Some res ->
  match res with
  | Ok w' => inv w'
  | Err x => exists es1 e es2 w1, es = es1 ++ e :: es2 /\ run es1 w = Some (Ok w1) /\ mishap e w1 = Some x
  end.
Proof.
  induction es as [|e es IH]; intros w res Hi Hs; cbn [run] in Hs; [by injection Hs as <-|].
  destruct (step e w) as [r|] eqn:E; [|done]. pose proof (rpc_server_step e w r Hi E) as Hr. destruct r as [w1|x].
  - destruct Hr as [_ Hi1]. specialize (IH w1 res Hi1 Hs). destruct res as [w'|x]; [done|].
    destruct IH as (es1 & e1 & es2 & w2 & -> & Hrun & Hm). exists (e :: es1), e1, es2, w2. split_and!; [done| |done]. cbn [run]. by rewrite E.
  - injection Hs as <-. by exists [], e, es, w.
Qed.

Lemma new_server_inv : inv new_server.
Proof. split; cbn; [by intros ? ?; rewrite lookup_empty..|constructor|done]. Qed.

(** C18: however connections come up and go, messages arrive on them, services are
    registered and methods finish, only two things stop the server: a peer that sends
    a response without a result or an error (an assertion), and a method that finishes
    after the client that asked for it has left (its channel was deleted), and each of
    them does.  Until then every connection has one channel, its own, and every
    channel belongs to a connection; and what was sent together with what the methods
    in execution are to answer is one answer for each request, on the connection it
    came from, with its number and the result of the method or the error that says
    what is missing. *)
Theorem rpc_server_correct es res :
  run es new_server = Some res ->
  match res with
  | Ok w =>
      (forall c cn, conns w !! c = Some cn ->
         exists p ch, cn = mkConn (ChannelMessage p) (Some p) /\ channels w !! p = Some ch /\ conn_ ch = c) /\
      (forall p ch, channels w !! p = Some ch -> exists cn, conns w !! conn_ ch = Some cn /\ context_ cn = Some p) /\
      sent w ++ (answer (opened w) <$> jobs w) ≡ₚ due w /\
      (forall e r, step e w = Some r -> (forall x, r = Err x <-> mishap e w = Some x))
  | Err x => exists es1 e es2 w, es = es1 ++ e :: es2 /\ run es1 new_server = Some (Ok w) /\ mishap e w = Some x
  end.
Proof.
  intros Hs. pose proof (rpc_server_run es _ res new_server_inv Hs) as Hr. destruct res as [w|x]; [|done]. split_and!; [..|apply Hr|].
  - intros c cn H. destruct (i_conn _ Hr _ _ H) as (p & ss & -> & Hp). by exists p, (setServices ss (new_channel c)).
  - intros p ch H. destruct (i_chan _ Hr _ _ H) as (c & ss & -> & Hc & _). by eexists.
  - intros e r E x. pose proof (rpc_server_step e w r Hr E) as Hstep. destruct r as [w'|y]; [|rewrite Hstep; naive_solver].
    destruct Hstep as [-> _]. done.
Qed.

Lemma request_starts ss c m meth :
  type m = REQUEST -> resolve ss m = inr meth ->
  onRpcMessage c m (setServices ss (new_channel c)) = Ok (setServices ss (new_channel c), [CallService meth (request m) (id m)]).
Proof.
  intros Ht Hr. unfold onRpcMessage, onRequest, resolve in *. cbn [conn_ services_ setServices new_channel]. rewrite Z.eqb_refl, Ht. cbn [assert_]. bind_simpl.
  destruct (map_find string_ltb (service m) ss) as [s|]; [|done]. destruct (FindMethodByName s (method m)) as [meth'|]; [|done].
  destruct (ParsesRequest s meth' (request m)); [|done]. by injection Hr as ->.
Qed.

(** A method that finishes after its client left works on the deleted channel: the
    closure has a plain pointer and the connection let go of the channel when it
    went down. *)
Theorem late_done_dangles c m meth w cn :
  inv w -> conns w !! c = Some cn -> type m = REQUEST -> resolve (registered w) m = inr meth ->
  run [EMessage c m; EDown c; EFinish (length (jobs w))] w = Some (Err OutOfBounds).
Proof.
  intros Hi Hc Ht Hr. destruct (i_conn _ Hi _ _ Hc) as (p & ss & -> & Hp). cbn [run step]. rewrite Hc. cbn [messageCallback_].
  unfold deref. rewrite Hp. bind_simpl. change (setServices (registered w) (setServices ss (new_channel c))) with (setServices (registered w) (new_channel c)).
  rewrite (request_starts _ _ _ meth) by done. bind_simpl. cbn [conns]. rewrite Hc. unfold connection_down.
  cbn [jobs channels context_ starts omap list_omap]. rewrite lookup_app_r, Nat.sub_diag by done. cbn. by rewrite lookup_delete_eq.
Qed.

(** A peer can make an assertion fail: a response without a result and an error. *)
Theorem malformed_response_asserts c m w cn :
  inv w -> conns w !! c = Some cn -> type m = RESPONSE -> response m = None -> error m = None ->
  step (EMessage c m) w = Some (Err AssertFail).
Proof.
  intros Hi Hc Ht Hr He. destruct (i_conn _ Hi _ _ Hc) as (p & ss & -> & Hp). cbn [step]. rewrite Hc. cbn [messageCallback_].
  unfold deref. rewrite Hp. bind_simpl. unfold onRpcMessage, onResponse. cbn [conn_ setServices new_channel]. by rewrite Z.eqb_refl, Ht, Hr, He.
Qed.
End server.

(** ** Two connections, three requests *)

Definition sample : list event :=
  [ERegister (bytes "Echo") echo_service; EUp 1; EUp 2;
   EMessage 1 (request_msg 7 (bytes "Echo") (bytes "say") (bytes "a"));
   EMessage 2 (request_msg 7 (bytes "Echo") (bytes "say") (bytes "b"));
   EMessage 2 (request_msg 8 (bytes "Choir") (bytes "sing") (bytes "c")); EFinish 1; EDown 2; EFinish 0].

Example sample_sent :
  match run (fun _ req => req) sample new_server with
  | Some (Ok w) => sent w = [(2, error_msg 8 NO_SERVICE); (2, response_msg 7 (bytes "b")); (1, response_msg 7 (bytes "a"))]
  | _ => False
  end.
Proof. vm_compute. reflexivity. Qed.

Lemma rpc_server_correct_witness :
  (exists w, run (fun _ req => req) sample new_server = Some (Ok w) /\
     sent w ++ (answer (fun _ req => req) (opened w) <$> jobs w) ≡ₚ due w) /\
  exists es1 e es2 w, [ERegister (bytes "Echo") echo_service; EUp 1; EMessage 1 (request_msg 7 (bytes "Echo") (bytes "say") (bytes "a")); EDown 1; EFinish 0] =
      es1 ++ e :: es2 /\ run (fun _ req => req) es1 new_server = Some (Ok w) /\ mishap e w = Some OutOfBounds.
Proof.
  split.
  - destruct (run (fun _ req => req) sample new_server) as [[w|x]|] eqn:E; [|exfalso; vm_compute in E; discriminate E..].
    exists w. split; [reflexivity|]. apply (rpc_server_correct (fun _ req => req) sample (Ok w) E).
  - apply (rpc_server_correct (fun _ req => req) _ (Err OutOfBounds)). vm_compute. reflexivity.
Defined.
End RpcServer.
