(* ===== verification/RpcSession.v ===== *)
(** * Remote calls as local calls

    The composition of a client's [RpcChannel], the connection and the channel of
    an [RpcServer].  Between them the codec and the connection carry messages in
    order and unharmed ([Transport]).  Threads of the client may be between
    registering a call and sending it; the methods the server has started finish
    in any order.  [compute] is what the methods compute.

    The client's memory has the response objects and the closures, which read them:
    a channel that touches an object that was deleted, or runs a closure twice,
    stops the program. *)

From S2P Require Import Prelude CxxStd Rpc.

Module RpcSession.
Import Rpc.

(** A call as the user makes it, with its response object and closure. *)
Record call := mkCallOf { c_service : list byte; c_method : list byte; c_request : list byte; c_response : Z; c_done : Z }.

(** The response objects that exist, each with what it was filled with; the closures,
    each with the response object it reads when it runs; and, as history, the closures
    run with what they saw. *)
Record memory := mkMemory {
  objects : gmap Z (option (list byte));
  closures : gmap Z Z;
  runs : list (Z * option (list byte)) }.

(** What an action of the client's channel does to it. *)
Definition perform1 (a : action) (m : memory) : outcome memory :=
  match a with
  | FillResponse o data =>
      match objects m !! o with
      | Some _ => Ok (mkMemory (<[o := Some data]> (objects m)) (closures m) (runs m))
      | None => Err OutOfBounds
      end
  | RunClosure d =>
      match closures m !! d with
      | Some o =>
          match objects m !! o with
          | Some v => Ok (mkMemory (objects m) (delete d (closures m)) (runs m ++ [(d, v)]))
          | None => Err OutOfBounds
          end
      | None => Err OutOfBounds
      end
  | Delete o =>
      match objects m !! o with
      | Some _ => Ok (mkMemory (delete o (objects m)) (closures m) (runs m))
      | None => Err OutOfBounds
      end
  | SendMessage _ | CallService _ _ _ => Ok m
  end.

Fixpoint perform (acts : list action) (m : memory) : outcome memory :=
  match acts with
  | [] => Ok m
  | a :: acts => m ← perform1 a m; perform acts m
  end.

Record system := mkSystem {
  client : RpcChannel;
  server : RpcChannel;
  (** requests registered and not yet sent, on the way, and being executed *)
  sending : list RpcMessage;
  to_server : list RpcMessage;
  executing : list (Z * list byte * Z);
  to_client : list RpcMessage;
  (** history: the calls made *)
  made : list call;
  mem : memory }.

Definition results (s : system) : list (Z * option (list byte)) := runs (mem s).

(** The caller makes the response object and the closure of a call. *)
Definition allocate (c : call) (m : memory) : memory :=
  mkMemory (<[c_response c := None]> (objects m)) (<[c_done c := c_response c]> (closures m)) (runs m).

Section session.
Context (services : list (list byte * Service)) (compute : Z -> list byte -> list byte).

Definition new_system (conn conn' : Z) : system :=
  mkSystem (new_channel conn) (setServices services (new_channel conn')) [] [] [] [] [] (mkMemory ∅ ∅ []).

(** What the actions of a channel put on the wire and start. *)
Definition sends (acts : list action) : list RpcMessage := omap (fun a => match a with SendMessage m => Some m | _ => None end) acts.
Definition starts (acts : list action) : list (Z * list byte * Z) :=
  omap (fun a => match a with CallService m r k => Some (m, r, k) | _ => None end) acts.
Inductive event :=
  | ECall (c : call)
  | ESend (i : nat)
  | EServer
  | EFinish (i : nat)
  | EClient.

(** [None]: the event cannot happen; new objects have addresses of their own. *)
Definition sys_step (e : event) (s : system) : option (outcome system) :=
  match e with
  | ECall c =>
      if decide (objects (mem s) !! c_response c = None /\ closures (mem s) !! c_done c = None) then
        let '(cl, acts) := CallMethod (c_service c) (c_method c) (c_request c) (Some (c_response c)) (Some (c_done c)) (client s) in
        Some (Ok (mkSystem cl (server s) (sending s ++ sends acts) (to_server s) (executing s) (to_client s) (made s ++ [c])
                    (allocate c (mem s))))
      else None
  | ESend i =>
      match sending s !! i with
      | Some m => Some (Ok (mkSystem (client s) (server s) (delete i (sending s)) (to_server s ++ [m]) (executing s) (to_client s) (made s) (mem s)))
      | None => None
      end
  | EServer =>
      match to_server s with
      | m :: ms => Some (
          '(sv, acts) ← onRpcMessage (conn_ (server s)) m (server s);
          Ok (mkSystem (client s) sv (sending s) ms (executing s ++ starts acts) (to_client s ++ sends acts) (made s) (mem s)))
      | [] => None
      end
  | EFinish i =>
      match executing s !! i with
      | Some (meth, req, k) =>
          let '(sv, acts) := doneCallback (compute meth req) k (server s) in
          Some (Ok (mkSystem (client s) sv (sending s) (to_server s) (delete i (executing s)) (to_client s ++ sends acts) (made s) (mem s)))
      | None => None
      end
  | EClient =>
      match to_client s with
      | m :: ms => Some (
          '(cl, acts) ← onRpcMessage (conn_ (client s)) m (client s);
          m ← perform acts (mem s);
          Ok (mkSystem cl (server s) (sending s) (to_server s) (executing s) ms (made s) m))
      | [] => None
      end
  end.

Fixpoint sys_run (es : list event) (s : system) : option (outcome system) :=
  match es with
  | [] => Some (Ok s)
  | e :: es =>
      match sys_step e s with
      | Some (Ok s) => sys_run es s
      | r => r
      end
  end.

(** ** The specification: a call is a local call *)

Definition resolve (c : call) : option Z :=
  match map_find string_ltb (c_service c) services with
  | None => None
  | Some sv =>
      match FindMethodByName sv (c_method c) with
      | None => None
      | Some meth => if ParsesRequest sv meth (c_request c) then Some meth else None
      end
  end.

(** The response the closure sees; [None] when the call cannot be made. *)
Definition local_result (c : call) : Z * option (list byte) :=
  (c_done c, (fun meth => compute meth (c_request c)) <$> resolve c).

(** ** Where the calls are *)

Definition entry (x : Z * call) : Z * OutstandingCall := (x.1, mkCall (Some (c_response x.2)) (Some (c_done x.2))).
Definition asks (x : Z * call) : RpcMessage := request_msg x.1 (c_service x.2) (c_method x.2) (c_request x.2).
Definition works (x : Z * call) (job : Z * list byte * Z) : Prop :=
  exists meth, resolve x.2 = Some meth /\ job = (meth, c_request x.2, x.1).
Definition answers (x : Z * call) (m : RpcMessage) : Prop :=
  match resolve x.2 with
  | Some meth => m = response_msg x.1 (compute meth (c_request x.2))
  | None => exists e, m = error_msg x.1 e
  end.

(** The client's memory while the calls [cs] are outstanding: their response objects,
    not filled yet, and their closures. *)
Record memory_ok (m : memory) (cs : list call) : Prop := {
  mo_objects o v : objects m !! o = Some v <-> v = None /\ o ∈ c_response <$> cs;
  mo_closures d o : closures m !! d = Some o <-> exists c, c ∈ cs /\ c_done c = d /\ c_response c = o;
  mo_responses : NoDup (c_response <$> cs);
  mo_dones : NoDup (c_done <$> cs) }.

Lemma memory_ok_perm m cs cs' : cs ≡ₚ cs' -> memory_ok m cs -> memory_ok m cs'.
Proof. intros HP [H1 H2 H3 H4]. split; intros; [by rewrite H1, HP|rewrite H2; by setoid_rewrite HP|by rewrite <- HP..]. Qed.

Lemma allocate_ok c m cs :
  objects m !! c_response c = None -> closures m !! c_done c = None -> memory_ok m cs -> memory_ok (allocate c m) (c :: cs).
Proof.
  intros Ho Hd [H1 H2 H3 H4].
  assert (c_response c ∉ c_response <$> cs) as Hr.
  { intros Hin. destruct (H1 (c_response c) None) as [_ H]. rewrite H in Ho by done. done. }
  assert (c_done c ∉ c_done <$> cs) as Hc.
  { intros (c' & E & Hin)%list_elem_of_fmap. destruct (H2 (c_done c) (c_response c')) as [_ H]. rewrite H in Hd by eauto. done. }
  split; cbn [objects closures allocate fmap list_fmap]; [| |by apply NoDup_cons..].
  - intros o v. rewrite lookup_insert_Some, H1, elem_of_cons. split; [intros [[<- <-]|[? [-> ?]]]; auto|].
    intros [-> [->|Hin]]; [by left|right]. split_and!; [|done|done]. intros <-. done.
  - intros d o. rewrite lookup_insert_Some, H2. setoid_rewrite elem_of_cons. split.
    + intros [[<- <-]|[? (c' & ? & ? & ?)]]; [by exists c; auto|]. exists c'. auto.
    + intros (c' & [->|Hin] & <- & <-); [by left|right]. split; [|by exists c']. intros E. apply Hc. rewrite E. by apply list_elem_of_fmap_2.
Qed.

(** What the channel does for a response with these data, or for none: the response
    object is filled before the closure runs, and deleted after that. *)
Definition completion (c : call) (data : option (list byte)) : list action :=
  match data with Some d => [FillResponse (c_response c) d] | None => [] end ++ [RunClosure (c_done c); Delete (c_response c)].

Lemma completion_ok c data m cs :
  memory_ok m (c :: cs) ->
  exists m', perform (completion c data) m = Ok m' /\ memory_ok m' cs /\ runs m' = runs m ++ [(c_done c, data)].
Proof.
  intros [H1 H2 H3 H4]. cbn [fmap list_fmap] in *. apply NoDup_cons in H3 as [Hr H3]. apply NoDup_cons in H4 as [Hd H4].
  assert (objects m !! c_response c = Some None) as Ho by (apply H1; set_solver).
  assert (closures m !! c_done c = Some (c_response c)) as Hc by (apply H2; exists c; set_solver).
  set (m' := mkMemory (delete (c_response c) (objects m)) (delete (c_done c) (closures m)) (runs m ++ [(c_done c, data)])).
  exists m'. split.
  - unfold completion. destruct data as [d|]; cbn [app perform perform1];
      repeat (first [rewrite Hc|rewrite Ho|rewrite lookup_insert_eq]; bind_simpl; cbn [perform perform1 closures objects runs]); [|done].
    by rewrite delete_insert_eq.
  - split; [|done]. split; cbn [objects closures m']; [| |done..].
    + intros o v. rewrite lookup_delete_Some, H1, elem_of_cons. naive_solver.
    + intros d o. rewrite lookup_delete_Some, H2. setoid_rewrite elem_of_cons. split; [naive_solver|].
      intros (c' & Hin & <- & <-). split; [|by eauto]. intros E. apply Hd. rewrite E. by apply list_elem_of_fmap_2.
Qed.

(** The outstanding calls, by where they are. *)
Record located (s : system) (p q r a : list (Z * call)) : Prop := {
  l_sending : sending s = asks <$> p;
  l_wire : to_server s = asks <$> q;
  l_executing : Forall2 works r (executing s);
  l_answers : Forall2 answers a (to_client s);
  l_outstanding : outstandings_ (client s) ≡ₚ entry <$> p ++ q ++ r ++ a;
  l_memory : memory_ok (mem s) (p ++ q ++ r ++ a).*2;
  l_results : results s ++ (local_result <$> (p ++ q ++ r ++ a).*2) ≡ₚ local_result <$> made s }.

Record inv (s : system) : Prop := {
  i_client : Rpc.inv (client s);
  i_id : id_ (client s) = zlen (made s);
  i_services : services_ (server s) = Some services;
  i_located : exists p q r a, located s p q r a }.

Lemma new_system_inv conn conn' : inv (new_system conn conn').
Proof.
  split; [by split; constructor|done|done|]. exists [], [], [], []. split; try by constructor. split; [| |constructor..].
  - intros o v. cbn. rewrite lookup_empty. set_solver.
  - intros d o. cbn. rewrite lookup_empty. set_solver.
Qed.

(** A call that goes from one place to another. *)
Lemma moved s s' p q r a p' q' r' a' :
  located s p q r a -> p' ++ q' ++ r' ++ a' ≡ₚ p ++ q ++ r ++ a ->
  client s' = client s -> made s' = made s -> mem s' = mem s ->
  sending s' = asks <$> p' -> to_server s' = asks <$> q' -> Forall2 works r' (executing s') -> Forall2 answers a' (to_client s') ->
  located s' p' q' r' a'.
Proof.
  intros H HP Hc Hm Hr H1 H2 H3 H4. split; [done..| | |]; unfold results; rewrite ?Hc, ?Hm, ?Hr.
  - rewrite HP. apply (l_outstanding _ _ _ _ _ H).
  - eapply memory_ok_perm; [|apply (l_memory _ _ _ _ _ H)]. by rewrite HP.
  - rewrite HP. apply (l_results _ _ _ _ _ H).
Qed.

Lemma call_inv c s s' :
  zlen (made s) < 2 ^ 62 -> inv s -> sys_step (ECall c) s = Some (Ok s') -> inv s'.
Proof.
  intros Hlen [Hcl Hid Hsv (p & q & r & a & H)] Hs. cbn [sys_step] in Hs. pose proof (zlen_nonneg (made s)).
  case_decide as Hnew; [|done]. destruct Hnew as [Ho Hd].
  pose proof (step_call_inv (c_service c) (c_method c) (c_request c) (c_response c) (c_done c) (client s) Hcl ltac:(lia)) as (Hcl' & Hid' & _).
  unfold CallMethod in *. cbn [fst] in Hcl', Hid'. rewrite (i64_small (id_ (client s) + 1)) in * by lia. injection Hs as <-.
  set (x := (id_ (client s) + 1, c)).
  split; [done|cbn [client id_ made]; rewrite zlen_app, Hid; done|done|]. exists (p ++ [x]), q, r, a. split; cbn [sending to_server executing to_client client made mem].
  - rewrite (l_sending _ _ _ _ _ H), fmap_app. done.
  - apply H.
  - apply H.
  - apply H.
  - cbn [outstandings_]. rewrite pending_set.
    + rewrite (l_outstanding _ _ _ _ _ H), !fmap_app. change [(id_ (client s) + 1, mkCall (Some (c_response c)) (Some (c_done c)))] with (entry <$> [x]).
      solve_Permutation.
    + destruct Hcl as [_ Hall]. eapply Forall_impl; [exact Hall|]. cbn. intros y [? _]. lia.
  - eapply memory_ok_perm; [|by apply allocate_ok; [..|apply (l_memory _ _ _ _ _ H)]]. rewrite !fmap_app. cbn. solve_Permutation.
  - unfold results. cbn [mem runs allocate]. rewrite (fmap_app local_result (made s)), <- (l_results _ _ _ _ _ H), !fmap_app. solve_Permutation.
Qed.

Lemma send_inv i s s' : inv s -> sys_step (ESend i) s = Some (Ok s') -> inv s'.
Proof.
  intros [Hcl Hid Hsv (p & q & r & a & H)] Hs. cbn [sys_step] in Hs. rewrite (l_sending _ _ _ _ _ H) in Hs.
  destruct ((asks <$> p) !! i) as [m|] eqn:E; [|done]. apply list_lookup_fmap_Some in E as (x & -> & Hx). injection Hs as <-.
  split; [done..|]. exists (delete i p), (q ++ [x]), r, a. eapply moved; [exact H|..]; try done; cbn.
  - transitivity ((x :: delete i p) ++ q ++ r ++ a); [solve_Permutation|]. f_equiv. symmetry. by apply delete_Permutation.
  - by rewrite list_fmap_delete.
  - by rewrite (l_wire _ _ _ _ _ H), fmap_app.
  - apply H.
  - apply H.
Qed.

(** What the server makes of a request. *)
Lemma server_acts x sv :
  services_ sv = Some services ->
  exists acts, onRpcMessage (conn_ sv) (asks x) sv = Ok (sv, acts) /\
    match resolve x.2 with
    | Some meth => acts = [CallService meth (c_request x.2) x.1]
    | None => exists e, acts = [SendMessage (error_msg x.1 e)]
    end.
Proof.
  intros Hs. unfold onRpcMessage, onRequest, resolve. rewrite Z.eqb_refl, Hs. cbn [assert_ asks type request_msg service method request id]. bind_simpl.
  destruct (map_find string_ltb (c_service x.2) services) as [v|]; [|eexists; split; [done|by eexists]].
  destruct (FindMethodByName v (c_method x.2)) as [meth|]; [|eexists; split; [done|by eexists]].
  destruct (ParsesRequest v meth (c_request x.2)); eexists; split; [done|done|done|by eexists].
Qed.

Lemma server_inv s res : inv s -> sys_step EServer s = Some res -> exists s', res = Ok s' /\ inv s'.
Proof.
  intros [Hcl Hid Hsv (p & q & r & a & H)] Hs. cbn [sys_step] in Hs. rewrite (l_wire _ _ _ _ _ H) in Hs.
  destruct q as [|x q]; [done|]. cbn [fmap list_fmap] in Hs. destruct (server_acts x (server s) Hsv) as (acts & E & Hacts). rewrite E in Hs.
  cbn [mbind outcome_bind] in Hs. injection Hs as <-. eexists. split; [done|]. split; [done..|].
  destruct (resolve x.2) as [meth|] eqn:Er; [subst acts|destruct Hacts as [e ->]].
  - exists p, q, (r ++ [x]), a. eapply moved; [exact H|..]; try done; cbn; rewrite ?app_nil_r.
    + solve_Permutation.
    + apply H.
    + apply Forall2_app; [apply H|]. constructor; [|done]. by exists meth.
    + apply H.
  - exists p, q, r, (a ++ [x]). eapply moved; [exact H|..]; try done; cbn; rewrite ?app_nil_r.
    + solve_Permutation.
    + apply H.
    + apply H.
    + apply Forall2_app; [apply H|]. constructor; [|done]. unfold answers. rewrite Er. by exists e.
Qed.

Lemma finish_inv i s s' : inv s -> sys_step (EFinish i) s = Some (Ok s') -> inv s'.
Proof.
  intros [Hcl Hid Hsv (p & q & r & a & H)] Hs. cbn [sys_step] in Hs.
  destruct (executing s !! i) as [[[meth req] k]|] eqn:E; [|done].
  destruct (Forall2_lookup_r _ _ _ _ _ (l_executing _ _ _ _ _ H) E) as (x & Hx & (meth' & Hm & [= <- -> ->])).
  cbn [doneCallback] in Hs. injection Hs as <-. split; [done..|].
  exists p, q, (delete i r), (a ++ [x]). eapply moved; [exact H|..]; try done; cbn.
  - transitivity (p ++ q ++ (x :: delete i r) ++ a); [solve_Permutation|]. do 3 f_equiv. symmetry. by apply delete_Permutation.
  - apply H.
  - apply H.
  - apply Forall2_delete, H.
  - apply Forall2_app; [apply H|]. constructor; [|done]. unfold answers. by rewrite Hm.
Qed.

(** What the client makes of the answer to a call it has outstanding. *)
Lemma client_acts x m cl :
  Rpc.inv cl -> entry x ∈ outstandings_ cl -> answers x m ->
  exists cl', onRpcMessage (conn_ cl) m cl = Ok (cl', completion x.2 (local_result x.2).2) /\
    outstandings_ cl ≡ₚ entry x :: outstandings_ cl'.
Proof.
  intros [Hs Hall] Hin Ha. apply (map_find_elem Z.ltb) in Hin; [|done].
  destruct (map_erase_split _ _ _ Hs Hin) as (m1 & m2 & E1 & E2).
  assert (type m = RESPONSE /\ id m = x.1 /\ response m = snd (local_result x.2) /\ (response m = None -> is_Some (error m))) as (Ht & Hi & Hr & He).
  { unfold answers in Ha. unfold local_result. destruct (resolve x.2); [subst m|destruct Ha as [e ->]]; by cbn; eauto. }
  unfold onRpcMessage, onResponse. rewrite Z.eqb_refl, Ht, Hi. cbn [assert_]. bind_simpl.
  assert (match response m, error m with None, None => false | _, _ => true end = true) as ->.
  { destruct (response m); [done|]. destruct He as [e ->]; done. }
  cbn [assert_]. bind_simpl. unfold entry in Hin. cbn [fst snd] in Hin. rewrite Hin. cbn [out_response out_done].
  eexists. split.
  - do 2 f_equal. unfold completion. by rewrite Hr.
  - cbn [outstandings_]. cbn [entry fst] in E2. rewrite E2, E1. symmetry. apply Permutation_middle.
Qed.

Lemma client_inv s res : inv s -> sys_step EClient s = Some res -> exists s', res = Ok s' /\ inv s'.
Proof.
  intros [Hcl Hid Hsv (p & q & r & a & H)] Hs. cbn [sys_step] in Hs. pose proof (l_answers _ _ _ _ _ H) as Ha.
  destruct (to_client s) as [|m ms]; [done|]. apply Forall2_cons_inv_r in Ha as (x & a' & Hx & Ha & ->).
  assert (entry x ∈ outstandings_ (client s)) as Hin.
  { rewrite (l_outstanding _ _ _ _ _ H), !fmap_app. set_solver. }
  destruct (client_acts x m (client s) Hcl Hin Hx) as (cl' & E & Ho). rewrite E in Hs. cbn [mbind outcome_bind] in Hs.
  destruct (completion_ok x.2 (local_result x.2).2 (mem s) (p ++ q ++ r ++ a').*2) as (mm & Ep & Hmm & Hruns).
  { eapply memory_ok_perm; [|apply (l_memory _ _ _ _ _ H)]. rewrite !fmap_app. cbn. solve_Permutation. }
  rewrite Ep in Hs. cbn [mbind outcome_bind] in Hs. injection Hs as <-. eexists. split; [done|].
  destruct (step_incoming_inv m (client s) cl' _ Hcl E) as (Hcl' & Hid' & _).
  split; [done|cbn; lia|done|]. exists p, q, r, a'. split; cbn [sending to_server executing to_client client made mem]; try (apply H || done).
  - apply (Permutation_cons_inv (a := entry x)). rewrite <- Ho, (l_outstanding _ _ _ _ _ H), !fmap_app. cbn [fmap list_fmap]. solve_Permutation.
  - unfold results. cbn [mem]. rewrite Hruns. fold (results s). change (c_done x.2, (local_result x.2).2) with (local_result x.2).
    rewrite <- (l_results _ _ _ _ _ H), !fmap_app. cbn [fmap list_fmap]. solve_Permutation.
Qed.

Definition is_call (e : event) : bool := match e with ECall _ => true | _ => false end.

Lemma session_step_inv e s res :
  zlen (made s) < 2 ^ 62 -> inv s -> sys_step e s = Some res ->
  exists s', res = Ok s' /\ inv s' /\ zlen (made s') = zlen (made s) + (if is_call e then 1 else 0).
Proof.
  intros Hlen Hi Hs. assert (exists s', res = Ok s' /\ inv s') as (s' & -> & Hi').
  { destruct e as [c|i| |i|].
    - pose proof Hs as Hs'. cbn [sys_step] in Hs. case_decide; [|done]. destruct (CallMethod _ _ _ _ _ _) as [cl acts] eqn:E. injection Hs as <-.
      eexists. split; [done|]. by eapply (call_inv c).
    - pose proof Hs as Hs'. cbn [sys_step] in Hs. destruct (sending s !! i); [|done]. injection Hs as <-. eexists. split; [done|].
      by eapply send_inv.
    - by eapply server_inv.
    - pose proof Hs as Hs'. cbn [sys_step doneCallback] in Hs. destruct (executing s !! i) as [[[? ?] ?]|]; [|done]. injection Hs as <-.
      eexists. split; [done|]. by eapply finish_inv.
    - by eapply client_inv. }
  exists s'. split_and!; [done..|]. destruct e; cbn [sys_step is_call] in *.
  - case_decide; [|done]. destruct (CallMethod _ _ _ _ _ _). injection Hs as <-. cbn. by rewrite zlen_app.
  - destruct (sending s !! i); [|done]. injection Hs as <-. cbn. lia.
  - destruct (to_server s); [done|]. injection Hs as Hs. apply bind_Ok in Hs as ([sv acts] & _ & Hs). injection Hs as <-. cbn. lia.
  - destruct (executing s !! i) as [[[? ?] ?]|]; [|done]. cbn in Hs. injection Hs as <-. cbn. lia.
  - destruct (to_client s); [done|]. injection Hs as Hs. apply bind_Ok in Hs as ([cl acts] & _ & Hs). apply bind_Ok in Hs as (mm & _ & Hs). injection Hs as <-. cbn. lia.
Qed.

Lemma session_run_inv es : forall s res,
  inv s -> zlen (made s) + zlen es < 2 ^ 62 -> sys_run es s = Some res -> exists s', res = Ok s' /\ inv s' /\ zlen (made s') <= zlen (made s) + zlen es.
Proof.
  induction es as [|e es IH]; intros s res Hi Hlen Hs; cbn [sys_run] in Hs.
  { injection Hs as <-. exists s. split_and!; [done..|]. rewrite zlen_nil. lia. }
  rewrite zlen_cons in Hlen |- *. pose proof (zlen_nonneg es). destruct (sys_step e s) as [o|] eqn:E; [|done].
  destruct (session_step_inv e s o ltac:(lia) Hi E) as (s1 & -> & Hi1 & Hl1). destruct (IH s1 res Hi1) as (s' & -> & Hi' & Hl'); [|done|].
  - destruct (is_call e); lia.
  - exists s'. split_and!; [done..|]. destruct (is_call e); lia.
Qed.

(** ** Everything in flight arrives *)

(** The steps still needed: a request is sent, received, executed and answered. *)
Definition work (s : system) : nat :=
  (4 * length (sending s) + 3 * length (to_server s) + 2 * length (executing s) + length (to_client s))%nat.

Lemma step_works e s s' : inv s -> is_call e = false -> sys_step e s = Some (Ok s') -> (work s' < work s)%nat.
Proof.
  intros [Hcl _ Hsv (p & q & r & a & H)] He Hs. destruct e as [c|i| |i|]; [done|..]; cbn [sys_step] in Hs.
  - destruct (sending s !! i) as [m|] eqn:E; [|done]. injection Hs as <-. unfold work. cbn.
    pose proof (lookup_lt_Some _ _ _ E). rewrite length_delete, length_app by by rewrite E. cbn. lia.
  - rewrite (l_wire _ _ _ _ _ H) in Hs. destruct q as [|x q]; [done|]. cbn [fmap list_fmap] in Hs.
    destruct (server_acts x (server s) Hsv) as (acts & E & Hacts). rewrite E in Hs. cbn [mbind outcome_bind] in Hs. injection Hs as <-.
    unfold work. rewrite (l_wire _ _ _ _ _ H). cbn. rewrite !length_app.
    destruct (resolve x.2); [subst acts|destruct Hacts as [e ->]]; cbn; unfold fmap; lia.
  - destruct (executing s !! i) as [[[meth req] k]|] eqn:E; [|done]. cbn in Hs. injection Hs as <-. unfold work. cbn.
    pose proof (lookup_lt_Some _ _ _ E). rewrite length_delete, length_app by by rewrite E. cbn. lia.
  - destruct (to_client s) as [|m ms] eqn:E; [done|]. injection Hs as Hs. apply bind_Ok in Hs as ([cl acts] & _ & Hs). apply bind_Ok in Hs as (mm & _ & Hs). injection Hs as <-.
    unfold work. rewrite E. cbn. lia.
Qed.

(** Something can be done while anything is in flight. *)
Lemma step_possible s : (0 < work s)%nat -> exists e, is_call e = false /\ is_Some (sys_step e s).
Proof.
  intros Hw. unfold work in Hw. destruct (sending s) as [|m ms] eqn:E1.
  2:{ exists (ESend 0). cbn. rewrite E1. by eauto. }
  destruct (to_server s) as [|m ms] eqn:E2.
  2:{ exists EServer. cbn. rewrite E2. by eauto. }
  destruct (executing s) as [|[[meth req] k] js] eqn:E3.
  2:{ exists (EFinish 0). cbn. rewrite E3. by eauto. }
  destruct (to_client s) as [|m ms] eqn:E4.
  - cbn in Hw. lia.
  - exists EClient. cbn. rewrite E4. by eauto.
Qed.

(** Every closure has run, and nothing is left of the calls. *)
Definition complete (s : system) : Prop :=
  results s ≡ₚ local_result <$> made s /\ outstandings_ (client s) = [] /\ objects (mem s) = ∅ /\ closures (mem s) = ∅.

Lemma idle_complete s : inv s -> work s = 0%nat -> complete s.
Proof.
  intros [_ _ _ (p & q & r & a & H)] Hw. unfold work in Hw.
  assert (p = []) as -> by (apply nil_length_inv; rewrite (l_sending _ _ _ _ _ H), length_fmap in Hw; lia).
  assert (q = []) as -> by (apply nil_length_inv; rewrite (l_wire _ _ _ _ _ H), length_fmap in Hw; lia).
  assert (r = []) as -> by (apply nil_length_inv; rewrite (Forall2_length _ _ _ (l_executing _ _ _ _ _ H)); lia).
  assert (a = []) as -> by (apply nil_length_inv; rewrite (Forall2_length _ _ _ (l_answers _ _ _ _ _ H)); lia).
  pose proof (l_outstanding _ _ _ _ _ H) as Ho. pose proof (l_results _ _ _ _ _ H) as Hr. cbn in Ho, Hr. rewrite app_nil_r in Hr.
  destruct (l_memory _ _ _ _ _ H) as [H1 H2 _ _]. split_and!; [done|by apply Permutation_nil_r| |].
  - apply map_empty. intros o. apply eq_None_not_Some. intros [v [_ Hin]%H1]. by apply elem_of_nil in Hin.
  - apply map_empty. intros d. apply eq_None_not_Some. intros [o (c & Hin & _)%H2]. by apply elem_of_nil in Hin.
Qed.

Lemma drains n : forall s,
  inv s -> (work s <= n)%nat -> zlen (made s) < 2 ^ 62 ->
  exists es s', Forall (fun e => is_call e = false) es /\ sys_run es s = Some (Ok s') /\ inv s' /\ work s' = 0%nat /\ made s' = made s.
Proof.
  induction n as [|n IH]; intros s Hi Hw Hlen.
  { exists [], s. split_and!; [constructor|done|done|lia|done]. }
  destruct (decide (work s = 0%nat)) as [Hz|Hz]; [exists [], s; split_and!; [constructor|done..]|].
  destruct (step_possible s ltac:(lia)) as (e & He & [o Ho]). destruct (session_step_inv e s o Hlen Hi Ho) as (s1 & -> & Hi1 & Hl1).
  pose proof (step_works e s s1 Hi He Ho). rewrite He in Hl1. destruct (IH s1 Hi1) as (es & s' & Hes & E & Hi' & Hw' & Hm); [lia|lia|].
  exists (e :: es), s'. split_and!; [by constructor|by cbn; rewrite Ho|done|done|]. rewrite Hm.
  destruct e as [c|i| |i|]; [done|..]; cbn [sys_step] in Ho.
  - destruct (sending s !! i); [|done]. by injection Ho as <-.
  - destruct (to_server s); [done|]. injection Ho as Ho. apply bind_Ok in Ho as ([sv acts] & _ & Ho). by injection Ho as <-.
  - destruct (executing s !! i) as [[[? ?] ?]|]; [|done]. cbn in Ho. by injection Ho as <-.
  - destruct (to_client s); [done|]. injection Ho as Ho. apply bind_Ok in Ho as ([cl acts] & _ & Ho). apply bind_Ok in Ho as (mm & _ & Ho). by injection Ho as <-.
Qed.

Lemma run_works es : forall s s',
  inv s -> zlen (made s) + zlen es < 2 ^ 62 -> Forall (fun e => is_call e = false) es -> sys_run es s = Some (Ok s') -> (length es + work s' <= work s)%nat.
Proof.
  induction es as [|e es IH]; intros s s' Hi Hlen Hes Hs; cbn [sys_run] in Hs; [injection Hs as <-; cbn; lia|].
  apply Forall_cons in Hes as [He Hes]. rewrite zlen_cons in Hlen. pose proof (zlen_nonneg es). destruct (sys_step e s) as [o|] eqn:E; [|done].
  destruct (session_step_inv e s o ltac:(lia) Hi E) as (s1 & -> & Hi1 & Hl1). rewrite He in Hl1. pose proof (step_works e s s1 Hi He E).
  pose proof (IH s1 s' Hi1 ltac:(lia) Hes Hs). cbn [length]. lia.
Qed.

(** C17: a remote call is a local call.  Whatever calls any threads of a client
    make, however their requests, the executions at the server and the answers
    interleave: no assertion fails, no response object is touched after it was
    deleted and no closure runs twice; and every closure that has run found in its
    own response object what a local call of the named method would have given, or
    found it empty where the service, the method or the request is not known to the
    server.  Whenever the calls stop, every sequence of further steps is bounded, and
    it ends with the closures of all calls run, nothing outstanding and all response
    objects deleted. *)
Theorem rpc_is_local_call conn conn' es res :
  zlen es < 2 ^ 61 -> sys_run es (new_system conn conn') = Some res ->
  exists s, res = Ok s /\ results s ⊆+ (local_result <$> made s) /\
    (forall es' s', Forall (fun e => is_call e = false) es' -> zlen es' < 2 ^ 61 -> sys_run es' s = Some (Ok s') ->
       (length es' <= work s)%nat /\
       ((forall e, is_call e = false -> sys_step e s' = None) -> complete s')) /\
    exists es' s', Forall (fun e => is_call e = false) es' /\ sys_run es' s = Some (Ok s') /\ made s' = made s /\ complete s'.
Proof.
  intros Hlen Hs. destruct (session_run_inv es _ res (new_system_inv conn conn')) as (s & -> & Hi & Hl); [change (zlen es < 2 ^ 62)|done|]; [lia|]. change (zlen (made s) <= zlen es) in Hl.
  assert (2 ^ 62 = 2 * 2 ^ 61) as Hpow by done. pose proof (zlen_nonneg es) as Hpos.
  exists s. split; [done|]. split_and!.
  - destruct Hi as [_ _ _ (p & q & r & a & H)]. rewrite <- (l_results _ _ _ _ _ H). apply submseteq_inserts_r. done.
  - intros es' s' Hes' Hlen' Hs'. pose proof (run_works es' s s' Hi ltac:(lia) Hes' Hs'). split; [lia|]. intros Hstuck.
    destruct (session_run_inv es' s _ Hi ltac:(lia) Hs') as (s2 & [= <-] & Hi' & _).
    apply idle_complete; [done|]. destruct (decide (work s' = 0%nat)) as [|Hw]; [done|].
    destruct (step_possible s' ltac:(lia)) as (e & He & [o Ho]). by rewrite Hstuck in Ho.
  - destruct (drains (work s) s Hi) as (es' & s' & Hes' & E & Hi' & Hw & Hm); [lia|lia|]. exists es', s'. split_and!; [done..|]. by apply idle_complete.
Qed.
End session.

(** ** Two calls whose answers overtake each other, and one nobody knows *)

Definition echo : list (list byte * Service) := registerService (bytes "Echo") echo_service [].
Definition sample_calls : list event :=
  [ECall (mkCallOf (bytes "Echo") (bytes "say") (bytes "a") 1 2); ECall (mkCallOf (bytes "Echo") (bytes "say") (bytes "b") 3 4);
   ECall (mkCallOf (bytes "None") [] [] 5 6); ESend 1; ESend 0; ESend 0; EServer; EServer; EServer; EFinish 1; EFinish 0; EClient; EClient; EClient].

Example sample_results :
  match sys_run (fun _ req => req) sample_calls (new_system echo 7 8) with
  | Some (Ok s) => results s = [(6, None); (2, Some (bytes "a")); (4, Some (bytes "b"))]
  | _ => False
  end.
Proof. vm_compute. reflexivity. Qed.

Lemma rpc_is_local_call_witness :
  exists s, sys_run (fun _ req => req) sample_calls (new_system echo 7 8) = Some (Ok s) /\
    results s ⊆+ (local_result echo (fun _ req => req) <$> made s).
Proof.
  destruct (sys_run (fun _ req => req) sample_calls (new_system echo 7 8)) as [res|] eqn:E; [|exfalso; vm_compute in E; discriminate E].
  destruct (rpc_is_local_call echo (fun _ req => req) 7 8 sample_calls res) as (s & -> & H & _); [vm_compute; reflexivity|exact E|].
  exists s. split; [reflexivity|exact H].
Defined.
End RpcSession.
