(* ===== verification/Channel.v ===== *)
(** * Channels ([src/net/Channel.h], [src/net/Channel.cpp])

    A [Channel] holds what its file descriptor is watched for and dispatches
    what happened.  Channels live in a heap and are shared by pointer between
    their owner and the poller. *)

From S2P Require Import Prelude Decimal.

Module Channel.

(** [<poll.h>] *)
Definition POLLIN : Z := 1.
Definition POLLPRI : Z := 2.
Definition POLLOUT : Z := 4.
Definition POLLERR : Z := 8.
Definition POLLHUP : Z := 16.
Definition POLLNVAL : Z := 32.
Definition POLLRDHUP : Z := 8192.

Definition kNoneEvent : Z := 0.
Definition kReadEvent : Z := Z.lor POLLIN POLLPRI.
Definition kWriteEvent : Z := POLLOUT.

Record Channel := mkChannel {
  fd_ : Z;
  events_ : Z;
  revents_ : Z;
  index_ : Z;
  logHup_ : bool;
  tied_ : bool;
  eventHandling_ : bool;
  addedToLoop_ : bool }.

Definition new_channel (fd : Z) : Channel := mkChannel fd 0 0 (-1) true false false false.

Definition with_events (e : Z) (c : Channel) : Channel :=
  mkChannel (fd_ c) e (revents_ c) (index_ c) (logHup_ c) (tied_ c) (eventHandling_ c) (addedToLoop_ c).
Definition set_revents (r : Z) (c : Channel) : Channel :=
  mkChannel (fd_ c) (events_ c) r (index_ c) (logHup_ c) (tied_ c) (eventHandling_ c) (addedToLoop_ c).
Definition set_index (i : Z) (c : Channel) : Channel :=
  mkChannel (fd_ c) (events_ c) (revents_ c) i (logHup_ c) (tied_ c) (eventHandling_ c) (addedToLoop_ c).
Definition set_added (a : bool) (c : Channel) : Channel :=
  mkChannel (fd_ c) (events_ c) (revents_ c) (index_ c) (logHup_ c) (tied_ c) (eventHandling_ c) a.
Definition tie (c : Channel) : Channel :=
  mkChannel (fd_ c) (events_ c) (revents_ c) (index_ c) (logHup_ c) true (eventHandling_ c) (addedToLoop_ c).
Definition doNotLogHup (c : Channel) : Channel :=
  mkChannel (fd_ c) (events_ c) (revents_ c) (index_ c) false (tied_ c) (eventHandling_ c) (addedToLoop_ c).

Definition isNoneEvent (c : Channel) : bool := events_ c =? kNoneEvent.
Definition isWriting (c : Channel) : bool := negb (Z.land (events_ c) kWriteEvent =? 0).
Definition isReading (c : Channel) : bool := negb (Z.land (events_ c) kReadEvent =? 0).

(** The changes of the watched events; each is followed by [update()]. *)
Inductive change := enableReading | disableReading | enableWriting | disableWriting | disableAll.

Definition apply_change (x : change) (e : Z) : Z :=
  match x with
  | enableReading => Z.lor e kReadEvent
  | disableReading => Z.land e (Z.lnot kReadEvent)
  | enableWriting => Z.lor e kWriteEvent
  | disableWriting => Z.land e (Z.lnot kWriteEvent)
  | disableAll => kNoneEvent
  end.

(** ** Dispatch *)
Inductive callback := CloseCallback | ErrorCallback | ReadCallback | WriteCallback.

(** Which callbacks an owner installed. *)
Record installed := mkInstalled { has_close : bool; has_error : bool; has_read : bool; has_write : bool }.

Definition has_flag (r flags : Z) : bool := negb (Z.land r flags =? 0).

(** [handleEventWithGuard]: the callbacks made for [revents_], in order. *)
Definition handleEventWithGuard (cbs : installed) (c : Channel) : list callback :=
  let r := revents_ c in
  (if has_flag r POLLHUP && negb (has_flag r POLLIN) && has_close cbs then [CloseCallback] else []) ++
  (if has_flag r (Z.lor POLLERR POLLNVAL) && has_error cbs then [ErrorCallback] else []) ++
  (if has_flag r (Z.lor (Z.lor POLLIN POLLPRI) POLLRDHUP) && has_read cbs then [ReadCallback] else []) ++
  (if has_flag r POLLOUT && has_write cbs then [WriteCallback] else []).

(** [handleEvent]; [alive] tells whether [tie_.lock()] finds the owner. *)
Definition handleEvent (cbs : installed) (alive : bool) (c : Channel) : list callback :=
  if tied_ c then (if alive then handleEventWithGuard cbs c else []) else handleEventWithGuard cbs c.

(** [eventsToString(fd, ev)] *)
Definition eventsToString (fd ev : Z) : list byte :=
  dec fd ++ bytes ": " ++
  (if has_flag ev POLLIN then bytes "IN " else []) ++
  (if has_flag ev POLLPRI then bytes "PRI " else []) ++
  (if has_flag ev POLLOUT then bytes "OUT " else []) ++
  (if has_flag ev POLLHUP then bytes "HUP " else []) ++
  (if has_flag ev POLLRDHUP then bytes "RDHUP " else []) ++
  (if has_flag ev POLLERR then bytes "ERR " else []) ++
  (if has_flag ev POLLNVAL then bytes "NVAL " else []).

(** ** Lemmas *)

(** The bits the changes work on. *)
Definition event_mask (e : Z) : Prop := e = 0 \/ e = 3 \/ e = 4 \/ e = 7.

Lemma apply_change_mask x e : event_mask e -> event_mask (apply_change x e).
Proof. intros [->|[->|[->| ->]]]; destruct x; vm_compute; tauto. Qed.

Lemma reading_writing e c :
  events_ c = e -> event_mask e ->
  e = (if isReading c then kReadEvent else 0) + (if isWriting c then kWriteEvent else 0).
Proof.
  intros He Hm. unfold isReading, isWriting. rewrite He.
  by destruct Hm as [->|[->|[->| ->]]].
Qed.

End Channel.
