(* ===== verification/Poller.v ===== *)
(** * The pollers
    ([src/net/Poller.h], [Poller.cpp], [src/net/poller/EPollPoller.cpp],
    [PollPoller.cpp])

    Both implementations keep the channels by file descriptor and tell the
    kernel what to watch: [EPollPoller] through [epoll_ctl], [PollPoller] in
    its array of [pollfd]s.  The class [Poller] states what the event loop
    relies on; both implement it. *)

From S2P Require Import Prelude CxxStd Channel.

Module Poller.
Import Channel.

(** Channels by address. *)
Abbreviation heap := (gmap Z Channel).

Definition deref (p : Z) (h : heap) : outcome Channel :=
  match h !! p with Some c => Ok c | None => Err OutOfBounds end.

(** [std::map<int, Channel*>] *)
Definition ChannelMap : Type := list (Z * Z).

(** ** EPollPoller *)

Definition kNew : Z := -1.
Definition kAdded : Z := 1.
Definition kDeleted : Z := 2.

Inductive epoll_op := EPOLL_CTL_ADD | EPOLL_CTL_MOD | EPOLL_CTL_DEL.

#[global] Instance epoll_op_eq_dec : EqDecision epoll_op.
Proof. solve_decision. Defined.

(** The kernel's interest list: events and user pointer by descriptor. *)
Abbreviation interest_list := (gmap Z (Z * Z)).

(** [epoll_ctl(2)]: [None] when it refuses the call (EEXIST, ENOENT).  The kernel
    has memory and watches to spare (no ENOMEM, no ENOSPC). *)
Definition epoll_ctl (op : epoll_op) (fd events ptr : Z) (k : interest_list) : option interest_list :=
  match op, k !! fd with
  | EPOLL_CTL_ADD, None => Some (<[fd := (events, ptr)]> k)
  | EPOLL_CTL_MOD, Some _ => Some (<[fd := (events, ptr)]> k)
  | EPOLL_CTL_DEL, Some _ => Some (delete fd k)
  | _, _ => None
  end.

Record EPollPoller := mkEPoll { ep_channels_ : ChannelMap; ep_kernel : interest_list; ep_events_size : Z }.

(** For the log. *)
Definition operationToString (op : epoll_op) : list byte :=
  match op with EPOLL_CTL_ADD => bytes "ADD" | EPOLL_CTL_DEL => bytes "DEL" | EPOLL_CTL_MOD => bytes "MOD" end.

Definition kInitEventListSize : Z := 16.
Definition new_epoll : EPollPoller := mkEPoll [] ∅ kInitEventListSize.

(** [EPollPoller::update(operation, channel)] *)
Definition ep_update (op : epoll_op) (p : Z) (h : heap) (s : EPollPoller) : outcome EPollPoller :=
  c ← deref p h;
  match epoll_ctl op (fd_ c) (events_ c) p (ep_kernel s) with
  | Some k => Ok (mkEPoll (ep_channels_ s) k (ep_events_size s))
  | None => if decide (op = EPOLL_CTL_DEL) then Ok s else Err Fatal
  end.

Definition ep_updateChannel (p : Z) (h : heap) (s : EPollPoller) : outcome (heap * EPollPoller) :=
  c ← deref p h;
  let index := index_ c in
  if (index =? kNew) || (index =? kDeleted) then
    s ← (if index =? kNew then
           assert_ (bool_decide (map_find Z.ltb (fd_ c) (ep_channels_ s) = None));;
           Ok (mkEPoll (map_set Z.ltb (fd_ c) p (ep_channels_ s)) (ep_kernel s) (ep_events_size s))
         else
           assert_ (bool_decide (map_find Z.ltb (fd_ c) (ep_channels_ s) = Some p));;
           Ok s);
    let h := <[p := set_index kAdded c]> h in
    s ← ep_update EPOLL_CTL_ADD p h s;
    Ok (h, s)
  else
    assert_ (bool_decide (map_find Z.ltb (fd_ c) (ep_channels_ s) = Some p));;
    assert_ (index =? kAdded);;
    if isNoneEvent c then
      s ← ep_update EPOLL_CTL_DEL p h s;
      Ok (<[p := set_index kDeleted c]> h, s)
    else
      s ← ep_update EPOLL_CTL_MOD p h s;
      Ok (h, s).

Definition ep_removeChannel (p : Z) (h : heap) (s : EPollPoller) : outcome (heap * EPollPoller) :=
  c ← deref p h;
  assert_ (bool_decide (map_find Z.ltb (fd_ c) (ep_channels_ s) = Some p));;
  assert_ (isNoneEvent c);;
  let index := index_ c in
  assert_ ((index =? kAdded) || (index =? kDeleted));;
  let s := mkEPoll (map_erase Z.ltb (fd_ c) (ep_channels_ s)) (ep_kernel s) (ep_events_size s) in
  s ← (if index =? kAdded then ep_update EPOLL_CTL_DEL p h s else Ok s);
  Ok (<[p := set_index kNew c]> h, s).

(** [fillActiveChannels]: [evs] are the pairs [epoll_wait] filled in. *)
Fixpoint ep_fill (evs : list (Z * Z)) (h : heap) (s : EPollPoller) : outcome (heap * list Z) :=
  match evs with
  | [] => Ok (h, [])
  | (revents, p) :: evs' =>
      c ← deref p h;
      assert_ (bool_decide (map_find Z.ltb (fd_ c) (ep_channels_ s) = Some p));;
      '(h, active) ← ep_fill evs' (<[p := set_revents revents c]> h) s;
      Ok (h, p :: active)
  end.

(** [EPollPoller::poll]: [res] is what [epoll_wait] returned, [None] on error. *)
Definition ep_poll (res : option (list (Z * Z))) (h : heap) (s : EPollPoller) :
    outcome (heap * EPollPoller * list Z) :=
  match res with
  | None => Ok (h, s, [])
  | Some evs =>
      assert_ (zlen evs <=? ep_events_size s);;
      '(h, active) ← ep_fill evs h s;
      let s := if (0 <? zlen evs) && (zlen evs =? ep_events_size s)
               then mkEPoll (ep_channels_ s) (ep_kernel s) (ep_events_size s * 2) else s in
      Ok (h, s, active)
  end.

(** ** PollPoller *)

Record pollfd := mkPollfd { pfd_fd : Z; pfd_events : Z; pfd_revents : Z }.

Record PollPoller := mkPoll { pp_channels_ : ChannelMap; pollfds_ : list pollfd }.

Definition new_poll : PollPoller := mkPoll [] [].

Definition pp_updateChannel (p : Z) (h : heap) (s : PollPoller) : outcome (heap * PollPoller) :=
  c ← deref p h;
  if index_ c <? 0 then
    assert_ (bool_decide (map_find Z.ltb (fd_ c) (pp_channels_ s) = None));;
    let fds := pollfds_ s ++ [mkPollfd (fd_ c) (i16 (events_ c)) 0] in
    let idx := zlen fds - 1 in
    Ok (<[p := set_index idx c]> h, mkPoll (map_set Z.ltb (fd_ c) p (pp_channels_ s)) fds)
  else
    assert_ (bool_decide (map_find Z.ltb (fd_ c) (pp_channels_ s) = Some p));;
    let idx := index_ c in
    assert_ ((0 <=? idx) && (idx <? zlen (pollfds_ s)));;
    match pollfds_ s !! Z.to_nat idx with
    | None => Err OutOfBounds
    | Some pfd =>
        assert_ ((pfd_fd pfd =? fd_ c) || (pfd_fd pfd =? - fd_ c - 1));;
        let pfd := mkPollfd (if isNoneEvent c then - fd_ c - 1 else fd_ c) (i16 (events_ c)) 0 in
        Ok (h, mkPoll (pp_channels_ s) (<[Z.to_nat idx := pfd]> (pollfds_ s)))
    end.

Definition pp_removeChannel (p : Z) (h : heap) (s : PollPoller) : outcome (heap * PollPoller) :=
  c ← deref p h;
  assert_ (bool_decide (map_find Z.ltb (fd_ c) (pp_channels_ s) = Some p));;
  assert_ (isNoneEvent c);;
  let idx := index_ c in
  assert_ ((0 <=? idx) && (idx <? zlen (pollfds_ s)));;
  match pollfds_ s !! Z.to_nat idx, last (pollfds_ s) with
  | Some pfd, Some lastpfd =>
      assert_ ((pfd_fd pfd =? - fd_ c - 1) && (pfd_events pfd =? events_ c));;
      let chans := map_erase Z.ltb (fd_ c) (pp_channels_ s) in
      if idx =? zlen (pollfds_ s) - 1 then
        Ok (h, mkPoll chans (take (length (pollfds_ s) - 1) (pollfds_ s)))
      else
        let channelAtEnd := if pfd_fd lastpfd <? 0 then - pfd_fd lastpfd - 1 else pfd_fd lastpfd in
        match map_find Z.ltb channelAtEnd chans with
        | None => Err OutOfBounds
        | Some q =>
            cq ← deref q h;
            Ok (<[q := set_index idx cq]> h,
                mkPoll chans (take (length (pollfds_ s) - 1) (<[Z.to_nat idx := lastpfd]> (pollfds_ s))))
        end
  | _, _ => Err OutOfBounds
  end.

(** [fillActiveChannels(numEvents, ...)] over the array. *)
Fixpoint pp_fill (numEvents : Z) (fds : list pollfd) (chans : ChannelMap) (h : heap) : outcome (heap * list Z) :=
  match fds with
  | [] => Ok (h, [])
  | pfd :: fds' =>
      if numEvents <=? 0 then Ok (h, [])
      else if pfd_revents pfd >? 0 then
        match map_find Z.ltb (pfd_fd pfd) chans with
        | None => Err AssertFail
        | Some p =>
            c ← deref p h;
            assert_ (fd_ c =? pfd_fd pfd);;
            '(h, active) ← pp_fill (numEvents - 1) fds' chans (<[p := set_revents (pfd_revents pfd) c]> h);
            Ok (h, p :: active)
        end
      else pp_fill numEvents fds' chans h
  end.

(** [PollPoller::poll]: [res] is the array and the count after [::poll]. *)
Definition pp_poll (res : option (list pollfd * Z)) (h : heap) (s : PollPoller) :
    outcome (heap * PollPoller * list Z) :=
  match res with
  | None => Ok (h, s, [])
  | Some (fds, numEvents) =>
      '(h, active) ← pp_fill numEvents fds (pp_channels_ s) h;
      Ok (h, mkPoll (pp_channels_ s) fds, active)
  end.

(** [Poller::hasChannel] *)
Definition hasChannel (chans : ChannelMap) (p : Z) (h : heap) : outcome bool :=
  c ← deref p h;
  Ok (bool_decide (map_find Z.ltb (fd_ c) chans = Some p)).

(** ** What the event loop relies on *)

Class Poller (S : Type) := {
  updateChannel : Z -> heap -> S -> outcome (heap * S);
  removeChannel : Z -> heap -> S -> outcome (heap * S);
  channels : S -> ChannelMap;
  (** the events the kernel reports for a descriptor, 0 when it is not watched *)
  watched : S -> Z -> Z;
  (** the representation invariant *)
  pinv : heap -> S -> Prop }.

(** Heaps that differ in the indices the poller keeps in registered channels. *)
Definition same_but_index (chans : ChannelMap) (h h' : heap) : Prop :=
  forall q, set_index 0 <$> h' !! q = set_index 0 <$> h !! q /\
    ((forall fd, map_find Z.ltb fd chans <> Some q) -> h' !! q = h !! q).

(** A channel the poller does not know yet. *)
Definition fresh (c : Channel) : Prop := index_ c = -1.

Class PollerLaws (S : Type) `{!Poller S} : Prop := {
  pinv_channels h s fd p :
    pinv h s -> map_find Z.ltb fd (channels s) = Some p ->
    exists c, h !! p = Some c /\ fd_ c = fd /\ watched s fd = events_ c;
  pinv_sorted h s : pinv h s -> map_sorted Z.ltb (channels s);
  pinv_unwatched h s fd :
    pinv h s -> map_find Z.ltb fd (channels s) = None -> watched s fd = 0;
  (** new objects and events of channels the poller does not know are not its business *)
  pinv_frame h s p c :
    pinv h s -> (forall fd, map_find Z.ltb fd (channels s) <> Some p) -> pinv (<[p := c]> h) s;
  updateChannel_known h s p c e :
    pinv h s -> h !! p = Some c -> map_find Z.ltb (fd_ c) (channels s) = Some p -> event_mask e ->
    let h1 := <[p := set_added true (with_events e c)]> h in
    exists h' s', updateChannel p h1 s = Ok (h', s') /\ pinv h' s' /\
      channels s' = channels s /\ same_but_index (channels s) h1 h';
  updateChannel_new h s p c e :
    pinv h s -> h !! p = Some c -> fresh c -> 0 <= fd_ c ->
    (forall fd, map_find Z.ltb fd (channels s) <> Some p) ->
    map_find Z.ltb (fd_ c) (channels s) = None -> event_mask e -> e <> 0 ->
    let h1 := <[p := set_added true (with_events e c)]> h in
    exists h' s', updateChannel p h1 s = Ok (h', s') /\ pinv h' s' /\
      channels s' = map_set Z.ltb (fd_ c) p (channels s) /\ same_but_index (channels s') h1 h';
  removeChannel_known h s p c :
    pinv h s -> h !! p = Some c -> map_find Z.ltb (fd_ c) (channels s) = Some p -> events_ c = 0 ->
    let h1 := <[p := set_added false c]> h in
    exists h' s', removeChannel p h1 s = Ok (h', s') /\ pinv h' s' /\
      channels s' = map_erase Z.ltb (fd_ c) (channels s) /\ same_but_index (channels s) h1 h' }.

(** ** A client of the interface

    What owners do with their channels, and the effect they rely on. *)
Inductive channel_op := Change (x : change) (p : Z) | Remove (p : Z).

Inductive status := Fresh | Registered | Removed.

#[global] Instance status_eq_dec : EqDecision status.
Proof. solve_decision. Defined.

(** Descriptor, watched events and status of every channel. *)
Abbreviation abstract := (gmap Z (Z * Z * status)).

Definition abs_step (o : channel_op) (a : abstract) : option abstract :=
  match o with
  | Change x p =>
      match a !! p with
      | Some (fd, e, Registered) => Some (<[p := (fd, apply_change x e, Registered)]> a)
      | Some (fd, e, Fresh) =>
          if decide (apply_change x e <> 0 /\ map_Forall (fun _ v => v.1.1 = fd -> v.2 <> Registered) a)
          then Some (<[p := (fd, apply_change x e, Registered)]> a) else None
      | _ => None
      end
  | Remove p =>
      match a !! p with
      | Some (fd, e, Registered) => if decide (e = 0) then Some (<[p := (fd, e, Removed)]> a) else None
      | _ => None
      end
  end.

Section client.
Context {S : Type} `{!Poller S, !PollerLaws S}.

(** [Channel::update] and [Channel::remove] against a poller. *)
Definition channel_step (o : channel_op) (h : heap) (s : S) : outcome (heap * S) :=
  match o with
  | Change x p =>
      c ← deref p h;
      updateChannel p (<[p := set_added true (with_events (apply_change x (events_ c)) c)]> h) s
  | Remove p =>
      c ← deref p h;
      assert_ (isNoneEvent c);;
      removeChannel p (<[p := set_added false c]> h) s
  end.

Fixpoint channel_run (ops : list channel_op) (h : heap) (s : S) : outcome (heap * S) :=
  match ops with
  | [] => Ok (h, s)
  | o :: ops' => '(h, s) ← channel_step o h s; channel_run ops' h s
  end.

Definition channel_rel (s : S) (p : Z) (v : Z * Z * status) (c : Channel) : Prop :=
  fd_ c = v.1.1 /\ events_ c = v.1.2 /\ event_mask (events_ c) /\ 0 <= fd_ c /\
  (v.2 = Registered <-> map_find Z.ltb (fd_ c) (channels s) = Some p) /\
  (v.2 = Fresh -> fresh c).

Definition rel (a : abstract) (h : heap) (s : S) : Prop :=
  pinv h s /\
  forall p, match a !! p with
            | Some v => exists c, h !! p = Some c /\ channel_rel s p v c
            | None => forall fd, map_find Z.ltb fd (channels s) <> Some p
            end.

(** The events the abstract state says are watched on a descriptor. *)
Definition abs_watches (a : abstract) (fd e : Z) : Prop :=
  exists p, a !! p = Some (fd, e, Registered).

Lemma unregistered_unknown a h s p fd e st :
  rel a h s -> a !! p = Some (fd, e, st) -> st <> Registered ->
  forall fd', map_find Z.ltb fd' (channels s) <> Some p.
Proof.
  intros [Hi Hr] Ha Hst fd' Hf. specialize (Hr p). rewrite Ha in Hr.
  destruct Hr as (c & Hc & (H1 & _ & _ & _ & H5 & _)).
  destruct (pinv_channels _ _ _ _ Hi Hf) as (c' & Hc' & Hfd & _). simplify_eq.
  apply Hst, H5. done.
Qed.

(** A descriptor no registered channel has is unknown to the poller. *)
Lemma free_unknown a h s fd :
  rel a h s -> map_Forall (fun _ v => v.1.1 = fd -> v.2 <> Registered) a -> map_find Z.ltb fd (channels s) = None.
Proof.
  intros [Hi Hr] Hfree. destruct (map_find Z.ltb fd (channels s)) as [q|] eqn:Hf; [|done]. exfalso.
  destruct (pinv_channels _ _ _ _ Hi Hf) as (cq & Hcq & Hfq & _).
  pose proof (Hr q) as Hq. destruct (a !! q) as [vq|] eqn:Haq; [|by eapply Hq].
  destruct Hq as (cq' & Hcq' & (Q1 & _ & _ & _ & Q5 & _)). simplify_eq.
  apply (Hfree q vq Haq); [congruence|]. by apply Q5.
Qed.

(** The abstract entry of [p] after an operation on it, the others unchanged. *)
Lemma rel_after a h s h1 h' s' p c1 v :
  rel a h s -> (forall q, q <> p -> h1 !! q = h !! q) -> h1 !! p = Some c1 ->
  pinv h' s' -> (exists chans, same_but_index chans h1 h' /\
    (forall q, q <> p -> (forall fd, map_find Z.ltb fd (channels s) <> Some q) ->
       (forall fd, map_find Z.ltb fd chans <> Some q))) ->
  (forall q fd, q <> p -> map_find Z.ltb fd (channels s') = Some q <-> map_find Z.ltb fd (channels s) = Some q) ->
  fd_ c1 = v.1.1 -> events_ c1 = v.1.2 -> event_mask (events_ c1) -> 0 <= fd_ c1 -> v.2 <> Fresh ->
  (v.2 = Registered <-> map_find Z.ltb (fd_ c1) (channels s') = Some p) ->
  rel (<[p := v]> a) h' s'.
Proof.
  intros Hrel Hh1 Hp1 Hi' (chans & Hsame & Hch) Hother H1 H2 H3 H4 H5 H6.
  pose proof Hrel as [Hi Hr]. split; [done|]. intros q.
  destruct (decide (q = p)) as [->|Hne].
  - rewrite lookup_insert_eq. destruct (Hsame p) as [Hcore _]. rewrite Hp1 in Hcore.
    destruct (h' !! p) as [c'|]; [|done]. exists c'. split; [done|].
    unfold channel_rel. simpl in Hcore. injection Hcore as E1 E2 _ _ _ _ _. rewrite E1, E2. by split_and!.
  - rewrite lookup_insert_ne by done. specialize (Hr q). destruct (a !! q) as [vq|] eqn:Haq.
    + destruct Hr as (c & Hc & (R1 & R2 & R3 & R4 & R5 & R6)).
      destruct (Hsame q) as [Hcore Hexact]. rewrite (Hh1 q Hne), Hc in Hcore, Hexact.
      destruct (h' !! q) as [c'|] eqn:Eh'; [|done]. exists c'. split; [done|].
      simpl in Hcore. injection Hcore as E1 E2 _ _ _ _ _. unfold channel_rel. rewrite E1, E2.
      split_and!; [done..| |].
      * rewrite R5. symmetry. by apply Hother.
      * intros Hfresh. assert (Some c' = Some c) as [= ->]; [|by apply R6]. apply Hexact.
        apply Hch; [done|]. destruct vq as [[fd e] st]. simpl in Hfresh. subst st.
        by apply (unregistered_unknown a h s q fd e Fresh).
    + intros fd Hf. apply (Hr fd). by apply Hother.
Qed.

(** The first change of a new channel registers it. *)
Lemma register_refines a h s p c x :
  rel a h s -> a !! p = Some (fd_ c, events_ c, Fresh) -> h !! p = Some c -> apply_change x (events_ c) <> 0 ->
  map_Forall (fun _ v => v.1.1 = fd_ c -> v.2 <> Registered) a ->
  exists h' s', channel_step (Change x p) h s = Ok (h', s') /\ rel (<[p := (fd_ c, apply_change x (events_ c), Registered)]> a) h' s'.
Proof.
  intros Hrel Hap Hc Hne Hfree. pose proof Hrel as [Hi Hr]. pose proof (Hr p) as Hp. rewrite Hap in Hp.
  destruct Hp as (c' & Hc' & (_ & _ & R3 & R4 & _ & R6)). assert (c' = c) as -> by congruence.
  unfold channel_step, deref. rewrite Hc. bind_simpl.
  pose proof (free_unknown a h s (fd_ c) Hrel Hfree) as Hnone.
  assert (forall fd, map_find Z.ltb fd (channels s) <> Some p) as Hunk
    by by apply (unregistered_unknown a h s p (fd_ c) (events_ c) Fresh).
  destruct (updateChannel_new h s p c (apply_change x (events_ c))) as (h' & s' & E & Hi' & Hch & Hsame);
    try done; [by apply R6|by apply apply_change_mask|].
  exists h', s'. split; [done|]. pose proof (pinv_sorted _ _ Hi) as Hsort.
  eapply (rel_after a h s _ h' s' p (set_added true (with_events (apply_change x (events_ c)) c))); [done| | |done| | |done|done|by apply apply_change_mask|done|done|].
  - intros q Hq. by rewrite lookup_insert_ne.
  - apply lookup_insert_eq.
  - exists (channels s'). split; [done|]. intros q Hq Hno fd. rewrite Hch.
    destruct (decide (fd = fd_ c)) as [->|]; [rewrite (map_find_set_eq Z.ltb); congruence|].
    rewrite (map_find_set_ne Z.ltb) by done. apply Hno.
  - intros q fd Hq. rewrite Hch. destruct (decide (fd = fd_ c)) as [->|].
    + rewrite (map_find_set_eq Z.ltb), Hnone. split; congruence.
    + by rewrite (map_find_set_ne Z.ltb).
  - cbn [fd_ set_added with_events]. rewrite Hch, (map_find_set_eq Z.ltb). done.
Qed.

Lemma change_refines a h s p c x :
  rel a h s -> a !! p = Some (fd_ c, events_ c, Registered) -> h !! p = Some c ->
  exists h' s', channel_step (Change x p) h s = Ok (h', s') /\ rel (<[p := (fd_ c, apply_change x (events_ c), Registered)]> a) h' s'.
Proof.
  intros Hrel Hap Hc. pose proof Hrel as [Hi Hr]. pose proof (Hr p) as Hp. rewrite Hap in Hp.
  destruct Hp as (c' & Hc' & (_ & _ & R3 & R4 & R5 & _)). assert (c' = c) as -> by congruence.
  unfold channel_step, deref. rewrite Hc. bind_simpl. pose proof (proj1 R5 eq_refl) as Hf.
  destruct (updateChannel_known h s p c (apply_change x (events_ c))) as (h' & s' & E & Hi' & Hch & Hsame);
    try done; [by apply apply_change_mask|].
  exists h', s'. split; [done|].
  eapply (rel_after a h s _ h' s' p (set_added true (with_events (apply_change x (events_ c)) c))); [done| | |done| | |done|done|by apply apply_change_mask|done|done|].
  - intros q Hq. by rewrite lookup_insert_ne.
  - apply lookup_insert_eq.
  - exists (channels s). split; [done|]. auto.
  - intros q fd Hq. by rewrite Hch.
  - cbn [fd_ set_added with_events]. by rewrite Hch.
Qed.

Lemma remove_refines a h s p c :
  rel a h s -> a !! p = Some (fd_ c, events_ c, Registered) -> h !! p = Some c -> events_ c = 0 ->
  exists h' s', channel_step (Remove p) h s = Ok (h', s') /\ rel (<[p := (fd_ c, events_ c, Removed)]> a) h' s'.
Proof.
  intros Hrel Hap Hc He. pose proof Hrel as [Hi Hr]. pose proof (Hr p) as Hp. rewrite Hap in Hp.
  destruct Hp as (c' & Hc' & (_ & _ & R3 & R4 & R5 & _)). assert (c' = c) as -> by congruence.
  unfold channel_step, deref. rewrite Hc. bind_simpl. pose proof (proj1 R5 eq_refl) as Hf.
  rewrite assert_true by (unfold isNoneEvent, kNoneEvent; lia). bind_simpl.
  destruct (removeChannel_known h s p c) as (h' & s' & E & Hi' & Hch & Hsame); try done.
  exists h', s'. split; [done|]. pose proof (pinv_sorted _ _ Hi) as Hsort.
  eapply (rel_after a h s _ h' s' p (set_added false c)); [done| | |done| | |done|done|done|done|done|].
  - intros q Hq. by rewrite lookup_insert_ne.
  - apply lookup_insert_eq.
  - exists (channels s). split; [done|]. auto.
  - intros q fd Hq. rewrite Hch. destruct (decide (fd = fd_ c)) as [->|].
    + rewrite (map_find_erase_eq Z.ltb) by done. rewrite Hf. split; congruence.
    + by rewrite (map_find_erase_ne Z.ltb).
  - cbn [fd_ set_added]. rewrite Hch, (map_find_erase_eq Z.ltb) by done. done.
Qed.

Lemma channel_step_refines o a a' h s :
  rel a h s -> abs_step o a = Some a' ->
  exists h' s', channel_step o h s = Ok (h', s') /\ rel a' h' s'.
Proof.
  intros Hrel Ha. pose proof Hrel as [_ Hr]. destruct o as [x p|p]; simpl in Ha;
    destruct (a !! p) as [[[fd e] st]|] eqn:Hap; try done;
    pose proof (Hr p) as Hp; rewrite Hap in Hp;
    destruct Hp as (c & Hc & (R1 & R2 & _)); cbn [fst snd] in *; subst fd e; destruct st; try done.
  - case_decide as Hd; [|done]. injection Ha as <-. destruct Hd. by apply register_refines.
  - injection Ha as <-. by apply change_refines.
  - case_decide; [|done]. injection Ha as <-. by apply remove_refines.
Qed.

Lemma channel_run_refines ops : forall a a' h s,
  rel a h s -> foldl (fun m o => m ≫= abs_step o) (Some a) ops = Some a' ->
  exists h' s', channel_run ops h s = Ok (h', s') /\ rel a' h' s'.
Proof.
  induction ops as [|o ops IH]; intros a a' h s Hrel Ha; simpl in *.
  { simplify_eq. by exists h, s. }
  destruct (abs_step o a) as [a1|] eqn:E1.
  - destruct (channel_step_refines o a a1 h s Hrel E1) as (h1 & s1 & -> & Hrel1). bind_simpl.
    by apply IH with a1.
  - exfalso. clear -Ha. induction ops; simpl in Ha; naive_solver.
Qed.
End client.

(** ** EPollPoller implements the interface *)

Definition ep_watched (s : EPollPoller) (fd : Z) : Z :=
  match ep_kernel s !! fd with Some (e, _) => e | None => 0 end.

(** A registered channel and what the kernel knows of it. *)
Definition ep_entry (k : interest_list) (fd p : Z) (c : Channel) : Prop :=
  fd_ c = fd /\
  ((index_ c = kAdded /\ k !! fd = Some (events_ c, p)) \/
   (index_ c = kDeleted /\ events_ c = 0 /\ k !! fd = None)).

Definition ep_inv (h : heap) (s : EPollPoller) : Prop :=
  map_sorted Z.ltb (ep_channels_ s) /\
  (forall fd p, map_find Z.ltb fd (ep_channels_ s) = Some p ->
     exists c, h !! p = Some c /\ ep_entry (ep_kernel s) fd p c) /\
  (forall fd, map_find Z.ltb fd (ep_channels_ s) = None -> ep_kernel s !! fd = None).

#[global] Instance ep_poller : Poller EPollPoller := {
  updateChannel := ep_updateChannel;
  removeChannel := ep_removeChannel;
  channels := ep_channels_;
  watched := ep_watched;
  pinv := ep_inv }.

Lemma same_but_index_refl chans h : same_but_index chans h h.
Proof. by intros q. Qed.

Lemma same_but_index_insert chans h p c i fd :
  h !! p = Some c -> map_find Z.ltb fd chans = Some p ->
  same_but_index chans h (<[p := set_index i c]> h).
Proof.
  intros Hp Hf q. destruct (decide (q = p)) as [->|Hne].
  - rewrite lookup_insert_eq, Hp. split; [done|]. intros Hno. by destruct (Hno fd).
  - by rewrite lookup_insert_ne.
Qed.

(** The invariant after the entry of one descriptor changed in place. *)
Lemma ep_inv_change h h' s k' fd p c' sz :
  ep_inv h s -> map_find Z.ltb fd (ep_channels_ s) = Some p ->
  h' !! p = Some c' -> (forall q, q <> p -> h' !! q = h !! q) -> ep_entry k' fd p c' ->
  (forall fd', fd' <> fd -> k' !! fd' = ep_kernel s !! fd') ->
  ep_inv h' (mkEPoll (ep_channels_ s) k' sz).
Proof.
  intros (Hs & Hreg & Hno) Hf Hp Hother He Hk. split_and!; cbn [ep_channels_ ep_kernel]; [done| |].
  - intros fd' q Hq. destruct (decide (fd' = fd)) as [->|Hne].
    + rewrite Hf in Hq. injection Hq as <-. by exists c'.
    + destruct (Hreg _ _ Hq) as (cq & Hcq & (E1 & E2)). destruct (decide (q = p)) as [->|Hqp].
      { destruct (Hreg _ _ Hf) as (c0 & Hc0 & (E0 & _)). simplify_eq. }
      exists cq. rewrite Hother by done. split; [done|]. split; [done|]. by rewrite Hk.
  - intros fd' Hq. rewrite Hk by (intros ->; congruence). by apply Hno.
Qed.

Lemma ep_update_known h s p c e :
  ep_inv h s -> h !! p = Some c -> map_find Z.ltb (fd_ c) (ep_channels_ s) = Some p -> event_mask e ->
  let h1 := <[p := set_added true (with_events e c)]> h in
  exists h' s', ep_updateChannel p h1 s = Ok (h', s') /\ ep_inv h' s' /\
    ep_channels_ s' = ep_channels_ s /\ same_but_index (ep_channels_ s) h1 h'.
Proof.
  intros Hi Hp Hf He h1. pose proof Hi as (Hs & Hreg & Hno).
  destruct (Hreg _ _ Hf) as (c0 & Hc0 & (_ & Hst)). simplify_eq.
  assert (h1 !! p = Some (set_added true (with_events e c))) as Hp1 by apply lookup_insert_eq.
  assert (forall q, q <> p -> h1 !! q = h !! q) as Hother by (intros; by apply lookup_insert_ne).
  unfold ep_updateChannel, deref. rewrite Hp1. bind_simpl.
  cbn [index_ fd_ set_added with_events]. unfold isNoneEvent. cbn [events_ set_added with_events].
  destruct Hst as [[Hidx Hk]|(Hidx & _ & Hk)]; rewrite Hidx; cbn [Z.eqb kAdded kDeleted kNew Pos.eqb orb negb];
    rewrite bool_decide_eq_true_2 by done; cbn [assert_]; bind_simpl.
  - unfold ep_update, deref, kNoneEvent. rewrite Hp1. bind_simpl.
    cbn [fd_ events_ set_added with_events epoll_ctl]. rewrite Hk.
    destruct (Z.eqb_spec e 0) as [->|Hne]; bind_simpl; do 2 eexists; (split; [done|]).
    + split_and!; [|done|by eapply same_but_index_insert].
      eapply (ep_inv_change h _ s); [done|done|apply lookup_insert_eq| | |].
      * intros q Hq. rewrite lookup_insert_ne by done. by apply Hother.
      * split; [done|]. right. split_and!; [done|done|]. apply lookup_delete_eq.
      * intros fd' Hne. by apply lookup_delete_ne.
    + split_and!; [|done|apply same_but_index_refl].
      eapply (ep_inv_change h _ s); [done|done|exact Hp1|done| |].
      * split; [done|]. left. split; [done|]. apply lookup_insert_eq.
      * intros fd' Hne'. by apply lookup_insert_ne.
  - unfold ep_update, deref. rewrite lookup_insert_eq. bind_simpl.
    cbn [fd_ events_ set_added with_events set_index epoll_ctl]. rewrite Hk. bind_simpl.
    do 2 eexists. split; [done|]. split_and!; [|done|by eapply same_but_index_insert].
    eapply (ep_inv_change h _ s); [done|done|apply lookup_insert_eq| | |].
    + intros q Hq. rewrite lookup_insert_ne by done. by apply Hother.
    + split; [done|]. left. split; [done|]. apply lookup_insert_eq.
    + intros fd' Hne. by apply lookup_insert_ne.
Qed.

Lemma ep_update_new h s p c e :
  ep_inv h s -> h !! p = Some c -> fresh c ->
  (forall fd, map_find Z.ltb fd (ep_channels_ s) <> Some p) ->
  map_find Z.ltb (fd_ c) (ep_channels_ s) = None ->
  let h1 := <[p := set_added true (with_events e c)]> h in
  exists h' s', ep_updateChannel p h1 s = Ok (h', s') /\ ep_inv h' s' /\
    ep_channels_ s' = map_set Z.ltb (fd_ c) p (ep_channels_ s) /\ same_but_index (ep_channels_ s') h1 h'.
Proof.
  intros (Hs & Hreg & Hno) Hp Hfresh Hunk Hf h1.
  assert (h1 !! p = Some (set_added true (with_events e c))) as Hp1 by apply lookup_insert_eq.
  unfold ep_updateChannel, deref. rewrite Hp1. bind_simpl. unfold fresh in Hfresh.
  cbn [index_ fd_ set_added with_events]. rewrite Hfresh. cbn [Z.eqb kAdded kDeleted kNew Pos.eqb orb].
  rewrite bool_decide_eq_true_2 by done. cbn [assert_]. bind_simpl.
  unfold ep_update, deref. rewrite lookup_insert_eq. bind_simpl.
  cbn [fd_ events_ set_added with_events set_index epoll_ctl ep_kernel ep_channels_].
  rewrite Hno by done. bind_simpl. do 2 eexists. split; [done|]. cbn [ep_kernel ep_channels_].
  split_and!; [|done|].
  - split_and!; cbn [ep_kernel ep_channels_]; [by apply (map_set_sorted Z.ltb)| |].
    + intros fd q. destruct (decide (fd = fd_ c)) as [->|Hne].
      * rewrite (map_find_set_eq Z.ltb). intros [= <-]. rewrite lookup_insert_eq. eexists. split; [done|].
        split; [done|]. left. split; [done|]. apply lookup_insert_eq.
      * rewrite (map_find_set_ne Z.ltb) by done. intros Hq. destruct (Hreg _ _ Hq) as (cq & Hcq & (E1 & E2)).
        assert (q <> p) by (intros ->; by apply (Hunk fd)). exists cq.
        unfold h1. rewrite !lookup_insert_ne by done. split; [done|]. split; [done|]. by rewrite lookup_insert_ne.
    + intros fd. destruct (decide (fd = fd_ c)) as [->|Hne]; [by rewrite (map_find_set_eq Z.ltb)|].
      rewrite (map_find_set_ne Z.ltb) by done. rewrite lookup_insert_ne by done. apply Hno.
  - apply (same_but_index_insert _ _ _ _ _ (fd_ c)); [done|apply (map_find_set_eq Z.ltb)].
Qed.

Lemma ep_remove_known h s p c :
  ep_inv h s -> h !! p = Some c -> map_find Z.ltb (fd_ c) (ep_channels_ s) = Some p -> events_ c = 0 ->
  let h1 := <[p := set_added false c]> h in
  exists h' s', ep_removeChannel p h1 s = Ok (h', s') /\ ep_inv h' s' /\
    ep_channels_ s' = map_erase Z.ltb (fd_ c) (ep_channels_ s) /\ same_but_index (ep_channels_ s) h1 h'.
Proof.
  intros (Hs & Hreg & Hno) Hp Hf He h1.
  destruct (Hreg _ _ Hf) as (c0 & Hc0 & (_ & Hst)). simplify_eq.
  assert (h1 !! p = Some (set_added false c)) as Hp1 by apply lookup_insert_eq.
  unfold ep_removeChannel, deref. rewrite Hp1. bind_simpl.
  cbn [index_ fd_ set_added]. rewrite bool_decide_eq_true_2 by done. cbn [assert_]. bind_simpl.
  unfold isNoneEvent. cbn [events_ set_added]. rewrite He. cbn [Z.eqb kNoneEvent assert_]. bind_simpl.
  set (fin := fun k => mkEPoll (map_erase Z.ltb (fd_ c) (ep_channels_ s)) k (ep_events_size s)).
  assert (exists k, (forall fd, fd <> fd_ c -> k !! fd = ep_kernel s !! fd) /\ k !! fd_ c = None /\
    (assert_ ((index_ c =? kAdded) || (index_ c =? kDeleted));;
     s' ← (if index_ c =? kAdded then ep_update EPOLL_CTL_DEL p h1 (fin (ep_kernel s)) else Ok (fin (ep_kernel s)));
     Ok (<[p := set_index kNew (set_added false c)]> h1, s')) =
    Ok (<[p := set_index kNew (set_added false c)]> h1, fin k)) as (k & Hk & Hk0 & E).
  { destruct Hst as [[Hidx Hk]|(Hidx & _ & Hk)]; rewrite Hidx; cbn [Z.eqb kAdded kDeleted kNew Pos.eqb orb assert_];
      bind_simpl.
    - exists (delete (fd_ c) (ep_kernel s)). split_and!.
      + intros fd Hfd. by apply lookup_delete_ne.
      + apply lookup_delete_eq.
      + unfold ep_update, deref. rewrite Hp1. bind_simpl. cbn [fd_ events_ set_added epoll_ctl ep_kernel fin].
        by rewrite Hk.
    - by exists (ep_kernel s). }
  do 2 eexists. split; [exact E|]. cbn [ep_channels_ fin]. split_and!; [|done|by eapply same_but_index_insert].
  split_and!; cbn [ep_channels_ ep_kernel fin]; [by apply (map_erase_sorted Z.ltb)| |].
  - intros fd q. destruct (decide (fd = fd_ c)) as [->|Hne]; [by rewrite (map_find_erase_eq Z.ltb)|].
    rewrite (map_find_erase_ne Z.ltb) by done. intros Hq. destruct (Hreg _ _ Hq) as (cq & Hcq & (E1 & E2)).
    assert (q <> p) by (intros ->; simplify_eq). exists cq.
    unfold h1. rewrite !lookup_insert_ne by done. split; [done|]. split; [done|]. by rewrite Hk.
  - intros fd. destruct (decide (fd = fd_ c)) as [->|Hne]; [done|].
    rewrite (map_find_erase_ne Z.ltb), Hk by done. apply Hno.
Qed.

#[global] Instance ep_laws : PollerLaws EPollPoller.
Proof.
  split; cbn [channels watched pinv updateChannel removeChannel ep_poller].
  - intros h s fd p (_ & Hreg & _) Hf. destruct (Hreg _ _ Hf) as (c & Hc & (Hfd & Hst)).
    exists c. split_and!; [done..|]. unfold ep_watched. 
    by destruct Hst as [[_ ->]|(_ & -> & ->)].
  - intros h s (Hs & _). done.
  - intros h s fd (_ & _ & Hno) Hf. unfold ep_watched. by rewrite Hno.
  - intros h s p c (Hs & Hreg & Hno) Hunk. split_and!; [done| |done].
    intros fd q Hq. destruct (Hreg _ _ Hq) as (cq & Hcq & He). exists cq.
    rewrite lookup_insert_ne; [done|]. intros ->. by apply (Hunk fd).
  - apply ep_update_known.
  - intros h s p c e Hi Hp Hfr _ Hunk Hf _ _. by apply ep_update_new.
  - apply ep_remove_known.
Qed.

(** ** PollPoller implements the interface *)

(** A channel with no events keeps its place in the array under a negative
    descriptor, which [poll] ignores. *)
Definition encode_fd (fd e : Z) : Z := if e =? 0 then - fd - 1 else fd.
Definition decode_fd (fd : Z) : Z := if fd <? 0 then - fd - 1 else fd.

Lemma decode_encode fd e : 0 <= fd -> decode_fd (encode_fd fd e) = fd.
Proof.
  intros. unfold decode_fd, encode_fd. destruct (e =? 0); [rewrite (proj2 (Z.ltb_lt _ 0)) by lia; lia|].
  by rewrite (proj2 (Z.ltb_ge _ 0)).
Qed.

Definition pp_watched (s : PollPoller) (fd : Z) : Z :=
  match list_find (fun pfd => pfd_fd pfd = fd) (pollfds_ s) with
  | Some (_, pfd) => pfd_events pfd
  | None => 0
  end.

Definition pp_entry (fds : list pollfd) (fd : Z) (c : Channel) : Prop :=
  fd_ c = fd /\ 0 <= fd /\ event_mask (events_ c) /\
  exists i r, index_ c = Z.of_nat i /\ fds !! i = Some (mkPollfd (encode_fd fd (events_ c)) (events_ c) r).

Definition pp_inv (h : heap) (s : PollPoller) : Prop :=
  map_sorted Z.ltb (pp_channels_ s) /\
  (forall fd p, map_find Z.ltb fd (pp_channels_ s) = Some p ->
     exists c, h !! p = Some c /\ pp_entry (pollfds_ s) fd c) /\
  (forall i pfd, pollfds_ s !! i = Some pfd ->
     exists p c, map_find Z.ltb (fd_ c) (pp_channels_ s) = Some p /\ h !! p = Some c /\ index_ c = Z.of_nat i).

#[global] Instance pp_poller : Poller PollPoller := {
  updateChannel := pp_updateChannel;
  removeChannel := pp_removeChannel;
  channels := pp_channels_;
  watched := pp_watched;
  pinv := pp_inv }.

(** Registered channels have places of their own. *)
Lemma pp_index_inj h s fd fd' p p' c c' :
  pp_inv h s -> map_find Z.ltb fd (pp_channels_ s) = Some p -> map_find Z.ltb fd' (pp_channels_ s) = Some p' ->
  h !! p = Some c -> h !! p' = Some c' -> index_ c = index_ c' -> fd = fd' /\ p = p'.
Proof.
  intros (_ & Hreg & _) Hf Hf' Hp Hp' Hidx.
  destruct (Hreg _ _ Hf) as (c0 & E0 & (E1 & Hfd & _ & i & r & Hi & Hl)).
  destruct (Hreg _ _ Hf') as (c0' & E0' & (E1' & Hfd' & _ & i' & r' & Hi' & Hl')).
  simplify_eq. assert (i = i') as -> by lia. rewrite Hl in Hl'. injection Hl' as E _ _.
  apply (f_equal decode_fd) in E. rewrite !decode_encode in E by done. rewrite E in *. naive_solver.
Qed.

Lemma pp_watched_entry h s fd p c :
  pp_inv h s -> map_find Z.ltb fd (pp_channels_ s) = Some p -> h !! p = Some c -> pp_watched s fd = events_ c.
Proof.
  intros Hi Hf Hp. pose proof Hi as (_ & Hreg & Hfds).
  destruct (Hreg _ _ Hf) as (c0 & E0 & (E1 & Hfd & _ & i & r & Hidx & Hl)). simplify_eq.
  unfold pp_watched. destruct (list_find _ (pollfds_ s)) as [[j pfd]|] eqn:El.
  - apply list_find_Some in El as (Hj & Hpfd & _).
    destruct (Hfds _ _ Hj) as (q & cq & Hq & Hcq & Hjq).
    destruct (Hreg _ _ Hq) as (cq' & Ecq & (_ & Hfdq & _ & i' & r' & Hi' & Hl')). simplify_eq.
    assert (i' = j) as -> by lia. rewrite Hj in Hl'. injection Hl' as ->. simpl in Hpfd |- *.
    unfold encode_fd in Hpfd. destruct (events_ cq =? 0); [lia|].
    rewrite Hpfd in Hq. rewrite Hf in Hq. by simplify_eq.
  - apply list_find_None in El. rewrite Forall_lookup in El. specialize (El _ _ Hl). simpl in El.
    unfold encode_fd in El. destruct (Z.eqb_spec (events_ c) 0); [done|]. by destruct El.
Qed.

Lemma pp_unwatched h s fd :
  pp_inv h s -> map_find Z.ltb fd (pp_channels_ s) = None -> pp_watched s fd = 0.
Proof.
  intros (_ & Hreg & Hfds) Hf. unfold pp_watched.
  destruct (list_find _ (pollfds_ s)) as [[j pfd]|] eqn:El; [|done].
  apply list_find_Some in El as (Hj & Hpfd & _).
  destruct (Hfds _ _ Hj) as (q & cq & Hq & Hcq & Hjq).
  destruct (Hreg _ _ Hq) as (cq' & Ecq & (_ & Hfdq & _ & i' & r' & Hi' & Hl')). simplify_eq.
  assert (i' = j) as -> by lia. rewrite Hj in Hl'. injection Hl' as ->. simpl in *.
  unfold encode_fd in Hf. destruct (Z.eqb_spec (events_ cq) 0); [done|congruence].
Qed.

Lemma event_mask_i16 e : event_mask e -> i16 e = e.
Proof. by intros [->|[->|[->| ->]]]. Qed.

Lemma pp_update_known h s p c e :
  pp_inv h s -> h !! p = Some c -> map_find Z.ltb (fd_ c) (pp_channels_ s) = Some p -> event_mask e ->
  let h1 := <[p := set_added true (with_events e c)]> h in
  exists h' s', pp_updateChannel p h1 s = Ok (h', s') /\ pp_inv h' s' /\
    pp_channels_ s' = pp_channels_ s /\ same_but_index (pp_channels_ s) h1 h'.
Proof.
  intros Hinv Hp Hf He h1. pose proof Hinv as (Hs & Hreg & Hfds).
  destruct (Hreg _ _ Hf) as (c0 & E0 & (_ & Hfd & _ & i & r & Hidx & Hl)). simplify_eq.
  assert (h1 !! p = Some (set_added true (with_events e c))) as Hp1 by apply lookup_insert_eq.
  unfold pp_updateChannel, deref. rewrite Hp1. bind_simpl. cbn [index_ fd_ events_ set_added with_events].
  rewrite (proj2 (Z.ltb_ge _ 0)) by lia. rewrite bool_decide_eq_true_2 by done. cbn [assert_]. bind_simpl.
  pose proof (lookup_lt_Some _ _ _ Hl) as Hlt.
  rewrite assert_true by (unfold zlen; lia). bind_simpl. rewrite Hidx, Nat2Z.id, Hl. cbn [pfd_fd].
  rewrite assert_true by (unfold encode_fd; destruct (events_ c =? 0); lia). bind_simpl.
  do 2 eexists. split; [done|]. cbn [pp_channels_]. split_and!; [|done|apply same_but_index_refl].
  rewrite event_mask_i16 by done. unfold isNoneEvent, kNoneEvent. cbn [events_ set_added with_events].
  fold (encode_fd (fd_ c) e).
  split_and!; cbn [pp_channels_ pollfds_]; [done| |].
  - intros fd q Hq. destruct (decide (q = p)) as [->|Hne].
    + destruct (Hreg _ _ Hq) as (c0 & Ec0 & (Efd & _)). simplify_eq. eexists. split; [exact Hp1|].
      split_and!; [done..|]. exists i, 0. split; [done|]. by rewrite list_lookup_insert_eq.
    + destruct (Hreg _ _ Hq) as (cq & Ecq & (Efd & ? & ? & j & r' & Hj & Hlj)). exists cq.
      unfold h1. rewrite lookup_insert_ne by done. split; [done|]. split_and!; [done..|].
      exists j, r'. split; [done|]. rewrite list_lookup_insert_ne; [done|]. intros ->.
      assert (index_ c = index_ cq) as Hii by lia.
      destruct (pp_index_inj _ _ _ _ _ _ _ _ Hinv Hf Hq Hp Ecq Hii) as [_ ?]. congruence.
  - intros j pfd Hj.
    assert (is_Some (pollfds_ s !! j)) as [pfd0 Hj0].
    { apply lookup_lt_is_Some. apply lookup_lt_Some in Hj. by rewrite length_insert in Hj. }
    destruct (Hfds _ _ Hj0) as (q & cq & Hq & Hcq & Hjq). exists q. destruct (decide (q = p)) as [->|Hne].
    + simplify_eq. eexists. by split_and!; [| exact Hp1|].
    + exists cq. unfold h1. by rewrite lookup_insert_ne.
Qed.

Lemma pp_update_new h s p c e :
  pp_inv h s -> h !! p = Some c -> fresh c -> 0 <= fd_ c ->
  (forall fd, map_find Z.ltb fd (pp_channels_ s) <> Some p) ->
  map_find Z.ltb (fd_ c) (pp_channels_ s) = None -> event_mask e -> e <> 0 ->
  let h1 := <[p := set_added true (with_events e c)]> h in
  exists h' s', pp_updateChannel p h1 s = Ok (h', s') /\ pp_inv h' s' /\
    pp_channels_ s' = map_set Z.ltb (fd_ c) p (pp_channels_ s) /\ same_but_index (pp_channels_ s') h1 h'.
Proof.
  intros (Hs & Hreg & Hfds) Hp Hfresh Hfd Hunk Hf He Hne h1.
  assert (h1 !! p = Some (set_added true (with_events e c))) as Hp1 by apply lookup_insert_eq.
  unfold fresh in Hfresh. unfold pp_updateChannel, deref. rewrite Hp1. bind_simpl.
  cbn [index_ fd_ events_ set_added with_events]. rewrite Hfresh. cbn [Z.ltb Z.compare].
  rewrite bool_decide_eq_true_2 by done. cbn [assert_]. bind_simpl.
  rewrite event_mask_i16 by done. do 2 eexists. split; [done|]. cbn [pp_channels_].
  assert (zlen (pollfds_ s ++ [mkPollfd (fd_ c) e 0]) - 1 = Z.of_nat (length (pollfds_ s))) as ->.
  { rewrite zlen_app. unfold zlen. simpl. lia. }
  split_and!; [|done|by apply (same_but_index_insert _ _ _ _ _ (fd_ c)); [|apply (map_find_set_eq Z.ltb)]].
  split_and!; cbn [pp_channels_ pollfds_]; [by apply (map_set_sorted Z.ltb)| |].
  - intros fd q. destruct (decide (fd = fd_ c)) as [->|Hfdne].
    + rewrite (map_find_set_eq Z.ltb). intros [= <-]. rewrite lookup_insert_eq. eexists. split; [done|].
      split_and!; [done..|]. exists (length (pollfds_ s)), 0. split; [done|].
      rewrite lookup_app_r, Nat.sub_diag by lia. simpl. unfold encode_fd.
      by rewrite (proj2 (Z.eqb_neq e 0)).
    + rewrite (map_find_set_ne Z.ltb) by done. intros Hq.
      destruct (Hreg _ _ Hq) as (cq & Ecq & (Efd & ? & ? & j & r' & Hj & Hlj)).
      assert (q <> p) by (intros ->; by apply (Hunk fd)). exists cq. unfold h1.
      rewrite !lookup_insert_ne by done. split; [done|]. split_and!; [done..|]. exists j, r'. split; [done|].
      by apply lookup_app_l_Some.
  - intros j pfd [Hj|[Hge Hj]]%lookup_app_Some.
    + destruct (Hfds _ _ Hj) as (q & cq & Hq & Hcq & Hjq).
      assert (q <> p) by (intros ->; by apply (Hunk (fd_ cq))). exists q, cq. unfold h1.
      rewrite !lookup_insert_ne by done. rewrite (map_find_set_ne Z.ltb); [done|done|]. congruence.
    + apply list_lookup_singleton_Some in Hj as [Hj _]. exists p. eexists.
      rewrite lookup_insert_eq. split_and!; [|done|].
      * apply (map_find_set_eq Z.ltb).
      * cbn. lia.
Qed.

(** The array after the last entry moved to place [i] (or [i] was the last). *)
Lemma lookup_swap_remove (fds : list pollfd) i last_ j x :
  last fds = Some last_ -> (i < length fds)%nat ->
  take (length fds - 1) (<[i := last_]> fds) !! j = Some x <->
  (j < length fds - 1)%nat /\ (if decide (j = i) then x = last_ else fds !! j = Some x).
Proof.
  intros Hl Hi. split.
  - intros Hj. pose proof (lookup_lt_Some _ _ _ Hj) as Hlt. rewrite length_take, length_insert in Hlt.
    split; [lia|]. rewrite lookup_take_lt in Hj by lia. case_decide as Hd.
    + subst. rewrite list_lookup_insert_eq in Hj by done. congruence.
    + by rewrite list_lookup_insert_ne in Hj.
  - intros [Hlt Hj]. rewrite lookup_take_lt by lia. case_decide as Hd.
    + subst. by rewrite list_lookup_insert_eq.
    + by rewrite list_lookup_insert_ne.
Qed.

Lemma pp_remove_last h s p c i :
  pp_inv h s -> h !! p = Some c -> map_find Z.ltb (fd_ c) (pp_channels_ s) = Some p ->
  index_ c = Z.of_nat i -> i = (length (pollfds_ s) - 1)%nat -> (i < length (pollfds_ s))%nat ->
  forall c', fd_ c' = fd_ c ->
  pp_inv (<[p := c']> h)
    (mkPoll (map_erase Z.ltb (fd_ c) (pp_channels_ s)) (take (length (pollfds_ s) - 1) (pollfds_ s))).
Proof.
  intros Hinv Hp Hf Hidx Hi Hlt c' Hc'. pose proof Hinv as (Hs & Hreg & Hfds).
  split_and!; cbn [pp_channels_ pollfds_]; [by apply (map_erase_sorted Z.ltb)| |].
  - intros fd q. destruct (decide (fd = fd_ c)) as [->|Hne]; [by rewrite (map_find_erase_eq Z.ltb)|].
    rewrite (map_find_erase_ne Z.ltb) by done. intros Hq.
    destruct (Hreg _ _ Hq) as (cq & Ecq & (Efd & ? & ? & j & r' & Hj & Hlj)).
    assert (q <> p) by (intros ->; simplify_eq). exists cq. rewrite lookup_insert_ne by done.
    split; [done|]. split_and!; [done..|]. exists j, r'. split; [done|].
    assert (j <> i) as Hji.
    { intros ->. destruct (pp_index_inj _ _ _ _ _ _ _ _ Hinv Hf Hq Hp Ecq ltac:(lia)). congruence. }
    pose proof (lookup_lt_Some _ _ _ Hlj). rewrite lookup_take_lt; [done|lia].
  - intros j pfd Hj. pose proof (lookup_lt_Some _ _ _ Hj) as Hjlt. rewrite length_take in Hjlt.
    rewrite lookup_take_lt in Hj by lia. destruct (Hfds _ _ Hj) as (q & cq & Hq & Hcq & Hjq).
    assert (q <> p) by (intros ->; simplify_eq; lia). exists q, cq. rewrite lookup_insert_ne by done.
    rewrite (map_find_erase_ne Z.ltb); [done|done|]. congruence.
Qed.

Lemma pp_remove_swap h s p c i q cq lastpfd :
  pp_inv h s -> h !! p = Some c -> map_find Z.ltb (fd_ c) (pp_channels_ s) = Some p ->
  index_ c = Z.of_nat i -> (i < length (pollfds_ s) - 1)%nat -> last (pollfds_ s) = Some lastpfd ->
  map_find Z.ltb (fd_ cq) (pp_channels_ s) = Some q -> h !! q = Some cq ->
  index_ cq = Z.of_nat (length (pollfds_ s) - 1) ->
  forall c', fd_ c' = fd_ c ->
  pp_inv (<[q := set_index (Z.of_nat i) cq]> (<[p := c']> h))
    (mkPoll (map_erase Z.ltb (fd_ c) (pp_channels_ s))
       (take (length (pollfds_ s) - 1) (<[i := lastpfd]> (pollfds_ s)))).
Proof.
  intros Hinv Hp Hf Hidx Hi Hlast Hq Hcq Hqidx c' Hc'. pose proof Hinv as (Hs & Hreg & Hfds).
  assert (q <> p) as Hqp by (intros ->; simplify_eq; lia).
  assert (fd_ cq <> fd_ c) as Hfdne by congruence.
  split_and!; cbn [pp_channels_ pollfds_]; [by apply (map_erase_sorted Z.ltb)| |].
  - intros fd p1. destruct (decide (fd = fd_ c)) as [->|Hne]; [by rewrite (map_find_erase_eq Z.ltb)|].
    rewrite (map_find_erase_ne Z.ltb) by done. intros Hp1.
    destruct (Hreg _ _ Hp1) as (c1 & Ec1 & (Efd & ? & ? & j & r' & Hj & Hlj)).
    assert (p1 <> p) by (intros ->; simplify_eq). destruct (decide (p1 = q)) as [->|Hp1q].
    + simplify_eq. rewrite lookup_insert_eq. eexists. split; [done|]. split_and!; [done..|].
      exists i, r'. split; [done|]. apply lookup_swap_remove; [done|lia|]. split; [done|].
      rewrite decide_True by done. assert (j = length (pollfds_ s) - 1)%nat as -> by lia.
      rewrite last_lookup, <-Nat.sub_1_r in Hlast. by rewrite Hlj in Hlast; injection Hlast as <-.
    + rewrite !lookup_insert_ne by done. exists c1. split; [done|]. split_and!; [done..|].
      exists j, r'. split; [done|]. pose proof (lookup_lt_Some _ _ _ Hlj).
      apply lookup_swap_remove; [done|lia|].
      assert (j <> i) as Hji.
      { intros ->. destruct (pp_index_inj _ _ _ _ _ _ _ _ Hinv Hf Hp1 Hp Ec1 ltac:(lia)). congruence. }
      assert (j <> length (pollfds_ s) - 1)%nat as Hjl.
      { intros ->. destruct (pp_index_inj _ _ _ _ _ _ _ _ Hinv Hq Hp1 Hcq Ec1 ltac:(lia)). congruence. }
      split; [lia|]. by rewrite decide_False.
  - intros j pfd. rewrite lookup_swap_remove by (done || lia). intros [Hjlt Hj]. case_decide as Hji.
    + subst j. exists q. eexists. rewrite lookup_insert_eq. split_and!; [|done|done].
      cbn [fd_ set_index]. by rewrite (map_find_erase_ne Z.ltb).
    + destruct (Hfds _ _ Hj) as (p1 & c1 & Hp1 & Ec1 & Hjc1).
      assert (p1 <> p) by (intros ->; simplify_eq; lia).
      assert (p1 <> q) by (intros ->; simplify_eq; lia).
      exists p1, c1. rewrite !lookup_insert_ne by done.
      rewrite (map_find_erase_ne Z.ltb); [done|done|]. congruence.
Qed.

Lemma pp_remove_known h s p c :
  pp_inv h s -> h !! p = Some c -> map_find Z.ltb (fd_ c) (pp_channels_ s) = Some p -> events_ c = 0 ->
  let h1 := <[p := set_added false c]> h in
  exists h' s', pp_removeChannel p h1 s = Ok (h', s') /\ pp_inv h' s' /\
    pp_channels_ s' = map_erase Z.ltb (fd_ c) (pp_channels_ s) /\ same_but_index (pp_channels_ s) h1 h'.
Proof.
  intros Hinv Hp Hf He h1. pose proof Hinv as (Hs & Hreg & Hfds).
  destruct (Hreg _ _ Hf) as (c0 & E0 & (_ & Hfd & _ & i & r & Hidx & Hl)). simplify_eq.
  assert (h1 !! p = Some (set_added false c)) as Hp1 by apply lookup_insert_eq.
  pose proof (lookup_lt_Some _ _ _ Hl) as Hlt.
  unfold pp_removeChannel, deref. rewrite Hp1. bind_simpl. cbn [index_ fd_ events_ set_added].
  rewrite bool_decide_eq_true_2 by done. cbn [assert_]. bind_simpl.
  unfold isNoneEvent. cbn [events_ set_added]. rewrite He in *. cbn [Z.eqb kNoneEvent assert_]. bind_simpl.
  rewrite assert_true by (unfold zlen; lia). bind_simpl. rewrite Hidx, Nat2Z.id, Hl.
  destruct (last (pollfds_ s)) as [lastpfd|] eqn:Hlast.
  2: { apply last_None in Hlast. by rewrite Hlast in Hl. }
  cbn [pfd_fd pfd_events]. unfold encode_fd. cbn [Z.eqb].
  rewrite assert_true by lia. bind_simpl. unfold zlen.
  destruct (Z.eqb_spec (Z.of_nat i) (Z.of_nat (length (pollfds_ s)) - 1)) as [Hend|Hend].
  - do 2 eexists. split; [done|]. cbn [pp_channels_]. split_and!; [|done|apply same_but_index_refl].
    unfold h1. apply (pp_remove_last h s p c i); try done. lia.
  - rewrite last_lookup, <-Nat.sub_1_r in Hlast. destruct (Hfds _ _ Hlast) as (q & cq & Hq & Hcq & Hqidx).
    destruct (Hreg _ _ Hq) as (cq' & Ecq & (_ & Hfdq & _ & j & r' & Hj & Hlj)). simplify_eq.
    assert (j = length (pollfds_ s) - 1)%nat as -> by lia. rewrite Hlj in Hlast. injection Hlast as <-.
    cbn [pfd_fd]. fold (decode_fd (encode_fd (fd_ cq) (events_ cq))). rewrite decode_encode by done.
    assert (q <> p) by (intros ->; simplify_eq; lia).
    rewrite (map_find_erase_ne Z.ltb), Hq by (done || congruence).
    unfold h1. rewrite lookup_insert_ne, Hcq by done. bind_simpl.
    do 2 eexists. split; [done|]. cbn [pp_channels_]. split_and!; [|done|].
    + eapply (pp_remove_swap h s p c i q cq); try done; [lia|].
      by rewrite last_lookup, <-Nat.sub_1_r.
    + apply (same_but_index_insert _ _ _ _ _ (fd_ cq)); [|done]. by rewrite lookup_insert_ne.
Qed.

#[global] Instance pp_laws : PollerLaws PollPoller.
Proof.
  split; cbn [channels watched pinv updateChannel removeChannel pp_poller].
  - intros h s fd p Hi Hf. pose proof Hi as (_ & Hreg & _).
    destruct (Hreg _ _ Hf) as (c & Hc & (Hfd & _)). exists c. split_and!; [done..|].
    by apply (pp_watched_entry h s fd p).
  - intros h s (Hs & _). done.
  - intros h s fd. apply pp_unwatched.
  - intros h s p c (Hs & Hreg & Hfds) Hunk. split_and!; [done| |].
    + intros fd q Hq. destruct (Hreg _ _ Hq) as (cq & Hcq & He). exists cq.
      rewrite lookup_insert_ne; [done|]. intros ->. by apply (Hunk fd).
    + intros j pfd Hj. destruct (Hfds _ _ Hj) as (q & cq & Hq & Hcq & Hjq). exists q, cq.
      rewrite lookup_insert_ne; [done|]. intros ->. by apply (Hunk (fd_ cq)).
  - apply pp_update_known.
  - apply pp_update_new.
  - apply pp_remove_known.
Qed.

(** ** Both pollers do the same *)

(** New channels with these descriptors, at these addresses. *)
Definition new_heap (fds : gmap Z Z) : heap := new_channel <$> fds.
Definition new_abstract (fds : gmap Z Z) : abstract := (fun fd => (fd, 0, Fresh)) <$> fds.

Lemma new_rel {S} `{!Poller S, !PollerLaws S} (s0 : S) fds :
  pinv (new_heap fds) s0 -> channels s0 = [] -> map_Forall (fun _ fd => 0 <= fd) fds ->
  rel (new_abstract fds) (new_heap fds) s0.
Proof.
  intros Hi Hc Hfd. split; [done|]. intros p. unfold new_abstract, new_heap. rewrite !lookup_fmap.
  destruct (fds !! p) as [fd|] eqn:E; simpl; [|by rewrite Hc].
  exists (new_channel fd). split; [done|]. unfold channel_rel. simpl. rewrite Hc.
  split_and!; [done|done|by left|by apply (Hfd p)|done|done].
Qed.

(** The kernel watches exactly what the registered channels ask for. *)
Definition watches {S} `{!Poller S} (s : S) (a : abstract) : Prop :=
  (forall p fd e, a !! p = Some (fd, e, Registered) -> watched s fd = e) /\
  (forall fd, (forall p e, a !! p <> Some (fd, e, Registered)) -> watched s fd = 0).

Lemma rel_watches {S} `{!Poller S, !PollerLaws S} (s : S) a h : rel a h s -> watches s a.
Proof.
  intros [Hi Hr]. split.
  - intros p fd e Ha. specialize (Hr p). rewrite Ha in Hr.
    destruct Hr as (c & Hc & (R1 & R2 & _ & _ & R5 & _)). simpl in *. subst.
    destruct (pinv_channels _ _ _ _ Hi (proj1 R5 eq_refl)) as (c' & Hc' & _ & Hw). by simplify_eq.
  - intros fd Hno. apply (pinv_unwatched h); [done|].
    destruct (map_find Z.ltb fd (channels s)) as [p|] eqn:Hf; [|done]. exfalso.
    destruct (pinv_channels _ _ _ _ Hi Hf) as (c & Hc & Hfd & _).
    specialize (Hr p). destruct (a !! p) as [[[fd' e] st]|] eqn:Ha; [|by eapply Hr].
    destruct Hr as (c' & Hc' & (R1 & R2 & _ & _ & R5 & _)). simplify_eq. simpl in *.
    assert (st = Registered) as -> by by apply R5. by apply (Hno p e); subst.
Qed.

Lemma new_epoll_inv h : pinv h new_epoll.
Proof. split; [constructor|]. split; [done|]. intros fd _. apply lookup_empty. Qed.

Lemma new_poll_inv h : pinv h new_poll.
Proof. split; [constructor|]. by split. Qed.


(** Runs operations on a heap of one channel. *)
Ltac run_one :=
  repeat (first [ rewrite lookup_singleton_eq | rewrite lookup_empty | rewrite lookup_insert_eq
                | rewrite insert_singleton_eq | rewrite Z.ltb_irrefl
                | rewrite bool_decide_eq_true_2 by done ]; cbn).

(** The pollers differ on a channel that starts with [disableAll()]:
    removing it afterwards works with [EPollPoller] but fails an assertion of
    [PollPoller], which expects the negative descriptor that only a later
    update would have stored. *)
Theorem disableAll_first_asserts p fd :
  0 <= fd ->
  let ops := [Change disableAll p; Remove p] in
  let h := new_heap {[ p := fd ]} in
  (exists h' s', channel_run ops h new_epoll = Ok (h', s')) /\
  channel_run ops h new_poll = Err AssertFail.
Proof.
  intros Hfd ops h. subst ops h. unfold new_heap. rewrite map_fmap_singleton.
  cbn [channel_run channel_step]. unfold deref.
  cbn [updateChannel removeChannel ep_poller pp_poller].
  unfold ep_updateChannel, ep_removeChannel, pp_updateChannel, pp_removeChannel, ep_update, deref. split.
  - run_one. by do 2 eexists.
  - run_one. change (zlen [_]) with 1. change (1 - 1) with 0. cbn. change (Z.to_nat 0) with 0%nat. cbn.
    by rewrite (proj2 (Z.eqb_neq fd (- fd - 1))) by lia.
Qed.

Lemma disableAll_first_asserts_witness :
  (exists h' s', channel_run [Change disableAll 1; Remove 1] (new_heap {[ 1 := 5 ]}) new_epoll = Ok (h', s')) /\
  channel_run [Change disableAll 1; Remove 1] (new_heap {[ 1 := 5 ]}) new_poll = Err AssertFail.
Proof. apply (disableAll_first_asserts 1 5). lia. Defined.

(** ** Reporting events *)

(** What [epoll_wait] may return: entries of the interest list, each
    descriptor once, as many as there is room for. *)
Definition epoll_wait_ok (s : EPollPoller) (evs : list (Z * Z)) : Prop :=
  NoDup evs.*2 /\ zlen evs <= ep_events_size s /\
  Forall (fun ev => exists fd e, ep_kernel s !! fd = Some (e, ev.2)) evs.

Lemma ep_inv_revents h s p c r : ep_inv h s -> h !! p = Some c -> ep_inv (<[p := set_revents r c]> h) s.
Proof.
  intros (Hs & Hreg & Hno) Hp. split_and!; [done| |done]. intros fd q Hq.
  destruct (Hreg _ _ Hq) as (cq & Hcq & He). destruct (decide (q = p)) as [->|Hne].
  - rewrite lookup_insert_eq. simplify_eq. eexists. by split.
  - rewrite lookup_insert_ne by done. by exists cq.
Qed.

Lemma ep_kernel_channel h s fd e p :
  ep_inv h s -> ep_kernel s !! fd = Some (e, p) ->
  map_find Z.ltb fd (ep_channels_ s) = Some p /\ exists c, h !! p = Some c /\ fd_ c = fd.
Proof.
  intros (_ & Hreg & Hno) Hk.
  destruct (map_find Z.ltb fd (ep_channels_ s)) as [q|] eqn:Hf; [|by rewrite Hno in Hk].
  destruct (Hreg _ _ Hf) as (c & Hc & (Hfd & [[_ Hk']|(_ & _ & Hk')])); rewrite Hk in Hk'; [|done].
  injection Hk' as _ <-. split; [done|]. by exists c.
Qed.

Lemma ep_fill_ok evs : forall h s,
  ep_inv h s -> NoDup evs.*2 -> Forall (fun ev => exists fd e, ep_kernel s !! fd = Some (e, ev.2)) evs ->
  exists h', ep_fill evs h s = Ok (h', evs.*2) /\ ep_inv h' s /\
    (forall p, h' !! p = match list_find (fun ev => ev.2 = p) evs with
                         | Some (_, ev) => set_revents ev.1 <$> h !! p
                         | None => h !! p
                         end).
Proof.
  induction evs as [|[r p] evs IH]; intros h s Hi Hnd Hall; cbn [ep_fill].
  { by exists h. }
  apply Forall_cons in Hall as [(fd & e & Hk) Hall]. apply NoDup_cons in Hnd as [Hnin Hnd]. simpl in Hk.
  destruct (ep_kernel_channel h s fd e p Hi Hk) as (Hf & c & Hc & Hfd).
  unfold deref. rewrite Hc. bind_simpl. rewrite Hfd, bool_decide_eq_true_2 by done. cbn [assert_]. bind_simpl.
  destruct (IH (<[p := set_revents r c]> h) s) as (h' & -> & Hi' & Hh'); [by apply ep_inv_revents|done..|].
  bind_simpl. exists h'. split_and!; [done..|]. intros q. rewrite Hh'. cbn [list_find].
  destruct (decide ((r, p).2 = q)) as [Eq|Hne]; simpl in *.
  - subst q. assert (list_find (fun ev : Z * Z => ev.2 = p) evs = None) as ->.
    { apply list_find_None. apply Forall_forall. intros ev Hev E. apply Hnin. apply list_elem_of_fmap. eauto. }
    by rewrite lookup_insert_eq, Hc.
  - rewrite lookup_insert_ne by done. by destruct (list_find _ evs) as [[??]|].
Qed.

(** [EPollPoller::poll] hands over exactly the channels the kernel
    reported, each with the events reported for it, without failing an
    assertion; other channels and the invariant are untouched, and the result
    array grows when it was filled completely. *)
Theorem epoll_poll_reports h s evs :
  ep_inv h s -> epoll_wait_ok s evs ->
  exists h' s', ep_poll (Some evs) h s = Ok (h', s', evs.*2) /\ ep_inv h' s' /\
    (forall r p, (r, p) ∈ evs -> revents_ <$> h' !! p = Some r) /\
    (forall p, p ∉ evs.*2 -> h' !! p = h !! p) /\
    (zlen evs = ep_events_size s -> 0 < zlen evs -> ep_events_size s' = 2 * zlen evs).
Proof.
  intros Hi (Hnd & Hlen & Hall). unfold ep_poll. rewrite assert_true by lia. bind_simpl.
  destruct (ep_fill_ok evs h s Hi Hnd Hall) as (h' & -> & Hi' & Hh'). bind_simpl.
  do 2 eexists. split; [done|]. split_and!.
  - destruct (_ && _); [|done]. destruct Hi' as (? & ? & ?). by split_and!.
  - intros r p Hin. rewrite Hh'. rewrite Forall_forall in Hall.
    destruct (Hall _ Hin) as (fd & e & Hk). simpl in Hk.
    destruct (ep_kernel_channel h s fd e p Hi Hk) as (_ & c & Hc & _).
    destruct (list_find _ evs) as [[i ev]|] eqn:El.
    + apply list_find_Some in El as (Hev & Hp & _). apply list_elem_of_lookup_2 in Hev.
      assert (ev = (r, p)) as ->; [|by rewrite Hc].
      destruct ev as [r' p']. simpl in Hp. subst p'. clear -Hnd Hin Hev.
      induction evs as [|[r0 p0] evs IH]; [by apply elem_of_nil in Hin|].
      apply NoDup_cons in Hnd as [Hn Hnd].
      assert (forall r1, (r1, p0) ∉ evs) as Hn' by (intros r1 H1; apply Hn, list_elem_of_fmap; by exists (r1, p0)).
      apply elem_of_cons in Hin as [Hin|Hin], Hev as [Hev|Hev]; simplify_eq; try done; [| |by apply IH];
        by edestruct Hn'.
    + apply list_find_None in El. rewrite Forall_forall in El. by destruct (El _ Hin).
  - intros p Hp. rewrite Hh'. destruct (list_find _ evs) as [[i ev]|] eqn:El; [|done].
    apply list_find_Some in El as (Hev & <- & _). apply list_elem_of_lookup_2 in Hev.
    destruct Hp. apply list_elem_of_fmap. by exists ev.
  - intros -> Hpos. rewrite (proj2 (Z.ltb_lt 0 _)), Z.eqb_refl by lia. cbn. lia.
Qed.

(** ** Witnesses *)
Definition sample_ops : list channel_op :=
  [Change enableReading 1; Change enableWriting 2; Change enableWriting 1; Change disableAll 2; Remove 2;
   Change disableReading 1].
Definition sample_fds : gmap Z Z := {[ 1 := 5; 2 := 6 ]}.
Definition sample_end : abstract :=
  match foldl (fun m o => m ≫= abs_step o) (Some (new_abstract sample_fds)) sample_ops with
  | Some a => a
  | None => ∅
  end.


Definition sample_epoll : heap * EPollPoller :=
  match channel_run [Change enableReading 1] (new_heap {[ 1 := 5 ]}) new_epoll with
  | Ok r => r
  | Err _ => (∅, new_epoll)
  end.

Lemma sample_epoll_inv : ep_inv sample_epoll.1 sample_epoll.2.
Proof.
  assert (exists h s, channel_run [Change enableReading 1] (new_heap {[ 1 := 5 ]}) new_epoll = Ok (h, s) /\
    rel (<[1 := (5, 3, Registered)]> (new_abstract {[ 1 := 5 ]})) h s) as (h & s & E & [Hi _]).
  { apply (channel_run_refines [Change enableReading 1] (new_abstract {[ 1 := 5 ]}));
      [|vm_compute; reflexivity].
    apply new_rel; [apply new_epoll_inv|done|]. by apply map_Forall_singleton. }
  unfold sample_epoll. by rewrite E.
Qed.

Lemma epoll_poll_reports_witness :
  exists h' s', ep_poll (Some [(1, 1)]) sample_epoll.1 sample_epoll.2 = Ok (h', s', [1]) /\ ep_inv h' s' /\
    (forall r p, (r, p) ∈ [(1, 1)] -> revents_ <$> h' !! p = Some r) /\
    (forall p, p ∉ [1] -> h' !! p = sample_epoll.1 !! p) /\
    (1 = ep_events_size sample_epoll.2 -> 0 < 1 -> ep_events_size s' = 2).
Proof.
  apply (epoll_poll_reports sample_epoll.1 sample_epoll.2 [(1, 1)]); [apply sample_epoll_inv|].
  split_and!.
  - repeat constructor; set_solver.
  - vm_compute. discriminate.
  - constructor; [|constructor]. exists 5, 3. vm_compute. reflexivity.
Defined.

End Poller.
