(* ===== verification/DefaultPoller.v ===== *)
(** * Choosing a poller ([src/net/poller/DefaultPoller.cpp])

    [Poller] is an abstract class: a loop has a pointer to one of the two pollers
    and its calls are dispatched.  The object behind the pointer satisfies the
    interface of [Poller] because both implementations do. *)

From S2P Require Import Prelude CxxStd Channel Poller.

Module DefaultPoller.
Import Channel Poller.

(** A [Poller*]. *)
Inductive AnyPoller := IsPoll (s : PollPoller) | IsEPoll (s : EPollPoller).

Definition newDefaultPoller (MUDUO_USE_POLL : option (list byte)) : AnyPoller :=
  match MUDUO_USE_POLL with
  | Some _ => IsPoll new_poll
  | None => IsEPoll new_epoll
  end.

(** Virtual calls. *)
Definition virtual (f : PollPoller -> outcome (heap * PollPoller)) (g : EPollPoller -> outcome (heap * EPollPoller))
    (s : AnyPoller) : outcome (heap * AnyPoller) :=
  match s with
  | IsPoll s => '(h, s) ← f s; Ok (h, IsPoll s)
  | IsEPoll s => '(h, s) ← g s; Ok (h, IsEPoll s)
  end.

#[global] Instance any_poller : Poller AnyPoller := {
  updateChannel p h := virtual (updateChannel p h) (updateChannel p h);
  removeChannel p h := virtual (removeChannel p h) (removeChannel p h);
  channels s := match s with IsPoll s => channels s | IsEPoll s => channels s end;
  watched s := match s with IsPoll s => watched s | IsEPoll s => watched s end;
  pinv h s := match s with IsPoll s => pinv h s | IsEPoll s => pinv h s end }.

Lemma poll_call f g s h' s' : f s = Ok (h', s') -> virtual f g (IsPoll s) = Ok (h', IsPoll s').
Proof. intros E. cbn. by rewrite E. Qed.
Lemma epoll_call f g s h' s' : g s = Ok (h', s') -> virtual f g (IsEPoll s) = Ok (h', IsEPoll s').
Proof. intros E. cbn. by rewrite E. Qed.

(** Wraps the answer of an implementation's law. *)
Ltac of_poll law := destruct law as (h' & s' & E & Hr); exists h', (IsPoll s'); exact (conj (poll_call _ _ _ _ _ E) Hr).
Ltac of_epoll law := destruct law as (h' & s' & E & Hr); exists h', (IsEPoll s'); exact (conj (epoll_call _ _ _ _ _ E) Hr).

#[global] Instance any_laws : PollerLaws AnyPoller.
Proof.
  split.
  - intros h [s|s] fd p; [exact (pinv_channels (S := PollPoller) h s fd p)|exact (pinv_channels (S := EPollPoller) h s fd p)].
  - intros h [s|s]; [exact (pinv_sorted (S := PollPoller) h s)|exact (pinv_sorted (S := EPollPoller) h s)].
  - intros h [s|s] fd; [exact (pinv_unwatched (S := PollPoller) h s fd)|exact (pinv_unwatched (S := EPollPoller) h s fd)].
  - intros h [s|s] p c; [exact (pinv_frame (S := PollPoller) h s p c)|exact (pinv_frame (S := EPollPoller) h s p c)].
  - intros h [s|s] p c e H1 H2 H3 H4;
      [of_poll (updateChannel_known h s p c e H1 H2 H3 H4)|of_epoll (updateChannel_known h s p c e H1 H2 H3 H4)].
  - intros h [s|s] p c e H1 H2 H3 H4 H5 H6 H7 H8;
      [of_poll (updateChannel_new h s p c e H1 H2 H3 H4 H5 H6 H7 H8)|of_epoll (updateChannel_new h s p c e H1 H2 H3 H4 H5 H6 H7 H8)].
  - intros h [s|s] p c H1 H2 H3 H4;
      [of_poll (removeChannel_known h s p c H1 H2 H3 H4)|of_epoll (removeChannel_known h s p c H1 H2 H3 H4)].
Qed.

Lemma default_inv env h : pinv h (newDefaultPoller env).
Proof. destruct env; [apply new_poll_inv|apply new_epoll_inv]. Qed.

(** Whatever the environment says, the loop's poller watches exactly what the
    channels ask for. *)
Theorem default_poller_tracks env ops fds a :
  map_Forall (fun _ fd => 0 <= fd) fds ->
  foldl (fun m o => m ≫= abs_step o) (Some (new_abstract fds)) ops = Some a ->
  exists h s, channel_run ops (new_heap fds) (newDefaultPoller env) = Ok (h, s) /\ watches s a.
Proof.
  intros Hfds Ha. destruct (channel_run_refines ops (new_abstract fds) a (new_heap fds) (newDefaultPoller env)) as (h & s & E & R); [|done|].
  - apply new_rel; [apply default_inv|by destruct env|done].
  - exists h, s. split; [done|]. by eapply rel_watches.
Qed.
End DefaultPoller.
