(* ===== verification/TimerQueue.v ===== *)
(** * Timers and the timer queue
    ([src/net/Timer.h], [Timer.cpp], [TimerId.h], [TimerQueue.h],
    [TimerQueue.cpp])

    Timers are heap objects; the queue keeps them in two ordered sets, by
    expiration and by address.  The handlers run in the loop thread, so
    [runInLoop] runs them at once.  Callbacks are user code: what one does to
    the queue is given by a function of the state it finds. *)

From S2P Require Import Prelude CxxStd Timestamp.

Module TimerQueue.

Record Timer := mkTimer {
  callback_ : Z;
  expiration_ : Z;
  interval_ : Timestamp.double;
  repeat_ : bool;
  sequence_ : Z }.

(** [Entry] is (expiration, address), [ActiveTimer] is (address, sequence). *)
Definition ltb2 : Z * Z -> Z * Z -> bool := pair_ltb Z.ltb Z.ltb.

Record TimerQueue := mkTQ {
  timers_ : list (Z * Z);
  activeTimers_ : list (Z * Z);
  callingExpiredTimers_ : bool;
  cancelingTimers_ : list (Z * Z);
  (** the timer objects by address, and [s_numCreated_] *)
  objects : gmap Z Timer;
  numCreated : Z;
  (** when the timerfd fires next, and the last reading of the clock *)
  timerfd_ : option Z;
  clock : Z }.

Definition new_queue (now : Z) : TimerQueue := mkTQ [] [] false [] ∅ 0 None now.

(** [UINTPTR_MAX] *)
Definition max_address : Z := 2 ^ 64 - 1.

Definition with_sets (t a : list (Z * Z)) (s : TimerQueue) : TimerQueue :=
  mkTQ t a (callingExpiredTimers_ s) (cancelingTimers_ s) (objects s) (numCreated s) (timerfd_ s) (clock s).
Definition with_objects (o : gmap Z Timer) (s : TimerQueue) : TimerQueue :=
  mkTQ (timers_ s) (activeTimers_ s) (callingExpiredTimers_ s) (cancelingTimers_ s) o (numCreated s)
    (timerfd_ s) (clock s).
Definition with_canceling (calling : bool) (c : list (Z * Z)) (s : TimerQueue) : TimerQueue :=
  mkTQ (timers_ s) (activeTimers_ s) calling c (objects s) (numCreated s) (timerfd_ s) (clock s).

(** [new Timer(cb, when, interval)] at a free address. *)
Definition new_timer (p cb when : Z) (interval : Timestamp.double) (s : TimerQueue) : TimerQueue :=
  let n := numCreated s + 1 in
  mkTQ (timers_ s) (activeTimers_ s) (callingExpiredTimers_ s) (cancelingTimers_ s)
    (<[p := mkTimer cb when interval (Timestamp.dpositive interval) n]> (objects s)) n
    (timerfd_ s) (clock s).

(** [Timer::restart(now)] *)
Definition restart (now : Z) (t : Timer) : outcome Timer :=
  e ← (if repeat_ t then Timestamp.addTime now (interval_ t) else Ok Timestamp.invalid);
  Ok (mkTimer (callback_ t) e (interval_ t) (repeat_ t) (sequence_ t)).

(** [howMuchTimeFromNow(when)] when the clock shows [now]. *)
Definition howMuchTimeFromNow (when now : Z) : Z * Z :=
  let microseconds := i64 (when - now) in
  let microseconds := if microseconds <? 100 then 100 else microseconds in
  (Z.quot microseconds Timestamp.kMicroSecondsPerSecond,
   Z.rem microseconds Timestamp.kMicroSecondsPerSecond * 1000).

(** [resetTimerfd]: arms the timerfd relative to the clock. *)
Definition resetTimerfd (expiration : Z) (s : TimerQueue) : TimerQueue :=
  let '(sec, nsec) := howMuchTimeFromNow expiration (clock s) in
  mkTQ (timers_ s) (activeTimers_ s) (callingExpiredTimers_ s) (cancelingTimers_ s) (objects s)
    (numCreated s) (Some (clock s + sec * 1000000 + nsec / 1000)) (clock s).

Definition deref (p : Z) (s : TimerQueue) : outcome Timer :=
  match objects s !! p with Some t => Ok t | None => Err OutOfBounds end.

Definition sizes_agree (s : TimerQueue) : outcome unit :=
  assert_ (length (timers_ s) =? length (activeTimers_ s))%nat.

Definition insert (p : Z) (s : TimerQueue) : outcome (TimerQueue * bool) :=
  sizes_agree s;;
  timer ← deref p s;
  let when := expiration_ timer in
  let earliestChanged := match timers_ s with [] => true | (e, _) :: _ => when <? e end in
  assert_ (negb (set_mem ltb2 (when, p) (timers_ s)));;
  let t := set_insert ltb2 (when, p) (timers_ s) in
  assert_ (negb (set_mem ltb2 (p, sequence_ timer) (activeTimers_ s)));;
  let a := set_insert ltb2 (p, sequence_ timer) (activeTimers_ s) in
  let s := with_sets t a s in
  sizes_agree s;;
  Ok (s, earliestChanged).

Definition addTimerInLoop (p : Z) (s : TimerQueue) : outcome TimerQueue :=
  '(s, earliestChanged) ← insert p s;
  if (earliestChanged : bool) then timer ← deref p s; Ok (resetTimerfd (expiration_ timer) s)
  else Ok s.

(** [addTimer] from the loop thread; also returns the [TimerId]. *)
Definition addTimer (p cb when : Z) (interval : Timestamp.double) (s : TimerQueue) :
    outcome (TimerQueue * (Z * Z)) :=
  let s := new_timer p cb when interval s in
  s ← addTimerInLoop p s;
  Ok (s, (p, numCreated s)).

Definition cancelInLoop (timerId : Z * Z) (s : TimerQueue) : outcome TimerQueue :=
  sizes_agree s;;
  s ← (if set_mem ltb2 timerId (activeTimers_ s) then
         timer ← deref (timerId.1) s;
         assert_ (set_mem ltb2 (expiration_ timer, timerId.1) (timers_ s));;
         Ok (with_objects (delete (timerId.1) (objects s))
              (with_sets (set_erase ltb2 (expiration_ timer, timerId.1) (timers_ s))
                 (set_erase ltb2 timerId (activeTimers_ s)) s))
       else if callingExpiredTimers_ s then
         Ok (with_canceling true (set_insert ltb2 timerId (cancelingTimers_ s)) s)
       else Ok s);
  sizes_agree s;;
  Ok s.

(** The loop of [getExpired] over [activeTimers_]. *)
Fixpoint erase_active (expired : list (Z * Z)) (s : TimerQueue) : outcome TimerQueue :=
  match expired with
  | [] => Ok s
  | (_, p) :: expired' =>
      timer ← deref p s;
      assert_ (set_mem ltb2 (p, sequence_ timer) (activeTimers_ s));;
      erase_active expired' (with_sets (timers_ s) (set_erase ltb2 (p, sequence_ timer) (activeTimers_ s)) s)
  end.

Definition getExpired (now : Z) (s : TimerQueue) : outcome (TimerQueue * list (Z * Z)) :=
  sizes_agree s;;
  let '(expired, rest) := set_lower_bound ltb2 (now, max_address) (timers_ s) in
  assert_ (match rest with [] => true | (e, _) :: _ => now <? e end);;
  s ← erase_active expired (with_sets rest (activeTimers_ s) s);
  sizes_agree s;;
  Ok (s, expired).

(** The loop of [reset]. *)
Fixpoint reset_loop (expired : list (Z * Z)) (now : Z) (s : TimerQueue) : outcome TimerQueue :=
  match expired with
  | [] => Ok s
  | (_, p) :: expired' =>
      timer ← deref p s;
      s ← (if repeat_ timer && negb (set_mem ltb2 (p, sequence_ timer) (cancelingTimers_ s)) then
             timer' ← restart now timer;
             '(s, _) ← insert p (with_objects (<[p := timer']> (objects s)) s);
             Ok s
           else Ok (with_objects (delete p (objects s)) s));
      reset_loop expired' now s
  end.

Definition reset (expired : list (Z * Z)) (now : Z) (s : TimerQueue) : outcome TimerQueue :=
  s ← reset_loop expired now s;
  nextExpire ← (match timers_ s with
                | [] => Ok Timestamp.invalid
                | (_, p) :: _ => timer ← deref p s; Ok (expiration_ timer)
                end);
  Ok (if Timestamp.valid nextExpire then resetTimerfd nextExpire s else s).

(** ** Callbacks *)

(** What user code asks of the queue; [Add] names the address [new] returns.
    [Elapse] is the time it takes. *)
Inductive user_op :=
  | Add (p cb when : Z) (interval : Timestamp.double)
  | Cancel (timerId : Z * Z)
  | Elapse (microseconds : Z).

Definition elapse (us : Z) (s : TimerQueue) : TimerQueue :=
  mkTQ (timers_ s) (activeTimers_ s) (callingExpiredTimers_ s) (cancelingTimers_ s) (objects s)
    (numCreated s) (timerfd_ s) (clock s + us).

Definition user_step (o : user_op) (s : TimerQueue) : outcome TimerQueue :=
  match o with
  | Add p cb when interval => '(s, _) ← addTimer p cb when interval s; Ok s
  | Cancel timerId => cancelInLoop timerId s
  | Elapse us => Ok (elapse us s)
  end.

Fixpoint user_run (ops : list user_op) (s : TimerQueue) : outcome TimerQueue :=
  match ops with
  | [] => Ok s
  | o :: ops' => s ← user_step o s; user_run ops' s
  end.

Section callbacks.
(** What the callback with a given number does in a given state. *)
Context (user : Z -> TimerQueue -> list user_op).

(** The loop over the expired timers: the callbacks made, in order. *)
Fixpoint run_expired (expired : list (Z * Z)) (s : TimerQueue) : outcome (TimerQueue * list Z) :=
  match expired with
  | [] => Ok (s, [])
  | (_, p) :: expired' =>
      timer ← deref p s;
      s ← user_run (user (callback_ timer) s) s;
      '(s, cbs) ← run_expired expired' s;
      Ok (s, callback_ timer :: cbs)
  end.

(** [handleRead] when the clock shows [now]; the timerfd has fired. *)
Definition handleRead (now : Z) (s : TimerQueue) : outcome (TimerQueue * list Z) :=
  let s := mkTQ (timers_ s) (activeTimers_ s) (callingExpiredTimers_ s) (cancelingTimers_ s) (objects s)
             (numCreated s) None now in
  '(s, expired) ← getExpired now s;
  let s := with_canceling true [] s in
  '(s, cbs) ← run_expired expired s;
  let s := with_canceling false (cancelingTimers_ s) s in
  s ← reset expired now s;
  Ok (s, cbs).
End callbacks.

(** ** Invariant *)

(** An interval whose microseconds [addTime] can add. *)
Definition interval_ok (iv : Timestamp.double) : Prop :=
  exists d, Timestamp.int64_of_double (Timestamp.dmul iv (Timestamp.double_of_Z Timestamp.kMicroSecondsPerSecond)) =
      Some d /\ 0 <= d < 2 ^ 61.

Definition timer_ok (n p : Z) (t : Timer) : Prop :=
  0 < p < max_address /\ 0 < expiration_ t < 2 ^ 62 /\ sequence_ t <= n /\
  (repeat_ t = true -> interval_ok (interval_ t)).

(** [F] are the timers taken out of the queue whose callbacks are being run:
    they exist, but are in neither set.  Every other timer is in both. *)
Record inv (F : list Z) (s : TimerQueue) : Prop := {
  inv_timers : set_sorted ltb2 (timers_ s);
  inv_active : set_sorted ltb2 (activeTimers_ s);
  inv_sizes : length (timers_ s) = length (activeTimers_ s);
  inv_t e p : (e, p) ∈ timers_ s ->
    exists t, objects s !! p = Some t /\ expiration_ t = e /\ (p, sequence_ t) ∈ activeTimers_ s;
  inv_a p q : (p, q) ∈ activeTimers_ s ->
    exists t, objects s !! p = Some t /\ sequence_ t = q /\ (expiration_ t, p) ∈ timers_ s;
  inv_nodup : NoDup F;
  inv_flight p : p ∈ F -> is_Some (objects s !! p) /\ forall e, (e, p) ∉ timers_ s;
  inv_own p : is_Some (objects s !! p) -> p ∈ F \/ exists e, (e, p) ∈ timers_ s;
  inv_good p t : objects s !! p = Some t -> timer_ok (numCreated s) p t;
  inv_clock : 0 < clock s < 2 ^ 61 }.

#[global] Instance ltb2_total : StrictTotal ltb2.
Proof. apply pair_ltb_total; apply _. Qed.

Lemma sizes_agree_ok F s : inv F s -> sizes_agree s = Ok ().
Proof. intros H. unfold sizes_agree. apply assert_true. apply Nat.eqb_eq, (inv_sizes F s H). Qed.

(** No timer is queued twice. *)
Lemma timers_nodup F s : inv F s -> NoDup (timers_ s).*2.
Proof.
  intros H. assert (NoDup (timers_ s)) as Hnd.
  { pose proof (inv_timers _ _ H) as Hst. clear -Hst. induction Hst as [|x l Hs IH Hall]; constructor; [|done]. intros Hin.
    rewrite Forall_forall in Hall. specialize (Hall _ Hin). unfold lt_rel in Hall. by rewrite ltb_irrefl in Hall. }
  apply NoDup_fmap_2_strong; [|done]. intros [e p] [e' p'] Hp Hp' E. simpl in E. subst p'.
  destruct (inv_t _ _ H _ _ Hp) as (t & Ht & <- & _), (inv_t _ _ H _ _ Hp') as (t' & Ht' & <- & _). congruence.
Qed.

(** A timer in flight is in neither set. *)
Lemma inv_flight_active F s p q : inv F s -> p ∈ F -> (p, q) ∉ activeTimers_ s.
Proof.
  intros H Hp Ha. destruct (inv_a _ _ H _ _ Ha) as (t & _ & _ & Ht).
  destruct (inv_flight _ _ H p Hp) as [_ Hno]. by apply (Hno (expiration_ t)).
Qed.

Lemma set_mem_false (k : Z * Z) l : set_sorted ltb2 l -> k ∉ l -> set_mem ltb2 k l = false.
Proof. intros Hs Hn. apply not_true_iff_false. by rewrite (set_mem_elem ltb2). Qed.

Lemma length_set_insert (k : Z * Z) l :
  set_sorted ltb2 l -> k ∉ l -> length (set_insert ltb2 k l) = S (length l).
Proof.
  intros Hs Hn. by rewrite (set_insert_perm ltb2) by by apply set_mem_false.
Qed.

Lemma length_set_erase (k : Z * Z) l :
  set_sorted ltb2 l -> k ∈ l -> S (length (set_erase ltb2 k l)) = length l.
Proof.
  intros Hs Hin. rewrite (set_erase_perm ltb2 k l) at 2; [done|]. by apply (set_mem_elem ltb2).
Qed.

(** The head of the queue expires first. *)
Lemma timers_head e0 p0 l e p :
  set_sorted ltb2 ((e0, p0) :: l) -> (e, p) ∈ (e0, p0) :: l -> e0 <= e.
Proof.
  intros Hs Hin. apply elem_of_cons in Hin as [[= -> ->]|Hin]; [done|].
  apply StronglySorted_inv in Hs as [_ Hall]. rewrite Forall_forall in Hall.
  specialize (Hall _ Hin). unfold lt_rel, ltb2, pair_ltb in Hall. simpl in Hall. lia.
Qed.

(** ** Inserting *)

Lemma insert_spec F s p :
  inv (p :: F) s ->
  exists s' b, insert p s = Ok (s', b) /\ inv F s' /\
    objects s' = objects s /\ callingExpiredTimers_ s' = callingExpiredTimers_ s /\
    cancelingTimers_ s' = cancelingTimers_ s /\ timerfd_ s' = timerfd_ s /\ clock s' = clock s /\
    numCreated s' = numCreated s /\
    exists t, objects s !! p = Some t /\ timers_ s' = set_insert ltb2 (expiration_ t, p) (timers_ s) /\
      b = match timers_ s with [] => true | (e, _) :: _ => expiration_ t <? e end.
Proof.
  intros H. pose proof (inv_nodup _ _ H) as [Hnin Hnd]%NoDup_cons.
  destruct (inv_flight _ _ H p ltac:(set_solver)) as [[t Ht] Hno].
  pose proof (inv_flight_active _ _ p (sequence_ t) H ltac:(set_solver)) as Hna.
  pose proof (inv_timers _ _ H) as Hst. pose proof (inv_active _ _ H) as Hsa.
  unfold insert, deref. rewrite (sizes_agree_ok _ _ H). bind_simpl. rewrite Ht. bind_simpl.
  rewrite set_mem_false by done. cbn [negb assert_]. bind_simpl.
  rewrite set_mem_false by done. cbn [negb assert_]. bind_simpl.
  match goal with |- context [sizes_agree ?s'] => assert (inv F s') as H' end.
  { split; cbn [timers_ activeTimers_ objects numCreated clock with_sets].
    - by apply set_insert_sorted; [apply _|].
    - by apply set_insert_sorted; [apply _|].
    - rewrite !length_set_insert by done. f_equal. apply (inv_sizes _ _ H).
    - intros e q [[= -> ->]|Hq]%(set_insert_elem ltb2).
      + exists t. split_and!; [done..|]. apply (set_insert_elem ltb2). by left.
      + destruct (inv_t _ _ H _ _ Hq) as (tq & ? & ? & ?). exists tq. split_and!; [done..|].
        apply (set_insert_elem ltb2). by right.
    - intros q sq [[= -> ->]|Hq]%(set_insert_elem ltb2).
      + exists t. split_and!; [done..|]. apply (set_insert_elem ltb2). by left.
      + destruct (inv_a _ _ H _ _ Hq) as (tq & ? & ? & ?). exists tq. split_and!; [done..|].
        apply (set_insert_elem ltb2). by right.
    - done.
    - intros q Hq. destruct (inv_flight _ _ H q ltac:(set_solver)) as [Hs Hn]. split; [done|].
      intros e [[= -> ->]|Hin]%(set_insert_elem ltb2); [done|]. by apply (Hn e).
    - intros q Hq. destruct (inv_own _ _ H q Hq) as [[->|?]%elem_of_cons|[e He]].
      + right. exists (expiration_ t). apply (set_insert_elem ltb2). by left.
      + by left.
      + right. exists e. apply (set_insert_elem ltb2). by right.
    - apply (inv_good _ _ H).
    - apply (inv_clock _ _ H). }
  rewrite (sizes_agree_ok _ _ H'). bind_simpl. do 2 eexists. split; [done|]. split; [done|].
  split_and!; [done..|]. exists t. by split_and!.
Qed.

Lemma new_timer_spec F s p cb when iv :
  inv F s -> objects s !! p = None -> 0 < p < max_address -> 0 < when < 2 ^ 62 ->
  (Timestamp.dpositive iv = true -> interval_ok iv) -> inv (p :: F) (new_timer p cb when iv s).
Proof.
  intros H Hp Hpr Hw Hiv.
  assert (forall q, is_Some (objects s !! q) -> q <> p) as Hne by (intros q [? ?] ->; congruence).
  split; cbn [timers_ activeTimers_ objects numCreated clock new_timer].
  - apply (inv_timers _ _ H).
  - apply (inv_active _ _ H).
  - apply (inv_sizes _ _ H).
  - intros e q Hq. destruct (inv_t _ _ H _ _ Hq) as (tq & Hq' & ? & ?). exists tq.
    rewrite lookup_insert_ne; [done|]. apply not_eq_sym, Hne. by eexists.
  - intros q sq Hq. destruct (inv_a _ _ H _ _ Hq) as (tq & Hq' & ? & ?). exists tq.
    rewrite lookup_insert_ne; [done|]. apply not_eq_sym, Hne. by eexists.
  - apply NoDup_cons. split; [|apply (inv_nodup _ _ H)]. intros Hin.
    destruct (inv_flight _ _ H p Hin) as [Hs _]. by apply (Hne p).
  - intros q [->|Hq]%elem_of_cons.
    + rewrite lookup_insert_eq. split; [by eexists|]. intros e He.
      destruct (inv_t _ _ H _ _ He) as (tq & Hq' & _). congruence.
    + destruct (inv_flight _ _ H q Hq) as [Hs Hn]. split; [|done].
      rewrite lookup_insert_ne; [done|]. apply not_eq_sym, Hne. done.
  - intros q Hq. destruct (decide (q = p)) as [->|Hqp]; [left; set_solver|].
    rewrite lookup_insert_ne in Hq by done. destruct (inv_own _ _ H q Hq); [left; set_solver|by right].
  - intros q t. destruct (decide (q = p)) as [->|Hqp].
    + rewrite lookup_insert_eq. intros [= <-]. unfold timer_ok. simpl. split_and!; try done; lia.
    + rewrite lookup_insert_ne by done. intros Ht. destruct (inv_good _ _ H _ _ Ht) as (? & ? & ? & ?).
      split_and!; try done; lia.
  - apply (inv_clock _ _ H).
Qed.

(** ** The timerfd *)

Lemma resetTimerfd_deadline e s :
  0 < e < 2 ^ 62 -> 0 < clock s < 2 ^ 61 ->
  timerfd_ (resetTimerfd e s) = Some (Z.max e (clock s + 100)).
Proof.
  intros He Hc. unfold resetTimerfd, howMuchTimeFromNow, Timestamp.kMicroSecondsPerSecond.
  rewrite i64_small by lia.
  assert ((if e - clock s <? 100 then 100 else e - clock s) = Z.max 100 (e - clock s)) as ->.
  { destruct (Z.ltb_spec (e - clock s) 100); lia. }
  cbn [timerfd_]. f_equal.
  rewrite Z.quot_div_nonneg, Z.rem_mod_nonneg by lia.
  rewrite Z.div_mul by lia. pose proof (Z.div_mod (Z.max 100 (e - clock s)) 1000000 ltac:(lia)). lia.
Qed.

Lemma resetTimerfd_timers e s : timers_ (resetTimerfd e s) = timers_ s.
Proof. done. Qed.
Lemma resetTimerfd_clock e s : clock (resetTimerfd e s) = clock s.
Proof. done. Qed.

Lemma resetTimerfd_inv F e s : inv F s -> inv F (resetTimerfd e s).
Proof. intros []. by split. Qed.

(** The timerfd fires in time for every timer (within 100 microseconds of
    setting it, or when the timer expires). *)
Definition armed (s : TimerQueue) : Prop :=
  timers_ s = [] \/
  exists d, timerfd_ s = Some d /\ forall e p, (e, p) ∈ timers_ s -> d <= Z.max e (clock s + 100).

(** ** User operations *)

Definition valid_op (o : user_op) (s : TimerQueue) : Prop :=
  match o with
  | Add p cb when iv =>
      objects s !! p = None /\ 0 < p < max_address /\ 0 < when < 2 ^ 62 /\
      (Timestamp.dpositive iv = true -> interval_ok iv)
  | Cancel _ => True
  | Elapse us => 0 <= us /\ clock s + us < 2 ^ 61
  end.

Fixpoint valid_ops (ops : list user_op) (s : TimerQueue) : Prop :=
  match ops with
  | [] => True
  | o :: ops' => valid_op o s /\ forall s', user_step o s = Ok s' -> valid_ops ops' s'
  end.

(** Timers keep their numbers; new ones get new numbers. *)
Definition same_or_new (s s' : TimerQueue) : Prop :=
  forall p t', objects s' !! p = Some t' ->
    (exists t, objects s !! p = Some t /\ sequence_ t = sequence_ t') \/ numCreated s < sequence_ t'.

(** What user operations leave alone: the timers in flight, the flag, and the
    cancellations recorded so far. *)
Record undisturbed (F : list Z) (s s' : TimerQueue) : Prop := {
  und_flight p : p ∈ F -> objects s' !! p = objects s !! p;
  und_calling : callingExpiredTimers_ s' = callingExpiredTimers_ s;
  und_canceling id : id ∈ cancelingTimers_ s -> id ∈ cancelingTimers_ s';
  und_sorted : set_sorted ltb2 (cancelingTimers_ s) -> set_sorted ltb2 (cancelingTimers_ s');
  und_clock : clock s <= clock s';
  und_created : numCreated s <= numCreated s';
  und_same : same_or_new s s' }.

#[global] Hint Extern 0 (same_or_new _ _) => (intros ? t' ?; left; by exists t') : core.

Lemma undisturbed_refl F s : undisturbed F s s.
Proof. split; [done..|auto]. Qed.

Lemma same_or_new_trans s1 s2 s3 :
  numCreated s1 <= numCreated s2 -> same_or_new s1 s2 -> same_or_new s2 s3 -> same_or_new s1 s3.
Proof.
  intros Hn H1 H2 p t Ht. destruct (H2 p t Ht) as [(t2 & Ht2 & <-)|?]; [by apply H1|right; lia].
Qed.

Lemma undisturbed_trans F s1 s2 s3 :
  undisturbed F s1 s2 -> undisturbed F s2 s3 -> undisturbed F s1 s3.
Proof.
  intros [A1 A2 A3 A4 A5 A6 A7] [B1 B2 B3 B4 B5 B6 B7]. split; [|congruence|auto|auto|lia|lia|by eapply same_or_new_trans].
  intros p Hp. by rewrite B1, A1.
Qed.

(** A timer in flight is put into the sets; nothing else changes but the timerfd. *)
Lemma addTimerInLoop_spec F s p :
  inv (p :: F) s ->
  exists s', addTimerInLoop p s = Ok s' /\ inv F s' /\ objects s' = objects s /\
    callingExpiredTimers_ s' = callingExpiredTimers_ s /\ cancelingTimers_ s' = cancelingTimers_ s /\
    clock s' = clock s /\ numCreated s' = numCreated s /\ (armed s -> armed s').
Proof.
  intros H. unfold addTimerInLoop.
  destruct (insert_spec F s p H) as (s2 & b & -> & H2 & Ho & Hcall & Hcan & Hfd & Hck & Hn & t & Ht & Htim & Hb).
  bind_simpl. unfold deref. rewrite Ho, Ht. bind_simpl. pose proof (inv_clock _ _ H) as Hclk.
  destruct (inv_good _ _ H _ _ Ht) as (_ & Hw & _). pose proof (inv_timers _ _ H) as Hsort. destruct b; bind_simpl.
  - exists (resetTimerfd (expiration_ t) s2). split_and!; [done|by apply resetTimerfd_inv|done..|].
    intros _. right. eexists. split; [apply resetTimerfd_deadline; [done|by rewrite Hck]|].
    intros e q Hq. rewrite resetTimerfd_clock. rewrite resetTimerfd_timers, Htim in Hq.
    apply (set_insert_elem ltb2) in Hq as [[= -> ->]|Hq]; [lia|].
    destruct (timers_ s) as [|[e0 p0] l]; [by apply elem_of_nil in Hq|].
    pose proof (timers_head _ _ _ _ _ Hsort Hq). symmetry in Hb. apply Z.ltb_lt in Hb. lia.
  - exists s2. split_and!; [done..|]. intros Harm. right.
    destruct Harm as [Hnil|(d & Hd & Hall)]; [by rewrite Hnil in Hb|].
    exists d. split; [by rewrite Hfd|]. intros e q Hq. rewrite Hck. rewrite Htim in Hq.
    apply (set_insert_elem ltb2) in Hq as [[= -> ->]|Hq]; [|by eapply Hall].
    destruct (timers_ s) as [|[e0 p0] l]; [done|].
    symmetry in Hb. apply Z.ltb_ge in Hb. pose proof (Hall e0 p0 ltac:(set_solver)). lia.
Qed.

Lemma addTimer_spec F s p cb when iv :
  inv F s -> valid_op (Add p cb when iv) s ->
  exists s', addTimer p cb when iv s = Ok (s', (p, numCreated s + 1)) /\ inv F s' /\
    undisturbed F s s' /\ (armed s -> armed s').
Proof.
  intros H (Hp & Hpr & Hw & Hiv). unfold addTimer.
  pose proof (new_timer_spec F s p cb when iv H Hp Hpr Hw Hiv) as H1.
  destruct (addTimerInLoop_spec F _ p H1) as (s2 & -> & H2 & Ho & Hcall & Hcan & Hck & Hn & Harm). bind_simpl.
  exists s2. split; [by rewrite Hn|]. split; [done|]. split; [|exact Harm].
  split; [|done|by rewrite Hcan|by rewrite Hcan|by rewrite Hck|rewrite Hn; cbn; lia|].
  2:{ intros q t. rewrite Ho. cbn. intros [[<- <-]|[_ Hq]]%lookup_insert_Some; [right; cbn; lia|left; by eexists]. }
  intros q Hq. rewrite Ho. cbn. apply lookup_insert_ne. intros ->. destruct (inv_flight _ _ H q Hq) as [[? ?] _]. congruence.
Qed.

(** Erasing a timer from both sets and freeing it. *)
Lemma inv_erase F s p t :
  inv F s -> objects s !! p = Some t -> (expiration_ t, p) ∈ timers_ s -> (p, sequence_ t) ∈ activeTimers_ s ->
  inv F (with_objects (delete p (objects s))
           (with_sets (set_erase ltb2 (expiration_ t, p) (timers_ s)) (set_erase ltb2 (p, sequence_ t) (activeTimers_ s)) s)).
Proof.
  intros H Ht Hin Em. pose proof (inv_timers _ _ H) as Hst. pose proof (inv_active _ _ H) as Hsa.
  assert (forall e, (e, p) ∈ timers_ s -> e = expiration_ t) as Huniq.
  { intros e He. destruct (inv_t _ _ H _ _ He) as (t' & Ht' & <- & _). congruence. }
  split; cbn [timers_ activeTimers_ objects numCreated clock with_sets with_objects].
  - by apply set_erase_sorted; [apply _|].
  - by apply set_erase_sorted; [apply _|].
  - pose proof (length_set_erase _ _ Hst Hin). pose proof (length_set_erase _ _ Hsa Em).
    pose proof (inv_sizes _ _ H). lia.
  - intros e r [Hr Hne]%(set_erase_elem ltb2); [|done].
    assert (r <> p) as Hrp by (intros ->; apply Hne; by rewrite (Huniq _ Hr)).
    destruct (inv_t _ _ H _ _ Hr) as (tr & ? & ? & ?). exists tr. rewrite lookup_delete_ne by done.
    split_and!; [done..|]. apply (set_erase_elem ltb2); [done|]. split; [done|congruence].
  - intros r sr [Hr Hne]%(set_erase_elem ltb2); [|done].
    destruct (inv_a _ _ H _ _ Hr) as (tr & Htr & Hsr & Hir).
    assert (r <> p) as Hrp by (intros ->; apply Hne; congruence).
    exists tr. rewrite lookup_delete_ne by done. split_and!; [done..|].
    apply (set_erase_elem ltb2); [done|]. split; [done|congruence].
  - apply (inv_nodup _ _ H).
  - intros r Hr. destruct (inv_flight _ _ H r Hr) as [Hs Hn].
    assert (r <> p) by (intros ->; by apply (Hn (expiration_ t))).
    rewrite lookup_delete_ne by done. split; [done|].
    intros e [He _]%(set_erase_elem ltb2); [|done]. by apply (Hn e).
  - intros r Hr. destruct (decide (r = p)) as [->|Hrp]; [by rewrite lookup_delete_eq in Hr; destruct Hr|].
    rewrite lookup_delete_ne in Hr by done. destruct (inv_own _ _ H r Hr) as [?|[e He]]; [by left|].
    right. exists e. apply (set_erase_elem ltb2); [done|]. split; [done|congruence].
  - intros r tr Hr. apply lookup_delete_Some in Hr as [_ Hr]. by apply (inv_good _ _ H).
  - apply (inv_clock _ _ H).
Qed.

Lemma cancel_spec F s id :
  inv F s ->
  exists s', cancelInLoop id s = Ok s' /\ inv F s' /\ undisturbed F s s' /\ (armed s -> armed s') /\
    (id.1 ∈ F -> callingExpiredTimers_ s = true -> id ∈ cancelingTimers_ s') /\
    (id ∈ activeTimers_ s -> forall e, (e, id.1) ∉ timers_ s') /\ id ∉ activeTimers_ s'.
Proof.
  intros H. destruct id as [p q]. unfold cancelInLoop. rewrite (sizes_agree_ok _ _ H). bind_simpl. cbn [fst].
  pose proof (inv_timers _ _ H) as Hst. pose proof (inv_active _ _ H) as Hsa.
  destruct (set_mem ltb2 (p, q) (activeTimers_ s)) eqn:Em.
  - apply (set_mem_elem ltb2) in Em; [|done]. destruct (inv_a _ _ H _ _ Em) as (t & Ht & Hq & Hin).
    unfold deref. rewrite Ht. bind_simpl.
    rewrite (proj2 (set_mem_elem ltb2 _ _ Hst) Hin). cbn [assert_]. bind_simpl.
    match goal with |- context [sizes_agree ?s'] => assert (inv F s') as H' end.
    { subst q. by apply inv_erase. }
    rewrite (sizes_agree_ok _ _ H'). bind_simpl. eexists. split; [done|]. split; [done|]. split_and!.
    + split; [|done|done|done|done|done|intros r tr; cbn; intros [_ Hr]%lookup_delete_Some; left; by eexists]. intros r Hr. cbn. apply lookup_delete_ne. intros ->.
      destruct (inv_flight _ _ H r Hr) as [_ Hn]. by apply (Hn (expiration_ t)).
    + intros [Hnil|(d & Hd & Hall)]; [by rewrite Hnil in Hin; apply elem_of_nil in Hin|].
      right. exists d. split; [done|]. cbn. intros e r [Hr _]%(set_erase_elem ltb2); [|done]. by eapply Hall.
    + intros Hp _. cbn in Hp. by destruct (inv_flight_active _ _ p q H Hp).
    + intros _ e. cbn. intros [He Hne]%(set_erase_elem ltb2); [|done].
      destruct (inv_t _ _ H _ _ He) as (t' & Ht' & <- & _). simplify_eq.
    + cbn. intros [_ Hne]%(set_erase_elem ltb2); done.
  - assert ((p, q) ∉ activeTimers_ s) as Hna by (rewrite <-(set_mem_elem ltb2) by done; by rewrite Em).
    destruct (callingExpiredTimers_ s) eqn:Ec; bind_simpl.
    + assert (inv F (with_canceling true (set_insert ltb2 (p, q) (cancelingTimers_ s)) s)) as H'
        by (destruct H; by split).
      rewrite (sizes_agree_ok _ _ H'). bind_simpl. eexists. split; [done|]. split; [done|]. split_and!.
      * split; [done|by rewrite Ec| | |done|done|auto].
        -- intros id Hid. cbn. apply (set_insert_elem ltb2). by right.
        -- cbn. apply set_insert_sorted; apply _.
      * done.
      * intros _ _. cbn. apply (set_insert_elem ltb2). by left.
      * done.
      * done.
    + rewrite (sizes_agree_ok _ _ H). bind_simpl. exists s.
      split_and!; [done..|apply undisturbed_refl|done|done|done|done].
Qed.

Lemma user_step_spec F s o :
  inv F s -> valid_op o s ->
  exists s', user_step o s = Ok s' /\ inv F s' /\ undisturbed F s s' /\ (armed s -> armed s').
Proof.
  intros H Hv. destruct o as [p cb when iv|id|us]; cbn [user_step].
  - destruct (addTimer_spec F s p cb when iv H Hv) as (s' & -> & ? & ? & ?). by exists s'.
  - destruct (cancel_spec F s id H) as (s' & -> & ? & ? & ? & _). by exists s'.
  - destruct Hv as [Hus Hck]. exists (elapse us s). split; [done|]. split_and!.
    + destruct H. split; try done. cbn. lia.
    + split; try done. cbn. lia.
    + intros [?|(d & ? & Hall)]; [by left|]. right. exists d. split; [done|].
      cbn. intros e p Hp. specialize (Hall e p Hp). lia.
Qed.

Lemma user_run_spec F ops : forall s,
  inv F s -> valid_ops ops s ->
  exists s', user_run ops s = Ok s' /\ inv F s' /\ undisturbed F s s' /\ (armed s -> armed s').
Proof.
  induction ops as [|o ops IH]; intros s H Hv; cbn [user_run].
  { exists s. split_and!; [done..|apply undisturbed_refl|done]. }
  destruct Hv as [Ho Hrest]. destruct (user_step_spec F s o H Ho) as (s1 & E & H1 & U1 & A1).
  rewrite E. bind_simpl. destruct (IH s1 H1 (Hrest _ E)) as (s2 & -> & H2 & U2 & A2).
  exists s2. split_and!; [done..|by eapply undisturbed_trans|auto].
Qed.

(** A callback that cancels its own timer leaves that recorded. *)
Lemma user_run_cancels F ops id : forall s s',
  inv F s -> valid_ops ops s -> id.1 ∈ F -> callingExpiredTimers_ s = true ->
  Cancel id ∈ ops -> user_run ops s = Ok s' -> id ∈ cancelingTimers_ s'.
Proof.
  induction ops as [|o ops IH]; intros s s' H Hv Hf Hc Hin; [by apply elem_of_nil in Hin|].
  destruct Hv as [Ho Hrest]. cbn [user_run].
  destruct (user_step_spec F s o H Ho) as (s1 & E & H1 & [U1 U2 U3 U4 U5] & _). rewrite E. bind_simpl. intros Hr.
  apply elem_of_cons in Hin as [<-|Hin].
  - cbn [user_step] in E. destruct (cancel_spec F s id H) as (s1' & E' & _ & _ & _ & Hrec & _).
    rewrite E in E'. injection E' as <-. specialize (Hrec Hf Hc).
    destruct (user_run_spec F ops s1 H1 (Hrest _ E)) as (s2 & E2 & _ & [_ _ U _ _] & _).
    rewrite Hr in E2. injection E2 as <-. by apply U.
  - apply (IH s1 s'); try done; [by apply Hrest|congruence].
Qed.

(** No timer with this id exists any more. *)
Definition gone (timerId : Z * Z) (q : TimerQueue) : Prop :=
  timerId.2 <= numCreated q /\ forall t, objects q !! timerId.1 = Some t -> sequence_ t <> timerId.2.

(** Ids that are gone stay gone. *)
Lemma gone_stays id q q' : numCreated q <= numCreated q' -> same_or_new q q' -> gone id q -> gone id q'.
Proof.
  intros Hn Hs [Hid Hg]. split; [lia|]. intros t Ht. destruct (Hs _ _ Ht) as [(t0 & Ht0 & <-)|?]; [by apply Hg|lia].
Qed.

(** A cancellation that has run removed its timer, unless it was in flight. *)
Lemma cancel_gone F q' id :
  inv F q' -> id.2 <= numCreated q' -> id ∉ activeTimers_ q' -> (id.1 ∈ F -> gone id q') -> gone id q'.
Proof.
  intros H Hn Hact HF. destruct (decide (id.1 ∈ F)) as [|Hout]; [by apply HF|]. split; [done|]. intros t Ht E.
  destruct (inv_own _ _ H id.1 ltac:(by eexists)) as [?|[e He]]; [done|].
  destruct (inv_t _ _ H _ _ He) as (t' & Ht' & _ & Ha). simplify_eq. apply Hact. rewrite E in Ha. by destruct id.
Qed.

(** Only [Cancel] records cancellations, and only of its own timer, and only it ends
    a timer. *)
Lemma cancel_effect F s id s' :
  inv F s -> cancelInLoop id s = Ok s' ->
  (forall id', id' ∈ cancelingTimers_ s' -> id' ∈ cancelingTimers_ s \/ id' = id) /\
  (forall p t, objects s !! p = Some t -> (p, sequence_ t) <> id -> objects s' !! p = Some t).
Proof.
  intros H E. unfold cancelInLoop in E. rewrite (sizes_agree_ok _ _ H) in E. cbn [mbind outcome_bind] in E.
  apply bind_Ok in E as (s1 & E1 & E). apply bind_Ok in E as (u & _ & E). injection E as <-.
  destruct (set_mem ltb2 id (activeTimers_ s)) eqn:Em.
  - apply (set_mem_elem ltb2) in Em; [|apply (inv_active _ _ H)]. destruct id as [q n]. destruct (inv_a _ _ H _ _ Em) as (tq & Htq & Hn & _).
    unfold deref in E1. cbn [fst] in E1. rewrite Htq in E1. cbn [mbind outcome_bind] in E1. apply bind_Ok in E1 as (u1 & _ & E1).
    injection E1 as <-. cbn. split; [by left|]. intros p t Ht Hne. rewrite lookup_delete_ne; [done|]. intros ->. simplify_eq.
  - destruct (callingExpiredTimers_ s); injection E1 as <-; cbn; (split; [|done]); [|by left].
    intros id' [->|?]%(set_insert_elem ltb2); [by right|by left].
Qed.

Lemma user_step_effect F s o s' :
  inv F s -> valid_op o s -> user_step o s = Ok s' ->
  (forall id, id ∈ cancelingTimers_ s' -> id ∈ cancelingTimers_ s \/ o = Cancel id) /\
  (forall p t, objects s !! p = Some t -> o <> Cancel (p, sequence_ t) -> objects s' !! p = Some t).
Proof.
  intros H Hv E. destruct o as [p cb when iv|id|us]; cbn [user_step] in E.
  - destruct Hv as (Hp & Hpr & Hw & Hiv). unfold addTimer in E.
    destruct (addTimerInLoop_spec F _ p (new_timer_spec F s p cb when iv H Hp Hpr Hw Hiv)) as (s2 & E2 & _ & Ho & _ & Hcan & _).
    rewrite E2 in E. injection E as <-. rewrite Hcan, Ho. cbn. split; [by left|]. intros q t Hq _.
    rewrite lookup_insert_ne; [done|]. congruence.
  - destruct (cancel_effect F s id s' H E) as [H1 H2]. split; [|naive_solver].
    intros id' [?| ->]%H1; [by left|by right].
  - injection E as <-. split; [by left|done].
Qed.

Lemma user_run_effect F ops : forall s s',
  inv F s -> valid_ops ops s -> user_run ops s = Ok s' ->
  (forall id, id ∈ cancelingTimers_ s' -> id ∈ cancelingTimers_ s \/ Cancel id ∈ ops) /\
  (forall p t, objects s !! p = Some t -> Cancel (p, sequence_ t) ∉ ops -> objects s' !! p = Some t).
Proof.
  induction ops as [|o ops IH]; intros s s' H Hv E; cbn [user_run] in E; [injection E as <-; by split; [left|]|].
  destruct Hv as [Ho Hrest]. apply bind_Ok in E as (s1 & E1 & E). destruct (user_step_effect F s o s1 H Ho E1) as [A1 A2].
  destruct (user_step_spec F s o H Ho) as (s1' & E1' & H1 & _). rewrite E1 in E1'. injection E1' as <-.
  destruct (IH s1 s' H1 (Hrest _ E1) E) as [B1 B2]. split.
  - intros id [Hid|?]%B1; [|right; set_solver]. destruct (A1 _ Hid) as [?| ->]; [by left|right; set_solver].
  - intros p t Ht Hno. apply B2; [|set_solver]. apply A2; [done|]. intros ->. set_solver.
Qed.

(** A timer that waits and is cancelled is gone. *)
Lemma user_run_gone F ops id : forall s s',
  inv F s -> valid_ops ops s -> id.1 ∉ F -> id.2 <= numCreated s -> Cancel id ∈ ops -> user_run ops s = Ok s' -> gone id s'.
Proof.
  induction ops as [|o ops IH]; intros s s' H Hv Hf Hn Hin E; [by apply elem_of_nil in Hin|].
  destruct Hv as [Ho Hrest]. cbn [user_run] in E. apply bind_Ok in E as (s1 & E1 & E).
  destruct (user_step_spec F s o H Ho) as (s1' & E1' & H1 & U1 & _). rewrite E1 in E1'. injection E1' as <-.
  pose proof (und_created _ _ _ U1) as Hc1. apply elem_of_cons in Hin as [<-|Hin]; [|by eapply (IH s1); [|apply Hrest|..]; try done; lia].
  destruct (user_run_spec F ops s1 H1 (Hrest _ E1)) as (s2 & E2 & _ & U2 & _). rewrite E in E2. injection E2 as <-.
  eapply gone_stays; [apply (und_created _ _ _ U2)|apply (und_same _ _ _ U2)|].
  destruct (cancel_spec F s id H) as (s1' & E1' & _ & _ & _ & _ & _ & Hact). cbn [user_step] in E1. rewrite E1 in E1'. injection E1' as <-.
  apply (cancel_gone F); [done|lia|done|by intros ?].
Qed.

(** ** Taking out the expired timers *)

Lemma erase_active_spec exp : forall s,
  set_sorted ltb2 (activeTimers_ s) ->
  (forall e p, (e, p) ∈ exp -> exists t, objects s !! p = Some t /\ (p, sequence_ t) ∈ activeTimers_ s) ->
  NoDup exp.*2 ->
  exists s', erase_active exp s = Ok s' /\ set_sorted ltb2 (activeTimers_ s') /\
    s' = with_sets (timers_ s) (activeTimers_ s') s /\
    length (activeTimers_ s) = (length exp + length (activeTimers_ s'))%nat /\
    (forall p q, (p, q) ∈ activeTimers_ s' <-> (p, q) ∈ activeTimers_ s /\
       ~ (p ∈ exp.*2 /\ exists t, objects s !! p = Some t /\ sequence_ t = q)).
Proof.
  induction exp as [|[e p] exp IH]; intros s Hs Hin Hnd; cbn [erase_active].
  { exists s. split_and!; try done; [by destruct s|]. intros p q. cbn. set_solver. }
  apply NoDup_cons in Hnd as [Hnin Hnd].
  destruct (Hin e p ltac:(set_solver)) as (t & Ht & Ha). unfold deref. rewrite Ht. bind_simpl.
  rewrite (proj2 (set_mem_elem ltb2 _ _ Hs) Ha). cbn [assert_]. bind_simpl.
  set (s1 := with_sets _ _ s).
  assert (set_sorted ltb2 (activeTimers_ s1)) as Hs1 by (by apply set_erase_sorted; [apply _|]).
  destruct (IH s1 Hs1) as (s' & -> & Hs' & Eq & Hlen & Hel).
  - intros e' p' Hp'. destruct (Hin e' p' ltac:(set_solver)) as (t' & Ht' & Ha'). exists t'. split; [done|].
    apply (set_erase_elem ltb2); [done|]. split; [done|]. intros [= -> _]. apply Hnin.
    apply list_elem_of_fmap. by exists (e', p).
  - done.
  - exists s'. split_and!; [done|done| | |].
    + rewrite Eq at 1. done.
    + cbn [length]. pose proof (length_set_erase _ _ Hs Ha) as Hle. cbn in Hlen. lia.
    + intros p' q'. rewrite Hel. cbn [activeTimers_ with_sets s1 objects].
      rewrite (set_erase_elem ltb2) by done. cbn [fmap list_fmap snd]. rewrite elem_of_cons. split.
      * intros [[Hp' Hne] Hn]. split; [done|]. intros [[->|Hp2] (t' & Ht' & Hq')]; [|by eauto 6].
        apply Hne. by simplify_eq.
      * intros [Hp' Hn]. split; [split; [done|]|].
        -- intros [= -> ->]. apply Hn. split; [by left|]. by exists t.
        -- intros [Hp2 Hq2]. apply Hn. split; [by right|done].
Qed.

(** Timers taken out of the front of one set and out of the other are in flight. *)
Lemma inv_taken G s s' exp rest :
  inv G s -> timers_ s = exp ++ rest -> NoDup exp.*2 -> (forall p, p ∈ exp.*2 -> p ∉ rest.*2) ->
  s' = with_sets rest (activeTimers_ s') s -> set_sorted ltb2 (activeTimers_ s') ->
  length (activeTimers_ s) = (length exp + length (activeTimers_ s'))%nat ->
  (forall p q, (p, q) ∈ activeTimers_ s' <-> (p, q) ∈ activeTimers_ s /\ ~ (p ∈ exp.*2 /\ exists t, objects s !! p = Some t /\ sequence_ t = q)) ->
  inv (exp.*2 ++ G) s'.
Proof.
  intros H Happ Hnd1 Hdisj Eq Hs' Hlen Hel. pose proof (inv_timers _ _ H) as Hst.
  assert (timers_ s' = rest) as Htr by by rewrite Eq.
  assert (objects s' = objects s) as Hobj by by rewrite Eq.
  split.
  - rewrite Htr. rewrite Happ in Hst. clear -Hst. induction exp as [|x l IH]; [done|].
    apply IH. by apply StronglySorted_inv in Hst as [? _].
  - done.
  - rewrite Htr. pose proof (inv_sizes _ _ H) as Hz. rewrite Happ, length_app in Hz. lia.
  - rewrite Htr, Hobj. intros e p Hp.
    destruct (inv_t _ _ H e p) as (t & Ht & Hte & Ha); [rewrite Happ; set_solver|].
    exists t. split_and!; [done..|]. apply Hel. split; [done|]. intros [Hpe _].
    apply (Hdisj p Hpe). apply list_elem_of_fmap. by exists (e, p).
  - rewrite Htr, Hobj. intros p q [Hp Hn]%Hel. destruct (inv_a _ _ H _ _ Hp) as (t & Ht & Hq & Hin).
    exists t. split_and!; [done..|]. rewrite Happ in Hin. apply elem_of_app in Hin as [Hin|Hin]; [|done].
    destruct Hn. split; [|by exists t]. apply list_elem_of_fmap. by exists (expiration_ t, p).
  - apply NoDup_app. split_and!; [done| |apply (inv_nodup _ _ H)]. intros p Hp HG.
    apply list_elem_of_fmap in Hp as ([e p'] & -> & Hp). apply (inv_flight _ _ H _ HG) with (e := e). rewrite Happ. set_solver.
  - rewrite Htr, Hobj. intros p [Hp|Hp]%elem_of_app.
    2:{ destruct (inv_flight _ _ H _ Hp) as [Hs Hno]. split; [done|]. intros e He. apply (Hno e). rewrite Happ. set_solver. }
    apply list_elem_of_fmap in Hp as ([e p'] & -> & Hp). simpl.
    destruct (inv_t _ _ H e p') as (t & Ht & _); [rewrite Happ; set_solver|]. split; [by eexists|].
    intros e' He'. apply (Hdisj p'); apply list_elem_of_fmap; [by exists (e, p')|by exists (e', p')].
  - rewrite Htr, Hobj. intros p Hp. destruct (inv_own _ _ H p Hp) as [Hp'|[e Hp']]; [left; set_solver|].
    rewrite Happ in Hp'. apply elem_of_app in Hp' as [Hp'|Hp']; [left|right; by exists e].
    apply elem_of_app. left. apply list_elem_of_fmap. by exists (e, p).
  - rewrite Eq. apply (inv_good _ _ H).
  - rewrite Eq. apply (inv_clock _ _ H).
Qed.

(** [getExpired] takes out exactly the timers that have expired, in the order
    of their expiration. *)
Lemma getExpired_spec G s now :
  inv G s ->
  exists s' exp, getExpired now s = Ok (s', exp) /\ inv (exp.*2 ++ G) s' /\
    timers_ s = exp ++ timers_ s' /\
    Forall (fun ep => ep.1 <= now) exp /\ Forall (fun ep => now < ep.1) (timers_ s') /\
    objects s' = objects s /\ s' = with_sets (timers_ s') (activeTimers_ s') s.
Proof.
  intros H. unfold getExpired. rewrite (sizes_agree_ok _ _ H). bind_simpl.
  pose proof (inv_timers _ _ H) as Hst. pose proof (inv_active _ _ H) as Hsa.
  destruct (set_lower_bound ltb2 (now, max_address) (timers_ s)) as [exp rest] eqn:El.
  pose proof (set_lower_bound_app _ _ _ _ _ El) as Happ.
  destruct (set_lower_bound_spec _ _ _ _ _ Hst El) as [Hexp Hrest].
  assert (forall e p, (e, p) ∈ timers_ s -> 0 < p < max_address) as Haddr.
  { intros e p Hp. destruct (inv_t _ _ H _ _ Hp) as (t & Ht & _). apply (inv_good _ _ H _ _ Ht). }
  assert (Forall (fun ep => ep.1 <= now) exp) as He.
  { eapply Forall_impl; [exact Hexp|]. intros [e p]. unfold ltb2, pair_ltb. cbn. lia. }
  assert (Forall (fun ep => now < ep.1) rest) as Hr.
  { rewrite Forall_forall in Hrest |- *. intros [e p] Hin. specialize (Hrest _ Hin).
    assert (0 < p < max_address) by (apply (Haddr e); rewrite Happ; set_solver).
    unfold ltb2, pair_ltb in Hrest. cbn in *. lia. }
  rewrite assert_true by (destruct Hr as [|[e p]]; simpl in *; [done|lia]). bind_simpl.
  pose proof (timers_nodup _ _ H) as Hnd.
  rewrite Happ, fmap_app in Hnd. apply NoDup_app in Hnd as (Hnd1 & Hdisj & Hnd2).
  destruct (erase_active_spec exp (with_sets rest (activeTimers_ s) s)) as (s' & -> & Hs' & Eq & Hlen & Hel);
    [done| |done|].
  { intros e p Hp. destruct (inv_t _ _ H e p) as (t & Ht & _ & Ha); [rewrite Happ; set_solver|]. by exists t. }
  bind_simpl. cbn [timers_ activeTimers_ objects with_sets] in *.
  assert (timers_ s' = rest) as Htr by by rewrite Eq.
  assert (objects s' = objects s) as Hobj by by rewrite Eq.
  assert (inv (exp.*2 ++ G) s') as H'.
  { by apply (inv_taken G s s' exp rest). }
  rewrite (sizes_agree_ok _ _ H'). bind_simpl. exists s', exp.
  split; [done|]. split; [done|]. rewrite Htr. split_and!; [done..|]. by rewrite Eq.
Qed.

(** ** Restarting or freeing them *)

Lemma restart_ok now t :
  repeat_ t = true -> interval_ok (interval_ t) -> 0 < now < 2 ^ 61 ->
  exists d t', restart now t = Ok t' /\ 0 <= d < 2 ^ 61 /\ expiration_ t' = now + d /\
    sequence_ t' = sequence_ t /\ repeat_ t' = true /\ interval_ t' = interval_ t.
Proof.
  intros Hr (d & Hd & Hb) Hnow. unfold restart, Timestamp.addTime. rewrite Hr, Hd. bind_simpl.
  rewrite i64_small by lia. exists d. by eexists.
Qed.

Lemma inv_update_flight F s p t t' :
  inv (p :: F) s -> objects s !! p = Some t -> timer_ok (numCreated s) p t' ->
  inv (p :: F) (with_objects (<[p := t']> (objects s)) s).
Proof.
  intros H Ht Hok. destruct (inv_flight _ _ H p ltac:(set_solver)) as [_ Hno].
  split; cbn [timers_ activeTimers_ objects numCreated clock with_objects].
  - apply (inv_timers _ _ H).
  - apply (inv_active _ _ H).
  - apply (inv_sizes _ _ H).
  - intros e q Hq. assert (q <> p) by (intros ->; by apply (Hno e)). rewrite lookup_insert_ne by done.
    by apply (inv_t _ _ H).
  - intros q sq Hq.
    assert (q <> p) by (intros ->; by apply (inv_flight_active _ _ p sq H ltac:(set_solver))).
    rewrite lookup_insert_ne by done. by apply (inv_a _ _ H).
  - apply (inv_nodup _ _ H).
  - intros q Hq. destruct (inv_flight _ _ H q Hq) as [Hs Hn]. split; [|done].
    destruct (decide (q = p)) as [->|]; [rewrite lookup_insert_eq; by eexists|by rewrite lookup_insert_ne].
  - intros q Hq. destruct (decide (q = p)) as [->|]; [left; set_solver|].
    rewrite lookup_insert_ne in Hq by done. by apply (inv_own _ _ H).
  - intros q tq. destruct (decide (q = p)) as [->|]; [rewrite lookup_insert_eq; by intros [= <-]|].
    rewrite lookup_insert_ne by done. apply (inv_good _ _ H).
  - apply (inv_clock _ _ H).
Qed.

Lemma inv_free_flight F s p :
  inv (p :: F) s -> inv F (with_objects (delete p (objects s)) s).
Proof.
  intros H. destruct (inv_flight _ _ H p ltac:(set_solver)) as [_ Hno].
  pose proof (inv_nodup _ _ H) as [Hnin Hnd]%NoDup_cons.
  split; cbn [timers_ activeTimers_ objects numCreated clock with_objects].
  - apply (inv_timers _ _ H).
  - apply (inv_active _ _ H).
  - apply (inv_sizes _ _ H).
  - intros e q Hq. assert (q <> p) by (intros ->; by apply (Hno e)). rewrite lookup_delete_ne by done.
    by apply (inv_t _ _ H).
  - intros q sq Hq.
    assert (q <> p) by (intros ->; by apply (inv_flight_active _ _ p sq H ltac:(set_solver))).
    rewrite lookup_delete_ne by done. by apply (inv_a _ _ H).
  - done.
  - intros q Hq. assert (q <> p) by (intros ->; done). destruct (inv_flight _ _ H q ltac:(set_solver)) as [Hs Hn].
    split; [|done]. by rewrite lookup_delete_ne.
  - intros q Hq. destruct (decide (q = p)) as [->|]; [by rewrite lookup_delete_eq in Hq; destruct Hq|].
    rewrite lookup_delete_ne in Hq by done. destruct (inv_own _ _ H q Hq) as [?|?]; [|by right]. left. set_solver.
  - intros q tq [_ Hq]%lookup_delete_Some. by apply (inv_good _ _ H).
  - apply (inv_clock _ _ H).
Qed.

(** Whether a timer goes on after its callback. *)
Definition continues (t : Timer) (p : Z) (s : TimerQueue) : Prop :=
  repeat_ t = true /\ (p, sequence_ t) ∉ cancelingTimers_ s.

Lemma reset_loop_spec G now exp : forall s,
  inv (exp.*2 ++ G) s -> set_sorted ltb2 (cancelingTimers_ s) -> 0 < now < 2 ^ 61 ->
  exists s', reset_loop exp now s = Ok s' /\ inv G s' /\
    clock s' = clock s /\ (numCreated s' = numCreated s /\ same_or_new s s') /\ callingExpiredTimers_ s' = callingExpiredTimers_ s /\
    cancelingTimers_ s' = cancelingTimers_ s /\
    (forall q, q ∉ exp.*2 -> objects s' !! q = objects s !! q) /\
    (forall p t, p ∈ exp.*2 -> objects s !! p = Some t ->
       (continues t p s -> exists e, Timestamp.addTime now (interval_ t) = Ok e /\ (e, p) ∈ timers_ s' /\
          objects s' !! p = Some (mkTimer (callback_ t) e (interval_ t) (repeat_ t) (sequence_ t))) /\
       (~ continues t p s -> objects s' !! p = None)).
Proof.
  induction exp as [|[e p] exp IH]; intros s H Hcs Hnow; cbn [reset_loop].
  { exists s. split_and!; try done. intros p t Hp. by apply elem_of_nil in Hp. }
  cbn [fmap list_fmap snd app] in H |- *. destruct (inv_flight _ _ H p ltac:(set_solver)) as [[t Ht] Hno].
  pose proof (inv_nodup _ _ H) as [Hnin Hnd]%NoDup_cons.
  unfold deref. rewrite Ht. bind_simpl.
  destruct (decide (continues t p s)) as [Hc|Hc].
  - pose proof Hc as [Hrep Hnc]. rewrite Hrep, set_mem_false by done. cbn [negb andb].
    destruct (inv_good _ _ H _ _ Ht) as (G1 & G2 & G3 & G4).
    destruct (restart_ok now t Hrep (G4 Hrep) Hnow) as (d & t' & Er & Hd & He & Hsq & Hrp & Hiv).
    rewrite Er. bind_simpl.
    assert (timer_ok (numCreated s) p t') as Hok.
    { unfold timer_ok. rewrite He, Hsq, Hiv. split_and!; try done; try lia. by intros _; apply G4. }
    pose proof (inv_update_flight _ _ _ _ _ H Ht Hok) as H1.
    destruct (insert_spec _ _ _ H1) as (s2 & b & -> & H2 & Ho & Hcall & Hcan & Hfd & Hck & Hn & t2 & Ht2 & Htim & _).
    bind_simpl. cbn in Ht2. rewrite lookup_insert_eq in Ht2. injection Ht2 as <-. cbn in Ho, Hcall, Hcan, Hck, Htim.
    destruct (IH s2 H2) as (s' & -> & H' & K1 & K0 & K2 & K3 & K4 & K5); [by rewrite Hcan|done|].
    destruct K0 as [K0 K0'].
    exists s'. split_and!; [done|done|congruence|by rewrite K0, Hn| |congruence|congruence| |].
    + apply (same_or_new_trans s s2 s'); [by rewrite Hn| |done]. intros q tq. rewrite Ho.
      intros [[<- <-]|[_ Hq]]%lookup_insert_Some; left; [by exists t|by exists tq].
    + intros q Hq. rewrite K4 by set_solver. rewrite Ho. apply lookup_insert_ne. set_solver.
    + intros q tq [->|Hq]%elem_of_cons Htq.
      * simplify_eq. split; [|done]. intros _. exists (now + d).
        assert (objects s' !! p = Some t') as Hp' by (rewrite K4 by set_solver; rewrite Ho; apply lookup_insert_eq).
        unfold restart in Er. rewrite Hrep in Er. outcome_inv Er. cbn in He. subst. split_and!; [done| |by rewrite Hp', Hrep].
        destruct (inv_own _ _ H' p ltac:(by eexists)) as [Hf|[e' He']]; [set_solver|].
        destruct (inv_t _ _ H' _ _ He') as (t3 & Ht3 & Hte & _). rewrite Hp' in Ht3. injection Ht3 as <-. cbn in Hte. by rewrite Hte.
      * assert (q <> p) by set_solver. unfold continues in *. rewrite Hcan in K5.
        apply K5; [done|]. rewrite Ho. by rewrite lookup_insert_ne.
  - assert (repeat_ t && negb (set_mem ltb2 (p, sequence_ t) (cancelingTimers_ s)) = false) as ->.
    { destruct (repeat_ t) eqn:Er; [|done]. cbn. apply negb_false_iff, (set_mem_elem ltb2); [done|].
      destruct (decide ((p, sequence_ t) ∈ cancelingTimers_ s)); [done|]. by destruct Hc. }
    bind_simpl. pose proof (inv_free_flight _ _ _ H) as H1.
    destruct (IH _ H1) as (s' & -> & H' & K1 & K0 & K2 & K3 & K4 & K5); [done|done|].
    destruct K0 as [K0 K0']. exists s'. split_and!; [done|done|done|done| |done|done| |].
    + eapply same_or_new_trans; [|intros q tq|exact K0']; [done|]. cbn. intros [_ Hq]%lookup_delete_Some. left. by exists tq.
    + intros q Hq. rewrite K4 by set_solver. cbn. apply lookup_delete_ne. set_solver.
    + intros q tq [->|Hq]%elem_of_cons Htq.
      * simplify_eq. split; [done|]. intros _. rewrite K4 by set_solver. cbn. apply lookup_delete_eq.
      * assert (q <> p) by set_solver. apply K5; [done|]. cbn. by rewrite lookup_delete_ne.
Qed.

(** ** The handler *)

Section handler.
Context (user : Z -> TimerQueue -> list user_op).
(** User code adds timers at free addresses and with sane times. *)
Context (user_ok : forall cb s, valid_ops (user cb s) s).

(** The callbacks of [exp] run one after the other, from [s] to [s']: each finds the
    state the last one left and makes its calls. *)
Fixpoint callbacks_run (exp : list (Z * Z)) (s : TimerQueue) (opss : list (list user_op)) (s' : TimerQueue) : Prop :=
  match exp, opss with
  | [], [] => s' = s
  | (_, p) :: exp', ops :: opss' =>
      exists t s1, objects s !! p = Some t /\ ops = user (callback_ t) s /\ user_run ops s = Ok s1 /\ callbacks_run exp' s1 opss' s'
  | _, _ => False
  end.

Lemma run_expired_spec F exp : forall s,
  inv F s -> Forall (fun p => p ∈ F) exp.*2 ->
  exists s' cbs opss, run_expired user exp s = Ok (s', cbs) /\ inv F s' /\ undisturbed F s s' /\
    Some <$> cbs = (fun ep => callback_ <$> objects s !! ep.2) <$> exp /\ callbacks_run exp s opss s' /\
    (forall id, id ∈ cancelingTimers_ s' -> id ∈ cancelingTimers_ s \/ Cancel id ∈ concat opss) /\
    (callingExpiredTimers_ s = true -> forall id, id.1 ∈ F -> Cancel id ∈ concat opss -> id ∈ cancelingTimers_ s') /\
    (forall p t, objects s !! p = Some t -> Cancel (p, sequence_ t) ∉ concat opss -> objects s' !! p = Some t) /\
    (forall id, id.1 ∉ F -> id.2 <= numCreated s -> Cancel id ∈ concat opss -> gone id s').
Proof.
  induction exp as [|[e p] exp IH]; intros s H Hin; cbn [run_expired].
  { exists s, [], []. split_and!; [done|done|apply undisturbed_refl|done|done|by left|..]; try done.
    - intros _ id _ Hid. by apply elem_of_nil in Hid.
    - intros id _ _ Hid. by apply elem_of_nil in Hid. }
  cbn [fmap list_fmap snd] in Hin. apply Forall_cons in Hin as [Hp Hin].
  destruct (inv_flight _ _ H p Hp) as [[t Ht] _]. unfold deref. rewrite Ht. bind_simpl. set (ops := user (callback_ t) s).
  destruct (user_run_spec F _ s H (user_ok (callback_ t) s)) as (s1 & E1 & H1 & U1 & _). fold ops in E1. rewrite E1. bind_simpl.
  destruct (user_run_effect F ops s s1 H (user_ok _ _) E1) as [A1 A2].
  destruct (IH s1 H1 Hin) as (s2 & cbs & opss & -> & H2 & U2 & Hcbs & Hrun & B1 & B2 & B3 & B4). bind_simpl.
  exists s2, (callback_ t :: cbs), (ops :: opss). cbn [concat]. pose proof (und_created _ _ _ U1) as Hc1.
  split_and!; [done|done|by eapply undisturbed_trans| |by exists t, s1|..].
  - cbn [fmap list_fmap snd]. rewrite Ht. cbn. f_equal. rewrite Hcbs. apply list_fmap_ext.
    intros i [e' p'] Hi. cbn. rewrite (und_flight _ _ _ U1); [done|].
    rewrite Forall_forall in Hin. apply Hin, list_elem_of_fmap. exists (e', p'). split; [done|].
    by eapply list_elem_of_lookup_2.
  - intros id [Hid|?]%B1; [|right; set_solver]. destruct (A1 _ Hid); [by left|right; set_solver].
  - intros Hcall id Hid [Hc|Hc]%elem_of_app; [|by apply B2; [rewrite (und_calling _ _ _ U1)|..]].
    apply (und_canceling _ _ _ U2). by apply (user_run_cancels F ops id s s1 H (user_ok _ _)).
  - intros q tq Hq Hno. apply B3; [|set_solver]. apply A2; [done|set_solver].
  - intros id Hid Hn [Hc|Hc]%elem_of_app; [|apply B4; [done|lia|done]].
    eapply gone_stays; [apply (und_created _ _ _ U2)|apply (und_same _ _ _ U2)|].
    by apply (user_run_gone F ops id s s1 H (user_ok _ _)).
Qed.

(** A queue between two handlers; [G] are the timers made but not yet inserted. *)
Definition wf_with (G : list Z) (s : TimerQueue) : Prop := inv G s /\ callingExpiredTimers_ s = false /\ armed s.
Definition wf (s : TimerQueue) : Prop := wf_with [] s.

(** The timers of a state that have expired, first expiration first. *)
Definition due (now : Z) (s : TimerQueue) : list (Z * Z) := filter (fun ep => ep.1 <= now) (timers_ s).

Lemma due_split now l1 l2 :
  Forall (fun ep : Z * Z => ep.1 <= now) l1 -> Forall (fun ep => now < ep.1) l2 ->
  filter (fun ep => ep.1 <= now) (l1 ++ l2) = l1.
Proof.
  intros H1 H2. rewrite filter_app. induction H1 as [|x l1 Hx _ IH]; cbn [app].
  - rewrite app_nil_l. induction H2 as [|y l2 Hy _ IH2]; [done|]. by rewrite filter_cons_False by lia.
  - rewrite filter_cons_True by done. cbn. by rewrite IH.
Qed.

(** The state the first callback finds. *)
Definition taken_out (now : Z) (s s0 : TimerQueue) : Prop :=
  objects s0 = objects s /\ timers_ s = due now s ++ timers_ s0 /\ callingExpiredTimers_ s0 = true /\
  cancelingTimers_ s0 = [] /\ clock s0 = now.

(** What becomes of the timer [t] at [p] when the callbacks of the expired timers make
    the calls [ops].  Expired, it goes on at [now] plus its interval if it repeats and
    was not cancelled, and is freed otherwise; not expired, it stays as it is unless
    it was cancelled, when it is gone. *)
Definition outlives (now : Z) (s : TimerQueue) (ops : list user_op) (p : Z) (t : Timer) (s' : TimerQueue) : Prop :=
  let cancelled := Cancel (p, sequence_ t) ∈ ops in
  (p ∈ (due now s).*2 ->
     (repeat_ t = true -> ~ cancelled -> exists e, Timestamp.addTime now (interval_ t) = Ok e /\ (e, p) ∈ timers_ s' /\
        objects s' !! p = Some (mkTimer (callback_ t) e (interval_ t) true (sequence_ t))) /\
     (repeat_ t = false \/ cancelled -> objects s' !! p = None)) /\
  (p ∉ (due now s).*2 ->
     (~ cancelled -> objects s' !! p = Some t /\ (expiration_ t, p) ∈ timers_ s') /\
     (cancelled -> gone (p, sequence_ t) s')).

Lemma handleRead_full G now s :
  wf_with G s -> clock s <= now < 2 ^ 61 ->
  exists s' cbs, handleRead user now s = Ok (s', cbs) /\ wf_with G s' /\
    (forall p, p ∈ G -> objects s' !! p = objects s !! p) /\ numCreated s <= numCreated s' /\ same_or_new s s' /\
    Some <$> cbs = (fun ep => callback_ <$> objects s !! ep.2) <$> due now s /\
    exists s0 opss s1, taken_out now s s0 /\ callbacks_run (due now s) s0 opss s1 /\
      forall p t, objects s !! p = Some t -> p ∉ G -> outlives now s (concat opss) p t s'.
Proof.
  intros (H & Hcall & Harm) Hnow. unfold handleRead.
  pose proof (inv_clock _ _ H) as Hclk.
  set (s0 := mkTQ _ _ _ _ _ _ _ _).
  assert (inv G s0) as H0 by (destruct H; split; try done; cbn; lia).
  destruct (getExpired_spec G s0 now H0) as (s1 & exp & -> & H1 & Happ & Hexp & Hrest & Hobj & Eq1). bind_simpl.
  assert (due now s = exp) as Hdue by (unfold due; change (timers_ s) with (timers_ s0); rewrite Happ; by apply due_split).
  assert (inv (exp.*2 ++ G) (with_canceling true [] s1)) as H1' by (destruct H1; by split).
  destruct (run_expired_spec (exp.*2 ++ G) exp _ H1') as (s2 & cbs & opss & -> & H2 & U2 & Hcbs & Hrun & B1 & B2 & B3 & B4).
  { apply Forall_forall. set_solver. }
  bind_simpl. cbn in Hcbs.
  assert (inv (exp.*2 ++ G) (with_canceling false (cancelingTimers_ s2) s2)) as H2' by (destruct H2; by split).
  assert (set_sorted ltb2 (cancelingTimers_ s2)) as Hcs by (apply (und_sorted _ _ _ U2); constructor).
  unfold reset.
  destruct (reset_loop_spec G now exp _ H2' Hcs ltac:(lia)) as (s3 & -> & H3 & K1 & [K0 K0'] & K2 & K3 & K4 & K5). bind_simpl.
  cbn [cancelingTimers_ objects clock callingExpiredTimers_ with_canceling] in *.
  assert (exists s', (nextExpire ← match timers_ s3 with
                | [] => Ok Timestamp.invalid
                | (_, p) :: _ => timer ← deref p s3; Ok (expiration_ timer)
                end; Ok (if Timestamp.valid nextExpire then resetTimerfd nextExpire s3 else s3)) = Ok s' /\
      objects s' = objects s3 /\ timers_ s' = timers_ s3 /\ numCreated s' = numCreated s3 /\ clock s' = clock s3 /\ wf_with G s')
    as (s' & -> & Ho' & Ht' & Hn' & Hc' & Hwf).
  { destruct (timers_ s3) as [|[e p] l] eqn:El; bind_simpl.
    - exists s3. split_and!; try done. split_and!; [done|done|by left].
    - destruct (inv_t _ _ H3 e p) as (t & Ht & <- & _); [rewrite El; set_solver|].
      destruct (inv_good _ _ H3 _ _ Ht) as (_ & He & _). pose proof (inv_clock _ _ H3) as Hc3.
      unfold deref. rewrite Ht. bind_simpl. unfold Timestamp.valid.
      rewrite Z.gtb_ltb, (proj2 (Z.ltb_lt 0 _)) by lia.
      exists (resetTimerfd (expiration_ t) s3). split_and!; try done. split_and!; [by apply resetTimerfd_inv|done|].
      right. eexists. split; [by apply resetTimerfd_deadline|]. intros e' p' Hp'.
      rewrite resetTimerfd_timers, El in Hp'. rewrite resetTimerfd_clock.
      pose proof (inv_timers _ _ H3) as Hs3. rewrite El in Hs3. pose proof (timers_head _ _ _ _ _ Hs3 Hp'). lia. }
  bind_simpl. exists s', cbs. split; [done|]. split; [done|]. rewrite Hdue.
  pose proof (und_created _ _ _ U2) as Hcr. pose proof (und_clock _ _ _ U2) as Hck.
  assert (numCreated s1 = numCreated s /\ clock s1 = now) as [Hn1 Hc1] by (by rewrite Eq1).
  cbn [numCreated clock with_canceling] in *.
  split.
  { intros p Hp. pose proof (inv_nodup _ _ H1) as (_ & Hd & _)%NoDup_app. rewrite Ho', K4 by (intros ?; by apply (Hd p)).
    rewrite (und_flight _ _ _ U2) by set_solver. cbn. by rewrite Hobj. }
  split; [lia|]. split.
  { intros p t Ht. rewrite Ho' in Ht. destruct (K0' p t Ht) as [(t2 & Ht2 & E2)|?]; [|right; cbn in *; lia].
    destruct (und_same _ _ _ U2 p t2 Ht2) as [(t1 & Ht1 & E1)|?]; [|right; cbn in *; lia].
    left. exists t1. split; [|congruence]. cbn in Ht1. by rewrite Hobj in Ht1. }
  split; [by rewrite Hcbs, Hobj|]. exists (with_canceling true [] s1), opss, s2.
  split; [unfold taken_out; rewrite Hdue; split_and!; [exact Hobj|exact Happ|done|done|exact Hc1]|]. split; [done|]. intros p t Ht HG. unfold outlives. rewrite Hdue, Ho', Ht'.
  cbn [cancelingTimers_ callingExpiredTimers_ objects numCreated with_canceling] in B1, B2, B3, B4. split.
  - intros Hp. assert (objects s2 !! p = Some t) as Ht2 by (rewrite (und_flight _ _ _ U2) by set_solver; cbn; by rewrite Hobj).
    destruct (K5 p t Hp Ht2) as [Kgo Kstop]. unfold continues in Kgo, Kstop. cbn in Kgo, Kstop. split.
    + intros Hrep Hno. destruct Kgo as (e & Ea & Hin & Hobj'); [|exists e; by rewrite Hrep in Hobj'].
      split; [done|]. intros [?%elem_of_nil|?]%B1; done.
    + intros Hc. apply Kstop. intros [Hrep Hnc]. destruct Hc as [?|Hc]; [congruence|].
      apply Hnc, B2; [done|cbn; set_solver|done].
  - intros Hp. rewrite K4 by done. assert (p ∉ exp.*2 ++ G) as Hout by set_solver. split.
    + intros Hno. assert (objects s2 !! p = Some t) as Ht2 by (apply B3; [by rewrite Hobj|done]). split; [done|].
      assert (objects s3 !! p = Some t) as Ht3 by by rewrite K4.
      destruct (inv_own _ _ H3 p ltac:(by eexists)) as [?|[e He]]; [done|].
      destruct (inv_t _ _ H3 _ _ He) as (t3 & Ht3' & <- & _). by simplify_eq.
    + intros Hc. assert (gone (p, sequence_ t) s2) as Hg.
      { apply B4; [done| |done]. cbn. rewrite Hn1. by apply (inv_good _ _ H _ _ Ht). }
      eapply gone_stays; [|intros q tq Hq; rewrite Ho' in Hq; exact (K0' q tq Hq)|exact Hg]. rewrite Hn', K0. done.
Qed.

(** C11: When the timerfd fires, [handleRead] runs the callbacks of exactly the
    timers that have expired, once each and in the order of their expiration,
    whatever those callbacks add or cancel; no assertion fails and no freed
    timer is touched.  Afterwards an expired timer that repeats and that no callback
    cancelled, its own or another's, is queued again at [now] plus its interval;
    every other expired timer is freed; a timer that had not expired is as before,
    or gone if a callback cancelled it; and the timerfd is set for the next timer. *)
Theorem handleRead_spec now s :
  wf s -> clock s <= now < 2 ^ 61 ->
  exists s' cbs, handleRead user now s = Ok (s', cbs) /\ wf s' /\
    Some <$> cbs = (fun ep => callback_ <$> objects s !! ep.2) <$> due now s /\
    exists s0 opss s1, taken_out now s s0 /\ callbacks_run (due now s) s0 opss s1 /\
      forall p t, objects s !! p = Some t -> outlives now s (concat opss) p t s'.
Proof.
  intros Hwf Hnow. destruct (handleRead_full [] now s Hwf Hnow) as (s' & cbs & E & Hwf' & _ & _ & _ & Hcb & s0 & opss & s1 & ? & ? & Hall).
  exists s', cbs. split_and!; [done..|]. exists s0, opss, s1. split_and!; [done..|]. intros p t Ht. apply Hall; [done|apply not_elem_of_nil].
Qed.

(** What happens to a queue: operations from the loop thread, and the
    timerfd firing at some later time. *)
Inductive event := User (o : user_op) | Fire (now : Z).

Definition tq_step (ev : event) (s : TimerQueue) : outcome TimerQueue :=
  match ev with
  | User o => user_step o s
  | Fire now => '(s, _) ← handleRead user now s; Ok s
  end.

Definition valid_event (ev : event) (s : TimerQueue) : Prop :=
  match ev with User o => valid_op o s | Fire now => clock s <= now < 2 ^ 61 end.

Fixpoint tq_run (evs : list event) (s : TimerQueue) : outcome TimerQueue :=
  match evs with
  | [] => Ok s
  | ev :: evs' => s ← tq_step ev s; tq_run evs' s
  end.

Fixpoint valid_events (evs : list event) (s : TimerQueue) : Prop :=
  match evs with
  | [] => True
  | ev :: evs' => valid_event ev s /\ forall s', tq_step ev s = Ok s' -> valid_events evs' s'
  end.

Lemma new_queue_wf now : 0 < now < 2 ^ 61 -> wf (new_queue now).
Proof.
  intros Hnow. split_and!; [|done|by left]. split; cbn.
  all: first [ done | lia | by constructor | by intros e p ?%elem_of_nil | by intros p q ?%elem_of_nil
             | by intros p ?%elem_of_nil | by intros p [? ?] | idtac ].
Qed.

(** No timer is lost: after any sequence of additions, cancellations and
    expirations, with callbacks that add and cancel timers themselves, every
    timer object is queued under its expiration time in both sets, and the
    timerfd is armed to fire at the expiration of each queued timer or within
    100 microseconds of the present; no assertion ever fails. *)
Theorem timers_never_lost evs now :
  0 < now < 2 ^ 61 -> valid_events evs (new_queue now) ->
  exists s, tq_run evs (new_queue now) = Ok s /\
    (forall p t, objects s !! p = Some t ->
       (expiration_ t, p) ∈ timers_ s /\ (p, sequence_ t) ∈ activeTimers_ s /\
       exists d, timerfd_ s = Some d /\ d <= Z.max (expiration_ t) (clock s + 100)).
Proof.
  intros Hnow Hv.
  assert (exists s, tq_run evs (new_queue now) = Ok s /\ wf s) as (s & E & (H & _ & Harm)).
  { pose proof (new_queue_wf now Hnow) as Hwf.
    revert Hwf Hv. generalize (new_queue now). induction evs as [|ev evs IH]; intros s Hwf Hv; [by exists s|].
    destruct Hv as [Hev Hrest]. cbn [tq_run]. destruct ev as [o|t]; cbn [tq_step valid_event] in *.
    - pose proof Hwf as (Hi & Hc & Ha).
      destruct (user_step_spec [] s o Hi Hev) as (s1 & E & H1 & U & A). rewrite E. bind_simpl.
      apply IH; [|by apply Hrest]. split_and!; [done| |auto]. by rewrite (und_calling _ _ _ U).
    - destruct (handleRead_full [] t s Hwf Hev) as (s1 & cbs & E & Hwf1 & _). rewrite E in *. bind_simpl.
      apply IH; [done|]. apply Hrest. done. }
  exists s. split; [done|]. intros p t Ht.
  destruct (inv_own _ _ H p ltac:(by eexists)) as [Hf|[e He]]; [by apply elem_of_nil in Hf|].
  destruct (inv_t _ _ H _ _ He) as (t' & Ht' & <- & Ha). simplify_eq. split_and!; [done|done|].
  destruct Harm as [Hnil|(d & Hd & Hall)]; [by rewrite Hnil in He; apply elem_of_nil in He|].
  exists d. split; [done|]. by apply (Hall _ p).
Qed.
End handler.

(** ** Witnesses *)
Definition half_second : Timestamp.double := Timestamp.ddiv (Timestamp.double_of_Z 1) (Timestamp.double_of_Z 2).
Definition no_callbacks (cb : Z) (s : TimerQueue) : list user_op := [].

Lemma half_second_ok : interval_ok half_second.
Proof. exists 500000. split; [vm_compute; reflexivity|lia]. Qed.

Definition sample_events : list event := [User (Add 64 1 2000000 half_second); Fire 2000000].

Lemma sample_valid : valid_events no_callbacks sample_events (new_queue 1000000).
Proof.
  split.
  - split; [apply lookup_empty|]. split; [unfold max_address; lia|]. split; [lia|]. intros _. apply half_second_ok.
  - intros s' E. vm_compute in E. injection E as <-. split; [vm_compute; split; congruence|done].
Qed.

Lemma timers_never_lost_witness :
  exists s, tq_run no_callbacks sample_events (new_queue 1000000) = Ok s /\
    (forall p t, objects s !! p = Some t ->
       (expiration_ t, p) ∈ timers_ s /\ (p, sequence_ t) ∈ activeTimers_ s /\
       exists d, timerfd_ s = Some d /\ d <= Z.max (expiration_ t) (clock s + 100)).
Proof. apply timers_never_lost; [done|lia|apply sample_valid]. Defined.

(** Three timers: one that repeats and cancels the next one, which repeats too, and
    one that has not expired. *)
Definition canceling_callback (cb : Z) (s : TimerQueue) : list user_op := if cb =? 1 then [Cancel (80, 2)] else [].

Lemma canceling_callback_ok cb s : valid_ops (canceling_callback cb s) s.
Proof. unfold canceling_callback. by case_match. Qed.

Definition three_timers : list event :=
  [User (Add 64 1 2000000 half_second); User (Add 80 2 2000001 half_second); User (Add 96 3 9000000 half_second)].
Definition sample_queue : TimerQueue :=
  match tq_run no_callbacks three_timers (new_queue 1000000) with Ok s => s | Err _ => new_queue 0 end.

Lemma sample_queue_wf : wf sample_queue.
Proof.
  assert (forall p cb when iv s, wf s -> valid_op (Add p cb when iv) s -> forall s', user_step (Add p cb when iv) s = Ok s' -> wf s') as Hadd.
  { intros p cb when iv s (H & Hc & Ha) Hv s' E. destruct (user_step_spec [] s _ H Hv) as (s1 & E1 & H1 & U1 & A1).
    rewrite E in E1. injection E1 as <-. split_and!; [done|by rewrite (und_calling _ _ _ U1)|auto]. }
  assert (forall s p when, objects s !! p = None -> 0 < p < max_address -> 0 < when < 2 ^ 62 -> forall cb, valid_op (Add p cb when half_second) s) as Hv.
  { intros s p when Hp Hr Hw cb. split_and!; try done; try lia. intros _. apply half_second_ok. }
  unfold sample_queue, three_timers. cbn [tq_run tq_step].
  destruct (user_step (Add 64 1 2000000 half_second) _) as [s1|] eqn:E1; [|by vm_compute in E1].
  assert (wf s1) as H1 by (refine (Hadd _ _ _ _ _ _ _ _ E1); [apply (new_queue_wf 1000000); lia|apply Hv; [done|unfold max_address; lia|lia]]).
  vm_compute in E1. injection E1 as <-. bind_simpl.
  destruct (user_step (Add 80 2 2000001 half_second) _) as [s2|] eqn:E2; [|by vm_compute in E2].
  assert (wf s2) as H2 by (refine (Hadd _ _ _ _ _ H1 _ _ E2); apply Hv; [done|unfold max_address; lia|lia]).
  vm_compute in E2. injection E2 as <-. bind_simpl.
  destruct (user_step (Add 96 3 9000000 half_second) _) as [s3|] eqn:E3; [|by vm_compute in E3].
  refine (Hadd _ _ _ _ _ H2 _ _ E3). apply Hv; [done|unfold max_address; lia|lia].
Qed.

(** The first goes on, the second is freed, the third is untouched. *)
Lemma handleRead_spec_witness :
  exists s', handleRead canceling_callback 3000000 sample_queue = Ok (s', [1; 2]) /\ wf s' /\
    (3500000, 64) ∈ timers_ s' /\ objects s' !! 80 = None /\ (9000000, 96) ∈ timers_ s'.
Proof.
  destruct (handleRead_spec canceling_callback canceling_callback_ok 3000000 sample_queue)
    as (s' & cbs & E & Hwf & _ & s0 & opss & s1 & Hto & Hrun & Hall); [apply sample_queue_wf|vm_compute; split; congruence|].
  exists s'. assert (cbs = [1; 2]) as -> by (vm_compute in E; congruence). split; [exact E|]. split; [exact Hwf|].
  vm_compute in E. injection E as <-. vm_compute. split_and!; [set_solver|done|set_solver].
Defined.

End TimerQueue.
