(* ===== verification/LoopTimers.v ===== *)
(** * Timers of a loop, used from many threads
    ([src/net/TimerQueue.cpp], [addTimer] and [cancel] with [EventLoop::runInLoop])

    Other threads than the loop's make the timer object themselves and leave the
    insertion to a functor of the loop; a cancellation is a functor as well.  The
    loop takes functors in the order they were queued ([EventLoop]).  Only the
    functors of the timer queue are kept here. *)

From S2P Require Import Prelude CxxStd Timestamp TimerQueue.

Module LoopTimers.
Import TimerQueue.

Inductive functor :=
  | AddTimerInLoop (p : Z)
  | CancelInLoop (timerId : Z * Z).

Record state := mkState {
  queue : TimerQueue;
  pending : list functor;
  (** threads inside [addTimer], by the timer they made *)
  adding : list Z;
  (** history: ids cancelled by other threads, and the callbacks made *)
  revoked : list (Z * Z);
  fired : list Z }.

Definition start (now : Z) : state := mkState (new_queue now) [] [] [] [].

Definition run_functor (f : functor) (q : TimerQueue) : outcome TimerQueue :=
  match f with
  | AddTimerInLoop p => addTimerInLoop p q
  | CancelInLoop timerId => cancelInLoop timerId q
  end.

(** [EventLoop::runInLoop] with a functor of the timer queue. *)
Definition runInLoop (inLoop : bool) (f : functor) (s : state) : outcome state :=
  if inLoop then q ← run_functor f (queue s); Ok (mkState q (pending s) (adding s) (revoked s) (fired s))
  else Ok (mkState (queue s) (pending s ++ [f]) (adding s) (revoked s) (fired s)).

(** The statements of [addTimer] before its return. *)
Definition addTimer_begin (inLoop : bool) (p cb when : Z) (interval : Timestamp.double) (s : state) : outcome state :=
  runInLoop inLoop (AddTimerInLoop p) (mkState (new_timer p cb when interval (queue s)) (pending s) (adding s) (revoked s) (fired s)).

(** [return TimerId(timer, timer->sequence())] *)
Definition addTimer_return (p : Z) (s : state) : outcome (Z * Z) := timer ← deref p (queue s); Ok (p, sequence_ timer).

Definition cancel (inLoop : bool) (timerId : Z * Z) (s : state) : outcome state := runInLoop inLoop (CancelInLoop timerId) s.

Inductive event :=
  (** of other threads: [addTimer] up to its return, the return, [cancel] *)
  | OtherAdd (p cb when : Z) (interval : Timestamp.double)
  | OtherReturn (p : Z)
  | OtherCancel (timerId : Z * Z)
  (** of the loop thread: a call of user code, a functor, the timerfd *)
  | LoopCall (o : user_op)
  | LoopFunctor
  | LoopFire (now : Z).

Section loop.
Context (user : Z -> TimerQueue -> list user_op).

Definition step (e : event) (s : state) : outcome state :=
  match e with
  | OtherAdd p cb when interval =>
      s ← addTimer_begin false p cb when interval s;
      Ok (mkState (queue s) (pending s) (p :: adding s) (revoked s) (fired s))
  | OtherReturn p =>
      _ ← addTimer_return p s;
      Ok (mkState (queue s) (pending s) (filter (fun r => r <> p) (adding s)) (revoked s) (fired s))
  | OtherCancel timerId =>
      s ← cancel false timerId s;
      Ok (mkState (queue s) (pending s) (adding s) (timerId :: revoked s) (fired s))
  | LoopCall o => q ← user_step o (queue s); Ok (mkState q (pending s) (adding s) (revoked s) (fired s))
  | LoopFunctor =>
      match pending s with
      | [] => Ok s
      | f :: fs => runInLoop true f (mkState (queue s) fs (adding s) (revoked s) (fired s))
      end
  | LoopFire now => '(q, cbs) ← handleRead user now (queue s); Ok (mkState q (pending s) (adding s) (revoked s) (fired s ++ cbs))
  end.

Fixpoint run (es : list event) (s : state) : outcome state :=
  match es with
  | [] => Ok s
  | e :: es => s ← step e s; run es s
  end.

(** ** Histories *)

(** Timers are made at free addresses and with sane times; ids that are cancelled
    were given out; a thread gets back from [addTimer] before its timer is freed. *)
Definition valid (e : event) (s : state) : Prop :=
  match e with
  | OtherAdd p cb when interval => valid_op (Add p cb when interval) (queue s)
  | OtherReturn p => is_Some (objects (queue s) !! p)
  | OtherCancel timerId => timerId.2 <= numCreated (queue s)
  | LoopCall o => valid_op o (queue s)
  | LoopFunctor => True
  | LoopFire now => clock (queue s) <= now < 2 ^ 61
  end.

Fixpoint valid_run (es : list event) (s : state) : Prop :=
  match es with
  | [] => True
  | e :: es => valid e s /\ forall s', step e s = Ok s' -> valid_run es s'
  end.

(** ** Invariant *)

(** The timers that wait to be inserted. *)
Definition waiting (fs : list functor) : list Z := omap (fun f => match f with AddTimerInLoop p => Some p | _ => None end) fs.

(** A cancellation does not come before the insertion of its timer. *)
Definition ordered (fs : list functor) (q : TimerQueue) : Prop :=
  forall fs1 id fs2, fs = fs1 ++ CancelInLoop id :: fs2 ->
    id.2 <= numCreated q /\ (id.1 ∈ waiting fs2 -> gone id q).

Record inv (s : state) : Prop := {
  i_wf : wf_with (waiting (pending s)) (queue s);
  i_ordered : ordered (pending s) (queue s);
  i_revoked : forall id, id ∈ revoked s -> CancelInLoop id ∈ pending s \/ gone id (queue s) }.

Lemma waiting_app fs1 fs2 : waiting (fs1 ++ fs2) = waiting fs1 ++ waiting fs2.
Proof. apply omap_app. Qed.

Lemma ordered_stays fs q q' : numCreated q <= numCreated q' -> same_or_new q q' -> ordered fs q -> ordered fs q'.
Proof.
  intros Hn Hs Ho fs1 id fs2 E. destruct (Ho fs1 id fs2 E) as [Hid Hw]. split; [lia|]. intros Hin. eapply gone_stays; [done..|by apply Hw].
Qed.

(** The loop thread works on the queue alone. *)
Lemma loop_inv_queue s q fs :
  inv s -> wf_with (waiting (pending s)) q -> numCreated (queue s) <= numCreated q -> same_or_new (queue s) q ->
  inv (mkState q (pending s) (adding s) (revoked s) fs).
Proof.
  intros [Hwf Ho Hr] Hq Hn Hs. split; [done|by eapply ordered_stays|]. cbn. intros id Hid.
  destruct (Hr id Hid) as [?|?]; [by left|right]. by eapply gone_stays.
Qed.

Lemma inv_perm F F' q : F ≡ₚ F' -> TimerQueue.inv F q -> TimerQueue.inv F' q.
Proof.
  intros HP H. split; try apply H.
  - rewrite <- HP. apply H.
  - intros p Hp. apply (inv_flight _ _ H). by rewrite HP.
  - intros p Hp. destruct (inv_own _ _ H p Hp) as [?|?]; [left; by rewrite <- HP|by right].
Qed.

(** A functor is queued behind the others. *)
Lemma ordered_snoc fs f q :
  ordered fs q -> (forall id, f = CancelInLoop id -> id.2 <= numCreated q) ->
  (forall id, CancelInLoop id ∈ fs -> id.2 <= numCreated q -> id.1 ∈ waiting [f] -> gone id q) -> ordered (fs ++ [f]) q.
Proof.
  intros Ho Hc Ha fs1 id fs2 E. destruct fs2 as [|y fs2 _] using rev_ind.
  - apply app_inj_tail in E as [-> ->]. split; [by apply Hc|by intros ?%elem_of_nil].
  - rewrite app_comm_cons, app_assoc in E. apply app_inj_tail in E as [-> ->]. destruct (Ho fs1 id fs2 eq_refl) as [Hid Hw].
    split; [done|]. rewrite waiting_app. intros [Hin|Hin]%elem_of_app; [by apply Hw|]. apply Ha; [set_solver|done..].
Qed.

Lemma other_add_inv p cb when interval s :
  inv s -> valid (OtherAdd p cb when interval) s -> exists s', step (OtherAdd p cb when interval) s = Ok s' /\ inv s'.
Proof.
  intros [(Hq & Hc & Ha) Ho Hr] (Hp & Hpr & Hw & Hiv). eexists. split; [done|]. cbn [queue pending adding revoked fired].
  pose proof (new_timer_spec _ _ p cb when interval Hq Hp Hpr Hw Hiv) as Hq'.
  assert (numCreated (queue s) <= numCreated (new_timer p cb when interval (queue s))) as Hn by (cbn; lia).
  assert (same_or_new (queue s) (new_timer p cb when interval (queue s))) as Hs.
  { intros r t. cbn. intros [[<- <-]|[_ Hr']]%lookup_insert_Some; [right; cbn; lia|left; by eexists]. }
  split; cbn [queue pending adding revoked fired].
  - split_and!; [|done|done]. rewrite waiting_app. eapply inv_perm; [|exact Hq']. cbn. solve_Permutation.
  - apply ordered_snoc; [by eapply ordered_stays|done|]. intros id Hin Hid Heq. cbn in Heq. apply list_elem_of_singleton in Heq.
    destruct (list_elem_of_split _ _ Hin) as (fs1 & fs2 & E). destruct (Ho _ _ _ E) as [Hid' _].
    split; [done|]. intros t. rewrite Heq. cbn. rewrite lookup_insert_eq. intros [= <-]. cbn. lia.
  - intros id Hid. destruct (Hr id Hid); [left; set_solver|right; by eapply gone_stays].
Qed.

Lemma functor_inv s : inv s -> exists s', step LoopFunctor s = Ok s' /\ inv s'.
Proof.
  intros Hi. pose proof Hi as [(Hq & Hc & Ha) Ho Hr]. cbn [step]. destruct (pending s) as [|f fs] eqn:E; [by exists s|].
  assert (ordered fs (queue s)) as Ho'. { intros fs1 id fs2 ->. by apply (Ho (f :: fs1) id fs2). }
  unfold runInLoop. cbn [queue pending adding revoked fired]. destruct f as [p|id]; cbn [run_functor].
  - destruct (addTimerInLoop_spec _ _ _ Hq) as (q' & -> & Hq' & Hob & Hc' & _ & _ & Hn & Ha'). bind_simpl. eexists. split; [done|].
    assert (same_or_new (queue s) q') as Hs by (intros r t; rewrite Hob; left; by eexists).
    split; cbn; [by split_and!; [..|congruence|auto]|by apply (ordered_stays _ (queue s)); [lia|..]|].
    intros id Hid. destruct (Hr id Hid) as [?|?]; [left; set_solver|right; apply (gone_stays _ (queue s)); [lia|done..]].
  - destruct (cancel_spec _ _ id Hq) as (q' & -> & Hq' & U & Ha' & _ & _ & Hact). bind_simpl. eexists. split; [done|].
    pose proof (und_created _ _ _ U) as Hn. pose proof (und_same _ _ _ U) as Hs. destruct (Ho [] id fs eq_refl) as [Hid Hw].
    split; cbn; [split_and!; [done|by rewrite (und_calling _ _ _ U)|auto]|by eapply ordered_stays|].
    intros id' Hid'. destruct (Hr id' Hid') as [[[= ->]|?]%elem_of_cons|?]; [right|by left|right; by eapply gone_stays].
    apply (cancel_gone (waiting fs)); [done|lia|done|]. intros Hin. eapply gone_stays; [done..|by apply Hw].
Qed.

Context (user_ok : forall cb q, valid_ops (user cb q) q).

Lemma loop_step_inv e s : inv s -> valid e s -> exists s', step e s = Ok s' /\ inv s'.
Proof.
  intros Hi Hv. pose proof Hi as [(Hq & Hc & Ha) Ho Hr]. destruct e as [p cb when iv|p|id|o| |now].
  - by apply other_add_inv.
  - destruct Hv as [t Ht]. cbn [step]. unfold addTimer_return, deref. rewrite Ht. bind_simpl. eexists. split; [done|]. by split.
  - eexists. split; [done|]. cbn in Hv. split; cbn [queue pending adding revoked fired].
    + by rewrite waiting_app, app_nil_r.
    + apply ordered_snoc; [done|by intros ? [= <-]|by intros ? _ _ ?%elem_of_nil].
    + intros id' [->|Hid]%elem_of_cons; [left; set_solver|]. destruct (Hr id' Hid); [left; set_solver|by right].
  - destruct (user_step_spec _ _ o Hq Hv) as (q & E & Hq' & U & A). cbn [step]. rewrite E. bind_simpl. eexists. split; [done|].
    apply loop_inv_queue; [done| |by apply (und_created _ _ _ U)|apply (und_same _ _ _ U)]. split_and!; [done|by rewrite (und_calling _ _ _ U)|auto].
  - by apply functor_inv.
  - destruct (handleRead_full user user_ok _ now (queue s) (i_wf _ Hi) Hv) as (q & cbs & E & Hwf & _ & Hn & Hs & _). cbn [step].
    rewrite E. bind_simpl. eexists. split; [done|]. by apply loop_inv_queue.
Qed.

Lemma loop_run_inv es : forall s, inv s -> valid_run es s -> exists s', run es s = Ok s' /\ inv s'.
Proof.
  induction es as [|e es IH]; intros s Hi Hv; cbn [run]; [by exists s|]. destruct Hv as [Hv Hvs].
  destruct (loop_step_inv e s Hi Hv) as (s1 & E & Hi1). rewrite E. bind_simpl. apply IH; [done|]. by apply Hvs.
Qed.

Lemma start_inv now : 0 < now < 2 ^ 61 -> inv (start now).
Proof.
  intros Hnow. split; cbn; [by apply new_queue_wf|by intros [|? fs1] id fs2|by intros ? ?%elem_of_nil].
Qed.

(** The pending functors, run one after the other. *)
Lemma drain_inv n : forall s, inv s -> length (pending s) = n ->
  exists s', run (replicate n LoopFunctor) s = Ok s' /\ inv s' /\ pending s' = [] /\ revoked s' = revoked s.
Proof.
  induction n as [|n IH]; intros s Hi Hl; cbn [replicate run].
  { exists s. split_and!; [done..|by apply nil_length_inv|done]. }
  destruct (functor_inv s Hi) as (s1 & E & Hi1). rewrite E. bind_simpl.
  assert (pending s1 = tail (pending s) /\ revoked s1 = revoked s) as [Hp Hrv].
  { cbn [step] in E. destruct (pending s) as [|f fs]; [done|]. unfold runInLoop in E. cbn [queue pending adding revoked fired] in E.
    apply bind_Ok in E as (q & _ & E). by injection E as <-. }
  destruct (IH s1 Hi1) as (s' & E' & Hi' & Hp' & Hrv'); [rewrite Hp; destruct (pending s); cbn in *; lia|].
  exists s'. split_and!; [done..|congruence].
Qed.

End loop.

(** ** Where it goes wrong *)

Definition once : Timestamp.double := Timestamp.double_of_Z 0.

(** The loop thread cancels a timer that another thread made, with the id that
    thread handed on, before the functor that inserts it has run: the cancellation
    finds nothing and the timer fires. *)
Theorem early_cancel_is_lost :
  match run no_callbacks [OtherAdd 64 5 2000000 once; OtherReturn 64; LoopCall (Cancel (64, 1)); LoopFunctor; LoopFire 2000000] (start 1000000) with
  | Ok s => fired s = [5]
  | Err _ => False
  end.
Proof. vm_compute. reflexivity. Qed.

(** [addTimer] reads the number of the timer after it has given the timer away: a
    timer that is due at once may have fired and been deleted. *)
Theorem addTimer_return_dangles :
  run no_callbacks [OtherAdd 64 5 1000000 once; LoopFunctor; LoopFire 1000100; OtherReturn 64] (start 1000000) = Err OutOfBounds.
Proof. vm_compute. reflexivity. Qed.

(** ** Witness *)

Definition sample : list event :=
  [OtherAdd 64 5 2000000 once; OtherReturn 64; OtherAdd 128 6 1500000 half_second; OtherCancel (64, 1); LoopFunctor; LoopFunctor; LoopFunctor; LoopFire 1500000].

Lemma once_ok : Timestamp.dpositive once = true -> interval_ok once.
Proof. intros H. vm_compute in H. discriminate H. Qed.

End LoopTimers.
