(* ===== verification/EventLoop.v ===== *)
(** * The event loop
    ([src/net/EventLoop.h], [EventLoop.cpp])

    [loop()] and the functions that other threads call are programs of atomic
    operations; a configuration has the loop's state and, for every thread,
    the operations it has left.  Any thread may take the next step.  The
    critical sections of [mutex_] are single operations, and so is each system
    call on the eventfd.  User code is a list of calls to the loop's thread
    safe interface: [body f] is what functor [f] does, [event_calls c] what the
    callbacks of channel [c] do. *)

From S2P Require Import Prelude CxxStd Channel Timestamp TimerQueue Poller.

Module EventLoop.

(** The address of [wakeupChannel_]. *)
Definition wakeupChannel_ : Z := 0.

Record EventLoop := mkLoop {
  looping_ : bool;
  quit_ : bool;
  eventHandling_ : bool;
  callingPendingFunctors_ : bool;
  iteration_ : Z;
  threadId_ : Z;
  (** the counter of the eventfd [wakeupFd_] *)
  wakeupFd_ : Z;
  activeChannels_ : list Z;
  currentActiveChannel_ : option Z;
  pendingFunctors_ : list Z;
  (** history: the functors queued so far, and those of them that have run *)
  queued : list Z;
  ran : list Z }.

(** The members the constructor initialises; it refuses a second loop in a
    thread, whose loop [t_loopInThisThread] is. *)
Definition construct (t_loopInThisThread : option Z) (this tid : Z) : outcome (EventLoop * option Z) :=
  match t_loopInThisThread with
  | Some _ => Err Fatal
  | None => Ok (mkLoop false false false false 0 tid 0 [] None [] [] [], Some this)
  end.

Definition new_loop (tid : Z) : EventLoop := mkLoop false false false false 0 tid 0 [] None [] [] [].

Definition isInLoopThread (tid : Z) (s : EventLoop) : bool := threadId_ s =? tid.
Definition assertInLoopThread (tid : Z) (s : EventLoop) : outcome unit :=
  if negb (isInLoopThread tid s) then Err Fatal else Ok ().
Definition queueSize (s : EventLoop) : Z := zlen (pendingFunctors_ s).

(** ** Updates of single members *)

Definition set_running (l q : bool) (s : EventLoop) : EventLoop :=
  mkLoop l q (eventHandling_ s) (callingPendingFunctors_ s) (iteration_ s) (threadId_ s) (wakeupFd_ s)
    (activeChannels_ s) (currentActiveChannel_ s) (pendingFunctors_ s) (queued s) (ran s).
Definition set_handling (e : bool) (i : Z) (a : list Z) (c : option Z) (s : EventLoop) : EventLoop :=
  mkLoop (looping_ s) (quit_ s) e (callingPendingFunctors_ s) i (threadId_ s) (wakeupFd_ s) a c
    (pendingFunctors_ s) (queued s) (ran s).
Definition set_calling (b : bool) (s : EventLoop) : EventLoop :=
  mkLoop (looping_ s) (quit_ s) (eventHandling_ s) b (iteration_ s) (threadId_ s) (wakeupFd_ s)
    (activeChannels_ s) (currentActiveChannel_ s) (pendingFunctors_ s) (queued s) (ran s).
Definition set_wakeup (n : Z) (s : EventLoop) : EventLoop :=
  mkLoop (looping_ s) (quit_ s) (eventHandling_ s) (callingPendingFunctors_ s) (iteration_ s) (threadId_ s) n
    (activeChannels_ s) (currentActiveChannel_ s) (pendingFunctors_ s) (queued s) (ran s).
Definition set_functors (p q r : list Z) (s : EventLoop) : EventLoop :=
  mkLoop (looping_ s) (quit_ s) (eventHandling_ s) (callingPendingFunctors_ s) (iteration_ s) (threadId_ s)
    (wakeupFd_ s) (activeChannels_ s) (currentActiveChannel_ s) p q r.

(** ** Programs *)

(** The calls user code makes. *)
Inductive call := RunInLoop (f : Z) | QueueInLoop (f : Z) | Quit.

Inductive op :=
  | Call (c : call)
  | RunNow (f : Z)
  (** queueInLoop *)
  | PushLocked (f : Z) | WakeIfNeeded
  (** wakeup *)
  | WriteEventfd
  (** quit *)
  | SetQuit | WakeIfOther
  (** loop *)
  | LoopEnter | WhileNotQuit | PollReturns | HandleEvent (c : Z) | EventsHandled
  (** handleRead *)
  | ReadEventfd
  (** doPendingFunctors *)
  | BeginPending | SwapLocked | RunFunctor (f : Z) | EndPending.

#[global] Instance call_eq_dec : EqDecision call.
Proof. solve_decision. Defined.
#[global] Instance op_eq_dec : EqDecision op.
Proof. solve_decision. Defined.

Definition wakeup : list op := [WriteEventfd].
Definition queueInLoop (f : Z) : list op := [PushLocked f; WakeIfNeeded].
Definition quit : list op := [SetQuit; WakeIfOther].
Definition runInLoop (tid f : Z) (s : EventLoop) : list op :=
  if isInLoopThread tid s then [RunNow f] else queueInLoop f.
Definition loop : list op := [LoopEnter; WhileNotQuit].
Definition handleRead : list op := [ReadEventfd].
Definition doPendingFunctors : list op := [BeginPending; SwapLocked].

(** Adding 1 to an eventfd: the counter holds at most [2^64 - 2], beyond which
    a non-blocking write fails and changes nothing. *)
Definition eventfd_add (n : Z) : Z := if n <? 2 ^ 64 - 2 then n + 1 else n.

Section machine.
Context (body event_calls : Z -> list call).

(** One operation of thread [tid]: the new state and what the thread does next. *)
Definition exec (tid : Z) (ready : list Z) (o : op) (s : EventLoop) : outcome (EventLoop * list op) :=
  match o with
  | Call (RunInLoop f) => Ok (s, runInLoop tid f s)
  | Call (QueueInLoop f) => Ok (s, queueInLoop f)
  | Call Quit => Ok (s, quit)
  | RunNow f => Ok (s, Call <$> body f)
  | PushLocked f => Ok (set_functors (pendingFunctors_ s ++ [f]) (queued s ++ [f]) (ran s) s, [])
  | WakeIfNeeded =>
      Ok (s, if negb (isInLoopThread tid s) || callingPendingFunctors_ s then wakeup else [])
  | WriteEventfd => Ok (set_wakeup (eventfd_add (wakeupFd_ s)) s, [])
  | SetQuit => Ok (set_running (looping_ s) true s, [])
  | WakeIfOther => Ok (s, if negb (isInLoopThread tid s) then wakeup else [])
  | LoopEnter =>
      _ ← assert_ (negb (looping_ s));
      _ ← assertInLoopThread tid s;
      Ok (set_running true false s, [])
  | WhileNotQuit =>
      if negb (quit_ s) then
        Ok (set_handling (eventHandling_ s) (iteration_ s) [] (currentActiveChannel_ s) s, [PollReturns])
      else Ok (set_running false (quit_ s) s, [])
  | PollReturns =>
      Ok (set_handling true (iteration_ s + 1) ready (currentActiveChannel_ s) s,
          (HandleEvent <$> ready) ++ [EventsHandled] ++ doPendingFunctors ++ [WhileNotQuit])
  | HandleEvent c =>
      Ok (set_handling (eventHandling_ s) (iteration_ s) (activeChannels_ s) (Some c) s,
          if c =? wakeupChannel_ then handleRead else Call <$> event_calls c)
  | EventsHandled => Ok (set_handling false (iteration_ s) (activeChannels_ s) None s, [])
  | ReadEventfd => Ok (set_wakeup 0 s, [])
  | BeginPending => Ok (set_calling true s, [])
  | SwapLocked =>
      let functors := pendingFunctors_ s in
      Ok (set_functors [] (queued s) (ran s) s, (RunFunctor <$> functors) ++ [EndPending])
  | RunFunctor f => Ok (set_functors (pendingFunctors_ s) (queued s) (ran s ++ [f]) s, Call <$> body f)
  | EndPending => Ok (set_calling false s, [])
  end.

(** [poller_->poll] returns the channels that are ready, the wakeup channel
    among them exactly when the eventfd's counter is not zero; none at all
    only when [kPollTimeMs] have passed. *)
Definition poll_returns (ready : list Z) (s : EventLoop) : Prop :=
  NoDup ready /\ (wakeupChannel_ ∈ ready <-> 0 < wakeupFd_ s).

Abbreviation threads := (gmap Z (list op)).

Definition config : Type := EventLoop * threads.

(** Thread [tid] makes one step. *)
Inductive step_of (tid : Z) : config -> config -> Prop :=
  | step_op s ths o k ready s' ops :
      ths !! tid = Some (o :: k) ->
      (o = PollReturns -> poll_returns ready s) ->
      exec tid ready o s = Ok (s', ops) ->
      step_of tid (s, ths) (s', <[tid := ops ++ k]> ths).

Definition step (c c' : config) : Prop := exists tid, step_of tid c c'.

(** A loop whose thread runs [k] while the threads of [others] run calls. *)
Definition start (main : Z) (k : list op) (others : gmap Z (list call)) : config :=
  (new_loop main, <[main := k]> ((fun cs : list call => Call <$> cs : list op) <$> others)).

(** ** The functors a thread is about to run *)
Definition functor_of (o : op) : option Z := match o with RunFunctor f => Some f | _ => None end.
Definition in_flight (k : list op) : list Z := omap functor_of k.

(** ** The shape of the threads' programs *)

(** What user code expands to. *)
Definition user_op (o : op) : bool :=
  match o with
  | Call _ | RunNow _ | PushLocked _ | WakeIfNeeded | WriteEventfd | SetQuit | WakeIfOther => true
  | _ => false
  end.

(** In user code a push is followed by its wakeup test, and so is setting [quit_]. *)
Fixpoint user_ops (k : list op) : bool :=
  match k with
  | [] => true
  | PushLocked _ :: k' => match k' with WakeIfNeeded :: _ => user_ops k' | _ => false end
  | SetQuit :: k' => match k' with WakeIfOther :: _ => user_ops k' | _ => false end
  | o :: k' => user_op o && user_ops k'
  end.

(** What the loop thread has left, below the user code it is running. *)
Inductive frame : Type :=
  | Outside | Entering | Testing | Polling
  | Handling (rest : list Z) | BeforePending | BeforeSwap
  | Running (rest : list Z).

Definition frame_ops (f : frame) : list op :=
  match f with
  | Outside => []
  | Entering => loop
  | Testing => [WhileNotQuit]
  | Polling => [PollReturns]
  | Handling rest => (HandleEvent <$> rest) ++ [EventsHandled] ++ doPendingFunctors ++ [WhileNotQuit]
  | BeforePending => doPendingFunctors ++ [WhileNotQuit]
  | BeforeSwap => [SwapLocked; WhileNotQuit]
  | Running rest => (RunFunctor <$> rest) ++ [EndPending; WhileNotQuit]
  end.

(** The flags that go with a frame: [looping_], [eventHandling_] and
    [callingPendingFunctors_]. *)
Definition frame_flags (f : frame) : bool * bool * bool :=
  match f with
  | Outside | Entering => (false, false, false)
  | Testing | Polling | BeforePending => (true, false, false)
  | Handling _ => (true, true, false)
  | BeforeSwap | Running _ => (true, false, true)
  end.

(** Frames below which user code runs. *)
Definition may_call (f : frame) : bool :=
  match f with Handling _ | Running _ => true | _ => false end.

Definition shape (f : frame) (us k : list op) : Prop :=
  k = us ++ frame_ops f /\
  (us = [] \/ may_call f = true /\ user_ops us \/ (exists rest, f = Handling rest) /\ us = [ReadEventfd]).

Definition flags (s : EventLoop) : bool * bool * bool :=
  (looping_ s, eventHandling_ s, callingPendingFunctors_ s).

Definition wakes (s : EventLoop) (tid : Z) (o : op) : bool :=
  match o with
  | WriteEventfd => true
  | WakeIfNeeded => negb (isInLoopThread tid s) || callingPendingFunctors_ s
  | WakeIfOther => negb (isInLoopThread tid s)
  | _ => false
  end.

(** The poll will return: the eventfd is readable, or a thread will write to it. *)
Definition wakeup_due (c : config) : Prop :=
  0 < wakeupFd_ c.1 \/ exists tid k o, c.2 !! tid = Some k /\ o ∈ k /\ wakes c.1 tid o.

Definition reaches_swap (f : frame) : bool :=
  match f with Handling _ | BeforePending | BeforeSwap => true | _ => false end.

Record inv (main : Z) (c : config) : Prop := {
  inv_main : threadId_ c.1 = main;
  inv_others tid k : tid <> main -> c.2 !! tid = Some k -> user_ops k;
  inv_wakeup : 0 <= wakeupFd_ c.1;
  inv_frame : exists f us k, c.2 !! main = Some k /\ shape f us k /\ flags c.1 = frame_flags f /\
    queued c.1 = ran c.1 ++ in_flight k ++ pendingFunctors_ c.1 /\
    (pendingFunctors_ c.1 <> [] -> reaches_swap f = true \/ wakeup_due c) /\
    (f = Polling -> quit_ c.1 = true -> wakeup_due c) }.

Lemma user_ops_app k1 k2 : user_ops k1 -> user_ops k2 -> user_ops (k1 ++ k2).
Proof.
  intros H1 H2. induction k1 as [|o k1 IH]; [done|].
  destruct o; cbn [user_ops user_op andb app] in *; try done; try by auto.
  - destruct k1 as [|[] k1]; try done. apply IH, H1.
  - destruct k1 as [|[] k1]; try done. apply IH, H1.
Qed.

Lemma user_ops_cons o k : user_ops (o :: k) -> user_op o /\ user_ops k.
Proof. destruct o; cbn [user_ops user_op andb]; try done; destruct k as [|[] k]; done. Qed.

Lemma user_ops_calls (l : list call) : user_ops (Call <$> l).
Proof. by induction l. Qed.

Lemma eventfd_add_pos n : 0 <= n -> 0 < eventfd_add n.
Proof. intros. unfold eventfd_add. destruct (Z.ltb_spec n (2 ^ 64 - 2)); lia. Qed.

Lemma in_flight_app k1 k2 : in_flight (k1 ++ k2) = in_flight k1 ++ in_flight k2.
Proof. apply omap_app. Qed.

Lemma in_flight_user us : user_ops us -> in_flight us = [].
Proof. induction us as [|o us IH]; [done|]. intros [Ho Hus]%user_ops_cons. destruct o; try done; by apply IH. Qed.

Lemma in_flight_functors l : in_flight (RunFunctor <$> l) = l.
Proof. induction l as [|f l IH]; [done|]. cbn. by f_equal. Qed.

Lemma in_flight_handlers l : in_flight (HandleEvent <$> l) = [].
Proof. by induction l. Qed.

Lemma in_flight_frame f : in_flight (frame_ops f) = match f with Running rest => rest | _ => [] end.
Proof.
  destruct f; cbn [frame_ops]; try done.
  - by rewrite in_flight_app, in_flight_handlers.
  - by rewrite in_flight_app, in_flight_functors, app_nil_r.
Qed.

Hint Rewrite in_flight_app in_flight_functors in_flight_handlers in_flight_frame : in_flight.

(** User operations leave the flags and the history alone, except for queueing. *)
Lemma exec_user tid ready o s s' ops :
  user_op o -> exec tid ready o s = Ok (s', ops) ->
  flags s' = flags s /\ threadId_ s' = threadId_ s /\ user_ops ops /\ ran s' = ran s /\
  (exists l, pendingFunctors_ s' = pendingFunctors_ s ++ l /\ queued s' = queued s ++ l) /\
  (0 <= wakeupFd_ s -> 0 <= wakeupFd_ s').
Proof.
  intros Ho E.
  assert (forall b : bool, user_ops (if b then wakeup else [])) as Hw by by intros [].
  assert (exists l, pendingFunctors_ s = pendingFunctors_ s ++ l /\ queued s = queued s ++ l) as Hl
    by (exists []; by rewrite !app_nil_r).
  destruct o as [[]| | | | | | | | | | | | | | | | ]; try done; cbn in E; simplify_eq; cbn;
    split_and!; try done.
  - unfold runInLoop. by case_match.
  - by apply user_ops_calls.
  - by exists [f].
  - by intros ?%eventfd_add_pos; lia.
Qed.

(** A thread that is about to wake the loop up still is after a step of any
    thread, or has done it. *)
Lemma due_step tid s ths o k ready s' ops :
  ths !! tid = Some (o :: k) -> exec tid ready o s = Ok (s', ops) -> 0 <= wakeupFd_ s ->
  o <> ReadEventfd -> o <> EndPending ->
  wakeup_due (s, ths) -> wakeup_due (s', <[tid := ops ++ k]> ths).
Proof.
  intros Hk E Hpos Hr He [Hw|(t & k' & o' & Ht & Ho' & Hw)]; unfold wakeup_due; cbn in *.
  { left. destruct o as [[]| | | | | | | | | | | | | | | | ]; cbn in E; outcome_inv E; simplify_eq; cbn; try done.
    - by apply eventfd_add_pos.
    - destruct (negb (quit_ s)); by simplify_eq. }
  assert (forall x, wakes s t x -> wakes s' t x) as Hmono.
  { intros x. unfold wakes, isInLoopThread.
    destruct o as [[]| | | | | | | | | | | | | | | | ]; cbn in E; outcome_inv E; simplify_eq; cbn; try done.
    - destruct (negb (quit_ s)); by simplify_eq.
    - by destruct x; rewrite ?orb_true_r. }
  destruct (decide (t = tid)) as [->|Hne].
  2: { right. exists t, k', o'. rewrite lookup_insert_ne by done. auto. }
  rewrite Hk in Ht. simplify_eq. apply elem_of_cons in Ho' as [->|Ho'].
  2: { right. exists tid, (ops ++ k), o'. rewrite lookup_insert_eq, elem_of_app. auto. }
  destruct o as [[]| | | | | | | | | | | | | | | | ]; cbn in Hw; try done; cbn in E.
  - rewrite (Is_true_true_1 _ Hw) in E. simplify_eq. right. exists tid, (wakeup ++ k), WriteEventfd.
    rewrite lookup_insert_eq. split_and!; [done|by left|done].
  - simplify_eq. left. by apply eventfd_add_pos.
  - rewrite (Is_true_true_1 _ Hw) in E. simplify_eq. right. exists tid, (wakeup ++ k), WriteEventfd.
    rewrite lookup_insert_eq. split_and!; [done|by left|done].
Qed.


(** After a push the wakeup is still to come, unless the loop will swap anyway. *)
Lemma user_step_pending (R : Prop) tid s ths o us rest ready s' ops :
  ths !! tid = Some (o :: us ++ rest) -> user_ops (o :: us) -> exec tid ready o s = Ok (s', ops) ->
  0 <= wakeupFd_ s ->
  (R \/ isInLoopThread tid s = false \/ callingPendingFunctors_ s = true) ->
  (pendingFunctors_ s <> [] -> R \/ wakeup_due (s, ths)) ->
  pendingFunctors_ s' <> [] -> R \/ wakeup_due (s', <[tid := ops ++ us ++ rest]> ths).
Proof.
  intros Hk Hu E Hpos Hw Hp Hp'. destruct Hw as [Hw|Hw]; [by left|].
  destruct (decide (pendingFunctors_ s' = pendingFunctors_ s)) as [Heq|Hne].
  { destruct Hp as [?|Hd]; [by rewrite <- Heq|by left|right].
    pose proof (proj1 (user_ops_cons _ _ Hu)). eapply due_step; eauto; by intros ->. }
  destruct o as [[]| | | | | | | | | | | | | | | | ]; try done; cbn in E; simplify_eq; try done.
  right. right. cbn in Hu. destruct us as [|[] us]; try done.
  exists tid, ([] ++ (WakeIfNeeded :: us) ++ rest), WakeIfNeeded. cbn. rewrite lookup_insert_eq.
  split_and!; [done|by left|]. unfold isInLoopThread in *. cbn.
  destruct Hw as [->| ->]; by rewrite ?orb_true_r.
Qed.

Lemma user_step_quit tid s ths o us rest ready s' ops :
  ths !! tid = Some (o :: us ++ rest) -> user_ops (o :: us) -> exec tid ready o s = Ok (s', ops) ->
  0 <= wakeupFd_ s -> isInLoopThread tid s = false ->
  (quit_ s = true -> wakeup_due (s, ths)) ->
  quit_ s' = true -> wakeup_due (s', <[tid := ops ++ us ++ rest]> ths).
Proof.
  intros Hk Hu E Hpos Hw Hp Hq'.
  destruct (decide (o = SetQuit)) as [->|Hne].
  - cbn in E, Hu. simplify_eq. destruct us as [|[] us]; try done.
    right. exists tid, ([] ++ (WakeIfOther :: us) ++ rest), WakeIfOther. cbn. rewrite lookup_insert_eq.
    split_and!; [done|by left|]. unfold isInLoopThread in *. cbn. by rewrite Hw.
  - pose proof (proj1 (user_ops_cons _ _ Hu)).
    eapply due_step; eauto; [by intros ->|by intros ->|]. apply Hp.
    destruct o as [[]| | | | | | | | | | | | | | | | ]; try done; cbn in E; by simplify_eq.
Qed.

(** ** Preservation *)

Lemma inv_step_other main tid s ths o k ready s' ops :
  tid <> main -> inv main (s, ths) -> ths !! tid = Some (o :: k) -> exec tid ready o s = Ok (s', ops) ->
  inv main (s', <[tid := ops ++ k]> ths).
Proof.
  intros Hne [Hmain Hothers Hpos (f & us & km & Hkm & Hsh & Hfl & Hq & Hp & Hquit)] Hk E. cbn in *.
  pose proof (Hothers _ _ Hne Hk) as Hu. pose proof (user_ops_cons _ _ Hu) as [Ho Hu'].
  destruct (exec_user _ _ _ _ _ _ Ho E) as (Hfl' & Hid & Hops & Hran & (l & Hl & Hl') & Hpos').
  assert (isInLoopThread tid s = false) as Hout by (unfold isInLoopThread; lia).
  rewrite <- (app_nil_r k) in Hk |- *.
  split; cbn; [by rewrite Hid| |by auto|].
  - intros t kt Ht Hkt. destruct (decide (t = tid)) as [->|].
    + rewrite lookup_insert_eq in Hkt. simplify_eq. rewrite app_nil_r. by apply user_ops_app.
    + rewrite lookup_insert_ne in Hkt by done. eauto.
  - exists f, us, km. rewrite lookup_insert_ne by done. split_and!; [done|done|congruence| | |].
    + rewrite Hl', Hran, Hl, Hq. by rewrite <- !app_assoc.
    + eapply user_step_pending; eauto.
    + intros ->. eapply user_step_quit; eauto.
Qed.

(** The loop thread moves to a frame, with user code [us] above it. *)
Lemma inv_main_next main s ths s' f us :
  inv main (s, ths) -> threadId_ s' = threadId_ s -> 0 <= wakeupFd_ s' ->
  shape f us (us ++ frame_ops f) -> flags s' = frame_flags f ->
  queued s' = ran s' ++ in_flight (us ++ frame_ops f) ++ pendingFunctors_ s' ->
  (pendingFunctors_ s' <> [] -> reaches_swap f = true \/ wakeup_due (s', <[main := us ++ frame_ops f]> ths)) ->
  (f = Polling -> quit_ s' = true -> wakeup_due (s', <[main := us ++ frame_ops f]> ths)) ->
  inv main (s', <[main := us ++ frame_ops f]> ths).
Proof.
  intros [Hmain Hothers Hpos _] Hid Hpos' Hsh Hfl Hq Hp Hquit. cbn in *.
  split; cbn; [congruence| |done|].
  - intros t k Ht Hk. rewrite lookup_insert_ne in Hk by done. eauto.
  - exists f, us, (us ++ frame_ops f). rewrite lookup_insert_eq. split_and!; try done; by auto.
Qed.

Lemma inv_step_user main s ths f o us ready s' ops :
  inv main (s, ths) -> ths !! main = Some (o :: us ++ frame_ops f) ->
  may_call f = true -> user_ops (o :: us) -> flags s = frame_flags f ->
  queued s = ran s ++ in_flight (o :: us ++ frame_ops f) ++ pendingFunctors_ s ->
  (pendingFunctors_ s <> [] -> reaches_swap f = true \/ wakeup_due (s, ths)) ->
  exec main ready o s = Ok (s', ops) -> inv main (s', <[main := ops ++ us ++ frame_ops f]> ths).
Proof.
  intros Hinv Hk Hmay Hu Hfl Hq Hp E. pose proof (user_ops_cons _ _ Hu) as [Ho Hu'].
  destruct (exec_user _ _ _ _ _ _ Ho E) as (Hfl' & Hid & Hops & Hran & (l & Hl & Hl') & Hpos').
  pose proof (inv_wakeup _ _ Hinv) as Hpos. cbn in Hpos.
  pose proof (user_ops_app _ _ Hops Hu') as Hu2. rewrite app_assoc. apply (inv_main_next _ s); try done.
  - by auto.
  - split; [done|]. right. left. done.
  - congruence.
  - rewrite Hl', Hran, Hl, Hq. change (o :: us ++ frame_ops f) with ((o :: us) ++ frame_ops f).
    rewrite !in_flight_app, (in_flight_user _ Hu), (in_flight_user _ Hops), (in_flight_user us Hu').
    by rewrite <- !app_assoc.
  - rewrite <- app_assoc. eapply user_step_pending; eauto.
    destruct f; try done; [by left|]. right. right. by injection Hfl.
  - by intros ->.
Qed.

Lemma frame_step_due main s ths f o k ready s' ops :
  inv main (s, ths) -> ths !! main = Some (o :: k) -> frame_ops f = o :: k ->
  exec main ready o s = Ok (s', ops) -> o <> ReadEventfd ->
  wakeup_due (s, ths) -> wakeup_due (s', <[main := ops ++ k]> ths).
Proof.
  intros Hinv Hk Hf E Hr Hd. pose proof (inv_wakeup _ _ Hinv) as Hpos. pose proof (inv_main _ _ Hinv) as Hid.
  cbn in *. destruct (decide (o = EndPending)) as [->|]; [|by eapply due_step].
  cbn in E. simplify_eq. destruct f as [| | | |[|c rest]| | |[|g rest]]; try done. cbn in Hf. simplify_eq.
  destruct Hd as [Hw|(t & k & o & Ht & Ho & Hw)]; [by left|]. cbn in *.
  destruct (decide (t = threadId_ s)) as [->|Hne].
  - rewrite Hk in Ht. simplify_eq. apply elem_of_cons in Ho as [->|Ho%list_elem_of_singleton]; [done|by subst].
  - right. exists t, k, o. cbn. rewrite lookup_insert_ne by done. split_and!; [done|done|].
    unfold wakes, isInLoopThread in *. cbn. rewrite (proj2 (Z.eqb_neq _ _)) in * by done. by destruct o.
Qed.

Lemma shape_nil f : shape f [] (frame_ops f).
Proof. split; [done|by left]. Qed.

Lemma inv_step_frame main s ths f o k ready s' ops :
  inv main (s, ths) -> ths !! main = Some (o :: k) -> frame_ops f = o :: k -> flags s = frame_flags f ->
  queued s = ran s ++ in_flight (o :: k) ++ pendingFunctors_ s ->
  (pendingFunctors_ s <> [] -> reaches_swap f = true \/ wakeup_due (s, ths)) ->
  exec main ready o s = Ok (s', ops) -> inv main (s', <[main := ops ++ k]> ths).
Proof.
  intros Hinv Hk Hf Hfl Hq Hp E. rewrite <- Hf, in_flight_frame in Hq.
  assert (o <> ReadEventfd -> wakeup_due (s, ths) -> wakeup_due (s', <[main := ops ++ k]> ths)) as Hdue
    by (by eapply frame_step_due).
  pose proof (inv_wakeup _ _ Hinv) as Hpos. unfold flags in Hfl. cbn in Hpos.
  destruct f as [| | | |[|c rest]| | |[|g rest]];
    unfold frame_ops, loop, doPendingFunctors in Hf; cbn in Hf; simplify_eq; cbn in E; try injection E as <- <-;
    injection Hfl as Hl Hh Hc.
  - rewrite Hl in E. cbn in E. outcome_inv E. unfold assertInLoopThread in *. case_match; [done|].
    apply (inv_main_next _ s _ _ Testing []); try done; [by apply shape_nil| |naive_solver].
    unfold flags. cbn. congruence.
  - destruct (quit_ s) eqn:Eq; cbn in E; simplify_eq.
    + apply (inv_main_next _ s _ _ Outside []); try done; [by apply shape_nil| |naive_solver]. unfold flags. cbn. congruence.
    + apply (inv_main_next _ s _ _ Polling []); try done; [by apply shape_nil| |naive_solver|cbn; congruence].
      unfold flags. cbn. congruence.
  - rewrite app_nil_r. apply (inv_main_next _ s _ _ (Handling ready) []); try done; [by apply shape_nil| | |by left].
    + unfold flags. cbn. congruence.
    + by rewrite app_nil_l, in_flight_frame.
  - apply (inv_main_next _ s _ _ BeforePending []); try done; [by apply shape_nil| |by left]. unfold flags. cbn. congruence.
  - apply (inv_main_next _ s _ _ (Handling rest)
      (if c =? wakeupChannel_ then handleRead else Call <$> event_calls c)); try done; [| | |by left].
    + split; [done|]. right. case_match; [right; split; [by eexists|done]|left; split; [done|apply user_ops_calls]].
    + unfold flags. cbn. congruence.
    + rewrite in_flight_app, in_flight_frame, app_nil_r. cbn. rewrite Hq. case_match; [done|].
      by rewrite (in_flight_user _ (user_ops_calls _)).
  - apply (inv_main_next _ s _ _ BeforeSwap []); try done; [by apply shape_nil| |by left]. unfold flags. cbn. congruence.
  - rewrite <- app_assoc. apply (inv_main_next _ s _ _ (Running (pendingFunctors_ s)) []); try done; [by apply shape_nil| |].
    + unfold flags. cbn. congruence.
    + rewrite app_nil_l, in_flight_frame. cbn. by rewrite app_nil_r.
  - apply (inv_main_next _ s _ _ Testing []); try done; [by apply shape_nil| |naive_solver]. unfold flags. cbn. congruence.
  - apply (inv_main_next _ s _ _ (Running rest) (Call <$> body g)); try done.
    + split; [done|]. right. left. split; [done|apply user_ops_calls].
    + unfold flags. cbn. congruence.
    + rewrite in_flight_app, in_flight_frame, (in_flight_user _ (user_ops_calls _)). cbn.
      rewrite Hq. by rewrite <- !app_assoc.
    + naive_solver.
Qed.

Lemma inv_step main c c' : inv main c -> step c c' -> inv main c'.
Proof.
  intros Hinv [tid Hstep]. destruct Hstep as [s ths o k ready s' ops Hk Hready E].
  destruct (decide (tid = main)) as [->|Hne]; [|by eapply inv_step_other].
  pose proof Hinv as [Hmain Hothers Hpos (f & us & km & Hkm & [-> Hus] & Hfl & Hq & Hp & Hquit)]. cbn in *.
  rewrite Hk in Hkm. injection Hkm as Hkm. rewrite <- Hkm in Hq.
  destruct Hus as [->|[[Hmay Hu]|[[rest ->] ->]]].
  - by eapply inv_step_frame.
  - destruct us as [|o' us]; cbn in Hkm; [by eapply inv_step_frame|].
    injection Hkm as <- ->. by eapply inv_step_user.
  - cbn in Hkm. injection Hkm as -> ->. cbn in E. simplify_eq.
    apply (inv_main_next _ s _ _ (Handling rest) []); try done; [by apply shape_nil|by left].
Qed.

Lemma inv_start main others : others !! main = None -> inv main (start main loop others).
Proof.
  intros Hm. split; cbn; [done| |done|].
  - intros tid k Hne Hk. rewrite lookup_insert_ne, lookup_fmap in Hk by done.
    destruct (others !! tid); cbn in Hk; [|done]. simplify_eq. apply user_ops_calls.
  - exists Entering, [], loop. rewrite lookup_insert_eq. split_and!; try done. by apply shape_nil.
Qed.

Lemma inv_reachable main others c :
  others !! main = None -> rtc step (start main loop others) c -> inv main c.
Proof. intros Hm Hr. eapply rtc_invariant, inv_start; [|done..]. intros. by eapply inv_step. Qed.

(** C5: Whatever the threads do and in whatever order they run, the functors
    that [queueInLoop] and [runInLoop] from other threads hand to the loop run
    exactly once and in the order in which they were queued: those that have
    run, those taken out of the queue for the current round and those still
    pending are, in this order, all that were ever queued.  No assertion of
    [loop()] fails. *)
Theorem functors_run_once_in_order main others c :
  others !! main = None -> rtc step (start main loop others) c ->
  (exists k, c.2 !! main = Some k /\
     queued c.1 = ran c.1 ++ in_flight k ++ pendingFunctors_ c.1) /\
  (forall tid o k ready, c.2 !! tid = Some (o :: k) -> exists r, exec tid ready o c.1 = Ok r).
Proof.
  intros Hm Hr. destruct c as [s ths].
  pose proof (inv_reachable _ _ _ Hm Hr) as [Hid Hothers Hpos (f & us & k & Hk & [Hk' Hus] & Hfl & Hq & _)].
  split; [by exists k|]. cbn in *. intros tid o k2 ready Ht.
  destruct (decide (o = LoopEnter)) as [->|Hne].
  2: { destruct o as [[]| | | | | | | | | | | | | | | | ]; cbn; try done; try by eexists. case_match; by eexists. }
  destruct (decide (tid = main)) as [->|Hnm].
  2: { specialize (Hothers _ _ Hnm Ht). done. }
  assert (looping_ s = false) as Hl.
  { rewrite Hk in Ht. simplify_eq. destruct us as [|o us].
    - destruct f as [| | | |[|]| | |[|]]; first [discriminate Ht | injection Hfl as Hl _ _; exact Hl].
    - cbn in Ht. simplify_eq. destruct Hus as [?|[[_ [Hu _]%user_ops_cons]|[_ ?]]]; done. }
  cbn. rewrite Hl. unfold assertInLoopThread, isInLoopThread. cbn. rewrite Hid, Z.eqb_refl.
  by eexists.
Qed.

Lemma poll_wakeup main others c :
  others !! main = None -> rtc step (start main loop others) c ->
  c.2 !! main = Some [PollReturns] ->
  pendingFunctors_ c.1 <> [] \/ quit_ c.1 = true ->
  0 < wakeupFd_ c.1 \/
  exists tid k o, tid <> main /\ c.2 !! tid = Some k /\ o ∈ k /\ wakes c.1 tid o.
Proof.
  intros Hm Hr Hpoll Hwork.
  pose proof (inv_reachable _ _ _ Hm Hr) as [Hid Hothers Hpos (f & us & k & Hk & [-> Hus] & Hfl & Hq & Hp & Hquit)].
  rewrite Hpoll in Hk. injection Hk as Hk.
  assert (f = Polling) as ->.
  { destruct us as [|o us].
    - destruct f as [| | | |[|]| | |[|]]; by try discriminate Hk.
    - cbn in Hk. simplify_eq. destruct Hus as [?|[[_ [Hu _]%user_ops_cons]|[_ ?]]]; done. }
  assert (wakeup_due c) as [Hw|(tid & k & o & Ht & Ho & Hw)].
  { destruct Hwork as [Hw|Hw]; [|by apply Hquit]. destruct (Hp Hw); done. }
  - by left.
  - right. exists tid, k, o. split_and!; try done. intros ->. rewrite Hpoll in Ht. injection Ht as <-.
    by apply list_elem_of_singleton in Ho as ->.
Qed.


(** ** Liveness

    The loop thread alone, when the synchronous calls of user code are well
    founded: [rank] decreases from a functor to those its body runs in place. *)
Section liveness.
Context (main : Z) (rank : Z -> nat).
Hypothesis Hrank : forall f g, RunInLoop g ∈ body f -> (rank g < rank f)%nat.

(** What user code that the loop thread runs to its end does to the loop: it
    queues functors, and may set [quit_]. *)
Definition extends (s s' : EventLoop) : Prop :=
  threadId_ s' = threadId_ s /\ ran s' = ran s /\
  (exists l, pendingFunctors_ s' = pendingFunctors_ s ++ l) /\ (quit_ s = true -> quit_ s' = true).

#[local] Instance extends_refl : Reflexive extends.
Proof. intros s. split_and!; try done. exists []. by rewrite app_nil_r. Qed.
#[local] Instance extends_trans : Transitive extends.
Proof.
  intros s1 s2 s3 (I1 & R1 & [l1 P1] & Q1) (I2 & R2 & [l2 P2] & Q2).
  split_and!; [congruence..| |auto]. exists (l1 ++ l2). by rewrite P2, P1, <- app_assoc.
Qed.

Abbreviation runs := (rtc (step_of main)).

Lemma run_op s ths o k s' ops :
  ths !! main = Some (o :: k) -> o <> PollReturns -> exec main [] o s = Ok (s', ops) ->
  step_of main (s, ths) (s', <[main := ops ++ k]> ths).
Proof. intros. eapply step_op; [done| |done]. done. Qed.

(** Running one operation, and then the rest. *)
Lemma runs_op s ths o k s' ops c :
  ths !! main = Some (o :: k) -> o <> PollReturns -> exec main [] o s = Ok (s', ops) ->
  runs (s', <[main := ops ++ k]> ths) c -> runs (s, ths) c.
Proof. intros. eapply rtc_l; [|done]. by eapply run_op. Qed.

Definition finishes (us : list op) : Prop := forall s ths k,
  threadId_ s = main -> ths !! main = Some (us ++ k) ->
  exists s' ths', runs (s, ths) (s', ths') /\ extends s s' /\
    ths' = <[main := k]> ths.

Lemma finishes_nil : finishes [].
Proof.
  intros s ths k Hid Hk. exists s, ths. split_and!; [done..|]. by rewrite insert_id.
Qed.

Lemma finishes_app us1 us2 : finishes us1 -> finishes us2 -> finishes (us1 ++ us2).
Proof.
  intros H1 H2 s ths k Hid Hk. rewrite <- app_assoc in Hk.
  destruct (H1 s ths _ Hid Hk) as (s1 & ths1 & R1 & E1 & ->).
  destruct (H2 s1 (<[main := us2 ++ k]> ths) k) as (s2 & ths2 & R2 & E2 & ->).
  - by destruct E1 as [-> _].
  - by rewrite lookup_insert_eq.
  - exists s2, (<[main := k]> ths). rewrite insert_insert_eq in R2. split_and!; [by etrans|by etrans|done].
Qed.

(** An operation that leads to code which finishes. *)
Lemma finishes_op o :
  (forall s, threadId_ s = main -> exists s' ops, exec main [] o s = Ok (s', ops) /\ extends s s' /\ finishes ops) ->
  o <> PollReturns -> finishes [o].
Proof.
  intros Ho Hne s ths k Hid Hk. destruct (Ho s Hid) as (s1 & ops & E & Hext & Hops).
  destruct (Hops s1 (<[main := ops ++ k]> ths) k) as (s2 & ths2 & R & Hext2 & ->).
  - by destruct Hext as [-> _].
  - by rewrite lookup_insert_eq.
  - rewrite insert_insert_eq in R. eexists s2, _. split_and!; [|by etrans|done].
    by eapply runs_op.
Qed.

Lemma extends_same s s' :
  threadId_ s' = threadId_ s -> ran s' = ran s -> pendingFunctors_ s' = pendingFunctors_ s ->
  quit_ s' = quit_ s -> extends s s'.
Proof. intros ?? Hp ?. split_and!; [done|done| |congruence]. exists []. by rewrite Hp, app_nil_r. Qed.

Lemma finishes_write : finishes [WriteEventfd].
Proof.
  apply finishes_op; [|done]. intros s _. eexists _, []. split_and!; [done|by apply extends_same|apply finishes_nil].
Qed.

(** Operations that at most wake the loop up. *)
Lemma finishes_last o :
  (forall s, exists s' b, exec main [] o s = Ok (s', if b : bool then wakeup else []) /\ extends s s') ->
  o <> PollReturns -> finishes [o].
Proof.
  intros Ho Hne. apply finishes_op; [|done]. intros s _. destruct (Ho s) as (s' & b & E & Hext).
  eexists _, _. split_and!; [done|done|]. destruct b; [apply finishes_write|apply finishes_nil].
Qed.

Lemma finishes_simple o :
  match o with PushLocked _ | WakeIfNeeded | SetQuit | WakeIfOther | EventsHandled | ReadEventfd | BeginPending
  | EndPending => true | _ => false end = true -> finishes [o].
Proof.
  intros Ho. apply finishes_last; [|by intros ->]. intros s.
  destruct o; try done; cbn.
  - eexists _, false. split; [done|]. split_and!; [done|done| |done]. by eexists.
  - eexists _, _. split; [done|by apply extends_same].
  - eexists _, false. split; [done|]. split_and!; try done. exists []. by rewrite app_nil_r.
  - eexists _, _. split; [done|by apply extends_same].
  - eexists _, false. split; [done|by apply extends_same].
  - eexists _, false. split; [done|by apply extends_same].
  - eexists _, false. split; [done|by apply extends_same].
  - eexists _, false. split; [done|by apply extends_same].
Qed.

Lemma finishes_two o1 o2 : finishes [o1] -> finishes [o2] -> finishes [o1; o2].
Proof. intros. by apply (finishes_app [o1] [o2]). Qed.

Lemma finishes_call c :
  (forall g, c = RunInLoop g -> finishes [RunNow g]) -> finishes [Call c].
Proof.
  intros Hg. apply finishes_op; [|done]. intros s Hid. destruct c as [g|g|]; cbn.
  - eexists _, _. split_and!; [done|done|]. unfold runInLoop, isInLoopThread. rewrite Hid, Z.eqb_refl. by apply Hg.
  - eexists _, _. split_and!; [done|done|]. by apply finishes_two; apply finishes_simple.
  - eexists _, _. split_and!; [done|done|]. by apply finishes_two; apply finishes_simple.
Qed.

Lemma finishes_calls l : (forall g, RunInLoop g ∈ l -> finishes [RunNow g]) -> finishes (Call <$> l).
Proof.
  induction l as [|c l IH]; intros Hl; [apply finishes_nil|]. cbn. apply (finishes_app [Call c]).
  - apply finishes_call. intros g ->. apply Hl. by left.
  - apply IH. intros g Hg. apply Hl. by right.
Qed.

Lemma finishes_now g : finishes [RunNow g].
Proof.
  remember (rank g) as n eqn:Hn. revert g Hn. induction (lt_wf n) as [n _ IH]. intros g ->.
  apply finishes_op; [|done]. intros s Hid. eexists _, _. split_and!; [done|done|].
  apply finishes_calls. intros h Hh. by eapply IH; [apply Hrank|].
Qed.

Lemma finishes_user l : finishes (Call <$> l).
Proof. apply finishes_calls. intros. apply finishes_now. Qed.

Lemma finishes_handlers ready : finishes (HandleEvent <$> ready).
Proof.
  induction ready as [|c ready IH]; [apply finishes_nil|]. apply (finishes_app [HandleEvent c]); [|done].
  apply finishes_op; [|done]. intros s _. eexists _, _. split_and!; [done|by apply extends_same|].
  case_match; [by apply finishes_simple|apply finishes_user].
Qed.

Lemma run_functors l s ths k :
  threadId_ s = main -> ths !! main = Some ((RunFunctor <$> l) ++ k) ->
  exists s' ths', runs (s, ths) (s', ths') /\ ths' = <[main := k]> ths /\ threadId_ s' = main /\
    ran s' = ran s ++ l /\ (quit_ s = true -> quit_ s' = true).
Proof.
  revert s ths. induction l as [|f l IH]; intros s ths Hid Hk.
  { exists s, ths. split_and!; [done| |done| |done]; [by rewrite insert_id|by rewrite app_nil_r]. }
  cbn in Hk. set (s1 := set_functors (pendingFunctors_ s) (queued s) (ran s ++ [f]) s).
  destruct (finishes_user (body f) s1 (<[main := (Call <$> body f) ++ (RunFunctor <$> l) ++ k]> ths)
    ((RunFunctor <$> l) ++ k)) as (s2 & ths2 & R & (Hid2 & Hran & _ & Hq) & ->); [done|by rewrite lookup_insert_eq|].
  rewrite insert_insert_eq in R.
  destruct (IH s2 (<[main := (RunFunctor <$> l) ++ k]> ths)) as (s3 & ths3 & R3 & -> & Hid3 & Hran3 & Hq3);
    [by rewrite Hid2|by rewrite lookup_insert_eq|]. rewrite insert_insert_eq in *.
  exists s3, (<[main := k]> ths). split_and!; try done.
  - eapply runs_op; [done|done|done|]. by etrans.
  - rewrite Hran3, Hran. cbn. by rewrite <- app_assoc.
  - by auto.
Qed.

(** One round of the loop from the return of the poll. *)
Lemma round_runs s ths ready :
  threadId_ s = main -> ths !! main = Some (frame_ops (Handling ready)) ->
  exists s' ths', runs (s, ths) (s', ths') /\
    (exists l, ran s' = ran s ++ pendingFunctors_ s ++ l) /\ (quit_ s = true -> quit_ s' = true) /\
    (quit_ s' = true /\ looping_ s' = false /\ ths' = <[main := []]> ths \/
     quit_ s' = false /\ ths' = <[main := [PollReturns]]> ths).
Proof.
  intros Hid Hk.
  assert (finishes ((HandleEvent <$> ready) ++ [EventsHandled; BeginPending])) as Hh.
  { apply finishes_app; [apply finishes_handlers|]. by apply finishes_two; apply finishes_simple. }
  destruct (Hh s ths [SwapLocked; WhileNotQuit] Hid) as (s1 & ths1 & R1 & (Hid1 & Hran1 & [l Hl] & Hq1) & ->).
  { rewrite Hk. cbn. by rewrite <- app_assoc. }
  set (s2 := set_functors [] (queued s1) (ran s1) s1).
  set (k := (RunFunctor <$> pendingFunctors_ s1) ++ [EndPending; WhileNotQuit]).
  destruct (run_functors (pendingFunctors_ s1) s2 (<[main := k]> ths) [EndPending; WhileNotQuit])
    as (s3 & ths3 & R3 & -> & Hid3 & Hran3 & Hq3).
  { by rewrite <- Hid, <- Hid1. } { by rewrite lookup_insert_eq. }
  rewrite insert_insert_eq in R3.
  assert (runs (s, ths) (set_calling false s3, <[main := [WhileNotQuit]]> ths)) as R.
  { etrans; [exact R1|]. eapply (runs_op _ _ SwapLocked [WhileNotQuit] s2); [by rewrite lookup_insert_eq|done|done|].
    rewrite <- app_assoc, insert_insert_eq. etrans; [exact R3|].
    eapply (runs_op _ _ EndPending [WhileNotQuit]); [by rewrite lookup_insert_eq|done|done|].
    rewrite insert_insert_eq. done. }
  assert (ran s3 = ran s ++ pendingFunctors_ s ++ l) as Hran by (rewrite Hran3; cbn; by rewrite Hran1, Hl).
  assert (quit_ s = true -> quit_ s3 = true) as Hq by (intros; apply Hq3, Hq1; done).
  assert (forall s4 ops, exec main [] WhileNotQuit (set_calling false s3) = Ok (s4, ops) ->
    runs (s, ths) (s4, <[main := ops]> ths)) as Hlast.
  { intros s4 ops E. etrans; [exact R|].
    eapply (runs_op _ _ WhileNotQuit []); [by rewrite lookup_insert_eq|done|done|].
    by rewrite insert_insert_eq, app_nil_r. }
  cbn in Hlast. destruct (quit_ s3) eqn:Eq; cbn in Hlast.
  - eexists _, _. split_and!; [by apply Hlast|by exists l|done|]. left. done.
  - eexists _, _. split_and!; [by apply Hlast|by exists l|by intros ?%Hq|]. right. done.
Qed.

(** C30: Progress: when the loop waits in [poll] with functors pending or after
    [quit()], and the other threads have nothing left to do, the eventfd is
    readable; however the poll then returns, the loop thread on its own runs all
    the pending functors in order, comes back to the poll, or leaves [loop()] if
    [quit()] was called.  Synchronous calls in user code must not recur for ever. *)
Theorem pending_functors_run others c :
  others !! main = None -> rtc step (start main loop others) c ->
  c.2 !! main = Some [PollReturns] -> (forall tid k, tid <> main -> c.2 !! tid = Some k -> k = []) ->
  pendingFunctors_ c.1 <> [] \/ quit_ c.1 = true ->
  0 < wakeupFd_ c.1 /\
  forall c1, step_of main c c1 ->
  exists c2, rtc (step_of main) c1 c2 /\
    (exists l, ran c2.1 = ran c.1 ++ pendingFunctors_ c.1 ++ l) /\ (quit_ c.1 = true -> quit_ c2.1 = true) /\
    (quit_ c2.1 = true /\ looping_ c2.1 = false /\ c2.2 !! main = Some [] \/
     quit_ c2.1 = false /\ c2.2 !! main = Some [PollReturns]).
Proof.
  intros Hm Hr Hpoll Hidle Hwork. split.
  { destruct (poll_wakeup _ _ _ Hm Hr Hpoll Hwork) as [?|(tid & k & o & Hne & Hk & Ho & _)]; [done|].
    apply Hidle in Hk as ->; [|done]. by apply elem_of_nil in Ho. }
  intros c1 Hstep. destruct Hstep as [s ths o k ready s' ops Hk Hready E]. cbn in *.
  rewrite Hpoll in Hk. simplify_eq. cbn in E. simplify_eq.
  pose proof (inv_main _ _ (inv_reachable _ _ _ Hm Hr)) as Hid. cbn in Hid.
  destruct (round_runs (set_handling true (iteration_ s + 1) ready (currentActiveChannel_ s) s)
    (<[main := frame_ops (Handling ready)]> ths) ready Hid) as (s2 & ths2 & R & Hran & Hq & Hend).
  { apply lookup_insert_eq. }
  exists (s2, ths2). rewrite app_nil_r. split_and!; try done.
  destruct Hend as [(? & ? & ->)|(? & ->)]; [left|right]; cbn; by rewrite lookup_insert_eq.
Qed.
End liveness.
End machine.

(** ** Channels and timers

    The loop passes these on after checking the thread.  [this] is the
    address of the loop, [owner] the channel's [ownerLoop()]. *)
Section channels.
Context {S : Type} `{!Poller.Poller S}.

Definition updateChannel (tid this owner p : Z) (s : EventLoop) (h : Poller.heap) (poller_ : S) :
    outcome (Poller.heap * S) :=
  _ ← assert_ (owner =? this);
  _ ← assertInLoopThread tid s;
  Poller.updateChannel p h poller_.

Definition removeChannel (tid this owner p : Z) (s : EventLoop) (h : Poller.heap) (poller_ : S) :
    outcome (Poller.heap * S) :=
  _ ← assert_ (owner =? this);
  _ ← assertInLoopThread tid s;
  _ ← (if eventHandling_ s then
         assert_ (bool_decide (currentActiveChannel_ s = Some p) || bool_decide (p ∉ activeChannels_ s))
       else Ok ());
  Poller.removeChannel p h poller_.

Definition hasChannel (tid this owner p : Z) (s : EventLoop) (h : Poller.heap) (poller_ : S) : outcome bool :=
  _ ← assert_ (owner =? this);
  _ ← assertInLoopThread tid s;
  Poller.hasChannel (Poller.channels poller_) p h.

(** The destructor: [wakeupChannel_->disableAll(); wakeupChannel_->remove();]
    and the thread has no loop any more. *)
Definition destruct_loop (h : Poller.heap) (poller_ : S) : outcome (Poller.heap * S * option Z) :=
  '(h, poller_) ← Poller.channel_step (Poller.Change Channel.disableAll wakeupChannel_) h poller_;
  '(h, poller_) ← Poller.channel_step (Poller.Remove wakeupChannel_) h poller_;
  Ok (h, poller_, None).
End channels.

(** Timers, added from the loop thread: [p] is the address of the new [Timer]. *)
Definition runAt (p time cb : Z) (q : TimerQueue.TimerQueue) : outcome (TimerQueue.TimerQueue * (Z * Z)) :=
  TimerQueue.addTimer p cb time (Timestamp.double_of_Z 0) q.
Definition runAfter (p : Z) (delay : Timestamp.double) (cb now : Z) (q : TimerQueue.TimerQueue) :
    outcome (TimerQueue.TimerQueue * (Z * Z)) :=
  time ← Timestamp.addTime now delay; runAt p time cb q.
Definition runEvery (p : Z) (interval : Timestamp.double) (cb now : Z) (q : TimerQueue.TimerQueue) :
    outcome (TimerQueue.TimerQueue * (Z * Z)) :=
  time ← Timestamp.addTime now interval; TimerQueue.addTimer p cb time interval q.
Definition cancel (timerId : Z * Z) (q : TimerQueue.TimerQueue) : outcome TimerQueue.TimerQueue :=
  TimerQueue.cancelInLoop timerId q.

(** ** Queueing before the loop starts *)

Definition no_calls (f : Z) : list call := [].

Definition before_loop (main f : Z) : config := start main (Call (QueueInLoop f) :: loop) ∅.

Lemma lone_step main (k : list op) s o s' ops :
  o <> PollReturns -> exec no_calls no_calls main [] o s = Ok (s', ops) ->
  step no_calls no_calls (s, <[main := o :: k]> ∅) (s', <[main := ops ++ k]> ∅).
Proof.
  intros Ho E. exists main.
  assert (step_of no_calls no_calls main (s, <[main := o :: k]> ∅) (s', <[main := ops ++ k]> (<[main := o :: k]> ∅)))
    as Hs by (eapply (step_op _ _ _ _ _ o k []); [apply lookup_insert_eq|done|done]).
  by rewrite insert_insert_eq in Hs.
Qed.

(** A functor that the loop's own thread queues before it calls [loop()] is
    not announced by a wakeup: the loop reaches its first poll with the functor
    pending and the eventfd at zero, and no other thread runs, so nothing but
    the poll's timeout or some unrelated event lets it run. *)
Theorem queued_before_loop_waits main f :
  exists s, rtc (step no_calls no_calls) (before_loop main f) (s, <[main := [PollReturns]]> ∅) /\
    pendingFunctors_ s = [f] /\ wakeupFd_ s = 0 /\
    forall c, step no_calls no_calls (s, <[main := [PollReturns]]> ∅) c ->
      wakeupChannel_ ∉ activeChannels_ c.1.
Proof.
  set (s1 := set_functors [f] [f] [] (new_loop main)).
  exists (set_handling false 0 [] None (set_running true false s1)). split_and!; [|done|done|].
  - unfold before_loop, start. rewrite fmap_empty.
    eapply rtc_l; [apply lone_step; done|]. eapply rtc_l; [by apply (lone_step _ (WakeIfNeeded :: loop))|].
    eapply rtc_l.
    { apply (lone_step _ loop s1 WakeIfNeeded s1 []); [done|]. cbn. unfold isInLoopThread. cbn. by rewrite Z.eqb_refl. }
    eapply rtc_l.
    { apply (lone_step _ [WhileNotQuit] s1 LoopEnter (set_running true false s1) []); [done|]. cbn.
      unfold assertInLoopThread, isInLoopThread. cbn. by rewrite Z.eqb_refl. }
    eapply rtc_l; [by eapply (lone_step _ [] _ WhileNotQuit _ [PollReturns])|]. done.
  - intros c [tid Hstep]. inversion Hstep as [? ? o k ready s' ops Hk Hready E]; subst. cbn in *.
    destruct (decide (tid = main)) as [->|]; [|by rewrite lookup_insert_ne in Hk].
    rewrite lookup_insert_eq in Hk. simplify_eq. cbn in E. simplify_eq. cbn.
    destruct (Hready eq_refl) as [_ Hw]. cbn in Hw. rewrite Hw. lia.
Qed.

(** ** Witnesses *)

(** Runs the threads in a given order, each with what its poll would return. *)
Fixpoint run_schedule (sched : list (Z * list Z)) (c : config) : option config :=
  match sched with
  | [] => Some c
  | (tid, ready) :: sched' =>
      match c.2 !! tid with
      | Some (o :: k) =>
          if decide (o = PollReturns -> poll_returns ready c.1) then
            match exec no_calls no_calls tid ready o c.1 with
            | Ok (s', ops) => run_schedule sched' (s', <[tid := ops ++ k]> c.2)
            | Err _ => None
            end
          else None
      | _ => None
      end
  end.

Lemma loop_schedule_steps sched c c' : run_schedule sched c = Some c' -> rtc (step no_calls no_calls) c c'.
Proof.
  revert c. induction sched as [|[tid ready] sched IH]; intros [s ths] E; cbn in E; [by simplify_eq|].
  destruct (ths !! tid) as [[|o k]|] eqn:Ek; [done| |done]. case_decide as Hready; [|done].
  destruct (exec _ _ _ _ _ _) as [[s' ops]|] eqn:Ee; [|done].
  eapply rtc_l; [|by apply IH]. exists tid. by eapply step_op.
Qed.

(** Thread 2 queues functor 7 while thread 1 waits in the loop's poll. *)
Definition sample_threads : gmap Z (list call) := {[ 2 := [QueueInLoop 7] ]}.
Definition sample_schedule : list (Z * list Z) := [(1, []); (1, []); (2, []); (2, []); (2, []); (2, [])].
Definition sample_polling : config :=
  default (start 1 loop sample_threads) (run_schedule sample_schedule (start 1 loop sample_threads)).

Lemma sample_reached : rtc (step no_calls no_calls) (start 1 loop sample_threads) sample_polling.
Proof. apply (loop_schedule_steps sample_schedule). vm_compute. reflexivity. Qed.

Lemma functors_run_once_in_order_witness :
  exists k, sample_polling.2 !! 1 = Some k /\
    queued sample_polling.1 = ran sample_polling.1 ++ in_flight k ++ pendingFunctors_ sample_polling.1.
Proof.
  apply (functors_run_once_in_order no_calls no_calls 1 sample_threads sample_polling).
  - reflexivity.
  - apply sample_reached.
Defined.


Lemma pending_functors_run_witness : 0 < wakeupFd_ sample_polling.1.
Proof.
  apply (pending_functors_run no_calls no_calls 1 Z.to_nat
    ltac:(intros f g Hg; by apply elem_of_nil in Hg) sample_threads sample_polling).
  - reflexivity.
  - apply sample_reached.
  - vm_compute. reflexivity.
  - intros tid k Hne. change sample_polling with
      (sample_polling.1, <[2 := []]> (<[1 := [PollReturns]]> (∅ : gmap Z (list op)))).
    cbn. destruct (decide (tid = 2)) as [->|]; [by rewrite lookup_insert_eq; intros [= <-]|].
    by rewrite !lookup_insert_ne.
  - left. vm_compute. discriminate.
Defined.
End EventLoop.
