(* ===== verification/LoopLifetime.v ===== *)
(** * Making and destroying an event loop ([src/net/EventLoop.cpp],
    [TimerQueue.cpp], [Channel.cpp], [poller/EPollPoller.cpp])

    The loop owns three descriptors (the poller's, the timers', the wakeup
    eventfd), two channels and the timer objects.  What the kernel returns for
    the descriptors is an argument; a negative number is a failure. *)

From S2P Require Import Prelude CxxStd Channel Poller DefaultPoller TimerQueue EventLoop.

Module LoopLifetime.
Import Channel Poller DefaultPoller.

(** The loop object with what it owns.  [poll_fd_] is [EPollPoller::epollfd_]. *)
Record Loop := mkLoopObject {
  state : EventLoop.EventLoop;
  poller_ : AnyPoller;
  poll_fd_ : option Z;
  timerfd_ : Z;
  timerQueue_ : TimerQueue.TimerQueue;
  wakeupFd_ : Z }.

(** The rest of the process: channel objects, the thread's loop, and the
    descriptors closed so far. *)
Record world := mkWorld { heap_ : heap; t_loopInThisThread : option Z; closed : list Z }.

Definition createTimerfd (timerfd_create : Z) : outcome Z := if timerfd_create <? 0 then Err Fatal else Ok timerfd_create.
Definition createEventfd (eventfd : Z) : outcome Z := if eventfd <? 0 then Err Fatal else Ok eventfd.

(** The poller and the constructor of [EPollPoller]. *)
Definition create_poller (env : option (list byte)) (epoll_create1 : Z) : outcome (AnyPoller * option Z) :=
  match env with
  | Some _ => Ok (newDefaultPoller env, None)
  | None => if epoll_create1 <? 0 then Err Fatal else Ok (newDefaultPoller env, Some epoll_create1)
  end.

(** [readTimerfd]: what is logged as an error. *)
Definition readTimerfd (n : Z) : bool := negb (n =? 8).

Definition getEventLoopOfCurrentThread (w : world) : option Z := t_loopInThisThread w.

Section loop.
(** The loop's address, its two channels, and the thread at work. *)
Context (this timerfdChannel_ wakeupChannel_ tid : Z).

(** [Channel::update] and [Channel::remove] of the loop's own channels. *)
Definition update (x : change) (p : Z) (s : EventLoop.EventLoop) (h : heap) (poller : AnyPoller) : outcome (heap * AnyPoller) :=
  c ← deref p h;
  EventLoop.updateChannel tid this this p s (<[p := set_added true (with_events (apply_change x (events_ c)) c)]> h) poller.
Definition remove (p : Z) (s : EventLoop.EventLoop) (h : heap) (poller : AnyPoller) : outcome (heap * AnyPoller) :=
  c ← deref p h;
  assert_ (isNoneEvent c);;
  EventLoop.removeChannel tid this this p s (<[p := set_added false c]> h) poller.

(** The assertions of [~Channel]. *)
Definition channel_dtor (p : Z) (s : EventLoop.EventLoop) (h : heap) (poller : AnyPoller) : outcome unit :=
  c ← deref p h;
  assert_ (negb (eventHandling_ c));;
  assert_ (negb (addedToLoop_ c));;
  known ← (if EventLoop.isInLoopThread tid s then EventLoop.hasChannel tid this this p s h poller else Ok false);
  assert_ (negb known).

(** The constructor: the members in the order of their declarations, then the body. *)
Definition EventLoop_new (env : option (list byte)) (epoll_create1 timerfd_create eventfd now : Z) (w : world) :
    outcome (Loop * world) :=
  let s := EventLoop.new_loop tid in
  '(poller, epollfd) ← create_poller env epoll_create1;
  timerfd ← createTimerfd timerfd_create;
  let h := <[timerfdChannel_ := new_channel timerfd]> (heap_ w) in
  '(h, poller) ← update enableReading timerfdChannel_ s h poller;
  wakeupFd ← createEventfd eventfd;
  let h := <[wakeupChannel_ := new_channel wakeupFd]> h in
  '(s, current) ← EventLoop.construct (t_loopInThisThread w) this tid;
  '(h, poller) ← update enableReading wakeupChannel_ s h poller;
  Ok (mkLoopObject s poller epollfd timerfd (TimerQueue.new_queue now) wakeupFd, mkWorld h current (closed w)).

(** [delete timer.second] for every entry; a second [delete] is an error. *)
Fixpoint delete_timers (timers : list (Z * Z)) (objects : gmap Z TimerQueue.Timer) : outcome (gmap Z TimerQueue.Timer) :=
  match timers with
  | [] => Ok objects
  | (_, p) :: timers =>
      in_bounds (bool_decide (is_Some (objects !! p)));;
      delete_timers timers (delete p objects)
  end.

(** [~TimerQueue], and the channel it holds. *)
Definition TimerQueue_dtor (l : Loop) (w : world) : outcome (gmap Z TimerQueue.Timer * AnyPoller * world) :=
  '(h, poller) ← update disableAll timerfdChannel_ (state l) (heap_ w) (poller_ l);
  '(h, poller) ← remove timerfdChannel_ (state l) h poller;
  objects ← delete_timers (TimerQueue.timers_ (timerQueue_ l)) (TimerQueue.objects (timerQueue_ l));
  channel_dtor timerfdChannel_ (state l) h poller;;
  Ok (objects, poller, mkWorld h (t_loopInThisThread w) (closed w ++ [timerfd_ l])).

(** [~EventLoop]: the body, then the members in reverse order: the wakeup
    channel, the timer queue, the poller.  Returns the timer objects left. *)
Definition EventLoop_dtor (l : Loop) (w : world) : outcome (gmap Z TimerQueue.Timer * AnyPoller * world) :=
  '(h, poller) ← update disableAll wakeupChannel_ (state l) (heap_ w) (poller_ l);
  '(h, poller) ← remove wakeupChannel_ (state l) h poller;
  let w := mkWorld h None (closed w ++ [wakeupFd_ l]) in
  channel_dtor wakeupChannel_ (state l) (heap_ w) poller;;
  let l := mkLoopObject (state l) poller (poll_fd_ l) (timerfd_ l) (timerQueue_ l) (wakeupFd_ l) in
  '(objects, poller, w) ← TimerQueue_dtor l w;
  Ok (objects, poller, mkWorld (heap_ w) (t_loopInThisThread w)
                         (closed w ++ match poll_fd_ l with Some fd => [fd] | None => [] end)).

(** ** Steps of registered channels, in the loop's thread *)

Definition idle (s : EventLoop.EventLoop) : Prop := EventLoop.threadId_ s = tid /\ EventLoop.eventHandling_ s = false.

Lemma update_step x p s h poller :
  EventLoop.threadId_ s = tid -> update x p s h poller = channel_step (Change x p) h poller.
Proof.
  intros Ht. unfold update, EventLoop.updateChannel, EventLoop.assertInLoopThread, EventLoop.isInLoopThread. rewrite Ht, !Z.eqb_refl.
  unfold channel_step. destruct (deref p h); [|done]. bind_simpl. done.
Qed.

Lemma remove_step p s h poller : idle s -> remove p s h poller = channel_step (Remove p) h poller.
Proof.
  intros [Ht He]. unfold remove, EventLoop.removeChannel, EventLoop.assertInLoopThread, EventLoop.isInLoopThread. rewrite Ht, He, !Z.eqb_refl.
  unfold channel_step. destruct (deref p h); [|done]. bind_simpl. destruct (isNoneEvent _); done.
Qed.

(** What a step leaves of the channels' flags. *)
Definition flags (h : heap) (p : Z) : option (bool * bool) := (fun c => (eventHandling_ c, addedToLoop_ c)) <$> h !! p.

Lemma same_but_index_flags chans h h' p : same_but_index chans h h' -> flags h' p = flags h p.
Proof.
  intros Hs. destruct (Hs p) as [Hc _]. unfold flags. destruct (h' !! p), (h !! p); cbn in *; try done. injection Hc as ? ? ? ? ? Hx Hy.
  by rewrite Hx, Hy.
Qed.

Lemma disable_step a h (s : AnyPoller) p fd e :
  rel a h s -> a !! p = Some (fd, e, Registered) ->
  exists h' s', channel_step (Change disableAll p) h s = Ok (h', s') /\ rel (<[p := (fd, 0, Registered)]> a) h' s' /\
    forall q, fst <$> flags h' q = fst <$> flags h q.
Proof.
  intros Hrel Ha. destruct (channel_step_refines (Change disableAll p) a (<[p := (fd, 0, Registered)]> a) h s Hrel) as (h' & s' & E & Hrel').
  { cbn. by rewrite Ha. }
  exists h', s'. split; [done|]. split; [done|]. destruct Hrel as [Hi Hr]. specialize (Hr p). rewrite Ha in Hr.
  destruct Hr as (c & Hc & (R1 & _ & _ & _ & R5 & _)).
  destruct (updateChannel_known h s p c 0 Hi Hc (proj1 R5 eq_refl) ltac:(by left)) as (h2 & s2 & E2 & _ & _ & Hsame).
  unfold channel_step, deref in E. rewrite Hc in E.
  assert (Ok (h', s') = Ok (h2, s2)) as [= <- <-] by (rewrite <- E; exact E2).
  intros q. rewrite (same_but_index_flags _ _ _ _ Hsame). unfold flags. destruct (decide (q = p)) as [->|].
  - by rewrite lookup_insert_eq, Hc.
  - by rewrite lookup_insert_ne.
Qed.

Lemma retire_step a h (s : AnyPoller) p fd :
  rel a h s -> a !! p = Some (fd, 0, Registered) ->
  exists h' s', channel_step (Remove p) h s = Ok (h', s') /\ rel (<[p := (fd, 0, Removed)]> a) h' s' /\
    (forall q, fst <$> flags h' q = fst <$> flags h q) /\ snd <$> flags h' p = Some false.
Proof.
  intros Hrel Ha. destruct (channel_step_refines (Remove p) a (<[p := (fd, 0, Removed)]> a) h s Hrel) as (h' & s' & E & Hrel').
  { cbn. rewrite Ha. by rewrite decide_True. }
  exists h', s'. split; [done|]. split; [done|]. destruct Hrel as [Hi Hr]. specialize (Hr p). rewrite Ha in Hr.
  destruct Hr as (c & Hc & (R1 & R2 & _ & _ & R5 & _)). cbn in R2.
  destruct (removeChannel_known h s p c Hi Hc (proj1 R5 eq_refl) R2) as (h2 & s2 & E2 & _ & _ & Hsame).
  unfold channel_step, deref in E. rewrite Hc in E. bind_simpl.
  assert (isNoneEvent c = true) as Hnone by (unfold isNoneEvent, kNoneEvent; rewrite R2; done).
  assert (Ok (h', s') = Ok (h2, s2)) as [= <- <-].
  { rewrite <- E. cbn [mbind outcome_bind]. rewrite Hnone. exact E2. }
  split.
  - intros q. rewrite (same_but_index_flags _ _ _ _ Hsame). unfold flags. destruct (decide (q = p)) as [->|].
    + by rewrite lookup_insert_eq, Hc.
    + by rewrite lookup_insert_ne.
  - rewrite (same_but_index_flags _ _ _ _ Hsame). unfold flags. by rewrite lookup_insert_eq.
Qed.

(** The destructor of a channel that was removed. *)
Lemma removed_dtor a h poller p fd s :
  rel a h poller -> a !! p = Some (fd, 0, Removed) -> flags h p = Some (false, false) -> EventLoop.threadId_ s = tid ->
  channel_dtor p s h poller = Ok ().
Proof.
  intros Hrel Ha Hf Ht. pose proof (unregistered_unknown a h poller p fd 0 Removed Hrel Ha ltac:(done)) as Hunk.
  destruct Hrel as [Hi Hr]. pose proof (Hr p) as Hp. rewrite Ha in Hp.
  destruct Hp as (c & Hc & _). unfold flags in Hf. rewrite Hc in Hf. injection Hf as He Hadd.
  unfold channel_dtor, deref. rewrite Hc. bind_simpl. rewrite He, Hadd.
  unfold EventLoop.isInLoopThread, EventLoop.hasChannel, EventLoop.assertInLoopThread, EventLoop.isInLoopThread, Poller.hasChannel, deref.
  rewrite Ht, !Z.eqb_refl, Hc. bind_simpl. cbn [assert_]. bind_simpl. by rewrite bool_decide_eq_false_2.
Qed.

(** A registered channel is disabled, removed and destroyed. *)
Lemma retire a h (poller : AnyPoller) p fd e s :
  rel a h poller -> a !! p = Some (fd, e, Registered) -> fst <$> flags h p = Some false -> idle s ->
  exists h1 s1 h2 s2, update disableAll p s h poller = Ok (h1, s1) /\ remove p s h1 s1 = Ok (h2, s2) /\
    channel_dtor p s h2 s2 = Ok () /\ rel (<[p := (fd, 0, Removed)]> a) h2 s2 /\
    forall q, fst <$> flags h2 q = fst <$> flags h q.
Proof.
  intros Hrel Ha Hf Hs. destruct (disable_step _ _ _ _ _ _ Hrel Ha) as (h1 & s1 & E1 & Hrel1 & Hf1).
  destruct (retire_step _ _ _ p fd Hrel1) as (h2 & s2 & E2 & Hrel2 & Hf2 & Hadd); [apply lookup_insert_eq|].
  rewrite insert_insert_eq in Hrel2. exists h1, s1, h2, s2. rewrite update_step by apply Hs. rewrite remove_step by done.
  split; [done|]. split; [done|]. split.
  - eapply removed_dtor; [done|apply lookup_insert_eq| |apply Hs]. specialize (Hf2 p). rewrite Hf1, Hf in Hf2.
    destruct (flags h2 p) as [[x y]|]; cbn in Hf2, Hadd; [congruence|done].
  - split; [done|]. intros q. by rewrite Hf2, Hf1.
Qed.

(** ** Timers *)

Lemma delete_timers_spec : forall timers objects,
  NoDup timers.*2 -> (forall e p, (e, p) ∈ timers -> is_Some (objects !! p)) ->
  exists left, delete_timers timers objects = Ok left /\ forall p, left !! p = if decide (p ∈ timers.*2) then None else objects !! p.
Proof.
  induction timers as [|[e p] timers IH]; intros objects Hnd Hin.
  { exists objects. split; [done|]. intros p. by rewrite decide_False by set_solver. }
  cbn in Hnd. apply NoDup_cons in Hnd as [Hp Hnd]. cbn [delete_timers].
  rewrite bool_decide_eq_true_2 by (apply (Hin e); left). cbn [in_bounds]. bind_simpl.
  destruct (IH (delete p objects) Hnd) as (left & -> & Hl).
  { intros e' q Hq. rewrite lookup_delete_ne; [apply (Hin e'); by right|]. intros ->. apply Hp, list_elem_of_fmap. by exists (e', q). }
  exists left. split; [done|]. intros q. rewrite Hl. cbn [fmap list_fmap snd]. destruct (decide (q = p)) as [->|Hne].
  - rewrite lookup_delete_eq, (decide_True (P := p ∈ p :: _)) by left. by destruct (decide _).
  - rewrite lookup_delete_ne by done. destruct (decide (q ∈ timers.*2)), (decide (q ∈ p :: timers.*2)); set_solver.
Qed.

Lemma all_timers_deleted q : TimerQueue.inv [] q -> delete_timers (TimerQueue.timers_ q) (TimerQueue.objects q) = Ok ∅.
Proof.
  intros H. destruct (delete_timers_spec (TimerQueue.timers_ q) (TimerQueue.objects q)) as (left & -> & Hl).
  - by eapply TimerQueue.timers_nodup.
  - intros e p Hp. destruct (TimerQueue.inv_t _ _ H e p Hp) as (t & Ht & _). by eexists.
  - f_equal. apply map_empty. intros p. rewrite Hl. case_decide as Hd; [done|]. destruct (TimerQueue.objects q !! p) eqn:E; [|done].
    destruct (TimerQueue.inv_own _ _ H p) as [?%not_elem_of_nil|(e & He)]; [by eexists|done|].
    exfalso. apply Hd, list_elem_of_fmap. by exists (e, p).
Qed.

(** ** The life of a loop *)

(** A loop whose own two channels are registered, between two events. *)
Definition alive (a : abstract) (l : Loop) (w : world) : Prop :=
  rel a (heap_ w) (poller_ l) /\ idle (state l) /\ TimerQueue.inv [] (timerQueue_ l) /\
  a !! timerfdChannel_ = Some (timerfd_ l, kReadEvent, Registered) /\ a !! wakeupChannel_ = Some (wakeupFd_ l, kReadEvent, Registered) /\
  fst <$> flags (heap_ w) timerfdChannel_ = Some false /\ fst <$> flags (heap_ w) wakeupChannel_ = Some false.

Lemma rel_new_channel a h (s : AnyPoller) p fd :
  rel a h s -> a !! p = None -> 0 <= fd -> rel (<[p := (fd, 0, Fresh)]> a) (<[p := new_channel fd]> h) s.
Proof.
  intros [Hi Hr] Ha Hfd. pose proof (Hr p) as Hunk. rewrite Ha in Hunk. split; [by apply pinv_frame|]. intros q.
  destruct (decide (q = p)) as [->|Hne]; [|rewrite !lookup_insert_ne by done; apply Hr].
  rewrite !lookup_insert_eq. exists (new_channel fd). split; [done|]. unfold channel_rel. cbn.
  split; [done|]. split; [done|]. split; [by left|]. split; [done|]. split; [|done]. split; [done|]. intros Hf. by destruct (Hunk fd).
Qed.

Lemma enable_step a h (s : AnyPoller) p fd :
  rel a h s -> a !! p = Some (fd, 0, Fresh) -> map_Forall (fun _ v => v.1.1 = fd -> v.2 <> Registered) a ->
  exists h' s', channel_step (Change enableReading p) h s = Ok (h', s') /\ rel (<[p := (fd, kReadEvent, Registered)]> a) h' s' /\
    forall q, fst <$> flags h' q = fst <$> flags h q.
Proof.
  intros Hrel Ha Hfree.
  destruct (channel_step_refines (Change enableReading p) a (<[p := (fd, kReadEvent, Registered)]> a) h s Hrel) as (h' & s' & E & Hrel').
  { cbn. rewrite Ha. by rewrite decide_True. }
  exists h', s'. split; [done|]. split; [done|]. pose proof (free_unknown a h s fd Hrel Hfree) as Hnone.
  pose proof (unregistered_unknown a h s p fd 0 Fresh Hrel Ha ltac:(done)) as Hunk.
  destruct Hrel as [Hi Hr]. specialize (Hr p). rewrite Ha in Hr. destruct Hr as (c & Hc & (R1 & R2 & _ & R4 & _ & R6)). cbn in R1, R2. subst fd.
  destruct (updateChannel_new h s p c kReadEvent Hi Hc (R6 eq_refl) R4 Hunk Hnone ltac:(right; by left) ltac:(done)) as (h2 & s2 & E2 & _ & _ & Hsame).
  unfold channel_step, deref in E. rewrite Hc in E.
  assert (Ok (h', s') = Ok (h2, s2)) as [= <- <-] by (rewrite <- E; cbn [mbind outcome_bind]; rewrite R2; exact E2).
  intros q. rewrite (same_but_index_flags _ _ _ _ Hsame). unfold flags. destruct (decide (q = p)) as [->|].
  - by rewrite lookup_insert_eq, Hc.
  - by rewrite lookup_insert_ne.
Qed.

Lemma poller_created env epollfd :
  0 <= epollfd -> create_poller env epollfd = Ok (newDefaultPoller env, if env then None else Some epollfd).
Proof. intros He. destruct env; [done|]. cbn. by rewrite (proj2 (Z.ltb_ge _ _) He). Qed.

(** The constructor of the timer queue. *)
Lemma timer_channel_watched env s h timerfd :
  EventLoop.threadId_ s = tid -> 0 <= timerfd ->
  exists h1 s1, update enableReading timerfdChannel_ s (<[timerfdChannel_ := new_channel timerfd]> h) (newDefaultPoller env) = Ok (h1, s1) /\
    rel (<[timerfdChannel_ := (timerfd, kReadEvent, Registered)]> ∅) h1 s1 /\ fst <$> flags h1 timerfdChannel_ = Some false.
Proof.
  intros Hs Ht. assert (rel ∅ h (newDefaultPoller env)) as Hrel.
  { split; [apply default_inv|]. intros p. rewrite lookup_empty. by destruct env. }
  pose proof (rel_new_channel _ _ _ timerfdChannel_ timerfd Hrel (lookup_empty _) Ht) as Hrel1.
  destruct (enable_step _ _ _ timerfdChannel_ timerfd Hrel1) as (h1 & s1 & E1 & Hrel2 & Hf1); [apply lookup_insert_eq| |].
  { apply map_Forall_insert_2; [done|]. apply map_Forall_empty. }
  rewrite insert_insert_eq in Hrel2. exists h1, s1. rewrite update_step by done. split; [done|]. split; [done|].
  rewrite Hf1. unfold flags. by rewrite lookup_insert_eq.
Qed.

(** Making a loop in a thread that has none: it is registered with its thread,
    its two channels are watched for reading, and nothing else is. *)
Theorem loop_constructed env epollfd timerfd wakeupfd now w :
  timerfdChannel_ <> wakeupChannel_ -> 0 <= epollfd -> 0 <= timerfd -> 0 <= wakeupfd -> timerfd <> wakeupfd -> 0 < now < 2 ^ 61 ->
  t_loopInThisThread w = None ->
  exists l h, EventLoop_new env epollfd timerfd wakeupfd now w = Ok (l, mkWorld h (Some this) (closed w)) /\
    timerfd_ l = timerfd /\ wakeupFd_ l = wakeupfd /\ poll_fd_ l = (if env then None else Some epollfd) /\
    alive (<[wakeupChannel_ := (wakeupfd, kReadEvent, Registered)]> (<[timerfdChannel_ := (timerfd, kReadEvent, Registered)]> ∅))
      l (mkWorld h (Some this) (closed w)).
Proof.
  intros Hne He Ht Hw Hd Hnow Hl. unfold EventLoop_new.
  rewrite poller_created by done. bind_simpl. unfold createTimerfd, createEventfd.
  rewrite (proj2 (Z.ltb_ge _ _) Ht), (proj2 (Z.ltb_ge _ _) Hw). bind_simpl.
  destruct (timer_channel_watched env (EventLoop.new_loop tid) (heap_ w) timerfd eq_refl Ht) as (h1 & s1 & -> & Hrel2 & Hf1). bind_simpl.
  unfold EventLoop.construct. rewrite Hl. bind_simpl.
  assert ((<[timerfdChannel_ := (timerfd, kReadEvent, Registered)]> ∅ : abstract) !! wakeupChannel_ = None) as Hno.
  { by rewrite lookup_insert_ne. }
  pose proof (rel_new_channel _ _ _ wakeupChannel_ wakeupfd Hrel2 Hno Hw) as Hrel3.
  destruct (enable_step _ _ _ wakeupChannel_ wakeupfd Hrel3) as (h2 & s2 & E2 & Hrel4 & Hf2); [apply lookup_insert_eq| |].
  { apply map_Forall_insert_2; [done|]. apply map_Forall_insert_2; [|apply map_Forall_empty]. cbn. congruence. }
  rewrite insert_insert_eq in Hrel4. rewrite update_step by done. rewrite E2. bind_simpl.
  do 2 eexists. split; [done|]. split_and!; [done|done|done|]. unfold alive. cbn [heap_ poller_ state timerQueue_ timerfd_ wakeupFd_].
  split; [done|]. split; [by split|]. split; [by apply TimerQueue.new_queue_wf|]. split; [by rewrite lookup_insert_ne, lookup_insert_eq by done|].
  split; [apply lookup_insert_eq|]. rewrite !Hf2. unfold flags at 2. rewrite lookup_insert_eq. split; [|done].
  unfold flags at 1. rewrite lookup_insert_ne by done. by fold (flags h1 timerfdChannel_).
Qed.

(** A second loop in a thread is refused. *)
Theorem second_loop_refused env epollfd timerfd wakeupfd now w other :
  timerfdChannel_ <> wakeupChannel_ -> 0 <= epollfd -> 0 <= timerfd -> 0 <= wakeupfd ->
  t_loopInThisThread w = Some other -> EventLoop_new env epollfd timerfd wakeupfd now w = Err Fatal.
Proof.
  intros Hne He Ht Hw Hl. unfold EventLoop_new.
  rewrite poller_created by done. bind_simpl. unfold createTimerfd, createEventfd.
  rewrite (proj2 (Z.ltb_ge _ _) Ht), (proj2 (Z.ltb_ge _ _) Hw). bind_simpl.
  destruct (timer_channel_watched env (EventLoop.new_loop tid) (heap_ w) timerfd eq_refl Ht) as (h1 & s1 & -> & _). bind_simpl.
  unfold EventLoop.construct. by rewrite Hl.
Qed.

(** Destroying the loop in its thread, whatever channels and timers it still has:
    no assertion fails, its descriptors are closed, each once, no timer object is
    left, and of the poller's channels only the loop's own two are gone. *)
Theorem loop_destroyed a l w :
  timerfdChannel_ <> wakeupChannel_ -> alive a l w ->
  exists poller h, EventLoop_dtor l w =
      Ok (∅, poller, mkWorld h None (closed w ++ [wakeupFd_ l; timerfd_ l] ++ match poll_fd_ l with Some fd => [fd] | None => [] end)) /\
    rel (<[timerfdChannel_ := (timerfd_ l, 0, Removed)]> (<[wakeupChannel_ := (wakeupFd_ l, 0, Removed)]> a)) h poller.
Proof.
  intros Hne (Hrel & Hs & Hq & Ht & Hw & Hft & Hfw). unfold EventLoop_dtor.
  destruct (retire _ _ _ _ _ _ _ Hrel Hw Hfw Hs) as (h1 & s1 & h2 & s2 & -> & E2 & E3 & Hrel2 & Hf2). bind_simpl. rewrite E2. bind_simpl.
  cbn [heap_]. rewrite E3. bind_simpl. unfold TimerQueue_dtor. cbn [heap_ poller_ state timerQueue_ timerfd_ t_loopInThisThread closed poll_fd_].
  destruct (retire _ _ _ timerfdChannel_ (timerfd_ l) kReadEvent (state l) Hrel2) as (h3 & s3 & h4 & s4 & -> & E4 & E5 & Hrel4 & _).
  - by rewrite lookup_insert_ne.
  - by rewrite Hf2.
  - done.
  - bind_simpl. rewrite E4. bind_simpl. rewrite all_timers_deleted by done. bind_simpl. rewrite E5. bind_simpl.
    cbn [heap_ t_loopInThisThread closed]. exists s4, h4. by rewrite <- !app_assoc.
Qed.

(** In any other thread the loop's check of its thread ends the program. *)
Theorem destroyed_elsewhere l w :
  is_Some (heap_ w !! wakeupChannel_) -> EventLoop.threadId_ (state l) <> tid -> EventLoop_dtor l w = Err Fatal.
Proof.
  intros [c Hc] Ht. unfold EventLoop_dtor, update, deref. rewrite Hc. bind_simpl.
  unfold EventLoop.updateChannel, EventLoop.assertInLoopThread, EventLoop.isInLoopThread. rewrite Z.eqb_refl.
  by rewrite (proj2 (Z.eqb_neq _ _) Ht).
Qed.
End loop.
End LoopLifetime.
