(* ===== verification/TcpConnection.v ===== *)
(** * TCP connections
    ([src/net/TcpConnection.h], [TcpConnection.cpp])

    A connection with its buffers, its channel and the functors it has queued
    in its loop.  All handlers run in the loop thread; calls of other threads
    test [state_] and queue a functor.  User callbacks are sequences of calls
    to the connection's interface that may depend on the state they find.
    [write(2)] is given by [kernel_write], the result of the n-th call with a
    given length. *)

From S2P Require Import Prelude CxxStd Buffer Channel Poller.

Module TcpConnection.

Inductive StateE := kDisconnected | kConnecting | kConnected | kDisconnecting.

#[global] Instance StateE_eq_dec : EqDecision StateE.
Proof. solve_decision. Defined.

Definition stateToString (s : StateE) : list byte :=
  match s with
  | kDisconnected => bytes "kDisconnected"
  | kConnecting => bytes "kConnecting"
  | kConnected => bytes "kConnected"
  | kDisconnecting => bytes "kDisconnecting"
  end.

(** The callbacks a connection makes to its user and to its server. *)
Inductive cb :=
  | ConnectionUp | ConnectionDown | Message | WriteComplete | HighWaterMark (len : Z).

(** Functors bound to the connection. *)
Inductive functor :=
  | FCallback (k : cb)
  | FSendInLoop (d : list byte) | FShutdownInLoop | FForceCloseInLoop | FConnectDestroyed
  | FStartReadInLoop | FStopReadInLoop.

#[global] Instance cb_eq_dec : EqDecision cb.
Proof. solve_decision. Defined.
#[global] Instance functor_eq_dec : EqDecision functor.
Proof. solve_decision. Defined.

(** What happened to a connection: callbacks made, and calls of
    [shutdownWrite] with the bytes that were not sent yet. *)
Inductive happened := Made (k : cb) | ShutdownWrite (unsent : list byte).

(** History: the calls of [send] that users made while the connection was
    connected, each with whether it came from the loop's thread; the bytes
    [sendInLoop] took on, the bytes the kernel took, the number of writes, what the
    channel told the poller, what happened. *)
Record history := mkHistory {
  asked : list (bool * list byte);
  accepted : list byte;
  written : list byte;
  writes : Z;
  channel_ops : list Poller.channel_op;
  log : list happened }.

Record TcpConnection := mkConn {
  state_ : StateE;
  reading_ : bool;
  channel_ : Channel.Channel;
  inputBuffer_ : Buffer.Buffer;
  outputBuffer_ : Buffer.Buffer;
  highWaterMark_ : Z;
  (** whether the callback is set *)
  writeCompleteCallback_ : bool;
  highWaterMarkCallback_ : bool;
  (** the connection's functors in [loop_]'s queue *)
  functors : list functor;
  hist : history }.

(** ** Updates of single members *)

Definition setState (st : StateE) (c : TcpConnection) : TcpConnection :=
  mkConn st (reading_ c) (channel_ c) (inputBuffer_ c) (outputBuffer_ c) (highWaterMark_ c)
    (writeCompleteCallback_ c) (highWaterMarkCallback_ c) (functors c) (hist c).
Definition set_reading (r : bool) (c : TcpConnection) : TcpConnection :=
  mkConn (state_ c) r (channel_ c) (inputBuffer_ c) (outputBuffer_ c) (highWaterMark_ c)
    (writeCompleteCallback_ c) (highWaterMarkCallback_ c) (functors c) (hist c).
Definition set_channel (ch : Channel.Channel) (c : TcpConnection) : TcpConnection :=
  mkConn (state_ c) (reading_ c) ch (inputBuffer_ c) (outputBuffer_ c) (highWaterMark_ c)
    (writeCompleteCallback_ c) (highWaterMarkCallback_ c) (functors c) (hist c).
Definition set_input (b : Buffer.Buffer) (c : TcpConnection) : TcpConnection :=
  mkConn (state_ c) (reading_ c) (channel_ c) b (outputBuffer_ c) (highWaterMark_ c)
    (writeCompleteCallback_ c) (highWaterMarkCallback_ c) (functors c) (hist c).
Definition set_output (b : Buffer.Buffer) (c : TcpConnection) : TcpConnection :=
  mkConn (state_ c) (reading_ c) (channel_ c) (inputBuffer_ c) b (highWaterMark_ c)
    (writeCompleteCallback_ c) (highWaterMarkCallback_ c) (functors c) (hist c).
Definition set_functors (f : list functor) (c : TcpConnection) : TcpConnection :=
  mkConn (state_ c) (reading_ c) (channel_ c) (inputBuffer_ c) (outputBuffer_ c) (highWaterMark_ c)
    (writeCompleteCallback_ c) (highWaterMarkCallback_ c) f (hist c).
Definition set_hist (h : history) (c : TcpConnection) : TcpConnection :=
  mkConn (state_ c) (reading_ c) (channel_ c) (inputBuffer_ c) (outputBuffer_ c) (highWaterMark_ c)
    (writeCompleteCallback_ c) (highWaterMarkCallback_ c) (functors c) h.

Definition queueInLoop (f : functor) (c : TcpConnection) : TcpConnection := set_functors (functors c ++ [f]) c.
Definition record (e : happened) (c : TcpConnection) : TcpConnection :=
  let h := hist c in set_hist (mkHistory (asked h) (accepted h) (written h) (writes h) (channel_ops h) (log h ++ [e])) c.
(** A write of which the kernel took [d]. *)
Definition record_write (d : list byte) (c : TcpConnection) : TcpConnection :=
  let h := hist c in
  set_hist (mkHistory (asked h) (accepted h) (written h ++ d) (writes h + 1) (channel_ops h) (log h)) c.
Definition record_accept (d : list byte) (c : TcpConnection) : TcpConnection :=
  let h := hist c in set_hist (mkHistory (asked h) (accepted h ++ d) (written h) (writes h) (channel_ops h) (log h)) c.

(** A user calls [send]. *)
Definition record_ask (in_loop : bool) (d : list byte) (c : TcpConnection) : TcpConnection :=
  let h := hist c in
  if decide (state_ c = kConnected)
  then set_hist (mkHistory (asked h ++ [(in_loop, d)]) (accepted h) (written h) (writes h) (channel_ops h) (log h)) c
  else c.

(** The connection's channel has the address 0 in what it tells the poller. *)
Definition tell (o : Poller.channel_op) (c : TcpConnection) : TcpConnection :=
  let h := hist c in set_hist (mkHistory (asked h) (accepted h) (written h) (writes h) (channel_ops h ++ [o]) (log h)) c.

(** [channel_->enableReading()] and the like: the events change, and
    [Channel::update] tells the poller. *)
Definition update (x : Channel.change) (c : TcpConnection) : TcpConnection :=
  let ch := channel_ c in
  tell (Poller.Change x 0)
    (set_channel (Channel.set_added true (Channel.with_events (Channel.apply_change x (Channel.events_ ch)) ch)) c).

(** [channel_->remove()] *)
Definition remove (c : TcpConnection) : outcome TcpConnection :=
  assert_ (Channel.isNoneEvent (channel_ c));;
  Ok (tell (Poller.Remove 0) (set_channel (Channel.set_added false (channel_ c)) c)).

(** [TcpConnection::TcpConnection] *)
Definition new_connection (sockfd : Z) (wc hw : bool) : outcome TcpConnection :=
  input ← Buffer.new_buffer Buffer.kInitialSize;
  output ← Buffer.new_buffer Buffer.kInitialSize;
  Ok (mkConn kConnecting true (Channel.new_channel sockfd) input output (64 * 1024 * 1024) wc hw []
        (mkHistory [] [] [] 0 [] [])).

Definition connected (c : TcpConnection) : bool := bool_decide (state_ c = kConnected).
Definition disconnected (c : TcpConnection) : bool := bool_decide (state_ c = kDisconnected).

(** ** The system calls *)
Inductive write_result := Wrote (n : Z) | WriteError (errno : Z).

Definition EWOULDBLOCK : Z := 11.
Definition EPIPE : Z := 32.
Definition ECONNRESET : Z := 104.

(** The calls of user code. *)
Inductive user_call :=
  | Send (d : list byte) | Shutdown | ForceClose | ForceCloseWithDelay | StartRead | StopRead
  | Retrieve (n : Z).

Section connection.
Context (kernel_write : Z -> Z -> write_result) (user : cb -> TcpConnection -> list user_call).

(** [sockets::write(channel_->fd(), data, len)] *)
Definition sockets_write (data : list byte) (c : TcpConnection) : TcpConnection * write_result :=
  match kernel_write (writes (hist c)) (zlen data) with
  | Wrote n => (record_write (ztake n data) c, Wrote n)
  | WriteError e => (record_write [] c, WriteError e)
  end.

(** The part of [sendInLoop] that keeps the bytes the kernel did not take. *)
Definition keep (data : list byte) (remaining : Z) (c : TcpConnection) : outcome TcpConnection :=
  let oldLen := Buffer.readableBytes (outputBuffer_ c) in
  let c := if (highWaterMark_ c <=? u64 (oldLen + remaining)) && (oldLen <? highWaterMark_ c)
                && highWaterMarkCallback_ c
           then queueInLoop (FCallback (HighWaterMark (u64 (oldLen + remaining)))) c else c in
  output ← Buffer.append data remaining (outputBuffer_ c);
  let c := set_output output c in
  Ok (if negb (Channel.isWriting (channel_ c)) then update Channel.enableWriting c else c).

Definition sendInLoop (data : list byte) (c : TcpConnection) : outcome TcpConnection :=
  let len := zlen data in
  if decide (state_ c = kDisconnected) then Ok c
  else
    let '(c, nwrote, remaining, faultError) :=
      if negb (Channel.isWriting (channel_ c)) && (Buffer.readableBytes (outputBuffer_ c) =? 0) then
        let '(c, r) := sockets_write data c in
        match r with
        | Wrote nwrote =>
            let remaining := u64 (len - nwrote) in
            (if (remaining =? 0) && writeCompleteCallback_ c
             then queueInLoop (FCallback WriteComplete) c else c, nwrote, remaining, false)
        | WriteError errno =>
            (c, 0, len, negb (errno =? EWOULDBLOCK) && ((errno =? EPIPE) || (errno =? ECONNRESET)))
        end
      else (c, 0, len, false) in
    let c := if faultError then c else record_accept data c in
    assert_ (remaining <=? len);;
    if negb faultError && (0 <? remaining) then keep (zdrop nwrote data) remaining c else Ok c.

(** [socket_->shutdownWrite()] unless data is still being written. *)
Definition shutdownInLoop (c : TcpConnection) : TcpConnection :=
  if negb (Channel.isWriting (channel_ c))
  then record (ShutdownWrite (Buffer.content (outputBuffer_ c))) c else c.

Definition startReadInLoop (c : TcpConnection) : TcpConnection :=
  if negb (reading_ c) || negb (Channel.isReading (channel_ c))
  then set_reading true (update Channel.enableReading c) else c.

Definition stopReadInLoop (c : TcpConnection) : TcpConnection :=
  if reading_ c || Channel.isReading (channel_ c)
  then set_reading false (update Channel.disableReading c) else c.

(** ** The thread-safe interface; [in_loop] is [loop_->isInLoopThread()] *)

Definition send (in_loop : bool) (d : list byte) (c : TcpConnection) : outcome TcpConnection :=
  if decide (state_ c = kConnected) then
    if in_loop then sendInLoop d c else Ok (queueInLoop (FSendInLoop d) c)
  else Ok c.

(** [send(Buffer* )] empties the buffer it takes the data from. *)
Definition sendBuffer (in_loop : bool) (buf : Buffer.Buffer) (c : TcpConnection) :
    outcome (TcpConnection * Buffer.Buffer) :=
  if decide (state_ c = kConnected) then
    if in_loop then
      c ← sendInLoop (Buffer.range buf (Buffer.peek buf) (Buffer.peek buf + Buffer.readableBytes buf)) c;
      Ok (c, Buffer.retrieveAll buf)
    else
      '(buf, d) ← Buffer.retrieveAllAsString buf;
      Ok (queueInLoop (FSendInLoop d) c, buf)
  else Ok (c, buf).

Definition shutdown (in_loop : bool) (c : TcpConnection) : TcpConnection :=
  if decide (state_ c = kConnected) then
    let c := setState kDisconnecting c in
    if in_loop then shutdownInLoop c else queueInLoop FShutdownInLoop c
  else c.

Definition forceClose (c : TcpConnection) : TcpConnection :=
  if decide (state_ c = kConnected \/ state_ c = kDisconnecting) then
    queueInLoop FForceCloseInLoop (setState kDisconnecting c)
  else c.

(** Also starts a timer that calls [forceClose] later. *)
Definition forceCloseWithDelay (c : TcpConnection) : TcpConnection :=
  if decide (state_ c = kConnected \/ state_ c = kDisconnecting) then setState kDisconnecting c else c.

Definition startRead (in_loop : bool) (c : TcpConnection) : TcpConnection :=
  if in_loop then startReadInLoop c else queueInLoop FStartReadInLoop c.
Definition stopRead (in_loop : bool) (c : TcpConnection) : TcpConnection :=
  if in_loop then stopReadInLoop c else queueInLoop FStopReadInLoop c.

Definition user_step (in_loop : bool) (o : user_call) (c : TcpConnection) : outcome TcpConnection :=
  match o with
  | Send d => send in_loop d (record_ask in_loop d c)
  | Shutdown => Ok (shutdown in_loop c)
  | ForceClose => Ok (forceClose c)
  | ForceCloseWithDelay => Ok (forceCloseWithDelay c)
  | StartRead => Ok (startRead in_loop c)
  | StopRead => Ok (stopRead in_loop c)
  | Retrieve n => b ← Buffer.retrieve n (inputBuffer_ c); Ok (set_input b c)
  end.

Fixpoint user_run (os : list user_call) (c : TcpConnection) : outcome TcpConnection :=
  match os with
  | [] => Ok c
  | o :: os' => c ← user_step true o c; user_run os' c
  end.

(** A callback to the user, made in the loop thread. *)
Definition callback (k : cb) (c : TcpConnection) : outcome TcpConnection :=
  let c := record (Made k) c in user_run (user k c) c.

(** ** Handlers *)

Definition connectEstablished (c : TcpConnection) : outcome TcpConnection :=
  assert_ (bool_decide (state_ c = kConnecting));;
  let c := setState kConnected c in
  let c := set_channel (Channel.tie (channel_ c)) c in
  let c := update Channel.enableReading c in
  callback ConnectionUp c.

Definition connectDestroyed (c : TcpConnection) : outcome TcpConnection :=
  c ← (if decide (state_ c = kConnected) then
         callback ConnectionDown (update Channel.disableAll (setState kDisconnected c))
       else Ok c);
  remove c.

(** [closeCallback_] is [TcpServer::removeConnection] or
    [TcpClient::removeConnection], which queue [connectDestroyed]. *)
Definition handleClose (c : TcpConnection) : outcome TcpConnection :=
  assert_ (bool_decide (state_ c = kConnected \/ state_ c = kDisconnecting));;
  let c := update Channel.disableAll (setState kDisconnected c) in
  c ← callback ConnectionDown c;
  Ok (queueInLoop FConnectDestroyed c).

(** [handleError] reads the socket's error and logs it. *)
Definition handleError (c : TcpConnection) : TcpConnection := c.

Definition handleRead (readv : list Z -> Buffer.readv_result) (c : TcpConnection) : outcome TcpConnection :=
  '(b, n, _) ← Buffer.readFd readv (inputBuffer_ c);
  let c := set_input b c in
  if 0 <? n then callback Message c
  else if n =? 0 then handleClose c
  else Ok (handleError c).

Definition handleWrite (c : TcpConnection) : outcome TcpConnection :=
  if Channel.isWriting (channel_ c) then
    let out := outputBuffer_ c in
    let '(c, r) := sockets_write (Buffer.range out (Buffer.peek out) (Buffer.peek out + Buffer.readableBytes out)) c in
    match r with
    | Wrote n =>
        if 0 <? n then
          b ← Buffer.retrieve n (outputBuffer_ c);
          let c := set_output b c in
          if Buffer.readableBytes b =? 0 then
            let c := update Channel.disableWriting c in
            let c := if writeCompleteCallback_ c then queueInLoop (FCallback WriteComplete) c else c in
            Ok (if decide (state_ c = kDisconnecting) then shutdownInLoop c else c)
          else Ok c
        else Ok c
    | WriteError _ => Ok c
    end
  else Ok c.

Definition forceCloseInLoop (c : TcpConnection) : outcome TcpConnection :=
  if decide (state_ c = kConnected \/ state_ c = kDisconnecting) then handleClose c else Ok c.

Definition run_functor (f : functor) (c : TcpConnection) : outcome TcpConnection :=
  match f with
  | FCallback k => callback k c
  | FSendInLoop d => sendInLoop d c
  | FShutdownInLoop => Ok (shutdownInLoop c)
  | FForceCloseInLoop => forceCloseInLoop c
  | FConnectDestroyed => connectDestroyed c
  | FStartReadInLoop => Ok (startReadInLoop c)
  | FStopReadInLoop => Ok (stopReadInLoop c)
  end.

(** The channel calls back for the events the poller reported. *)
Fixpoint dispatch (cbs : list Channel.callback) (readv : list Z -> Buffer.readv_result) (c : TcpConnection) :
    outcome TcpConnection :=
  match cbs with
  | [] => Ok c
  | k :: cbs' =>
      c ← match k with
          | Channel.CloseCallback => handleClose c
          | Channel.ErrorCallback => Ok (handleError c)
          | Channel.ReadCallback => handleRead readv c
          | Channel.WriteCallback => handleWrite c
          end;
      dispatch cbs' readv c
  end.

(** ** What happens to a connection *)
Inductive event :=
  | InLoop (o : user_call)
  | FromOther (o : user_call)
  | RunFunctor
  | Io (revents : Z) (readv : list Z -> Buffer.readv_result)
  | ServerDestroys.

(** The callbacks the constructor installed. *)
Definition all_installed : Channel.installed := Channel.mkInstalled true true true true.

Definition tcp_step (ev : event) (c : TcpConnection) : outcome TcpConnection :=
  match ev with
  | InLoop o => user_step true o c
  | FromOther o => user_step false o c
  | RunFunctor =>
      match functors c with
      | [] => Ok c
      | f :: fs => run_functor f (set_functors fs c)
      end
  | Io revents readv =>
      let c := set_channel (Channel.set_revents revents (channel_ c)) c in
      dispatch (Channel.handleEvent all_installed true (channel_ c)) readv c
  | ServerDestroys => connectDestroyed c
  end.

Fixpoint tcp_run (evs : list event) (c : TcpConnection) : outcome TcpConnection :=
  match evs with
  | [] => Ok c
  | ev :: evs' => c ← tcp_step ev c; tcp_run evs' c
  end.

(** ** Protocols

    The life of a connection, as its user sees it: up, then messages and other
    callbacks, then down; until it is down the write side is only shut down when
    every byte has been sent. *)
Inductive phase := Before | Up | Down.

Definition phase_step (p : phase) (e : happened) : option phase :=
  match p, e with
  | Before, Made ConnectionUp => Some Up
  | Up, Made Message | Up, Made WriteComplete | Up, Made (HighWaterMark _) => Some Up
  | Up, ShutdownWrite unsent => if decide (unsent = []) then Some Up else None
  | Up, Made ConnectionDown => Some Down
  | Down, Made WriteComplete | Down, Made (HighWaterMark _) | Down, ShutdownWrite _ => Some Down
  | _, _ => None
  end.

Definition phase_of (l : list happened) : option phase :=
  foldl (fun p e => p ≫= fun p => phase_step p e) (Some Before) l.

Lemma phase_of_snoc l e : phase_of (l ++ [e]) = phase_of l ≫= fun p => phase_step p e.
Proof. unfold phase_of. by rewrite foldl_app. Qed.

(** What the poller knows after a history of channel operations, if they keep to
    the poller's interface. *)
Definition told (fd : Z) (ops : list Poller.channel_op) : option Poller.abstract :=
  foldl (fun a o => a ≫= Poller.abs_step o) (Some {[ 0 := (fd, 0, Poller.Fresh) ]}) ops.

Lemma told_first fd x :
  Channel.apply_change x 0 <> 0 ->
  told fd [Poller.Change x 0] = Some {[ 0 := (fd, Channel.apply_change x 0, Poller.Registered) ]}.
Proof.
  intros Hx. unfold told. cbn. rewrite lookup_singleton_eq.
  rewrite decide_True; [by rewrite insert_singleton_eq|]. split; [done|].
  intros p v [<- <-]%lookup_singleton_Some. done.
Qed.

Lemma told_change fd ops e x :
  told fd ops = Some {[ 0 := (fd, e, Poller.Registered) ]} ->
  told fd (ops ++ [Poller.Change x 0]) = Some {[ 0 := (fd, Channel.apply_change x e, Poller.Registered) ]}.
Proof.
  unfold told. intros H. rewrite foldl_app, H. cbn. rewrite lookup_singleton_eq. by rewrite insert_singleton_eq.
Qed.

Lemma told_remove fd ops :
  told fd ops = Some {[ 0 := (fd, 0, Poller.Registered) ]} ->
  told fd (ops ++ [Poller.Remove 0]) = Some {[ 0 := (fd, 0, Poller.Removed) ]}.
Proof.
  unfold told. intros H. rewrite foldl_app, H. cbn. rewrite lookup_singleton_eq. by rewrite insert_singleton_eq.
Qed.

(** ** Invariant *)

Definition is_open (c : TcpConnection) : Prop := state_ c = kConnected \/ state_ c = kDisconnecting.

Definition knows (c : TcpConnection) (st : Poller.status) : Prop :=
  told (Channel.fd_ (channel_ c)) (channel_ops (hist c)) =
  Some {[ 0 := (Channel.fd_ (channel_ c), Channel.events_ (channel_ c), st) ]}.

(** How often [connectDestroyed] will still run; [owed] when the handler that is
    running will see to it. *)
Definition destroys (owed : nat) (c : TcpConnection) : nat := (length (filter (fun f => f = FConnectDestroyed) (functors c)) + owed)%nat.

(** Functors that the connection itself or a valid user queues. *)
Definition functor_ok (f : functor) : Prop :=
  match f with
  | FCallback WriteComplete | FCallback (HighWaterMark _) => True
  | FCallback _ | FStartReadInLoop | FStopReadInLoop => False
  | _ => True
  end.

Definition unsent (c : TcpConnection) : list byte := Buffer.content (outputBuffer_ c).

(** While the connection is open the poller watches for writability exactly when
    bytes wait to be sent; afterwards its channel is quiet and will be removed
    once. *)
Definition state_inv (owed : nat) (c : TcpConnection) : Prop :=
  match state_ c with
  | kConnecting => False
  | kConnected | kDisconnecting =>
      knows c Poller.Registered /\ phase_of (log (hist c)) = Some Up /\ destroys owed c = 0%nat /\
      (Channel.isWriting (channel_ c) = true <-> unsent c <> [])
  | kDisconnected =>
      Channel.events_ (channel_ c) = 0 /\ phase_of (log (hist c)) = Some Down /\
      (knows c Poller.Registered /\ destroys owed c = 1%nat \/ knows c Poller.Removed /\ destroys owed c = 0%nat)
  end.

(** [hand] are bytes taken on that are neither sent nor in the buffer yet. *)
Record inv (owed : nat) (hand : list byte) (c : TcpConnection) : Prop := {
  inv_in : Buffer.wf (inputBuffer_ c);
  inv_out : Buffer.wf (outputBuffer_ c);
  inv_stream : written (hist c) ++ unsent c ++ hand = accepted (hist c);
  inv_mask : Channel.event_mask (Channel.events_ (channel_ c));
  inv_functors : Forall functor_ok (functors c);
  inv_state : state_inv owed c }.

Definition fits (n : Z) (b : Buffer.Buffer) : Prop := zlen (Buffer.buffer_ b) + n <= Buffer.max_size.

Definition kernel_ok : Prop :=
  forall i len n, 0 <= len -> kernel_write i len = Wrote n -> 0 <= n <= len.

(** What a user may do: data that fits into memory, reading what is there, and
    no [startRead] or [stopRead] on a closed connection or from another thread. *)
Definition valid_call (in_loop : bool) (o : user_call) (c : TcpConnection) : Prop :=
  match o with
  | Send d => in_loop = true -> fits (zlen d) (outputBuffer_ c)
  | StartRead | StopRead => in_loop = true /\ is_open c
  | Retrieve n => in_loop = true /\ 0 <= n <= Buffer.readableBytes (inputBuffer_ c)
  | _ => True
  end.

Fixpoint valid_calls (os : list user_call) (c : TcpConnection) : Prop :=
  match os with
  | [] => True
  | o :: os' => valid_call true o c /\ forall c', user_step true o c = Ok c' -> valid_calls os' c'
  end.

Definition valid_event (ev : event) (c : TcpConnection) : Prop :=
  match ev with
  | InLoop o => valid_call true o c
  | FromOther o => valid_call false o c
  | RunFunctor =>
      match functors c with FSendInLoop d :: _ => fits (zlen d) (outputBuffer_ c) | _ => True end
  | Io revents readv =>
      (** events are reported for watched channels only; a hangup without
          readable data comes without urgent data *)
      Channel.events_ (channel_ c) <> 0 /\
      (Channel.has_flag revents Channel.POLLHUP && negb (Channel.has_flag revents Channel.POLLIN) = true ->
       Channel.has_flag revents (Z.lor (Z.lor Channel.POLLIN Channel.POLLPRI) Channel.POLLRDHUP) = false) /\
      Buffer.readv_fits readv /\ fits Buffer.extrabuf_size (inputBuffer_ c)
  | ServerDestroys => state_ c = kConnected
  end.

Fixpoint valid_events (evs : list event) (c : TcpConnection) : Prop :=
  match evs with
  | [] => True
  | ev :: evs' => valid_event ev c /\ forall c', tcp_step ev c = Ok c' -> valid_events evs' c'
  end.

(** ** Lemmas on single updates *)

Lemma open_not_closed c : is_open c -> state_ c <> kDisconnected.
Proof. by intros [-> | ->]. Qed.

Lemma state_inv_open owed c :
  is_open c -> state_inv owed c <->
  knows c Poller.Registered /\ phase_of (log (hist c)) = Some Up /\ destroys owed c = 0%nat /\
  (Channel.isWriting (channel_ c) = true <-> unsent c <> []).
Proof. unfold state_inv. by intros [-> | ->]. Qed.

Lemma inv_cases owed hand c : inv owed hand c -> is_open c \/ state_ c = kDisconnected.
Proof. intros [_ _ _ _ _ Hs]. unfold state_inv, is_open in *. destruct (state_ c); auto; done. Qed.

Lemma inv_queue owed hand f c :
  inv owed hand c -> functor_ok f -> f <> FConnectDestroyed -> inv owed hand (queueInLoop f c).
Proof.
  intros [Hin Hout Hst Hm Hf Hs] Hok Hd. split; try done.
  - apply Forall_app. by repeat constructor.
  - assert (destroys owed (queueInLoop f c) = destroys owed c) as Hds.
    { unfold destroys. cbn. rewrite filter_app, length_app, filter_cons_False by done. cbn. lia. }
    unfold state_inv in *. rewrite Hds. exact Hs.
Qed.

Lemma queue_destroy owed hand c : inv (S owed) hand c -> inv owed hand (queueInLoop FConnectDestroyed c).
Proof.
  intros [Hin Hout Hst Hm Hf Hs]. split; try done.
  - apply Forall_app. by repeat constructor.
  - assert (destroys owed (queueInLoop FConnectDestroyed c) = destroys (S owed) c) as Hds.
    { unfold destroys. cbn. rewrite filter_app, length_app, filter_cons_True by done. cbn. lia. }
    unfold state_inv in *. rewrite Hds. exact Hs.
Qed.

(** Recording a callback that the phase allows. *)
Lemma inv_record owed hand e c :
  inv owed hand c ->
  (is_open c -> phase_step Up e = Some Up) -> (state_ c = kDisconnected -> phase_step Down e = Some Down) ->
  inv owed hand (record e c).
Proof.
  intros Hinv Ho Hd. destruct (inv_cases _ _ _ Hinv) as [Hc|Hc]; destruct Hinv as [Hin Hout Hst Hm Hf Hs];
    split; try done.
  - apply (state_inv_open owed c Hc) in Hs as (Hk & Hp & Hn & Hw). apply state_inv_open; [done|].
    refine (conj Hk (conj _ (conj Hn Hw))). cbn. rewrite phase_of_snoc, Hp. by apply Ho.
  - unfold state_inv in *. cbn. rewrite Hc in *. destruct Hs as (He & Hp & Hn).
    refine (conj He (conj _ Hn)). rewrite phase_of_snoc, Hp. by apply Hd.
Qed.

Lemma change_writing x e :
  Channel.event_mask e ->
  negb (Z.land (Channel.apply_change x e) Channel.kWriteEvent =? 0) =
  match x with
  | Channel.enableWriting => true
  | Channel.disableWriting | Channel.disableAll => false
  | _ => negb (Z.land e Channel.kWriteEvent =? 0)
  end.
Proof. by intros [->|[->|[->| ->]]]; destruct x. Qed.

(** A change of interest in an open connection that keeps the write interest
    right, given what is unsent. *)
Lemma inv_update owed hand x c :
  Buffer.wf (inputBuffer_ c) -> Buffer.wf (outputBuffer_ c) ->
  written (hist c) ++ unsent c ++ hand = accepted (hist c) ->
  Channel.event_mask (Channel.events_ (channel_ c)) -> Forall functor_ok (functors c) -> is_open c ->
  knows c Poller.Registered -> phase_of (log (hist c)) = Some Up -> destroys owed c = 0%nat ->
  (match x with
   | Channel.enableWriting => true
   | Channel.disableWriting | Channel.disableAll => false
   | _ => Channel.isWriting (channel_ c)
   end = true <-> unsent c <> []) ->
  inv owed hand (update x c).
Proof.
  intros Hin Hout Hst Hm Hf Ho Hk Hp Hn Hw. split; try done.
  - by apply Channel.apply_change_mask.
  - apply state_inv_open; [done|]. refine (conj _ (conj Hp (conj Hn _))).
    + unfold knows. cbn. by apply told_change.
    + unfold Channel.isWriting. cbn. rewrite change_writing by done. apply Hw.
Qed.

(** ** Sending *)

Lemma keep_ok owed data c :
  inv owed data c -> is_open c -> data <> [] -> fits (zlen data) (outputBuffer_ c) ->
  exists c', keep data (zlen data) c = Ok c' /\ inv owed [] c'.
Proof.
  intros Hinv Ho Hne Hfit. unfold keep.
  set (c1 := if _ && _ && _ then _ else c).
  assert (inv owed data c1) as Hinv1 by (subst c1; case_match; [by apply inv_queue|done]).
  assert (is_open c1 /\ outputBuffer_ c1 = outputBuffer_ c) as [Ho1 Hout1] by (subst c1; by case_match).
  rewrite Hout1. destruct Hinv1 as [Hin Hout Hst Hm Hf Hs].
  apply state_inv_open in Hs as (Hk & Hp & Hn & Hw); [|done]. rewrite Hout1 in Hout.
  destruct (Buffer.append_spec data (zlen data) (outputBuffer_ c)) as (b & E & (Hb & Hc & _) & _);
    [done|zlen_pos; lia|done|]. rewrite ztake_all in Hc by lia. rewrite E. bind_simpl. eexists. split; [done|].
  assert (unsent (set_output b c1) = unsent c1 ++ data) as Hu by (unfold unsent; cbn; by rewrite Hc, Hout1).
  assert (unsent (set_output b c1) <> []) as Hu' by (rewrite Hu; intros [_ ?]%app_nil; done).
  assert (written (hist c1) ++ unsent (set_output b c1) ++ [] = accepted (hist c1)) as Hst'
    by (by rewrite Hu, app_nil_r).
  destruct (Channel.isWriting (channel_ (set_output b c1))) eqn:Ew; cbn [negb].
  - split; try done. apply state_inv_open; [done|]. refine (conj Hk (conj Hp (conj Hn _))). done.
  - by apply inv_update.
Qed.

(** The bytes are on the wire or in hand after the attempt to write them. *)
Lemma accept_inv owed c d n :
  inv owed [] c -> is_open c -> unsent c = [] ->
  inv owed (zdrop n d) (record_accept d (record_write (ztake n d) c)).
Proof.
  intros [Hin Hout Hst Hm Hf Hs] Ho Hu. split; try done.
  unfold unsent in *. cbn. rewrite Hu in *. cbn in *. rewrite app_nil_r in Hst. rewrite <- Hst, <- app_assoc.
  unfold ztake, zdrop. by rewrite take_drop.
Qed.

Lemma u64_id z : 0 <= z < 2 ^ 64 -> u64 z = z.
Proof. intros. by cint. Qed.

Lemma attempt_inv owed c : inv owed [] c -> inv owed [] (record_write [] c).
Proof. intros [Hin Hout Hst Hm Hf Hs]. split; try done. cbn. by rewrite app_nil_r. Qed.

Lemma fits_bound (d : list byte) b : Buffer.wf b -> fits (zlen d) b -> 0 <= zlen d < 2 ^ 63.
Proof. intros (Hb & _) Hfit. unfold fits, Buffer.kCheapPrepend, Buffer.max_size in *. zlen_pos. lia. Qed.

Lemma keep_rest owed d n c :
  inv owed (zdrop n d) c -> is_open c -> fits (zlen d) (outputBuffer_ c) -> 0 <= n <= zlen d ->
  exists c', (if 0 <? zlen d - n then keep (zdrop n d) (zlen d - n) c else Ok c) = Ok c' /\ inv owed [] c'.
Proof.
  intros Hinv Ho Hfit Hn. assert (zlen (zdrop n d) = zlen d - n) as Hl by (apply zlen_drop; lia).
  destruct (Z.ltb_spec 0 (zlen d - n)) as [Hlt|Hge].
  - rewrite <- Hl. apply keep_ok; [done|done| |].
    + intros E. rewrite E in Hl. change (zlen (@nil byte)) with 0 in Hl. lia.
    + unfold fits in *. lia.
  - exists c. split; [done|]. by rewrite zdrop_all in Hinv by lia.
Qed.

Lemma sendInLoop_ok owed d c :
  kernel_ok -> inv owed [] c -> fits (zlen d) (outputBuffer_ c) ->
  exists c', sendInLoop d c = Ok c' /\ inv owed [] c'.
Proof.
  intros Hker Hinv Hfit. unfold sendInLoop. case_decide as Hst; [by exists c|].
  assert (is_open c) as Ho by (destruct (inv_cases _ _ _ Hinv); done).
  pose proof (inv_out _ _ _ Hinv) as Hout. pose proof (fits_bound _ _ Hout Hfit) as Hd.
  pose proof (inv_state _ _ _ Hinv) as Hs. apply state_inv_open in Hs as (_ & _ & _ & Hw); [|done].
  rewrite Buffer.readable_wf by done. fold (unsent c).
  destruct (Channel.isWriting (channel_ c)) eqn:Ew; cbn [negb andb].
  { rewrite assert_true by lia. bind_simpl. cbn [negb andb].
    replace (zlen d) with (zlen d - 0) by lia. apply keep_rest; [|done|done|lia].
    destruct Hinv as [Hin _ Hstr Hm Hf Hs]. split; try done. cbn. rewrite <- Hstr, app_nil_r.
    unfold zdrop. by rewrite <- app_assoc. }
  assert (unsent c = []) as Hu.
  { destruct (unsent c); [done|]. exfalso. destruct Hw as [_ Hw]. by discriminate Hw. }
  rewrite Hu. change (zlen (@nil byte) =? 0) with true. cbv iota. unfold sockets_write.
  destruct (kernel_write (writes (hist c)) (zlen d)) as [n|e] eqn:Ek.
  - apply Hker in Ek; [|lia]. rewrite u64_id by lia. cbn [negb andb]. cbv iota beta zeta.
    set (c1 := if _ && _ then _ else _).
    rewrite assert_true by lia. bind_simpl. pose proof (accept_inv owed c d n Hinv Ho Hu) as Ha.
    apply keep_rest; [|subst c1; by case_match|subst c1; by case_match|lia].
    subst c1. case_match; [|done]. by apply (inv_queue _ _ (FCallback WriteComplete)) in Ha.
  - destruct (negb (e =? EWOULDBLOCK) && _) eqn:Ef; cbn [negb andb].
    + rewrite assert_true by lia. bind_simpl. eexists. split; [done|]. by apply attempt_inv.
    + rewrite assert_true by lia. bind_simpl.
      replace (zlen d) with (zlen d - 0) by lia. apply keep_rest; [|done|done|lia].
      apply (accept_inv owed c d 0 Hinv Ho Hu).
Qed.

(** ** The other operations of the interface *)

Lemma inv_disconnecting owed hand c :
  inv owed hand c -> is_open c -> inv owed hand (setState kDisconnecting c).
Proof.
  intros [Hin Hout Hst Hm Hf Hs] Ho. split; try done.
  apply state_inv_open; [by right|]. by apply state_inv_open in Hs.
Qed.

Lemma shutdownInLoop_ok owed hand c : inv owed hand c -> inv owed hand (shutdownInLoop c).
Proof.
  intros Hinv. unfold shutdownInLoop. destruct (Channel.isWriting (channel_ c)) eqn:Ew; [done|]. cbn [negb].
  apply inv_record; [done| |done]. intros Ho. pose proof (inv_state _ _ _ Hinv) as Hs.
  apply state_inv_open in Hs as (_ & _ & _ & Hw); [|done]. fold (unsent c). rewrite Ew in Hw. cbn.
  rewrite decide_True; [done|]. destruct (unsent c); [done|]. exfalso. destruct Hw as [_ Hw]. by discriminate Hw.
Qed.

Lemma inv_read_change owed hand x r c :
  inv owed hand c -> is_open c -> x = Channel.enableReading \/ x = Channel.disableReading ->
  inv owed hand (set_reading r (update x c)).
Proof.
  intros [Hin Hout Hst Hm Hf Hs] Ho Hx. apply state_inv_open in Hs as (Hk & Hp & Hn & Hw); [|done].
  assert (inv owed hand (update x c)) as [Hin' Hout' Hst' Hm' Hf' Hs'] by (apply inv_update; by destruct Hx as [-> | ->]).
  by split.
Qed.

Lemma startReadInLoop_ok owed hand c : inv owed hand c -> is_open c -> inv owed hand (startReadInLoop c).
Proof. intros. unfold startReadInLoop. case_match; [apply inv_read_change; auto|done]. Qed.

Lemma stopReadInLoop_ok owed hand c : inv owed hand c -> is_open c -> inv owed hand (stopReadInLoop c).
Proof. intros. unfold stopReadInLoop. case_match; [apply inv_read_change; auto|done]. Qed.

Lemma ask_ok owed hand in_loop d c : inv owed hand c -> inv owed hand (record_ask in_loop d c).
Proof. intros [Hin Hout Hst Hm Hf Hs]. unfold record_ask. by case_decide. Qed.

Lemma ask_output in_loop d c : outputBuffer_ (record_ask in_loop d c) = outputBuffer_ c.
Proof. unfold record_ask. by case_decide. Qed.

Lemma ask_state in_loop d c : state_ (record_ask in_loop d c) = state_ c.
Proof. unfold record_ask. by case_decide. Qed.

Lemma user_step_ok owed in_loop o c :
  kernel_ok -> inv owed [] c -> valid_call in_loop o c ->
  exists c', user_step in_loop o c = Ok c' /\ inv owed [] c'.
Proof.
  intros Hker Hinv Hv. destruct o as [d| | | | | |n]; cbn in Hv |- *.
  - apply (ask_ok owed [] in_loop d) in Hinv. rewrite <- (ask_output in_loop d c) in Hv. set (c1 := record_ask _ _ _) in *.
    unfold send. case_decide; [|by exists c1]. destruct in_loop; [by apply sendInLoop_ok; auto|].
    eexists. split; [done|]. by apply inv_queue.
  - eexists. split; [done|]. unfold shutdown. case_decide; [|done].
    assert (inv owed [] (setState kDisconnecting c)) as H' by (apply inv_disconnecting; [done|by left]).
    destruct in_loop; [by apply shutdownInLoop_ok|by apply inv_queue].
  - eexists. split; [done|]. unfold forceClose. case_decide; [|done].
    apply inv_queue; [|done|done]. by apply inv_disconnecting.
  - eexists. split; [done|]. unfold forceCloseWithDelay. case_decide; [|done]. by apply inv_disconnecting.
  - destruct Hv as [-> Ho]. eexists. split; [done|]. by apply startReadInLoop_ok.
  - destruct Hv as [-> Ho]. eexists. split; [done|]. by apply stopReadInLoop_ok.
  - destruct Hv as [-> Hn]. destruct Hinv as [Hin Hout Hst Hm Hf Hs].
    rewrite Buffer.readable_wf in Hn by done.
    destruct (Buffer.retrieve_spec n (inputBuffer_ c)) as (b & -> & Hb & _); [done..|]. bind_simpl.
    eexists. by split.
Qed.

Lemma user_run_ok owed os c :
  kernel_ok -> inv owed [] c -> valid_calls os c -> exists c', user_run os c = Ok c' /\ inv owed [] c'.
Proof.
  intros Hker. revert c. induction os as [|o os IH]; intros c Hinv Hv; [by exists c|]. destruct Hv as [Ho Hos].
  cbn [user_run]. destruct (user_step_ok owed true o c) as (c1 & E & H1); [done..|]. rewrite E. bind_simpl. auto.
Qed.

(** ** The handlers *)
Section handlers.
Hypothesis Hker : kernel_ok.
Hypothesis Huser : forall owed k c, inv owed [] c -> valid_calls (user k c) c.

Lemma callback_ok owed k c :
  inv owed [] (record (Made k) c) -> exists c', callback k c = Ok c' /\ inv owed [] c'.
Proof. intros H. unfold callback. apply user_run_ok; [done..|]. by apply (Huser owed). Qed.

Lemma connectEstablished_ok fd wc hw :
  0 <= fd -> exists c c', new_connection fd wc hw = Ok c /\ connectEstablished c = Ok c' /\ inv 0 [] c'.
Proof.
  intros Hfd. unfold new_connection.
  destruct (Buffer.new_buffer_spec Buffer.kInitialSize) as (b & -> & Hb & Hc & _).
  { vm_compute. split; discriminate. }
  bind_simpl.
  match goal with |- context [Ok ?x = Ok _] => exists x end. unfold connectEstablished. cbn.
  match goal with |- context [callback _ ?c] => set (c0 := c) end.
  destruct (callback_ok 0 ConnectionUp c0) as (c' & E & H').
  - assert (unsent c0 = []) as Hu by exact Hc. split; try done.
    + change (written (hist c0) ++ unsent c0 ++ [] = accepted (hist c0)). by rewrite Hu.
    + by right; left.
    + apply state_inv_open; [by left|]. refine (conj _ (conj eq_refl (conj eq_refl _))).
      * by apply told_first.
      * change (Channel.isWriting (channel_ c0) = true <-> unsent c0 <> []). by rewrite Hu.
  - exists c'. split_and!; done.
Qed.

(** The state in which the user learns that the connection is down. *)
Lemma closing_inv c :
  inv 0 [] c -> is_open c ->
  inv 1 [] (record (Made ConnectionDown) (update Channel.disableAll (setState kDisconnected c))).
Proof.
  intros [Hin Hout Hst Hm Hf Hs] Ho. apply state_inv_open in Hs as (Hk & Hp & Hn & _); [|done].
  split; try done; [by left|]. unfold state_inv. cbn [state_ record update tell set_hist set_channel setState].
  split_and!; [done| |].
  - cbn. by rewrite phase_of_snoc, Hp.
  - left. split; [exact (told_change _ _ _ Channel.disableAll Hk)|]. unfold destroys in *. cbn. lia.
Qed.

Lemma handleClose_ok c :
  inv 0 [] c -> is_open c -> exists c', handleClose c = Ok c' /\ inv 0 [] c'.
Proof.
  intros Hinv Ho. unfold handleClose. rewrite assert_true by by apply bool_decide_eq_true_2. bind_simpl.
  destruct (callback_ok _ _ _ (closing_inv c Hinv Ho)) as (c1 & -> & H1). bind_simpl.
  eexists. split; [done|]. by apply queue_destroy.
Qed.

Lemma remove_ok c : inv 1 [] c -> exists c', remove c = Ok c' /\ inv 0 [] c'.
Proof.
  intros [Hin Hout Hst Hm Hf Hs]. unfold state_inv in Hs. unfold remove.
  destruct (state_ c) eqn:Est; [|done|unfold destroys in Hs; lia|unfold destroys in Hs; lia].
  destruct Hs as (He & Hp & Hk). rewrite assert_true by (unfold Channel.isNoneEvent; by rewrite He). bind_simpl.
  eexists. split; [done|]. split; try done. unfold state_inv. cbn. rewrite Est. split_and!; [done|done|].
  right. destruct Hk as [[Hk Hn]|[Hk Hn]]; unfold destroys in *; [|lia].
  split; [|cbn; lia]. unfold knows in *. cbn. rewrite He in *. by apply told_remove.
Qed.

Lemma connectDestroyed_ok c : inv 1 [] c -> exists c', connectDestroyed c = Ok c' /\ inv 0 [] c'.
Proof.
  intros Hinv. unfold connectDestroyed. rewrite decide_False; [bind_simpl; by apply remove_ok|].
  intros Hc. pose proof (inv_state _ _ _ Hinv) as Hs. apply state_inv_open in Hs; [|by left].
  unfold destroys in Hs. lia.
Qed.

Lemma server_destroys_ok c :
  inv 0 [] c -> state_ c = kConnected -> exists c', connectDestroyed c = Ok c' /\ inv 0 [] c'.
Proof.
  intros Hinv Hc. unfold connectDestroyed. rewrite decide_True by done.
  destruct (callback_ok _ _ _ (closing_inv c Hinv (or_introl Hc))) as (c1 & -> & H1). bind_simpl. by apply remove_ok.
Qed.

Lemma inv_input owed hand b c : inv owed hand c -> Buffer.wf b -> inv owed hand (set_input b c).
Proof. intros [Hin Hout Hst Hm Hf Hs] Hb. by split. Qed.

Lemma handleRead_ok readv c :
  inv 0 [] c -> is_open c -> Buffer.readv_fits readv -> fits Buffer.extrabuf_size (inputBuffer_ c) ->
  exists c', handleRead readv c = Ok c' /\ inv 0 [] c'.
Proof.
  intros Hinv Ho Hr Hfit. pose proof (Buffer.readFd_spec readv (inputBuffer_ c) (inv_in _ _ _ Hinv) Hr Hfit) as H.
  unfold handleRead. cbv zeta in H.
  match type of H with match ?r with _ => _ end => destruct r as [e|d] end; [rewrite H|destruct H as (b & -> & Hb & _)];
    bind_simpl.
  { eexists. split; [done|]. apply inv_input; [done|apply Hinv]. }
  pose proof (inv_input _ _ _ _ Hinv Hb) as Hinv'. zlen_pos.
  destruct (Z.ltb_spec 0 (zlen d)).
  - apply callback_ok, inv_record; [done|done|]. by destruct Ho as [Hs|Hs]; cbn; rewrite Hs.
  - rewrite (proj2 (Z.eqb_eq (zlen d) 0)) by lia. by apply handleClose_ok.
Qed.

Lemma range_unsent b : Buffer.wf b -> Buffer.range b (Buffer.peek b) (Buffer.peek b + Buffer.readableBytes b) = Buffer.content b.
Proof.
  intros Hb. unfold Buffer.range, Buffer.content, Buffer.peek. rewrite Buffer.readable_eq by done.
  f_equal. lia.
Qed.

Lemma handleWrite_ok c : inv 0 [] c -> exists c', handleWrite c = Ok c' /\ inv 0 [] c'.
Proof.
  intros Hinv. unfold handleWrite. destruct (Channel.isWriting (channel_ c)) eqn:Ew; [|by exists c].
  assert (is_open c) as Ho.
  { destruct (inv_cases _ _ _ Hinv) as [?|Hc]; [done|]. pose proof (inv_state _ _ _ Hinv) as Hs.
    unfold state_inv in Hs. rewrite Hc in Hs. destruct Hs as [He _]. unfold Channel.isWriting in Ew. by rewrite He in Ew. }
  rewrite range_unsent by apply Hinv. fold (unsent c). unfold sockets_write.
  destruct (kernel_write _ _) as [n|e] eqn:Ek; [|eexists; split; [done|by apply attempt_inv]].
  apply Hker in Ek; [|apply zlen_nonneg].
  destruct (Z.ltb_spec 0 n) as [Hpos|Hz].
  2: { eexists. split; [done|]. replace n with 0 by lia. by apply attempt_inv. }
  destruct Hinv as [Hin Hout Hst Hm Hf Hs]. apply state_inv_open in Hs as (Hk & Hp & Hn & Hw); [|done].
  destruct (Buffer.retrieve_spec n (outputBuffer_ c)) as (b & E & Hb & Hcb & _); [done|done|].
  cbn [outputBuffer_ record_write set_hist]. rewrite E. bind_simpl. rewrite Buffer.readable_wf by done.
  set (c1 := set_output b (record_write (ztake n (unsent c)) c)).
  assert (written (hist c1) ++ unsent c1 ++ [] = accepted (hist c1)) as Hst1.
  { change (unsent c1) with (Buffer.content b). rewrite Hcb. cbn. rewrite app_nil_r in Hst |- *.
    rewrite <- Hst, <- app_assoc. unfold ztake, zdrop, unsent. by rewrite take_drop. }
  destruct (Z.eqb_spec (zlen (Buffer.content b)) 0) as [Hz|Hnz].
  - assert (unsent c1 = []) as Hu by (apply length_zero_iff_nil; unfold zlen in Hz; change (unsent c1) with (Buffer.content b); lia).
    assert (inv 0 [] (update Channel.disableWriting c1)) as H1 by (apply inv_update; try done; by rewrite Hu).
    set (c2 := if writeCompleteCallback_ _ then _ else _).
    assert (inv 0 [] c2) as H2 by (subst c2; case_match; [by apply inv_queue|done]).
    eexists. split; [done|]. case_decide; [by apply shutdownInLoop_ok|done].
  - eexists. split; [done|]. split; try done. apply state_inv_open; [done|]. refine (conj Hk (conj Hp (conj Hn _))).
    change (Channel.isWriting (channel_ c) = true <-> unsent c1 <> []). rewrite Ew. split; [|done].
    intros _ Hu. change (unsent c1) with (Buffer.content b) in Hu. by rewrite Hu in Hnz.
Qed.

Lemma pop_inv f fs c :
  inv 0 [] c -> functors c = f :: fs ->
  functor_ok f /\ inv (if decide (f = FConnectDestroyed) then 1 else 0) [] (set_functors fs c).
Proof.
  intros [Hin Hout Hst Hm Hf Hs] E. rewrite E in Hf. apply Forall_cons in Hf as [Hf Hfs]. split; [done|].
  split; try done. assert (destroys (if decide (f = FConnectDestroyed) then 1 else 0) (set_functors fs c) = destroys 0 c) as Hd.
  { unfold destroys. cbn. rewrite E, filter_cons. case_decide; cbn; lia. }
  unfold state_inv in *. rewrite Hd. exact Hs.
Qed.

Lemma inv_revents owed hand r c :
  inv owed hand c -> inv owed hand (set_channel (Channel.set_revents r (channel_ c)) c).
Proof. intros [Hin Hout Hst Hm Hf Hs]. split; try done. Qed.

(** Callbacks that are safe in every state. *)
Lemma dispatch_write (b1 b2 : bool) readv c :
  inv 0 [] c ->
  exists c', dispatch ((if b1 then [Channel.ErrorCallback] else []) ++ [] ++ (if b2 then [Channel.WriteCallback] else []))
    readv c = Ok c' /\ inv 0 [] c'.
Proof.
  intros Hinv. destruct b1, b2; cbn [app dispatch]; unfold handleError; bind_simpl; try by exists c.
  all: destruct (handleWrite_ok c Hinv) as (c' & -> & H'); by exists c'.
Qed.

Lemma dispatch_read (b1 b2 b3 : bool) readv c :
  inv 0 [] c -> is_open c -> Buffer.readv_fits readv -> fits Buffer.extrabuf_size (inputBuffer_ c) ->
  exists c', dispatch ((if b1 then [Channel.ErrorCallback] else []) ++ (if b2 then [Channel.ReadCallback] else []) ++
    (if b3 then [Channel.WriteCallback] else [])) readv c = Ok c' /\ inv 0 [] c'.
Proof.
  intros Hinv Ho Hr Hfit. destruct b2; [|by apply dispatch_write].
  destruct (handleRead_ok readv c) as (c1 & E & H1); [done..|].
  destruct b1, b3; cbn [app dispatch]; unfold handleError; bind_simpl; rewrite E; bind_simpl; try by exists c1.
  all: destruct (handleWrite_ok c1 H1) as (c' & -> & H'); by exists c'.
Qed.

Lemma io_ok revents readv c :
  inv 0 [] c -> valid_event (Io revents readv) c -> exists c', tcp_step (Io revents readv) c = Ok c' /\ inv 0 [] c'.
Proof.
  intros Hinv (He & Hhup & Hr & Hfit). cbn [tcp_step].
  assert (is_open c) as Ho.
  { destruct (inv_cases _ _ _ Hinv) as [?|Hc]; [done|]. pose proof (inv_state _ _ _ Hinv) as Hs.
    unfold state_inv in Hs. rewrite Hc in Hs. by destruct Hs. }
  apply (inv_revents 0 [] revents) in Hinv. set (c1 := set_channel _ c) in *.
  replace (Channel.handleEvent all_installed true (channel_ c1))
    with (Channel.handleEventWithGuard all_installed (channel_ c1)) by (unfold Channel.handleEvent; by case_match).
  unfold Channel.handleEventWithGuard. cbn [Channel.has_close Channel.has_error Channel.has_read Channel.has_write all_installed].
  rewrite !andb_true_r. change (Channel.revents_ (channel_ c1)) with revents.
  destruct (_ && negb _) eqn:Eh.
  - rewrite Hhup by done. destruct (handleClose_ok c1) as (c2 & E & H2); [done..|]. cbn [app dispatch].
    rewrite E. bind_simpl. by apply dispatch_write.
  - by apply dispatch_read.
Qed.

Lemma run_functor_ok f c :
  functor_ok f -> inv (if decide (f = FConnectDestroyed) then 1 else 0) [] c ->
  match f with FSendInLoop d => fits (zlen d) (outputBuffer_ c) | _ => True end ->
  exists c', run_functor f c = Ok c' /\ inv 0 [] c'.
Proof.
  intros Hf Hinv Hfit. destruct f as [k|d| | | | |]; cbn [run_functor]; try done.
  - apply callback_ok, inv_record; by destruct k.
  - by apply sendInLoop_ok.
  - eexists. split; [done|]. by apply shutdownInLoop_ok.
  - rewrite decide_False in Hinv by done. unfold forceCloseInLoop. case_decide; [by apply handleClose_ok|by exists c].
  - by apply connectDestroyed_ok.
Qed.

Lemma tcp_step_ok ev c : inv 0 [] c -> valid_event ev c -> exists c', tcp_step ev c = Ok c' /\ inv 0 [] c'.
Proof.
  intros Hinv Hv. destruct ev as [o|o| |revents readv|]; cbn [tcp_step valid_event] in *.
  - by apply user_step_ok.
  - by apply user_step_ok.
  - destruct (functors c) as [|f fs] eqn:Ef; [by exists c|]. destruct (pop_inv f fs c Hinv Ef) as [Hok Hpop].
    apply run_functor_ok; [done|done|]. by destruct f.
  - by apply io_ok.
  - by apply server_destroys_ok.
Qed.

Lemma tcp_run_ok evs c : inv 0 [] c -> valid_events evs c -> exists c', tcp_run evs c = Ok c' /\ inv 0 [] c'.
Proof.
  revert c. induction evs as [|ev evs IH]; intros c Hinv Hv; [by exists c|]. destruct Hv as [Hev Hevs].
  cbn [tcp_run]. destruct (tcp_step_ok ev c Hinv Hev) as (c1 & E & H1). rewrite E. bind_simpl. auto.
Qed.

(** An established connection on descriptor [fd], after the events [evs]. *)
Definition connection_after (fd : Z) (wc hw : bool) (evs : list event) : outcome TcpConnection :=
  c ← new_connection fd wc hw; c ← connectEstablished c; tcp_run evs c.

Definition valid_history (fd : Z) (wc hw : bool) (evs : list event) : Prop :=
  forall c c', new_connection fd wc hw = Ok c -> connectEstablished c = Ok c' -> valid_events evs c'.

Lemma connection_inv fd wc hw evs :
  0 <= fd -> valid_history fd wc hw evs -> exists c, connection_after fd wc hw evs = Ok c /\ inv 0 [] c.
Proof.
  intros Hfd Hv. destruct (connectEstablished_ok fd wc hw Hfd) as (c0 & c1 & E0 & E1 & H1).
  unfold connection_after. rewrite E0. bind_simpl. rewrite E1. bind_simpl. apply tcp_run_ok; [done|]. by eapply Hv.
Qed.


End handlers.

(** ** What one [send] does *)

(** The high-water mark callback is due when the backlog crosses the mark. *)
Definition crossing (c : TcpConnection) (old new : Z) : list functor :=
  if (highWaterMark_ c <=? new) && (old <? highWaterMark_ c) && highWaterMarkCallback_ c
  then [FCallback (HighWaterMark new)] else [].

(** Sending [d] in an open connection, when a write would give [r]: the bytes
    that go to the kernel, the backlog afterwards, the functors queued. *)
Definition send_spec (r : write_result) (d : list byte) (c : TcpConnection) :
    list byte * list byte * list functor :=
  let backlog := zlen (unsent c) in
  if decide (unsent c <> []) then
    ([], unsent c ++ d, if decide (d = []) then [] else crossing c backlog (backlog + zlen d))
  else
    match r with
    | Wrote n =>
        if decide (n = zlen d) then (d, [], if writeCompleteCallback_ c then [FCallback WriteComplete] else [])
        else (ztake n d, zdrop n d, crossing c 0 (zlen d - n))
    | WriteError e =>
        if decide (e = EPIPE \/ e = ECONNRESET) then ([], [], [])
        else ([], d, if decide (d = []) then [] else crossing c 0 (zlen d))
    end.

Lemma keep_effect data c :
  Buffer.wf (outputBuffer_ c) -> fits (zlen data) (outputBuffer_ c) ->
  exists c', keep data (zlen data) c = Ok c' /\ written (hist c') = written (hist c) /\
    unsent c' = unsent c ++ data /\
    functors c' = functors c ++ crossing c (zlen (unsent c)) (zlen (unsent c) + zlen data).
Proof.
  intros Hout Hfit. unfold keep. rewrite Buffer.readable_wf by done. fold (unsent c).
  pose proof (Buffer.content_len _ Hout) as Hlen. fold (unsent c) in Hlen. pose proof Hout as (? & ? & ? & ?).
  unfold fits, Buffer.max_size in Hfit. zlen_pos. rewrite u64_id by lia.
  set (c1 := if _ && _ && _ then _ else c).
  assert (outputBuffer_ c1 = outputBuffer_ c /\ hist c1 = hist c /\
    functors c1 = functors c ++ crossing c (zlen (unsent c)) (zlen (unsent c) + zlen data)) as (Ho & Hh & Hf).
  { subst c1. unfold crossing. case_match; [done|]. by rewrite app_nil_r. }
  rewrite Ho. destruct (Buffer.append_spec data (zlen data) (outputBuffer_ c)) as (b & E & (Hb & Hc & _) & _);
    [done|lia|unfold Buffer.max_size; lia|]. rewrite ztake_all in Hc by lia. rewrite E. bind_simpl.
  eexists. split; [done|]. case_match; (split_and!; [cbn; by rewrite Hh|exact Hc|exact Hf]).
Qed.

(** C31: [sendInLoop] on an open connection does exactly what [send_spec] says: it
    writes directly only when nothing waits, keeps what the kernel did not take
    behind the backlog, drops the data on a broken pipe, announces completion
    only when everything was written, and calls the high-water mark callback
    exactly when the backlog crosses the mark from below. *)
Theorem sendInLoop_effect owed d c :
  kernel_ok -> inv owed [] c -> is_open c -> fits (zlen d) (outputBuffer_ c) ->
  exists c', sendInLoop d c = Ok c' /\
    let '(w, u, fs) := send_spec (kernel_write (writes (hist c)) (zlen d)) d c in
    written (hist c') = written (hist c) ++ w /\ unsent c' = u /\ functors c' = functors c ++ fs.
Proof.
  intros Hker Hinv Ho Hfit. pose proof (inv_out _ _ _ Hinv) as Hout. pose proof (fits_bound _ _ Hout Hfit) as Hd.
  pose proof (inv_state _ _ _ Hinv) as Hs. apply state_inv_open in Hs as (_ & _ & _ & Hw); [|done].
  unfold sendInLoop. rewrite decide_False by by apply open_not_closed.
  rewrite Buffer.readable_wf by done. fold (unsent c). unfold send_spec.
  assert (forall l : list byte, 0 < zlen l -> l <> []) as Hnn by (intros [] Hl; [by vm_compute in Hl|done]).
  assert (forall l : list byte, ~ 0 < zlen l -> l = []) as Hnil
    by (intros [|x l] Hl; [done|exfalso; apply Hl; unfold zlen; cbn; lia]).
  destruct (Channel.isWriting (channel_ c)) eqn:Ew; cbn [negb andb].
  { rewrite decide_True by by apply Hw. rewrite assert_true by lia. bind_simpl. cbn [negb andb].
    change (zdrop 0 d) with d. destruct (Z.ltb_spec 0 (zlen d)) as [Hpos|Hz].
    - rewrite decide_False by by apply Hnn.
      destruct (keep_effect d (record_accept d c)) as (c' & -> & Hwr & Hu & Hf); [done..|].
      eexists. split_and!; [done| |exact Hu|exact Hf]. by rewrite Hwr, app_nil_r.
    - rewrite (Hnil d) by lia. rewrite decide_True by done. eexists. split_and!; [done|..]; cbn; by rewrite app_nil_r. }
  assert (unsent c = []) as Hu0.
  { destruct (unsent c); [done|]. exfalso. destruct Hw as [_ Hw]. by discriminate Hw. }
  rewrite Hu0, decide_False by (intros H; by apply H). change (zlen (@nil byte) =? 0) with true. cbv iota.
  unfold sockets_write. destruct (kernel_write _ _) as [n|e] eqn:Ek.
  - apply Hker in Ek; [|lia]. rewrite u64_id by lia. cbn [negb andb]. cbv iota beta zeta.
    rewrite assert_true by lia. bind_simpl. destruct (Z.ltb_spec 0 (zlen d - n)) as [Hpos|Hz].
    + rewrite (decide_False (P := n = zlen d)) by lia. rewrite (proj2 (Z.eqb_neq (zlen d - n) 0)) by lia. cbn [andb].
      assert (zlen (zdrop n d) = zlen d - n) as Hl by (apply zlen_drop; lia). rewrite <- Hl.
      destruct (keep_effect (zdrop n d) (record_accept d (record_write (ztake n d) c))) as (c' & -> & Hwr & Hu & Hf);
        [done|unfold fits in *; cbn; lia|].
      change (unsent (record_accept _ _)) with (unsent c) in Hu, Hf. rewrite Hu0 in Hu, Hf. eexists. by split_and!.
    + rewrite (decide_True (P := n = zlen d)) by lia. rewrite (proj2 (Z.eqb_eq (zlen d - n) 0)) by lia. cbn [andb].
      rewrite ztake_all by lia. eexists. split; [done|]. change (writeCompleteCallback_ (record_write d c)) with (writeCompleteCallback_ c).
      case_match; (split_and!; [done|exact Hu0|]); [done|]. cbn. by rewrite app_nil_r.
  - destruct (decide (e = EPIPE \/ e = ECONNRESET)) as [He|He].
    + replace (negb (e =? EWOULDBLOCK) && _) with true by (destruct He as [-> | ->]; done). cbn [negb andb].
      rewrite assert_true by lia. bind_simpl. eexists. split_and!; [done|done|exact Hu0|cbn; by rewrite app_nil_r].
    + replace (negb (e =? EWOULDBLOCK) && _) with false by lia. cbn [negb andb]. rewrite assert_true by lia. bind_simpl.
      change (zdrop 0 d) with d. destruct (Z.ltb_spec 0 (zlen d)) as [Hpos|Hz].
      * rewrite (decide_False (P := d = [])) by by apply Hnn.
        destruct (keep_effect d (record_accept d (record_write [] c))) as (c' & -> & Hwr & Hu & Hf); [done..|].
        change (unsent (record_accept _ _)) with (unsent c) in Hu, Hf. rewrite Hu0 in Hu, Hf. eexists. by split_and!.
      * rewrite (Hnil d) by lia. rewrite decide_True by done. eexists. split_and!; [done|cbn; by rewrite app_nil_r|exact Hu0|].
        cbn. by rewrite app_nil_r.
Qed.

(** ** Two ways to fail an assertion *)

Lemma reading_not_none ch : Channel.isReading ch = true -> Channel.isNoneEvent ch = false.
Proof.
  unfold Channel.isReading, Channel.isNoneEvent. destruct (Z.eqb_spec (Channel.events_ ch) Channel.kNoneEvent) as [->|]; done.
Qed.

(** Destroying a connection that is shutting down fails: after [shutdown()]
    the state is [kDisconnecting], [connectDestroyed] does not disable the
    channel, and [Channel::remove] asserts that no event is enabled. *)
Theorem destroy_disconnecting_asserts c :
  state_ c = kConnected -> Channel.isReading (channel_ c) = true ->
  state_ (shutdown true c) = kDisconnecting /\ connectDestroyed (shutdown true c) = Err AssertFail.
Proof.
  intros Hc Hr. unfold shutdown. rewrite decide_True by done.
  assert (state_ (shutdownInLoop (setState kDisconnecting c)) = kDisconnecting /\
    channel_ (shutdownInLoop (setState kDisconnecting c)) = channel_ c) as [Hs Hch].
  { unfold shutdownInLoop. by case_match. }
  split; [done|]. unfold connectDestroyed. rewrite Hs, decide_False by done. bind_simpl.
  unfold remove. by rewrite Hch, reading_not_none.
Qed.

(** [startRead] on a closed connection whose [connectDestroyed] is still
    queued enables the channel again, and the queued functor fails the assertion
    of [Channel::remove].  A write-complete callback that runs before the
    functor can make this call, and so can another thread. *)
Theorem startRead_after_close_asserts c :
  state_ c = kDisconnected -> Channel.events_ (channel_ c) = 0 ->
  connectDestroyed (startReadInLoop c) = Err AssertFail.
Proof.
  intros Hc He. unfold startReadInLoop.
  assert (Channel.isReading (channel_ c) = false) as -> by (unfold Channel.isReading; by rewrite He).
  rewrite orb_true_r. unfold connectDestroyed. cbn [state_ set_reading update tell set_hist set_channel].
  rewrite Hc, decide_False by done. bind_simpl. unfold remove, Channel.isNoneEvent. cbn. by rewrite He.
Qed.
End connection.

(** ** Witnesses *)

(** A kernel that takes two bytes at a time, and a user that reads every message. *)
Definition two_bytes (i len : Z) : write_result := Wrote (Z.min 2 len).
Definition reading_user (k : cb) (c : TcpConnection) : list user_call :=
  match k with
  | Message => [Retrieve (Buffer.readableBytes (inputBuffer_ c))]
  | _ => []
  end.

Lemma two_bytes_ok : kernel_ok two_bytes.
Proof. intros i len n Hl [= <-]. lia. Qed.

Lemma reading_ok owed k c : inv owed [] c -> valid_calls two_bytes (reading_user k c) c.
Proof.
  intros Hinv. destruct k; cbn; try done. split; [|done]. split; [done|].
  rewrite Buffer.readable_wf by apply Hinv. zlen_pos. lia.
Qed.

Definition abc : list byte := bytes "abc".

(** Three bytes are sent, then the socket becomes writable, then the user shuts down. *)
Definition sample_events : list event :=
  [InLoop (Send abc); Io Channel.POLLOUT Buffer.sample_readv; InLoop Shutdown; RunFunctor].

Definition sample_established : TcpConnection :=
  match (c ← new_connection 5 true true; connectEstablished two_bytes reading_user c) with
  | Ok c => c
  | Err _ => mkConn kDisconnected false (Channel.new_channel 0) Buffer.sample_buffer Buffer.sample_buffer 0 false false []
               (mkHistory [] [] [] 0 [] [])
  end.

Lemma sample_history : valid_history two_bytes reading_user 5 true true sample_events.
Proof.
  intros c c' E1 E2.
  assert (c' = sample_established) as ->.
  { unfold sample_established. rewrite E1. bind_simpl. by rewrite E2. }
  clear. split; [vm_compute; congruence|].
  intros c1 H1. cbn [tcp_step] in H1. vm_compute in H1. injection H1 as <-.
  split.
  { split_and!; [vm_compute; congruence|done|apply Buffer.sample_readv_fits|vm_compute; congruence]. }
  intros c2 H2. vm_compute in H2. injection H2 as <-. split; [done|].
  intros c3 H3. vm_compute in H3. injection H3 as <-. split; [done|]. done.
Qed.

Lemma sample_inv : inv 0 [] sample_established.
Proof.
  destruct (connectEstablished_ok two_bytes reading_user two_bytes_ok reading_ok 5 true true) as (c & c' & E1 & E2 & H); [lia|].
  unfold sample_established. rewrite E1. bind_simpl. by rewrite E2.
Qed.



Lemma sendInLoop_effect_witness :
  exists c', sendInLoop two_bytes abc sample_established = Ok c' /\
    written (hist c') = bytes "ab" /\ unsent c' = bytes "c" /\ functors c' = [].
Proof.
  apply (sendInLoop_effect two_bytes 0 abc sample_established two_bytes_ok sample_inv).
  - left. vm_compute. reflexivity.
  - vm_compute. congruence.
Defined.

Lemma destroy_disconnecting_asserts_witness :
  state_ (shutdown true sample_established) = kDisconnecting /\
  connectDestroyed two_bytes reading_user (shutdown true sample_established) = Err AssertFail.
Proof.
  apply (destroy_disconnecting_asserts two_bytes reading_user sample_established); vm_compute; reflexivity.
Defined.

(** Another thread calls [startRead], then the peer closes: the functors run after. *)
Definition peer_closes (vec : list Z) : Buffer.readv_result := Buffer.ReadvData [].
Definition sample_closed : TcpConnection :=
  match tcp_run two_bytes reading_user [Io Channel.POLLIN peer_closes] sample_established with
  | Ok c => c
  | Err _ => sample_established
  end.

Lemma startRead_after_close_asserts_witness :
  connectDestroyed two_bytes reading_user (startReadInLoop sample_closed) = Err AssertFail /\
  tcp_run two_bytes reading_user
    [FromOther StartRead; Io Channel.POLLIN peer_closes; RunFunctor; RunFunctor] sample_established = Err AssertFail.
Proof.
  split.
  - apply (startRead_after_close_asserts two_bytes reading_user sample_closed); vm_compute; reflexivity.
  - vm_compute. reflexivity.
Defined.
End TcpConnection.
