(* ===== verification/TypedCodec.v ===== *)
(** * Casts between message classes and the codec for one class
    ([src/base/Types.h], [src/net/Callbacks.h], [ProtobufCodecLiteT] of
    [src/net/protobuf/ProtobufCodecLite.h], [src/net/protorpc/RpcCodec.h])

    Classes are numbers.  A program declares them with their bases, bases first; the
    table has the latest declaration in front.  A pointer is [None] or an object,
    which knows its class; casts within a hierarchy do not change the object. *)

From S2P Require Import Prelude CxxStd Buffer Codec.

Module TypedCodec.

(** ** Classes *)

Definition classes := list (Z * list Z).

(** Whether a [c*] converts to a [d*]. *)
Fixpoint derives (t : classes) (c d : Z) : bool :=
  (c =? d) ||
  match t with
  | [] => false
  | (k, bases) :: t => if c =? k then existsb (fun b => derives t b d) bases else derives t c d
  end.

(** Declared once, with bases that were declared before. *)
Fixpoint declared (t : classes) : Prop :=
  match t with
  | [] => True
  | (k, bases) :: t => k ∉ t.*1 /\ Forall (fun b => b ∈ t.*1) bases /\ declared t
  end.

Record object {A : Type} := mkObject { class_of : Z; value : A }.
Arguments object A : clear implicits.
Arguments mkObject {A} _ _.

Section casts.
Context {A : Type} (t : classes).

Definition dynamic_cast (To : Z) (f : option (object A)) : option (object A) :=
  match f with
  | Some o => if derives t (class_of o) To then Some o else None
  | None => None
  end.

Definition is_null (f : option (object A)) : bool := match f with None => true | Some _ => false end.

(** The conversion is checked by the compiler; at run time nothing happens. *)
Definition implicit_cast (f : option (object A)) : option (object A) := f.

Definition down_cast (To : Z) (f : option (object A)) : outcome (option (object A)) :=
  assert_ (is_null f || negb (is_null (dynamic_cast To f)));;
  Ok f.

(** A smart pointer is the pointer it holds; owners are not counted here. *)
Definition get_pointer (ptr : option (object A)) : option (object A) := ptr.

Definition down_pointer_cast (To : Z) (f : option (object A)) : outcome (option (object A)) :=
  assert_ (is_null f || negb (is_null (dynamic_cast To (get_pointer f))));;
  Ok f.

Lemma derives_refl c : derives t c c = true.
Proof. destruct t as [|[k bs] t']; cbn; by rewrite Z.eqb_refl. Qed.

Lemma down_cast_ok To o : derives t (class_of o) To = true -> down_cast To (Some o) = Ok (Some o).
Proof. intros H. unfold down_cast. cbn. by rewrite H. Qed.
End casts.

Lemma derives_declared t c d : declared t -> derives t c d = true -> c ∉ t.*1 -> c = d.
Proof.
  induction t as [|[k bs] t IH]; cbn [derives declared]; intros Ht H Hc.
  - rewrite orb_false_r in H. by apply Z.eqb_eq.
  - destruct Ht as (Hk & Hbs & Ht). cbn in Hc. destruct (Z.eqb_spec c d); [done|]. destruct (Z.eqb_spec c k); [set_solver|].
    apply IH; [done|done|set_solver].
Qed.

(** A class below another has that one's declaration behind its own. *)
Lemma derives_in t c d : declared t -> derives t c d = true -> c ∈ t.*1 -> d ∈ t.*1.
Proof.
  revert c. induction t as [|[k bs] t IH]; cbn [derives declared]; intros c Ht H Hc; [by apply elem_of_nil in Hc|].
  destruct Ht as (Hk & Hbs & Ht). destruct (Z.eqb_spec c d) as [->|]; [done|]. cbn in *. destruct (Z.eqb_spec c k) as [->|Hck].
  - apply existsb_exists in H as (b & Hb%list_elem_of_In & H). apply elem_of_cons. right. apply (IH b); [done|done|].
    by rewrite Forall_forall in Hbs; apply Hbs.
  - apply elem_of_cons. right. apply (IH c); [done|done|set_solver].
Qed.

Lemma derives_trans t a b c : declared t -> derives t a b = true -> derives t b c = true -> derives t a c = true.
Proof.
  revert a. induction t as [|[k bs] t IH]; cbn [derives declared]; intros a Ht H1 H2.
  - rewrite orb_false_r in *. by apply Z.eqb_eq in H1 as ->.
  - destruct Ht as (Hk & Hbs & Ht). destruct (Z.eqb_spec a b) as [->|Hab]; [done|].
    destruct (Z.eqb_spec a c) as [|Hac]; [done|]. cbn [orb] in *. rewrite Forall_forall in Hbs. destruct (Z.eqb_spec a k) as [->|Hak].
    + apply existsb_exists in H1 as (x & Hx & H1). apply existsb_exists. exists x. split; [done|]. apply list_elem_of_In, Hbs in Hx.
      pose proof (derives_in _ _ _ Ht H1 Hx) as Hb. destruct (Z.eqb_spec b k) as [->|]; [done|].
      destruct (Z.eqb_spec b c) as [->|]; [done|]. by apply IH.
    + destruct (Z.eqb_spec b c) as [->|]; [done|]. destruct (Z.eqb_spec b k) as [->|]; [|by apply IH].
      exfalso. destruct (decide (a ∈ t.*1)) as [Ha|Ha]; [by apply Hk, (derives_in _ a)|]. by apply Hab, (derives_declared t).
Qed.

(** Up and down again: an object handed over as its base class is found to be of
    every class between the two. *)
Theorem cast_round_trip {A} t (o : object A) Sub Base :
  declared t -> derives t (class_of o) Sub = true -> derives t Sub Base = true ->
  dynamic_cast t Base (Some o) = Some o /\
  down_cast t Sub (implicit_cast (Some o)) = Ok (Some o) /\ down_pointer_cast t Sub (implicit_cast (Some o)) = Ok (Some o).
Proof.
  intros Ht H1 H2. split_and!.
  - cbn. by rewrite (derives_trans t _ Sub).
  - by apply down_cast_ok.
  - by apply down_cast_ok.
Qed.

(** ** [ProtobufCodecLiteT] *)

Section typed.
Context (t : classes) (MSG : Z) {Fields : Type}.
Context (ByteSize : Fields -> Z) (Serialize : Fields -> list byte) (ParseFromArray : list byte -> option Fields).
Context (adler32 : list byte -> Z) (TAG : list byte) (rawCb : option (list byte -> bool)).
Context (errorCb : Codec.ErrorCode -> Buffer.Buffer -> Buffer.Buffer) (no_fields : Fields).

Record ProtobufCodecLiteT := mkCodecT { prototype_ : object Fields; tag_ : list byte }.

(** [codec_(&MSG::default_instance(), TAG, ...)] *)
Definition new_codec : ProtobufCodecLiteT := mkCodecT (mkObject MSG no_fields) TAG.

Definition tag (c : ProtobufCodecLiteT) : list byte := tag_ c.

(** [prototype_->New()] with the parsed fields. *)
Definition New (prototype : object Fields) (fields : Fields) : object Fields := mkObject (class_of prototype) fields.

(** The message callback gets a [shared_ptr<MSG>]. *)
Definition onRpcMessage (message : option (object Fields)) : outcome (option (object Fields)) := down_pointer_cast t MSG message.

Inductive callback :=
  | RawCallback (data : list byte)
  | MessageCallback (m : option (object Fields))
  | ErrorCallback (e : Codec.ErrorCode).

Fixpoint dispatch (c : ProtobufCodecLiteT) (evs : list Codec.event) : outcome (list callback) :=
  match evs with
  | [] => Ok []
  | Codec.RawMessage data :: evs => cbs ← dispatch c evs; Ok (RawCallback data :: cbs)
  | Codec.Delivered f :: evs =>
      m ← onRpcMessage (Some (New (prototype_ c) f));
      cbs ← dispatch c evs;
      Ok (MessageCallback m :: cbs)
  | Codec.ErrorReported e :: evs => cbs ← dispatch c evs; Ok (ErrorCallback e :: cbs)
  end.

Definition send (c : ProtobufCodecLiteT) (message : object Fields) : outcome (list byte) :=
  Codec.send ByteSize Serialize adler32 (tag_ c) (value message).

Definition fillEmptyBuffer (c : ProtobufCodecLiteT) (message : object Fields) (buf : Buffer.Buffer) : outcome Buffer.Buffer :=
  Codec.fillEmptyBuffer ByteSize Serialize adler32 (tag_ c) (value message) buf.

Definition onMessage (c : ProtobufCodecLiteT) (buf : Buffer.Buffer) : option (outcome (Buffer.Buffer * list callback)) :=
  match Codec.onMessage ParseFromArray adler32 (tag_ c) rawCb errorCb buf with
  | Some r => Some ('(buf, evs) ← r; cbs ← dispatch c evs; Ok (buf, cbs))
  | None => None
  end.

(** The cast of the codec never fails: its messages are made from the prototype. *)
Lemma dispatch_ok evs :
  dispatch new_codec evs = Ok ((fun e => match e with
    | Codec.RawMessage data => RawCallback data
    | Codec.Delivered f => MessageCallback (Some (mkObject MSG f))
    | Codec.ErrorReported e => ErrorCallback e
    end) <$> evs).
Proof.
  induction evs as [|e evs IH]; [done|]. destruct e; cbn [dispatch]; rewrite ?IH; [done| |done].
  unfold onRpcMessage, New, down_pointer_cast. cbn. by rewrite derives_refl.
Qed.

(** Whatever bytes arrive, no assertion fails, that of the cast included, and every
    message handed to the user is of the codec's class. *)
Theorem typed_codec_safe b :
  zlen TAG <= 1024 -> Buffer.wf b ->
  exists b' cbs, onMessage new_codec b = Some (Ok (b', cbs)) /\
    forall m, MessageCallback m ∈ cbs -> exists f, m = Some (mkObject MSG f).
Proof.
  intros Htag Hb. unfold onMessage. cbn [tag_ new_codec].
  destruct (Codec.onMessage_total ParseFromArray adler32 TAG rawCb errorCb Htag b Hb) as (b' & evs & -> & _).
  bind_simpl. rewrite dispatch_ok. bind_simpl. do 2 eexists. split; [done|]. intros m Hm.
  apply list_elem_of_fmap in Hm as (e & He & _). destruct e; try done. injection He as ->. by eexists.
Qed.
End typed.

(** Messages sent through a codec of the class arrive, however the stream is cut, as
    objects of the class with the fields they had. *)
Theorem typed_codec_delivers (t : classes) (MSG : Z) {Fields : Type} (ByteSize : Fields -> Z) Serialize ParseFromArray adler32 TAG errorCb (no_fields : Fields) ms chunks b :
  zlen TAG <= 1024 -> (forall f, ParseFromArray (Serialize f) = Some f) ->
  Buffer.wf b -> Buffer.content b = [] -> Forall (Codec.sendable ByteSize Serialize adler32 TAG) ms ->
  concat chunks = Codec.stream Serialize adler32 TAG ms -> Forall (fun c => zlen c < 2 ^ 31) chunks ->
  zlen (Buffer.buffer_ b) + Codec.chunk_total chunks <= Buffer.max_size ->
  exists b' evs, Codec.receive ParseFromArray adler32 TAG None errorCb chunks b = Some (Ok (b', evs)) /\ Buffer.content b' = [] /\
    dispatch t MSG (new_codec MSG TAG no_fields) evs = Ok ((fun f => MessageCallback (Some (mkObject MSG f))) <$> ms).
Proof.
  intros Htag Hps Hb Hc Hs E Hcs Hroom.
  destruct (Codec.receive_stream ByteSize Serialize ParseFromArray adler32 TAG None errorCb Htag Hps ms chunks b)
    as (b' & -> & _ & Hc'); [done|done|by rewrite Hc| |done|done|].
  - rewrite Hc. destruct ms as [|m ms]; [done|]. unfold Codec.frame. rewrite zlen_nil, zlen_app, Endian.zlen_be_bytes.
    pose proof (zlen_nonneg (Codec.body Serialize adler32 TAG m)). lia.
  - do 2 eexists. split_and!; [done..|]. rewrite dispatch_ok. f_equal. unfold Codec.all_events. clear. induction ms as [|m ms IH]; [done|].
    cbn [fmap list_fmap concat]. rewrite fmap_app, IH. done.
Qed.
End TypedCodec.
