(* ===== verification/Transport.v ===== *)
(** * Messages from one connection to another

    The composition of [TcpConnection] and [Codec]: a user of one connection sends
    messages with the codec, in the loop's thread, from callbacks or from other
    threads; the kernels carry the bytes the connection wrote to the other side,
    where [TcpConnection::handleRead] reads them with [Buffer::readFd] and hands
    the input buffer to [ProtobufCodecLite::onMessage]. *)

From S2P Require Import Prelude Buffer Codec Channel TcpConnection.

Module Transport.
Import TcpConnection.

(** ** What a connection accepts is what was sent *)

(** [l] has the elements of [l1] and of [l2], each list in its order. *)
Inductive interleaves {A} : list A -> list A -> list A -> Prop :=
  | interleaves_nil : interleaves [] [] []
  | interleaves_l x l1 l2 l : interleaves l1 l2 l -> interleaves (l1 ++ [x]) l2 (l ++ [x])
  | interleaves_r x l1 l2 l : interleaves l1 l2 l -> interleaves l1 (l2 ++ [x]) (l ++ [x]).

Lemma interleaves_forall {A} (Q : A -> Prop) l1 l2 l :
  interleaves l1 l2 l -> Forall Q l1 -> Forall Q l2 -> Forall Q l.
Proof.
  induction 1 as [|x l1 l2 l _ IH|x l1 l2 l _ IH]; intros H1 H2; [done|..];
    [apply Forall_app in H1 as [H1 Hx]|apply Forall_app in H2 as [H2 Hx]]; apply Forall_app_2; auto.
Qed.

Lemma forall_sublist {A} (Q : A -> Prop) (l k : list A) : l `sublist_of` k -> Forall Q k -> Forall Q l.
Proof. induction 1; rewrite ?Forall_cons; naive_solver. Qed.

(** The data of the calls of [send] made in the loop's thread, or elsewhere. *)
Definition asks (in_loop : bool) (c : TcpConnection) : list (list byte) :=
  omap (fun a => if eqb a.1 in_loop then Some a.2 else None) (asked (hist c)).

(** The data that waits in the loop's queue. *)
Definition send_of (f : functor) : option (list byte) := match f with FSendInLoop d => Some d | _ => None end.
Definition queued_sends (c : TcpConnection) : list (list byte) := omap send_of (functors c).

(** The kernel never reports that the peer is gone. *)
Definition unbroken (kernel_write : Z -> Z -> write_result) : Prop :=
  forall i len e, kernel_write i len = WriteError e -> e <> EPIPE /\ e <> ECONNRESET.

(** The pieces [ds] that the connection took on are those that were sent in the loop
    and those of other threads that are not queued any more, each list in its order;
    none is missing unless the connection was closed or broken. *)
Definition taken_on (kernel_write : Z -> Z -> write_result) (c : TcpConnection) (ds : list (list byte)) : Prop :=
  exists here there, interleaves here there ds /\
    here `sublist_of` asks true c /\ (there ++ queued_sends c) `sublist_of` asks false c /\
    (unbroken kernel_write -> state_ c <> kDisconnected ->
       here = asks true c /\ there ++ queued_sends c = asks false c).

Section carries.
Context (kernel_write : Z -> Z -> write_result) (user : cb -> TcpConnection -> list user_call).
Context (P : list byte -> Prop).

Definition call_ok (o : user_call) : Prop := match o with Send d => P d | _ => True end.
Definition event_ok (ev : event) : Prop := match ev with InLoop o | FromOther o => call_ok o | _ => True end.

(** [taken_on] while a function runs that has the pieces [h] and [t] in its hands. *)
Definition carries_with (h t : list (list byte)) (c : TcpConnection) : Prop :=
  Forall P (asks true c) /\ Forall P (asks false c) /\
  exists here there ds, accepted (hist c) = concat ds /\ interleaves here there ds /\
    (here ++ h) `sublist_of` asks true c /\ (there ++ t ++ queued_sends c) `sublist_of` asks false c /\
    (unbroken kernel_write -> state_ c <> kDisconnected ->
       here ++ h = asks true c /\ there ++ t ++ queued_sends c = asks false c).
Definition carries : TcpConnection -> Prop := carries_with [] [].

Lemma carries_taken c :
  carries c -> exists ds, taken_on kernel_write c ds /\ Forall P ds /\ accepted (hist c) = concat ds.
Proof.
  intros (H1 & H2 & here & there & ds & Ea & Hi & Hh & Ht & Hw). rewrite !app_nil_r in *. cbn [app] in *. exists ds.
  split_and!; [by exists here, there| |done]. eapply interleaves_forall; [done|by eapply forall_sublist|].
  eapply forall_sublist in Ht; [|done]. by apply Forall_app in Ht as [? _].
Qed.

Lemma carries_same h t c c' :
  accepted (hist c') = accepted (hist c) -> queued_sends c' = queued_sends c -> asked (hist c') = asked (hist c) ->
  (state_ c' <> kDisconnected -> state_ c <> kDisconnected) -> carries_with h t c -> carries_with h t c'.
Proof. unfold carries_with, asks. intros -> -> -> Hs (H1 & H2 & here & there & ds & ?). split_and!; [done..|]. exists here, there, ds. naive_solver. Qed.

Ltac same :=
  match goal with H : _ |- _ => solve [refine (carries_same _ _ _ _ _ _ _ _ H); first [done|cbn; intuition congruence]] end.

Lemma carries_queue h t f c : send_of f = None -> carries_with h t c -> carries_with h t (queueInLoop f c).
Proof. intros Hf. apply carries_same; try done. unfold queued_sends. cbn. rewrite omap_app. cbn. by rewrite Hf, app_nil_r. Qed.

(** What is not sent any more. *)
Lemma carries_drop h t c :
  (unbroken kernel_write -> state_ c = kDisconnected) -> carries_with h t c -> carries c.
Proof.
  intros Hd (H1 & H2 & here & there & ds & Ea & Hi & Hh & Ht & _). split_and!; [done..|]. exists here, there, ds. split_and!; try done.
  - etrans; [|exact Hh]. apply sublist_app; [done|apply sublist_nil_l].
  - etrans; [|exact Ht]. apply sublist_app; [done|]. by apply sublist_inserts_l.
  - by intros ? []; auto.
Qed.

(** [d] is in hand. *)
Definition in_hand (d : list byte) (h t : list (list byte)) : Prop := h = [d] /\ t = [] \/ h = [] /\ t = [d].

Lemma carries_accept d h t c : in_hand d h t -> carries_with h t c -> carries (record_accept d c).
Proof.
  intros Hd (H1 & H2 & here & there & ds & Ea & Hi & Hh & Ht & Hw). split_and!; [done..|].
  assert (accepted (hist (record_accept d c)) = concat (ds ++ [d])) as Ed.
  { cbn. rewrite Ea, concat_app. cbn. by rewrite app_nil_r. }
  destruct Hd as [[-> ->]|[-> ->]]; [exists (here ++ [d]), there, (ds ++ [d])|exists here, (there ++ [d]), (ds ++ [d])];
    rewrite <-?(app_assoc there), ?app_nil_r in *; split_and!; try done; by constructor.
Qed.

Lemma asks_snoc b in_loop d c :
  state_ c = kConnected -> asks b (record_ask in_loop d c) = asks b c ++ (if eqb in_loop b then [d] else []).
Proof. intros Hc. unfold asks, record_ask. rewrite decide_True by done. cbn. rewrite omap_app. cbn. by destruct (eqb in_loop b). Qed.

(** A call in the loop's thread takes [d] in hand, one elsewhere queues it. *)
Lemma carries_ask d c :
  P d -> state_ c = kConnected -> carries c -> carries_with [d] [] (record_ask true d c).
Proof.
  intros Hd Hc (H1 & H2 & here & there & ds & Ea & Hi & Hh & Ht & Hw). unfold carries_with. rewrite !asks_snoc by done. cbn [eqb].
  rewrite !app_nil_r in *. unfold record_ask. rewrite decide_True by done.
  split_and!; [apply Forall_app_2; [done|by apply Forall_singleton]|done|]. exists here, there, ds. split_and!; try done.
  - by apply sublist_app.
  - intros U S. destruct (Hw U S) as [-> Et]. done.
Qed.

Lemma carries_post d c :
  P d -> state_ c = kConnected -> carries c -> carries (queueInLoop (FSendInLoop d) (record_ask false d c)).
Proof.
  intros Hd Hc (H1 & H2 & here & there & ds & Ea & Hi & Hh & Ht & Hw). unfold carries, carries_with.
  change (asks ?b (queueInLoop _ ?x)) with (asks b x). rewrite !asks_snoc by done. cbn [eqb].
  assert (queued_sends (queueInLoop (FSendInLoop d) (record_ask false d c)) = queued_sends c ++ [d]) as ->.
  { unfold queued_sends, record_ask. rewrite decide_True by done. cbn. by rewrite omap_app. }
  rewrite !app_nil_r in *. split_and!; [done|apply Forall_app_2; [done|by apply Forall_singleton]|]. exists here, there, ds.
  cbn [app] in *. rewrite app_assoc, !app_nil_r. split_and!; try done.
  - unfold record_ask. by rewrite decide_True.
  - by apply sublist_app.
  - intros U S. unfold record_ask in S. rewrite decide_True in S by done. destruct (Hw U S) as [-> ->]. done.
Qed.

Lemma sockets_write_carries h t d c c' r : carries_with h t c -> sockets_write kernel_write d c = (c', r) -> carries_with h t c'.
Proof. intros H. unfold sockets_write. destruct (kernel_write _ _); intros [= <- <-]; same. Qed.

Lemma keep_carries d n c c' : carries c -> keep d n c = Ok c' -> carries c'.
Proof.
  intros H E. unfold keep in E. apply bind_Ok in E as (out & _ & E). injection E as <-.
  set (c1 := if (_ && _) then _ else c).
  assert (carries c1) as H1 by (subst c1; destruct (_ && _); [by apply carries_queue|done]).
  destruct (negb _); same.
Qed.

Lemma sendInLoop_carries h t d c c' :
  in_hand d h t -> carries_with h t c -> sendInLoop kernel_write d c = Ok c' -> carries c'.
Proof.
  intros Hd H E. unfold sendInLoop in E. case_decide; [injection E as <-; by eapply carries_drop|].
  match type of E with match ?x with (_, _) => _ end = _ => destruct x as [[[c1 nw] rem] fault] eqn:E1 end.
  assert (carries_with h t c1 /\ (fault = true -> ~ unbroken kernel_write)) as [H1 Hf].
  { clear E. destruct (negb _ && _); [|by injection E1 as <- <- <- <-].
    destruct (sockets_write kernel_write d c) as [c2 r] eqn:E2. pose proof (sockets_write_carries _ _ _ _ _ _ H E2) as H2.
    destruct r as [n|e]; injection E1 as <- <- <- <-; (split; [|try done]); [by destruct (_ && _); [apply carries_queue|]|done|].
    intros He Hu. unfold sockets_write in E2. destruct (kernel_write _ _) eqn:Ek; [done|]. injection E2 as <- ->.
    destruct (Hu _ _ _ Ek) as [??]. apply andb_true_iff in He as [_ He]. apply orb_true_iff in He as [He|He]; apply Z.eqb_eq in He; done. }
  apply bind_Ok in E as (u & _ & E). set (c2 := if fault then c1 else record_accept d c1) in *.
  assert (carries c2) as H2.
  { subst c2. destruct fault; [|by eapply carries_accept]. eapply carries_drop; [|done]. intros Hu. by destruct (Hf eq_refl). }
  destruct (negb fault && _); [by eapply keep_carries|by injection E as <-].
Qed.

Lemma update_carries x c : carries c -> carries (update x c).
Proof. intros. same. Qed.

Lemma shutdownInLoop_carries c : carries c -> carries (shutdownInLoop c).
Proof. unfold shutdownInLoop. destruct (negb _); [intros; same|done]. Qed.

Lemma user_step_carries in_loop o c c' :
  call_ok o -> carries c -> user_step kernel_write in_loop o c = Ok c' -> carries c'.
Proof.
  intros Ho H E. destruct o as [d| | | | | |n]; cbn in E.
  - unfold send in E. rewrite ask_state in E. case_decide as Hc; [|injection E as <-; unfold record_ask; by rewrite decide_False].
    destruct in_loop; [eapply sendInLoop_carries; [by left| |done]; by apply carries_ask|].
    injection E as <-. by apply carries_post.
  - injection E as <-. unfold shutdown. case_decide; [|done].
    destruct in_loop; [apply shutdownInLoop_carries|apply carries_queue; [done|]]; same.
  - injection E as <-. unfold forceClose. case_decide; [|done]. apply carries_queue; [done|]. same.
  - injection E as <-. unfold forceCloseWithDelay. case_decide; [|done]. same.
  - injection E as <-. unfold startRead, startReadInLoop. destruct in_loop; [|by apply carries_queue].
    destruct (negb _ || _); [same|done].
  - injection E as <-. unfold stopRead, stopReadInLoop. destruct in_loop; [|by apply carries_queue].
    destruct (_ || _); [same|done].
  - apply bind_Ok in E as (b & _ & E). injection E as <-. same.
Qed.

Lemma user_run_carries os : forall c c',
  Forall call_ok os -> carries c -> user_run kernel_write os c = Ok c' -> carries c'.
Proof.
  induction os as [|o os IH]; intros c c' Hos H E; cbn in E; [by injection E as <-|].
  apply Forall_cons in Hos as [Ho Hos]. apply bind_Ok in E as (c1 & E1 & E).
  eapply IH; [done| |done]. by eapply user_step_carries.
Qed.

Context (user_ok : forall k c, Forall call_ok (user k c)).

Lemma callback_carries k c c' : carries c -> callback kernel_write user k c = Ok c' -> carries c'.
Proof. intros H E. eapply user_run_carries; [apply user_ok| |exact E]. same. Qed.

Lemma handleClose_carries c c' : carries c -> handleClose kernel_write user c = Ok c' -> carries c'.
Proof.
  intros H E. unfold handleClose in E. apply bind_Ok in E as (u & _ & E). apply bind_Ok in E as (c1 & E1 & E).
  injection E as <-. apply carries_queue; [done|]. eapply callback_carries; [|done]. same.
Qed.

Lemma connectDestroyed_carries c c' : carries c -> connectDestroyed kernel_write user c = Ok c' -> carries c'.
Proof.
  intros H E. unfold connectDestroyed in E. apply bind_Ok in E as (c1 & E1 & E).
  assert (carries c1) as H1.
  { case_decide; [|by injection E1 as <-]. eapply callback_carries; [|done]. same. }
  unfold remove in E. apply bind_Ok in E as (u & _ & E). injection E as <-. same.
Qed.

Lemma handleRead_carries readv c c' : carries c -> handleRead kernel_write user readv c = Ok c' -> carries c'.
Proof.
  intros H E. unfold handleRead in E. apply bind_Ok in E as ([[b n] e] & _ & E).
  assert (carries (set_input b c)) as H1 by same.
  destruct (0 <? n); [by eapply callback_carries|]. destruct (n =? 0); [by eapply handleClose_carries|by injection E as <-].
Qed.

Lemma handleWrite_carries c c' : carries c -> handleWrite kernel_write c = Ok c' -> carries c'.
Proof.
  intros H E. unfold handleWrite in E. destruct (Channel.isWriting _); [|by injection E as <-].
  destruct (sockets_write kernel_write _ c) as [c1 r] eqn:E1. pose proof (sockets_write_carries _ _ _ _ _ _ H E1) as H1.
  destruct r as [n|]; [|by injection E as <-]. destruct (0 <? n); [|by injection E as <-].
  apply bind_Ok in E as (b & _ & E). destruct (Buffer.readableBytes b =? 0); injection E as <-; [|same].
  set (c2 := if writeCompleteCallback_ _ then _ else _).
  assert (carries c2) as H2.
  { subst c2. destruct (writeCompleteCallback_ _); [apply carries_queue; [done|]|]; same. }
  case_decide; [by apply shutdownInLoop_carries|done].
Qed.

Lemma dispatch_carries cbs readv c c' : carries c -> dispatch kernel_write user cbs readv c = Ok c' -> carries c'.
Proof.
  revert c. induction cbs as [|k cbs IH]; intros c H E; cbn in E; [by injection E as <-|].
  apply bind_Ok in E as (c1 & E1 & E). eapply IH; [|done].
  destruct k; [by eapply handleClose_carries|by injection E1 as <-|by eapply handleRead_carries|by eapply handleWrite_carries].
Qed.

(** The loop takes [f] from its queue. *)
Definition taken (f : functor) : list (list byte) := match send_of f with Some d => [d] | None => [] end.

Lemma carries_pop f fs c : functors c = f :: fs -> carries c -> carries_with [] (taken f) (set_functors fs c).
Proof.
  intros Ef H. assert (queued_sends c = taken f ++ queued_sends (set_functors fs c)) as Eq.
  { unfold queued_sends, taken. rewrite Ef. cbn. by destruct (send_of f). }
  destruct H as (H1 & H2 & here & there & ds & ?). split_and!; [done..|]. exists here, there, ds.
  cbn [app] in *. by rewrite Eq in *.
Qed.

Lemma run_functor_carries f c c' : carries_with [] (taken f) c -> run_functor kernel_write user f c = Ok c' -> carries c'.
Proof.
  intros H E. destruct f; cbn in E.
  - by eapply callback_carries.
  - eapply sendInLoop_carries; [by right| |done]. done.
  - injection E as <-. by apply shutdownInLoop_carries.
  - unfold forceCloseInLoop in E. case_decide; [by eapply handleClose_carries|by injection E as <-].
  - by eapply connectDestroyed_carries.
  - injection E as <-. unfold startReadInLoop. destruct (negb _ || _); [same|done].
  - injection E as <-. unfold stopReadInLoop. destruct (_ || _); [same|done].
Qed.

Lemma tcp_step_carries ev c c' : event_ok ev -> carries c -> tcp_step kernel_write user ev c = Ok c' -> carries c'.
Proof.
  intros Hev H E. destruct ev; cbn in E.
  - by eapply user_step_carries.
  - by eapply user_step_carries.
  - destruct (functors c) as [|f fs] eqn:Ef; [by injection E as <-|]. eapply run_functor_carries; [|done]. by apply carries_pop.
  - eapply dispatch_carries; [|done]. same.
  - by eapply connectDestroyed_carries.
Qed.

(** Whatever happens to the connection. *)
Lemma connection_carries fd wc hw evs c :
  Forall event_ok evs -> connection_after kernel_write user fd wc hw evs = Ok c -> carries c.
Proof.
  intros Hevs E. unfold connection_after in E. apply bind_Ok in E as (c0 & E0 & E). apply bind_Ok in E as (c1 & E1 & E).
  assert (carries c0 /\ state_ c0 = kConnecting) as [H0 Hc0].
  { unfold new_connection in E0. apply bind_Ok in E0 as (b1 & _ & E0). apply bind_Ok in E0 as (b2 & _ & E0).
    injection E0 as <-. split; [|done]. split_and!; [constructor..|]. exists [], [], []. split_and!; try done. constructor. }
  assert (carries c1) as H1.
  { unfold connectEstablished in E1. apply bind_Ok in E1 as (u & _ & E1). eapply callback_carries; [|done].
    same. }
  clear E0 E1 H0 Hc0 c0. revert c1 H1 E. induction Hevs as [|ev evs Hev _ IH]; intros c1 H1 E; cbn in E; [by injection E as <-|].
  apply bind_Ok in E as (c2 & E2 & E). eapply IH; [|done]. by eapply tcp_step_carries.
Qed.
End carries.
(** ** The receiving side *)

Section receiver.
Context {Message : Type}.
Context (ByteSize : Message -> Z) (Serialize : Message -> list byte) (ParseFromArray : list byte -> option Message).
Context (adler32 : list byte -> Z) (tag_ : list byte) (rawCb_ : option (list byte -> bool)).
Context (errorCallback_ : Codec.ErrorCode -> Buffer.Buffer -> Buffer.Buffer).
Context (tag_short : zlen tag_ <= 1024) (parse_serialize : forall m, ParseFromArray (Serialize m) = Some m).

Abbreviation onMessage := (Codec.onMessage ParseFromArray adler32 tag_ rawCb_ errorCallback_).
Abbreviation sendable := (Codec.sendable ByteSize Serialize adler32 tag_).
Abbreviation frame := (Codec.frame Serialize adler32 tag_).
Abbreviation stream := (Codec.stream Serialize adler32 tag_).
Abbreviation all_events := (Codec.all_events Serialize adler32 tag_ rawCb_).

(** The kernel holds the bytes [pipe] for the receiver and hands over up to [k]
    of them, as many as fit. *)
Definition kernel_readv (pipe : list byte) (k : Z) (vec : list Z) : Buffer.readv_result :=
  Buffer.ReadvData (ztake (Z.min k (Buffer.sum_lengths vec)) pipe).

(** [handleRead] with the codec as the message callback. *)
Definition read_and_decode (readv : list Z -> Buffer.readv_result) (b : Buffer.Buffer) :
    option (outcome (Buffer.Buffer * Z * list Codec.event)) :=
  match Buffer.readFd readv b with
  | Err e => Some (Err e)
  | Ok (b, n, _) =>
      if 0 <? n then
        match onMessage b with
        | Some (Ok (b, evs)) => Some (Ok (b, n, evs))
        | Some (Err e) => Some (Err e)
        | None => None
        end
      else Some (Ok (b, n, []))
  end.

(** The loop finds the socket readable while there are bytes in the pipe. *)
Fixpoint receive_pipe (ks : list Z) (pipe : list byte) (b : Buffer.Buffer) :
    option (outcome (Buffer.Buffer * list Codec.event * list byte)) :=
  match ks with
  | [] => Some (Ok (b, [], pipe))
  | k :: ks =>
      if zlen pipe =? 0 then receive_pipe ks pipe b
      else
        match read_and_decode (kernel_readv pipe k) b with
        | Some (Ok (b, n, evs)) =>
            match receive_pipe ks (zdrop n pipe) b with
            | Some (Ok (b, evs', pipe)) => Some (Ok (b, evs ++ evs', pipe))
            | r => r
            end
        | Some (Err e) => Some (Err e)
        | None => None
        end
  end.

(** The input buffer holds less than the next frame. *)
Definition partial (ms : list Message) (r : list byte) : Prop :=
  match ms with [] => r = [] | m :: _ => zlen r < zlen (frame m) end.

Lemma kernel_readv_fits pipe k : 0 <= k -> Buffer.readv_fits (kernel_readv pipe k).
Proof.
  intros Hk vec d Hv [= <-]. unfold zlen, ztake. rewrite length_take.
  assert (0 <= Buffer.sum_lengths vec); [|lia]. unfold Buffer.sum_lengths. induction Hv; cbn [foldr]; lia.
Qed.

Lemma read_and_decode_spec ms pipe q k b :
  Buffer.wf b -> Forall sendable ms -> Buffer.content b ++ pipe ++ q = stream ms -> pipe <> [] -> 0 < k ->
  zlen (Buffer.buffer_ b) + Buffer.extrabuf_size <= Buffer.max_size ->
  exists n b' ms1 ms2, read_and_decode (kernel_readv pipe k) b = Some (Ok (b', n, all_events ms1)) /\
    0 < n <= zlen pipe /\ ms = ms1 ++ ms2 /\ Buffer.wf b' /\
    zlen (Buffer.buffer_ b') <= zlen (Buffer.buffer_ b) + Buffer.extrabuf_size /\
    Buffer.content b' ++ zdrop n pipe ++ q = stream ms2 /\ partial ms2 (Buffer.content b').
Proof.
  intros Hb Hs E Hne Hk Hroom. unfold read_and_decode.
  pose proof (Buffer.readFd_spec (kernel_readv pipe k) b Hb (kernel_readv_fits pipe k ltac:(lia)) Hroom) as Hrd.
  set (vec := if _ <? _ then _ else _) in Hrd. unfold kernel_readv in Hrd at 1. set (d := ztake _ pipe) in Hrd.
  destruct Hrd as (b1 & E1 & Hb1 & Hc1 & Hz1). rewrite E1.
  assert (0 < zlen pipe) as Hp. { destruct pipe; [done|]. rewrite zlen_cons. pose proof (zlen_nonneg pipe). lia. }
  assert (0 < Buffer.sum_lengths vec) as Hvec.
  { unfold vec. pose proof (Buffer.writable_eq b Hb). destruct Hb as (? & ? & ? & ?).
    unfold Buffer.extrabuf_size. destruct (Z.ltb_spec (Buffer.writableBytes b) 65536); unfold Buffer.sum_lengths; cbn [foldr]; lia. }
  assert (zlen d = Z.min (Z.min k (Buffer.sum_lengths vec)) (zlen pipe)) as Hd.
  { unfold d, zlen, ztake. rewrite length_take. lia. }
  destruct (Z.ltb_spec 0 (zlen d)); [|lia].
  assert (pipe = d ++ zdrop (zlen d) pipe) as Hpd.
  { rewrite Hd. unfold d. destruct (Z.min_spec (Z.min k (Buffer.sum_lengths vec)) (zlen pipe)) as [[? ->]|[? ->]].
    - by rewrite ztake_zdrop.
    - rewrite ztake_all, zdrop_all by lia. by rewrite app_nil_r. }
  rewrite Hpd, <-app_assoc, app_assoc in E. symmetry in E. rewrite <-Hc1 in E.
  destruct (Codec.stream_split Serialize adler32 tag_ ms _ _ E) as (ms1 & ms2 & r & -> & Ep & E2 & Hr).
  unfold Codec.onMessage. rewrite Buffer.readable_wf, Ep by done.
  edestruct (Codec.onMessage_loop_stream ByteSize Serialize ParseFromArray adler32 tag_ rawCb_ errorCallback_ tag_short
    parse_serialize ms2 r (zdrop (zlen d) pipe ++ q) ms1 b1 (S (Z.to_nat (zlen (stream ms1 ++ r)))))
    as (b2 & -> & (Hb2 & Hc2 & Hs2)); [done|done|done|done|done| |].
  { pose proof (Codec.stream_length_ge Serialize adler32 tag_ ms1). unfold zlen. rewrite length_app. lia. }
  exists (zlen d), b2, ms1, ms2. rewrite Hc2. split_and!; try done; lia.
Qed.

Lemma receive_pipe_spec q : forall ks ms pipe b,
  Buffer.wf b -> Forall sendable ms -> Buffer.content b ++ pipe ++ q = stream ms -> partial ms (Buffer.content b) ->
  Forall (Z.lt 0) ks -> zlen (Buffer.buffer_ b) + zlen ks * Buffer.extrabuf_size <= Buffer.max_size ->
  exists b' ms1 ms2 pipe', receive_pipe ks pipe b = Some (Ok (b', all_events ms1, pipe')) /\ ms = ms1 ++ ms2 /\
    Buffer.wf b' /\ Buffer.content b' ++ pipe' ++ q = stream ms2 /\ partial ms2 (Buffer.content b') /\
    zlen pipe' <= Z.max 0 (zlen pipe - zlen ks).
Proof.
  induction ks as [|k ks IH]; intros ms pipe b Hb Hs E Hp Hks Hroom; cbn [receive_pipe].
  { exists b, [], ms, pipe. pose proof (zlen_nonneg pipe). change (zlen []) with 0. split_and!; try done; lia. }
  apply Forall_cons in Hks as [Hk Hks]. rewrite zlen_cons in *. pose proof (zlen_nonneg ks). pose proof (zlen_nonneg pipe).
  assert (zlen (Buffer.buffer_ b) + Buffer.extrabuf_size + zlen ks * Buffer.extrabuf_size <= Buffer.max_size) as Hroom' by lia.
  assert (0 <= zlen ks * Buffer.extrabuf_size) by (unfold Buffer.extrabuf_size; lia).
  destruct (Z.eqb_spec (zlen pipe) 0) as [Hz|Hz].
  { destruct (IH ms pipe b) as (b' & ms1 & ms2 & pipe' & Er & Hm & Hb' & Hc' & Hp' & Hl'); try done; [unfold Buffer.extrabuf_size in *; lia|].
    exists b', ms1, ms2, pipe'. split_and!; try done; lia. }
  destruct (read_and_decode_spec ms pipe q k b) as (n & b1 & ms1 & ms2 & Er & Hn & -> & Hb1 & Hz1 & Hc1 & Hp1);
    [done|done|done|by intros ->|done|lia|].
  rewrite Er. apply Forall_app in Hs as [_ Hs].
  destruct (IH ms2 (zdrop n pipe) b1) as (b' & ms3 & ms4 & pipe' & Er' & -> & Hb' & Hc' & Hp' & Hl'); try done; [lia|].
  rewrite Er'. exists b', (ms1 ++ ms3), ms4, pipe'. split_and!; try done.
  - do 4 f_equal. unfold Codec.all_events. by rewrite fmap_app, concat_app.
  - by rewrite app_assoc.
  - rewrite zlen_drop in Hl' by lia. lia.
Qed.
(** ** Errors *)

(** [ProtobufCodecLite::defaultErrorCallback], which leaves the buffer alone. *)
Definition defaultErrorCallback (conn : option TcpConnection) : option TcpConnection :=
  match conn with
  | Some c => if connected c then Some (shutdown true c) else Some c
  | None => None
  end.

(** The callbacks of any number of calls of [onMessage] that report errors. *)
Definition react (evs : list (@Codec.event Message)) (conn : option TcpConnection) : option TcpConnection :=
  foldl (fun conn ev => match ev with Codec.ErrorReported _ => defaultErrorCallback conn | _ => conn end) conn evs.

Lemma shutdown_disconnects in_loop c : connected c = true -> connected (shutdown in_loop c) = false.
Proof.
  intros Hc%bool_decide_eq_true. unfold connected, shutdown. rewrite decide_True by done. apply bool_decide_eq_false.
  destruct in_loop; [|done]. unfold shutdownInLoop. by destruct (negb _).
Qed.

Lemma react_shut evs c : connected c = false -> react evs (Some c) = Some c.
Proof.
  intros Hc. induction evs as [|ev evs IH]; [done|]. cbn [react foldl]. destruct ev; [exact IH|exact IH|]. cbn [defaultErrorCallback].
  rewrite Hc. exact IH.
Qed.

(** The codec never consumes a frame it cannot read, so it reports the error again
    whenever more bytes arrive; the connection is shut down at the first report
    and the others change nothing. *)
Theorem errors_shut_down_once evs c :
  connected c = true -> (exists e, Codec.ErrorReported e ∈ evs) -> react evs (Some c) = Some (shutdown true c).
Proof.
  intros Hc (e & He). induction evs as [|ev evs IH]; [by apply not_elem_of_nil in He|].
  cbn [react foldl]. apply elem_of_cons in He as [<-|He].
  - cbn [defaultErrorCallback]. rewrite Hc. by apply react_shut, shutdown_disconnects.
  - destruct ev; [by apply IH..|]. cbn [defaultErrorCallback]. rewrite Hc. by apply react_shut, shutdown_disconnects.
Qed.

(** [d] is what [ProtobufCodecLite::send] makes of the message [m] that fits. *)
Definition sent_as (d : list byte) (m : Message) : Prop :=
  sendable m /\ Codec.send ByteSize Serialize adler32 tag_ m = Ok d.
Definition encodes (d : list byte) : Prop := exists m, sent_as d m.

Lemma encodes_messages ds : Forall encodes ds -> exists ms, Forall2 sent_as ds ms.
Proof. induction 1 as [|d ds (m & Hm) _ (ms & IH)]; [by exists []|]. exists (m :: ms). by constructor. Qed.

Lemma sent_stream ds ms : Forall2 sent_as ds ms -> Forall sendable ms /\ concat ds = stream ms.
Proof.
  induction 1 as [|d m ds ms (Hm & E) _ (Hms & IH)]; [done|].
  rewrite (Codec.send_wire_format ByteSize Serialize adler32 tag_ m Hm) in E. injection E as <-.
  split; [by constructor|]. cbn [concat]. rewrite IH.
  change (stream (m :: ms)) with (frame m ++ stream ms). f_equal. unfold Codec.frame, Codec.body, Codec.payload.
  by rewrite <-!app_assoc.
Qed.

End receiver.
(** ** Witness: two texts, one sent in the loop and one from another thread *)
Definition text_frame : list byte -> list byte := Codec.frame id Codec.sum_bytes Codec.rpctag.
Definition text_events : list event :=
  [InLoop (Send (text_frame (bytes "hi"))); FromOther (Send (text_frame (bytes "you"))); RunFunctor].

Lemma text_encodes t :
  zlen t < 100 -> encodes zlen id Codec.sum_bytes Codec.rpctag (text_frame t).
Proof.
  intros Ht. exists t. assert (Codec.sendable zlen id Codec.sum_bytes Codec.rpctag t) as Hs.
  { split; [done|]. rewrite Codec.zlen_body. unfold Codec.kMaxMessageLen, id. change (zlen Codec.rpctag) with 4. lia. }
  split; [done|]. rewrite Codec.send_wire_format by done. unfold text_frame, Codec.frame, Codec.body, Codec.payload.
  by rewrite <-!app_assoc.
Qed.

Lemma text_history : valid_history two_bytes reading_user 5 true true text_events.
Proof.
  intros c c' E1 E2.
  assert (c' = sample_established) as -> by (unfold sample_established; rewrite E1; bind_simpl; by rewrite E2).
  clear. split; [vm_compute; congruence|]. intros c1 H1. vm_compute in H1. injection H1 as <-.
  split; [done|]. intros c2 H2. vm_compute in H2. injection H2 as <-. split; [vm_compute; congruence|].
  intros c3 H3. vm_compute in H3. injection H3 as <-. done.
Qed.

End Transport.
