(* ===== verification/LogStream.v ===== *)
(** * Formatting log lines ([src/base/LogStream.h], [src/base/LogStream.cpp])

    [LogStream] writes into an array of fixed size.  The array and the write
    position are explicit, every store is checked, and the digit loops write
    one character at a time as the code does.  A [double] is an IEEE 754
    binary64 number ([Timestamp.double]); [snprintf] prints its exact value
    rounded half to even. *)

From Stdlib Require Import SpecFloat.
From S2P Require Import Prelude Decimal Timestamp.

Module LogStream.

(** ** [FixedBuffer<SIZE>]: [SIZE] is the length of [data_] *)

Definition kSmallBuffer : Z := 4000.
Definition kLargeBuffer : Z := 4000 * 1000.

Record FixedBuffer := mkFixed { data_ : list byte; cur_ : Z }.

Definition new_fixed (SIZE : Z) : FixedBuffer := mkFixed (replicate (Z.to_nat SIZE) Byte.x00) 0.
Definition avail (b : FixedBuffer) : Z := i32 (zlen (data_ b) - cur_ b).
Definition length_ (b : FixedBuffer) : Z := i32 (cur_ b).
Definition current (b : FixedBuffer) : Z := cur_ b.
Definition add (len : Z) (b : FixedBuffer) : FixedBuffer := mkFixed (data_ b) (cur_ b + len).
Definition reset (b : FixedBuffer) : FixedBuffer := mkFixed (data_ b) 0.
Definition bzero (b : FixedBuffer) : FixedBuffer := mkFixed (replicate (length (data_ b)) Byte.x00) (cur_ b).
Definition toString (b : FixedBuffer) : list byte := zslice 0 (length_ b) (data_ b).

(** [append(buf, len)]: all or nothing, and one byte always stays free. *)
Definition append (buf : list byte) (len : Z) (b : FixedBuffer) : outcome FixedBuffer :=
  if u64 (avail b) >? len then
    v ← zstore (cur_ b) (ztake len buf) (data_ b);
    Ok (mkFixed v (cur_ b + len))
  else Ok b.

(** [debugString] terminates the text for a debugger. *)
Definition debugString (b : FixedBuffer) : outcome FixedBuffer :=
  v ← zstore (cur_ b) [Byte.x00] (data_ b); Ok (mkFixed v (cur_ b)).

(** ** Integers to characters *)

Definition digits_table : list byte := bytes "9876543210123456789".
Definition digitsHex : list byte := bytes "0123456789ABCDEF".

(** A character of a table, [table[i]]. *)
Definition char_at (table : list byte) (i : Z) : outcome byte :=
  match table !! Z.to_nat i with
  | Some c => if 0 <=? i then Ok c else Err OutOfBounds
  | None => Err OutOfBounds
  end.

(** [do { *p++ = table[zero + i % base]; i /= base; } while (i != 0);] *)
Fixpoint digit_loop (fuel : nat) (table : list byte) (zero base i p : Z) (buf : list byte) :
    option (outcome (Z * list byte)) :=
  match fuel with
  | O => None
  | S f =>
      let lsd := Z.rem i base in
      let i := Z.quot i base in
      match (c ← char_at table (zero + lsd); zstore p [c] buf) with
      | Err e => Some (Err e)
      | Ok buf => if negb (i =? 0) then digit_loop f table zero base i (p + 1) buf else Some (Ok (p + 1, buf))
      end
  end.

(** [std::reverse(first, last)] *)
Definition std_reverse (first last : Z) (buf : list byte) : outcome (list byte) :=
  zstore first (reverse (zslice first last buf)) buf.

(** The number of rounds is at most the number of binary digits. *)
Definition loop_fuel (v : Z) : nat := S (Z.to_nat (Z.log2 (Z.abs v))).

(** [convert(buf, value)] at the offset [buf] of the array; returns the length
    and the array.  The loop always ends: [loop_fuel] suffices. *)
Definition convert (buf value : Z) (data : list byte) : outcome (Z * list byte) :=
  match digit_loop (loop_fuel value) digits_table 9 10 value buf data with
  | None => Err Fatal
  | Some r =>
      '(p, data) ← r;
      '(p, data) ← (if value <? 0 then data ← zstore p [Byte.x2d] data; Ok (p + 1, data) else Ok (p, data));
      data ← zstore p [Byte.x00] data;
      data ← std_reverse buf p data;
      Ok (p - buf, data)
  end.

Definition convertHex (buf value : Z) (data : list byte) : outcome (Z * list byte) :=
  match digit_loop (loop_fuel value) digitsHex 0 16 value buf data with
  | None => Err Fatal
  | Some r =>
      '(p, data) ← r;
      data ← zstore p [Byte.x00] data;
      data ← std_reverse buf p data;
      Ok (p - buf, data)
  end.

(** ** Doubles to characters *)

(** [num / den] rounded to an integer, ties to even. *)
Definition round_half_even (num den : Z) : Z :=
  let q := num / den in
  let r := num mod den in
  if 2 * r <? den then q else if den <? 2 * r then q + 1 else if Z.even q then q else q + 1.

(** The absolute value of a finite double as a fraction. *)
Definition fraction (m : positive) (e : Z) : Z * Z :=
  if 0 <=? e then (Zpos m * 2 ^ e, 1) else (Zpos m, 2 ^ (- e)).

Definition sign_text (s : bool) : list byte := if s then bytes "-" else [].

(** [r / 10 ^ prec] with [prec] decimals. *)
Definition fixed_text (prec r : Z) : list byte :=
  if prec =? 0 then dec_nat r
  else dec_nat (r / 10 ^ prec) ++ bytes "." ++ dec0 prec (r mod 10 ^ prec).

(** [%.<prec>f] *)
Definition print_f (prec : Z) (x : Timestamp.double) : list byte :=
  match x with
  | S754_zero s => sign_text s ++ fixed_text prec 0
  | S754_infinity s => sign_text s ++ bytes "inf"
  | S754_nan => bytes "nan"
  | S754_finite s m e =>
      let '(num, den) := fraction m e in
      sign_text s ++ fixed_text prec (round_half_even (num * 10 ^ prec) den)
  end.

(** The least [k >= 1] with [den <= num * 10 ^ k]; 400 is beyond any double. *)
Fixpoint leading_zeros (fuel : nat) (k num den : Z) : Z :=
  match fuel with
  | O => k
  | S f => if den <=? num * 10 ^ k then k else leading_zeros f (k + 1) num den
  end.

(** The decimal exponent of a positive fraction. *)
Definition decimal_exponent (num den : Z) : Z :=
  if den <=? num then zlen (dec_nat (num / den)) - 1 else - leading_zeros 400 1 num den.

(** [P] significant digits as an integer, and the exponent of the first one. *)
Definition significant (P num den : Z) : Z * Z :=
  let X := decimal_exponent num den in
  let r := if P - 1 - X <? 0 then round_half_even num (den * 10 ^ (X - P + 1))
           else round_half_even (num * 10 ^ (P - 1 - X)) den in
  if 10 ^ P <=? r then (X + 1, 10 ^ (P - 1)) else (X, r).

(** [%g] drops trailing zeros of the fraction, and the point with the last one. *)
Fixpoint drop_zeros (rev_text : list byte) : list byte :=
  match rev_text with
  | c :: rest => if Byte.eqb c Byte.x30 then drop_zeros rest
                 else if Byte.eqb c Byte.x2e then rest else rev_text
  | [] => []
  end.
Definition strip_zeros (text : list byte) : list byte :=
  if existsb (Byte.eqb Byte.x2e) text then reverse (drop_zeros (reverse text)) else text.

Definition exponent_text (X : Z) : list byte :=
  bytes "e" ++ (if X <? 0 then bytes "-" else bytes "+") ++ dec0 2 (Z.abs X).

(** [%.<P>g] *)
Definition print_g (P : Z) (x : Timestamp.double) : list byte :=
  match x with
  | S754_zero s => sign_text s ++ bytes "0"
  | S754_infinity s => sign_text s ++ bytes "inf"
  | S754_nan => bytes "nan"
  | S754_finite s m e =>
      let '(num, den) := fraction m e in
      let '(X, r) := significant P num den in
      sign_text s ++
      (if (-4 <=? X) && (X <? P) then strip_zeros (fixed_text (P - 1 - X) r)
       else strip_zeros (fixed_text (P - 1) r) ++ exponent_text X)
  end.

(** ** [LogStream] *)

Definition kMaxNumericSize : Z := 32.

Definition formatInteger (v : Z) (b : FixedBuffer) : outcome FixedBuffer :=
  if avail b >=? kMaxNumericSize then
    '(len, data) ← convert (current b) v (data_ b);
    Ok (add len (mkFixed data (cur_ b)))
  else Ok b.

(** [operator<<(const void* )] *)
Definition formatPointer (v : Z) (b : FixedBuffer) : outcome FixedBuffer :=
  if avail b >=? kMaxNumericSize then
    data ← zstore (current b) [Byte.x30; Byte.x78] (data_ b);
    '(len, data) ← convertHex (current b + 2) v data;
    Ok (add (len + 2) (mkFixed data (cur_ b)))
  else Ok b.

(** [operator<<(double)]: [snprintf] stores what fits and the terminator, and
    returns the length of the whole text. *)
Definition formatDouble (v : Timestamp.double) (b : FixedBuffer) : outcome FixedBuffer :=
  if avail b >=? kMaxNumericSize then
    let text := print_g 12 v in
    data ← zstore (current b) (snprintf kMaxNumericSize text ++ [Byte.x00]) (data_ b);
    Ok (add (zlen text) (mkFixed data (cur_ b)))
  else Ok b.

(** The overloads of [operator<<]. *)
Inductive item :=
  | Bool (v : bool)
  | Char (v : byte)
  | Short (v : Z) | UShort (v : Z) | Int (v : Z) | UInt (v : Z)
  | Long (v : Z) | ULong (v : Z) | LongLong (v : Z) | ULongLong (v : Z)
  | Pointer (p : Z)
  | Double (v : Timestamp.double)
  (** a C string, or a null pointer *)
  | CString (s : option (list byte))
  | String (s : list byte)
  | Piece (s : list byte) (size : Z)
  | Buffer (b : FixedBuffer)
  (** [Fmt(fmt, val)] with the text its [snprintf] makes *)
  | Fmt (text : list byte).

(** [operator<<(const Buffer&)] takes the text of the other stream. *)
Definition put (i : item) (b : FixedBuffer) : outcome FixedBuffer :=
  match i with
  | Bool v => append (if v then bytes "1" else bytes "0") 1 b
  | Char c => append [c] 1 b
  | Short v | UShort v | Int v | UInt v | Long v | ULong v | LongLong v | ULongLong v => formatInteger v b
  | Pointer p => formatPointer p b
  | Double v => formatDouble v b
  | CString (Some s) => append s (zlen s) b
  | CString None => append (bytes "(null)") 6 b
  | String s => append s (zlen s) b
  | Piece s size => append s (u64 size) b
  | Buffer o => append (toString o) (u64 (length_ o)) b
  | Fmt text => assert_ (zlen text <? 32);; append text (u64 (i32 (zlen text))) b
  end.

Fixpoint put_all (items : list item) (b : FixedBuffer) : outcome FixedBuffer :=
  match items with
  | [] => Ok b
  | i :: items' => b ← put i b; put_all items' b
  end.

(** ** Quantities with units *)

Definition div_by (n : Timestamp.double) (k : Z) : Timestamp.double :=
  Timestamp.ddiv n (Timestamp.double_of_Z k).

Definition formatSI (s : Z) : list byte :=
  let n := Timestamp.double_of_Z s in
  snprintf 64
    (if s <? 1000 then dec s
     else if s <? 9995 then print_f 2 (div_by n (10 ^ 3)) ++ bytes "k"
     else if s <? 99950 then print_f 1 (div_by n (10 ^ 3)) ++ bytes "k"
     else if s <? 999500 then print_f 0 (div_by n (10 ^ 3)) ++ bytes "k"
     else if s <? 9995000 then print_f 2 (div_by n (10 ^ 6)) ++ bytes "M"
     else if s <? 99950000 then print_f 1 (div_by n (10 ^ 6)) ++ bytes "M"
     else if s <? 999500000 then print_f 0 (div_by n (10 ^ 6)) ++ bytes "M"
     else if s <? 9995000000 then print_f 2 (div_by n (10 ^ 9)) ++ bytes "G"
     else if s <? 99950000000 then print_f 1 (div_by n (10 ^ 9)) ++ bytes "G"
     else if s <? 999500000000 then print_f 0 (div_by n (10 ^ 9)) ++ bytes "G"
     else if s <? 9995000000000 then print_f 2 (div_by n (10 ^ 12)) ++ bytes "T"
     else if s <? 99950000000000 then print_f 1 (div_by n (10 ^ 12)) ++ bytes "T"
     else if s <? 999500000000000 then print_f 0 (div_by n (10 ^ 12)) ++ bytes "T"
     else if s <? 9995000000000000 then print_f 2 (div_by n (10 ^ 15)) ++ bytes "P"
     else if s <? 99950000000000000 then print_f 1 (div_by n (10 ^ 15)) ++ bytes "P"
     else if s <? 999500000000000000 then print_f 0 (div_by n (10 ^ 15)) ++ bytes "P"
     else print_f 2 (div_by n (10 ^ 18)) ++ bytes "E").

(** A literal of the source, the double nearest to [num / den]. *)
Definition literal (num den : Z) : Timestamp.double :=
  Timestamp.ddiv (Timestamp.double_of_Z num) (Timestamp.double_of_Z den).

(** One unit of [formatIEC]: [u * 9.995], [u * 99.95] and [u * 1023.5] are the
    bounds for two, one and no decimals. *)
Definition below (n u : Timestamp.double) (num den : Z) : bool :=
  SFltb n (Timestamp.dmul u (literal num den)).

Definition formatIEC (s : Z) : list byte :=
  let n := Timestamp.double_of_Z s in
  let Ki := Timestamp.double_of_Z 1024 in
  let Mi := Timestamp.dmul Ki Ki in
  let Gi := Timestamp.dmul Mi Ki in
  let Ti := Timestamp.dmul Gi Ki in
  let Pi := Timestamp.dmul Ti Ki in
  let Ei := Timestamp.dmul Pi Ki in
  snprintf 64
    (if SFltb n Ki then dec s
     else if below n Ki 9995 1000 then print_f 2 (Timestamp.ddiv n Ki) ++ bytes "Ki"
     else if below n Ki 9995 100 then print_f 1 (Timestamp.ddiv n Ki) ++ bytes "Ki"
     else if below n Ki 10235 10 then print_f 0 (Timestamp.ddiv n Ki) ++ bytes "Ki"
     else if below n Mi 9995 1000 then print_f 2 (Timestamp.ddiv n Mi) ++ bytes "Mi"
     else if below n Mi 9995 100 then print_f 1 (Timestamp.ddiv n Mi) ++ bytes "Mi"
     else if below n Mi 10235 10 then print_f 0 (Timestamp.ddiv n Mi) ++ bytes "Mi"
     else if below n Gi 9995 1000 then print_f 2 (Timestamp.ddiv n Gi) ++ bytes "Gi"
     else if below n Gi 9995 100 then print_f 1 (Timestamp.ddiv n Gi) ++ bytes "Gi"
     else if below n Gi 10235 10 then print_f 0 (Timestamp.ddiv n Gi) ++ bytes "Gi"
     else if below n Ti 9995 1000 then print_f 2 (Timestamp.ddiv n Ti) ++ bytes "Ti"
     else if below n Ti 9995 100 then print_f 1 (Timestamp.ddiv n Ti) ++ bytes "Ti"
     else if below n Ti 10235 10 then print_f 0 (Timestamp.ddiv n Ti) ++ bytes "Ti"
     else if below n Pi 9995 1000 then print_f 2 (Timestamp.ddiv n Pi) ++ bytes "Pi"
     else if below n Pi 9995 100 then print_f 1 (Timestamp.ddiv n Pi) ++ bytes "Pi"
     else if below n Pi 10235 10 then print_f 0 (Timestamp.ddiv n Pi) ++ bytes "Pi"
     else if below n Ei 9995 1000 then print_f 2 (Timestamp.ddiv n Ei) ++ bytes "Ei"
     else print_f 1 (Timestamp.ddiv n Ei) ++ bytes "Ei").

Example formatSI_samples :
  (formatSI 999, formatSI 1000, formatSI 99949, formatSI 999499, formatSI (2 ^ 63 - 1)) =
  (bytes "999", bytes "1.00k", bytes "99.9k", bytes "999k", bytes "9.22E").
Proof. vm_compute. reflexivity. Qed.

Example formatIEC_samples :
  (formatIEC 1023, formatIEC 1024, formatIEC 102348, formatIEC (1023 * 1024 + 511), formatIEC (2 ^ 63 - 1)) =
  (bytes "1023", bytes "1.00Ki", bytes "99.9Ki", bytes "1023Ki", bytes "8.00Ei").
Proof. vm_compute. reflexivity. Qed.

Example print_g_samples :
  print_g 12 <$> [Timestamp.double_of_Z 0; Timestamp.double_of_Z (-100); Timestamp.double_of_Z 123456789012345;
                  literal 1 3; literal 1 30000] =
  [bytes "0"; bytes "-100"; bytes "1.23456789012e+14"; bytes "0.333333333333"; bytes "3.33333333333e-05"].
Proof. vm_compute. reflexivity. Qed.

(** ** Stores next to and over each other *)

Definition stored (off : Z) (src l : list byte) : list byte := ztake off l ++ src ++ zdrop (off + zlen src) l.

Lemma zstore_stored off src l :
  0 <= off -> off + zlen src <= zlen l -> zstore off src l = Ok (stored off src l).
Proof. apply zstore_Ok. Qed.

Lemma stored_length off src l : 0 <= off -> off + zlen src <= zlen l -> zlen (stored off src l) = zlen l.
Proof. apply zlen_stored. Qed.

Lemma stored_next off a b l :
  0 <= off -> off + zlen a + zlen b <= zlen l -> stored (off + zlen a) b (stored off a l) = stored off (a ++ b) l.
Proof.
  intros Hoff Hlen. zlen_pos. unfold stored at 1 3.
  assert (zlen (ztake off l) = off) as Ht by (apply zlen_take; lia).
  unfold stored. rewrite (app_assoc (ztake off l)). rewrite ztake_app_exact by (rewrite zlen_app; lia).
  rewrite zdrop_app by lia. rewrite zdrop_all by (rewrite zlen_app; lia). rewrite zlen_app, Ht, zdrop_zdrop by lia.
  rewrite app_nil_l, zlen_app, <- !app_assoc. do 4 f_equal. lia.
Qed.

Lemma stored_over off a a' b l :
  0 <= off -> off + zlen a + zlen b <= zlen l -> zlen a' = zlen a ->
  stored off a' (stored off (a ++ b) l) = stored off (a' ++ b) l.
Proof.
  intros Hoff Hlen Ha. zlen_pos.
  assert (zlen (ztake off l) = off) as Ht by (apply zlen_take; lia).
  assert (ztake off (stored off (a ++ b) l) = ztake off l) as E1 by (by apply ztake_app_exact).
  assert (zdrop (off + zlen a') (stored off (a ++ b) l) = b ++ zdrop (off + zlen (a ++ b)) l) as E2.
  { unfold stored. rewrite <- (app_assoc a), app_assoc. apply zdrop_app_exact. rewrite zlen_app. lia. }
  unfold stored at 1. rewrite E1, E2. unfold stored. rewrite !zlen_app, Ha. by rewrite <- !app_assoc.
Qed.

Lemma stored_slice off a b l :
  0 <= off -> off + zlen a + zlen b <= zlen l -> zslice off (off + zlen a) (stored off (a ++ b) l) = a.
Proof.
  intros Hoff Hlen. zlen_pos. unfold stored, zslice.
  rewrite zdrop_app_exact by (rewrite zlen_take; lia). rewrite <- app_assoc. apply ztake_app_exact. lia.
Qed.

(** ** The digit loops *)

(** Least significant digit first. *)
Fixpoint udigits (fuel : nat) (base n : Z) : list Z :=
  match fuel with
  | O => []
  | S f => if n <? base then [n] else n mod base :: udigits f base (n / base)
  end.

Lemma digits_udigits fuel n : digits fuel n = reverse (udigits fuel 10 n).
Proof.
  revert n. induction fuel as [|f IH]; intros n; [done|]. cbn [digits udigits]. destruct (n <? 10); [done|].
  by rewrite IH, reverse_cons.
Qed.

Lemma rem_sign s n base :
  s = 1 \/ s = -1 -> 0 <= n -> 0 < base -> Z.rem (s * n) base = s * (n mod base) /\ Z.quot (s * n) base = s * (n / base).
Proof.
  intros [-> | ->] Hn Hb.
  - rewrite !Z.mul_1_l. split; [apply Z.rem_mod_nonneg; lia|apply Z.quot_div_nonneg; lia].
  - replace (-1 * n) with (- n) by lia. rewrite Z.rem_opp_l, Z.quot_opp_l by lia.
    rewrite Z.rem_mod_nonneg, Z.quot_div_nonneg by lia. lia.
Qed.

Lemma udigits_length fuel base n k :
  1 < base -> (0 < k)%nat -> 0 <= n < base ^ Z.of_nat k -> (length (udigits fuel base n) <= k)%nat.
Proof.
  intros Hb. revert n k. induction fuel as [|f IH]; intros n k Hk Hn; cbn; [lia|].
  destruct (Z.ltb_spec n base); [cbn; lia|].
  destruct k as [|[|k]]; [lia|change (Z.of_nat 1) with 1 in Hn; rewrite Z.pow_1_r in Hn; lia|].
  cbn. rewrite Nat2Z.inj_succ, Z.pow_succ_r in Hn by lia.
  assert (length (udigits f base (n / base)) <= S k)%nat; [|lia].
  apply IH; [lia|]. split; [apply Z.div_pos; lia|]. apply Z.div_lt_upper_bound; lia.
Qed.

Section loop.
Context (table : list byte) (zero base s : Z) (ch : Z -> byte).
Hypothesis Hbase : 1 < base.
Hypothesis Hs : s = 1 \/ s = -1.
Hypothesis Htable : forall d, 0 <= d < base -> char_at table (zero + s * d) = Ok (ch d).

Lemma digit_loop_spec fuel n p buf :
  (0 < fuel)%nat -> 0 <= n < base ^ Z.of_nat fuel -> 0 <= p ->
  p + zlen (udigits fuel base n) <= zlen buf ->
  digit_loop fuel table zero base (s * n) p buf =
  Some (Ok (p + zlen (udigits fuel base n), stored p (ch <$> udigits fuel base n) buf)).
Proof.
  revert n p buf. induction fuel as [|f IH]; intros n p buf Hf Hn Hp Hlen; [lia|].
  rewrite Nat2Z.inj_succ, Z.pow_succ_r in Hn by lia.
  destruct (rem_sign s n base Hs) as [Hr Hq]; [lia..|]. pose proof (Z.mod_pos_bound n base ltac:(lia)).
  pose proof (Z.div_mod n base ltac:(lia)). pose proof (Z.div_pos n base ltac:(lia) ltac:(lia)).
  cbn [digit_loop udigits] in *. rewrite Hr, Hq, Htable by lia. bind_simpl.
  destruct (Z.ltb_spec n base) as [Hlt|Hge].
  - rewrite zlen_cons, zlen_nil in Hlen. rewrite zstore_stored by (rewrite ?zlen_cons, ?zlen_nil; lia).
    rewrite (Z.div_small n base), Z.mod_small, Z.mul_0_r by lia. done.
  - rewrite zlen_cons in Hlen. zlen_pos. rewrite zstore_stored by (rewrite ?zlen_cons, ?zlen_nil; lia).
    assert (1 <= n / base) by (apply Z.div_le_lower_bound; lia).
    replace (s * (n / base) =? 0) with false by (destruct Hs; subst; lia). cbn [negb].
    destruct f as [|f]; [change (Z.of_nat 0) with 0 in Hn; rewrite Z.pow_0_r in Hn; lia|].
    rewrite IH; [|lia| |lia|].
    + rewrite zlen_cons. do 3 f_equal; [lia|].
      replace (p + 1) with (p + zlen [ch (n mod base)]) by (by rewrite zlen_cons, zlen_nil).
      rewrite stored_next; [done|lia|]. rewrite zlen_cons, zlen_nil. unfold zlen in *. rewrite length_fmap. lia.
    + split; [lia|]. apply Z.div_lt_upper_bound; lia.
    + rewrite stored_length by (rewrite ?zlen_cons, ?zlen_nil; lia). lia.
Qed.
End loop.

Lemma digits_table_char s d :
  s = 1 \/ s = -1 -> 0 <= d < 10 -> char_at digits_table (9 + s * d) = Ok (digit_char d).
Proof.
  intros Hs Hd. assert (d = 0 \/ d = 1 \/ d = 2 \/ d = 3 \/ d = 4 \/ d = 5 \/ d = 6 \/ d = 7 \/ d = 8 \/ d = 9) as Hc by lia.
  destruct Hs as [-> | ->]; repeat destruct Hc as [->|Hc]; try subst; vm_compute; reflexivity.
Qed.

Definition hex_char (d : Z) : byte := byte.of_Z (if d <? 10 then 48 + d else 55 + d).
Definition hex (v : Z) : list byte := reverse (hex_char <$> udigits (loop_fuel v) 16 v).

Lemma digitsHex_char d : 0 <= d < 16 -> char_at digitsHex (0 + 1 * d) = Ok (hex_char d).
Proof.
  intros Hd.
  assert (d = 0 \/ d = 1 \/ d = 2 \/ d = 3 \/ d = 4 \/ d = 5 \/ d = 6 \/ d = 7 \/ d = 8 \/ d = 9 \/ d = 10 \/
    d = 11 \/ d = 12 \/ d = 13 \/ d = 14 \/ d = 15) as Hc by lia.
  repeat destruct Hc as [->|Hc]; try subst; vm_compute; reflexivity.
Qed.

Lemma zlen_reverse {A} (l : list A) : zlen (reverse l) = zlen l.
Proof. unfold zlen. by rewrite length_reverse. Qed.
Lemma zlen_fmap {A B} (f : A -> B) (l : list A) : zlen (f <$> l) = zlen l.
Proof. unfold zlen. by rewrite length_fmap. Qed.

Lemma fuel_enough base v : 2 <= base -> 0 <= Z.abs v < base ^ Z.of_nat (loop_fuel v).
Proof.
  intros Hb. split; [lia|]. unfold loop_fuel. pose proof (Z.log2_nonneg (Z.abs v)).
  rewrite Nat2Z.inj_succ, Z2Nat.id by lia. destruct (Z.eq_dec (Z.abs v) 0) as [->|]; [apply Z.pow_pos_nonneg; cbn; lia|].
  pose proof (Z.log2_spec (Z.abs v) ltac:(lia)) as [_ H2].
  eapply Z.lt_le_trans; [exact H2|]. apply Z.pow_le_mono_l. lia.
Qed.

(** The tail of both conversions: terminate, then turn the digits around. *)
Lemma finish_convert off chars data :
  0 <= off -> off + zlen chars + 1 <= zlen data ->
  (data' ← zstore (off + zlen chars) [Byte.x00] (stored off chars data);
   data'' ← std_reverse off (off + zlen chars) data';
   Ok (off + zlen chars - off, data'')) =
  Ok (zlen chars, stored off (reverse chars ++ [Byte.x00]) data).
Proof.
  intros Hoff Hlen. zlen_pos. rewrite zstore_stored by (rewrite ?stored_length, ?zlen_cons, ?zlen_nil by lia; lia).
  bind_simpl. rewrite stored_next by (rewrite ?zlen_cons, ?zlen_nil; lia).
  unfold std_reverse. rewrite stored_slice by (rewrite ?zlen_cons, ?zlen_nil; lia).
  rewrite zstore_stored.
  - bind_simpl. rewrite stored_over by (rewrite ?zlen_reverse, ?zlen_cons, ?zlen_nil; lia).
    do 2 f_equal. lia.
  - lia.
  - rewrite zlen_reverse, stored_length by (rewrite ?zlen_app, ?zlen_cons, ?zlen_nil; lia). lia.
Qed.

Lemma dec_length v : Z.abs v < 10 ^ 20 -> 0 < zlen (dec v) <= 21.
Proof.
  intros Hv. unfold dec. destruct (Z.ltb_spec v 0).
  - rewrite zlen_cons. pose proof (dec_nat_length (- v) 20 ltac:(lia) ltac:(lia)). pose proof (dec_nat_nonempty (- v)). lia.
  - pose proof (dec_nat_length v 20 ltac:(lia) ltac:(lia)). pose proof (dec_nat_nonempty v). lia.
Qed.

Lemma dec_chars v :
  dec v = reverse ((digit_char <$> udigits (loop_fuel v) 10 (Z.abs v)) ++ if v <? 0 then [Byte.x2d] else []).
Proof.
  unfold dec, dec_nat, loop_fuel, ndigits. destruct (Z.ltb_spec v 0).
  - rewrite Z.abs_neq, digits_udigits, fmap_reverse, reverse_app by lia. done.
  - by rewrite Z.abs_eq, digits_udigits, fmap_reverse, app_nil_r by lia.
Qed.

Lemma convert_spec off v data :
  Z.abs v < 10 ^ 20 -> 0 <= off -> off + 22 <= zlen data ->
  convert off v data = Ok (zlen (dec v), stored off (dec v ++ [Byte.x00]) data).
Proof.
  intros Hv Hoff Hlen. unfold convert.
  set (s := if v <? 0 then -1 else 1). set (ds := udigits (loop_fuel v) 10 (Z.abs v)).
  assert (zlen ds <= 20) as Hds.
  { unfold zlen, ds. pose proof (udigits_length (loop_fuel v) 10 (Z.abs v) 20 ltac:(lia) ltac:(lia)) as H.
    change (Z.of_nat 20) with 20 in H. lia. }
  replace v with (s * Z.abs v) at 2 by (subst s; destruct (Z.ltb_spec v 0); lia).
  rewrite (digit_loop_spec digits_table 9 10 s digit_char); [|lia|subst s; destruct (v <? 0); lia| |
    unfold loop_fuel; lia|apply fuel_enough; lia|lia|subst ds; lia].
  2: { intros d Hd. apply digits_table_char; [subst s; destruct (v <? 0); lia|done]. }
  fold ds. bind_simpl. rewrite dec_chars. fold ds. rewrite zlen_reverse, zlen_app, zlen_fmap.
  zlen_pos. destruct (v <? 0).
  - replace (off + zlen ds) with (off + zlen (digit_char <$> ds)) by (by rewrite zlen_fmap).
    rewrite zstore_stored; [|rewrite zlen_fmap; lia|].
    2: { rewrite stored_length; rewrite ?zlen_cons, ?zlen_nil, ?zlen_fmap; lia. }
    bind_simpl. rewrite stored_next by (rewrite ?zlen_cons, ?zlen_nil, ?zlen_fmap; lia).
    set (cs := (digit_char <$> ds) ++ [Byte.x2d]).
    replace (off + zlen (digit_char <$> ds) + 1) with (off + zlen cs)
      by (subst cs; rewrite zlen_app, zlen_cons, zlen_nil; lia).
    rewrite finish_convert; [|lia|subst cs; rewrite ?zlen_app, ?zlen_cons, ?zlen_nil, ?zlen_fmap; lia].
    f_equal. f_equal. subst cs. by rewrite zlen_app, zlen_fmap.
  - bind_simpl. rewrite app_nil_r. replace (off + zlen ds) with (off + zlen (digit_char <$> ds)) by (by rewrite zlen_fmap).
    rewrite finish_convert by (rewrite ?zlen_fmap; lia). rewrite zlen_fmap, zlen_nil. f_equal. f_equal. lia.
Qed.

Lemma convertHex_spec off v data :
  0 <= v < 2 ^ 64 -> 0 <= off -> off + 17 <= zlen data ->
  convertHex off v data = Ok (zlen (hex v), stored off (hex v ++ [Byte.x00]) data) /\ zlen (hex v) <= 16.
Proof.
  intros Hv Hoff Hlen. unfold convertHex, hex. set (ds := udigits (loop_fuel v) 16 v).
  assert (zlen ds <= 16) as Hds.
  { unfold zlen, ds. pose proof (udigits_length (loop_fuel v) 16 v 16 ltac:(lia) ltac:(lia)) as H.
    change (16 ^ Z.of_nat 16) with (2 ^ 64) in H. lia. }
  rewrite zlen_reverse, zlen_fmap. split; [|done].
  pose proof (fuel_enough 16 v ltac:(lia)) as Hf. rewrite Z.abs_eq in Hf by lia.
  replace v with (1 * v) at 2 by lia.
  rewrite (digit_loop_spec digitsHex 0 16 1 hex_char); [|lia|lia|apply digitsHex_char|unfold loop_fuel; lia|done|lia|fold ds; lia].
  fold ds. bind_simpl. replace (off + zlen ds) with (off + zlen (hex_char <$> ds)) by (by rewrite zlen_fmap).
  zlen_pos. rewrite finish_convert by (rewrite ?zlen_fmap; lia). by rewrite zlen_fmap.
Qed.

(** ** How long a printed double can be *)

(** The finite values of binary64. *)
Definition binary64 (x : Timestamp.double) : Prop :=
  match x with S754_finite _ m e => Zpos m < 2 ^ 53 /\ -1074 <= e <= 971 | _ => True end.

Lemma round_half_even_nonneg num den : 0 <= num -> 0 < den -> 0 <= round_half_even num den.
Proof.
  intros Hn Hd. unfold round_half_even. pose proof (Z.div_pos num den Hn Hd).
  repeat case_match; lia.
Qed.

Lemma drop_zeros_length l : (length (drop_zeros l) <= length l)%nat.
Proof. induction l as [|c l IH]; cbn; [lia|]. repeat case_match; cbn; lia. Qed.

Lemma strip_zeros_length l : zlen (strip_zeros l) <= zlen l.
Proof.
  unfold strip_zeros. case_match; [|lia]. rewrite zlen_reverse.
  pose proof (drop_zeros_length (reverse l)) as Hl. rewrite length_reverse in Hl. unfold zlen. lia.
Qed.

Lemma leading_zeros_range fuel k num den : k <= leading_zeros fuel k num den <= k + Z.of_nat fuel.
Proof.
  revert k. induction fuel as [|f IH]; intros k; cbn [leading_zeros]; [lia|].
  case_match; [lia|]. specialize (IH (k + 1)). lia.
Qed.

Lemma fraction_range m e :
  Zpos m < 2 ^ 53 -> -1074 <= e <= 971 ->
  let '(num, den) := fraction m e in 0 < num < 10 ^ 309 /\ 0 < den.
Proof.
  intros Hm He. unfold fraction. destruct (Z.leb_spec 0 e).
  - split; [|lia]. assert (0 < 2 ^ e <= 2 ^ 971).
    { split; [by apply Z.pow_pos_nonneg|]. apply Z.pow_le_mono_r; lia. }
    assert (2 ^ 53 * 2 ^ 971 <= 10 ^ 309) by (by vm_compute). nia.
  - split; [|apply Z.pow_pos_nonneg; lia]. assert (2 ^ 53 <= 10 ^ 309) by (by vm_compute). lia.
Qed.

Lemma decimal_exponent_range num den :
  0 < num < 10 ^ 309 -> 0 < den -> -401 <= decimal_exponent num den <= 308.
Proof.
  intros Hn Hd. unfold decimal_exponent. destruct (Z.leb_spec den num).
  - pose proof (Z.div_pos num den ltac:(lia) Hd). pose proof (Z.div_le_upper_bound num den num ltac:(lia) ltac:(nia)).
    pose proof (dec_nat_length (num / den) 309 ltac:(lia) ltac:(lia)). pose proof (dec_nat_nonempty (num / den)). lia.
  - pose proof (leading_zeros_range 400 1 num den). lia.
Qed.

Lemma significant_range num den :
  0 < num < 10 ^ 309 -> 0 < den ->
  let '(X, r) := significant 12 num den in -401 <= X <= 309 /\ 0 <= r < 10 ^ 12.
Proof.
  intros Hn Hd. pose proof (decimal_exponent_range num den Hn Hd) as HX. unfold significant.
  set (X := decimal_exponent num den) in *. set (r := if 12 - 1 - X <? 0 then _ else _).
  assert (0 <= r).
  { subst r. case_match; apply round_half_even_nonneg; try lia.
    all: first [apply Z.mul_pos_pos; [lia|apply Z.pow_pos_nonneg; lia]
               |apply Z.mul_nonneg_nonneg; [lia|apply Z.pow_nonneg; lia]]. }
  destruct (Z.leb_spec (10 ^ 12) r); lia.
Qed.

Lemma fixed_text_length prec r k :
  0 <= prec -> 0 <= r < 10 ^ (prec + k) -> 0 < k -> zlen (fixed_text prec r) <= k + 1 + prec.
Proof.
  intros Hp Hr Hk. unfold fixed_text. destruct (Z.eqb_spec prec 0) as [->|Hne].
  { pose proof (dec_nat_length r k Hk Hr). lia. }
  assert (0 < 10 ^ prec) by (apply Z.pow_pos_nonneg; lia). rewrite Z.pow_add_r in Hr by lia.
  pose proof (Z.mod_pos_bound r (10 ^ prec) ltac:(lia)).
  rewrite !zlen_app, zlen_dec0 by lia. change (zlen (bytes ".")) with 1.
  pose proof (dec_nat_length (r / 10 ^ prec) k Hk) as Hl.
  assert (0 <= r / 10 ^ prec < 10 ^ k); [|lia].
  split; [apply Z.div_pos; lia|apply Z.div_lt_upper_bound; lia].
Qed.

Lemma print_g_length x : binary64 x -> zlen (print_g 12 x) <= 30.
Proof.
  assert (forall s, zlen (sign_text s) <= 1) as Hsign by by intros [].
  intros Hx. destruct x as [s|s| |s m e]; cbn [print_g];
    [destruct s; by vm_compute|destruct s; by vm_compute|by vm_compute|].
  destruct Hx as [Hm He]. pose proof (fraction_range m e Hm He) as Hf. destruct (fraction m e) as [num den].
  destruct Hf as [Hn Hd]. pose proof (significant_range num den Hn Hd) as Hsig.
  destruct (significant 12 num den) as [X r]. destruct Hsig as [HX Hr].
  rewrite zlen_app. specialize (Hsign s). destruct ((-4 <=? X) && (X <? 12)) eqn:Eg.
  - pose proof (strip_zeros_length (fixed_text (12 - 1 - X) r)).
    assert (0 <= r < 10 ^ (12 - 1 - X + 12)) as Hr'.
    { split; [lia|]. eapply Z.lt_le_trans; [apply Hr|]. apply Z.pow_le_mono_r; lia. }
    pose proof (fixed_text_length (12 - 1 - X) r 12 ltac:(lia) Hr' ltac:(lia)). lia.
  - rewrite zlen_app. pose proof (strip_zeros_length (fixed_text (12 - 1) r)).
    pose proof (fixed_text_length (12 - 1) r 1 ltac:(lia) ltac:(lia) ltac:(lia)).
    assert (zlen (exponent_text X) <= 5); [|lia]. unfold exponent_text. rewrite !zlen_app.
    assert (zlen (dec0 2 (Z.abs X)) <= 3).
    { unfold dec0. rewrite (proj2 (Z.ltb_ge _ _)), zlen_pad_left by lia.
      pose proof (dec_nat_length (Z.abs X) 3 ltac:(lia) ltac:(lia)). lia. }
    change (zlen (bytes "e")) with 1. assert (zlen (if X <? 0 then bytes "-" else bytes "+") = 1) by by case_match. lia.
Qed.

(** ** The stream against its specification *)

Definition wf (b : FixedBuffer) : Prop := 0 <= cur_ b < zlen (data_ b) /\ zlen (data_ b) < 2 ^ 31.

(** What an item looks like in the log, and the room it asks for. *)
Definition item_text (i : item) : list byte :=
  match i with
  | Bool v => if v then bytes "1" else bytes "0"
  | Char c => [c]
  | Short v | UShort v | Int v | UInt v | Long v | ULong v | LongLong v | ULongLong v => dec v
  | Pointer p => bytes "0x" ++ hex p
  | Double v => print_g 12 v
  | CString (Some s) | String s => s
  | CString None => bytes "(null)"
  | Piece s size => ztake size s
  | Buffer o => toString o
  | Fmt text => text
  end.

Definition numeric (i : item) : bool :=
  match i with
  | Short _ | UShort _ | Int _ | UInt _ | Long _ | ULong _ | LongLong _ | ULongLong _ | Pointer _ | Double _ => true
  | _ => false
  end.

(** The values the types allow. *)
Definition valid_item (i : item) : Prop :=
  match i with
  | Short v => - 2 ^ 15 <= v < 2 ^ 15 | UShort v => 0 <= v < 2 ^ 16
  | Int v => - 2 ^ 31 <= v < 2 ^ 31 | UInt v => 0 <= v < 2 ^ 32
  | Long v | LongLong v => - 2 ^ 63 <= v < 2 ^ 63
  | ULong v | ULongLong v | Pointer v => 0 <= v < 2 ^ 64
  | Double v => binary64 v
  | Piece s size => 0 <= size <= zlen s /\ size < 2 ^ 31
  | Buffer o => wf o
  | Fmt text => zlen text < 32
  | _ => True
  end.

(** A log line is text of at most [SIZE - 1] characters; an item is added whole
    or not at all, numbers only when 32 characters are free. *)
Definition admitted (SIZE : Z) (line : list byte) (i : item) : bool :=
  if numeric i then 32 <=? SIZE - zlen line else zlen (item_text i) <? SIZE - zlen line.
Definition spec_put (SIZE : Z) (line : list byte) (i : item) : list byte :=
  if admitted SIZE line i then line ++ item_text i else line.

(** [b'] is [b] with [text] behind its contents. *)
Definition grown (b b' : FixedBuffer) (text : list byte) : Prop :=
  wf b' /\ toString b' = toString b ++ text /\ zlen (data_ b') = zlen (data_ b).

Lemma avail_eq b : wf b -> avail b = zlen (data_ b) - cur_ b.
Proof. intros [? ?]. unfold avail. by cint. Qed.

Lemma toString_length b : wf b -> zlen (toString b) = cur_ b.
Proof. intros [? ?]. unfold toString, length_. cint. rewrite zlen_slice; lia. Qed.

(** Storing text and more at the write position. *)
Lemma stored_grown b text rest :
  wf b -> zlen text < zlen (data_ b) - cur_ b -> zlen text + zlen rest <= zlen (data_ b) - cur_ b ->
  grown b (mkFixed (stored (cur_ b) (text ++ rest) (data_ b)) (cur_ b + zlen text)) text.
Proof.
  intros [Hc Hl] Ht Hr. zlen_pos. unfold grown, wf, toString, length_. cbn [data_ cur_].
  rewrite stored_length by (rewrite ?zlen_app; lia). cint. split_and!; [lia..| |done].
  rewrite (zslice_split 0 (cur_ b)), stored_slice by lia. f_equal. apply zslice_stored_below; rewrite ?zlen_app; lia.
Qed.

Lemma fixed_append_spec buf len b :
  wf b -> 0 <= len <= zlen buf ->
  exists b', append buf len b = Ok b' /\
    if len <? zlen (data_ b) - cur_ b then grown b b' (ztake len buf) else b' = b.
Proof.
  intros Hb Hlen. pose proof Hb as [Hc Hl]. unfold append. rewrite avail_eq by done. rewrite u64_small by lia.
  assert (zlen (ztake len buf) = len) as Ht by (apply zlen_take; lia).
  rewrite Z.gtb_ltb. destruct (Z.ltb_spec len (zlen (data_ b) - cur_ b)); [|by exists b].
  rewrite zstore_stored by lia. bind_simpl. eexists. split; [done|].
  pose proof (stored_grown b (ztake len buf) [] Hb) as Hg. rewrite app_nil_r, zlen_nil, Ht in Hg. apply Hg; lia.
Qed.

(** The numeric items: their text and a terminator go to the write position. *)
Lemma number_spec b text (rest : list byte) m :
  wf b -> zlen text <= 30 -> zlen rest = 1 ->
  (32 <= zlen (data_ b) - cur_ b -> m = Ok (mkFixed (stored (cur_ b) (text ++ rest) (data_ b)) (cur_ b + zlen text))) ->
  exists b', (if avail b >=? kMaxNumericSize then m else Ok b) = Ok b' /\
    if 32 <=? zlen (data_ b) - cur_ b then grown b b' text else b' = b.
Proof.
  intros Hb Ht Hr Hm. rewrite avail_eq by done. unfold kMaxNumericSize. rewrite Z.geb_leb.
  destruct (Z.leb_spec 32 (zlen (data_ b) - cur_ b)); [|by exists b].
  rewrite Hm by done. eexists. split; [done|]. apply stored_grown; [done|lia..].
Qed.

Lemma formatInteger_spec v b :
  wf b -> Z.abs v < 10 ^ 20 ->
  exists b', formatInteger v b = Ok b' /\ if 32 <=? zlen (data_ b) - cur_ b then grown b b' (dec v) else b' = b.
Proof.
  intros Hb Hv. pose proof (dec_length v Hv). apply (number_spec b (dec v) [Byte.x00]); [done|lia|done|].
  intros Hroom. rewrite convert_spec; [done|done|apply Hb|unfold current; lia].
Qed.

Lemma formatPointer_spec v b :
  wf b -> 0 <= v < 2 ^ 64 ->
  exists b', formatPointer v b = Ok b' /\
    if 32 <=? zlen (data_ b) - cur_ b then grown b b' (bytes "0x" ++ hex v) else b' = b.
Proof.
  intros Hb Hv. pose proof Hb as [Hc _].
  destruct (decide (32 <= zlen (data_ b) - cur_ b)) as [Hroom|Hno].
  - assert (zlen (stored (cur_ b) (bytes "0x") (data_ b)) = zlen (data_ b)) as Hs
      by (apply stored_length; [lia|change (zlen (bytes "0x")) with 2; lia]).
    destruct (convertHex_spec (cur_ b + 2) v (stored (cur_ b) (bytes "0x") (data_ b))) as [E Hl]; [done|lia|lia|].
    apply (number_spec b (bytes "0x" ++ hex v) [Byte.x00]); [done| |done|].
    + rewrite zlen_app. change (zlen (bytes "0x")) with 2. lia.
    + intros _. change [Byte.x30; Byte.x78] with (bytes "0x"). unfold current.
      rewrite zstore_stored by (change (zlen (bytes "0x")) with 2; lia). bind_simpl. rewrite E. bind_simpl.
      unfold add. cbn [data_ cur_]. rewrite zlen_app. change (zlen (bytes "0x")) with 2 in *.
      f_equal. f_equal; [|lia].
      change (cur_ b + 2) with (cur_ b + zlen (bytes "0x")). rewrite stored_next; [by rewrite app_assoc|lia|].
      rewrite zlen_app. change (zlen (bytes "0x")) with 2. change (zlen [Byte.x00]) with 1. lia.
  - exists b. unfold formatPointer. rewrite avail_eq by done. unfold kMaxNumericSize.
    rewrite Z.geb_leb, (proj2 (Z.leb_gt _ _)) by lia. done.
Qed.

Lemma formatDouble_spec v b :
  wf b -> binary64 v ->
  exists b', formatDouble v b = Ok b' /\ if 32 <=? zlen (data_ b) - cur_ b then grown b b' (print_g 12 v) else b' = b.
Proof.
  intros Hb Hv. pose proof (print_g_length v Hv). pose proof Hb as [Hc _].
  apply (number_spec b (print_g 12 v) [Byte.x00]); [done|done|done|]. intros Hroom.
  unfold snprintf, kMaxNumericSize, current. rewrite ztake_all by lia.
  rewrite zstore_stored by (rewrite ?zlen_app; change (zlen [Byte.x00]) with 1; lia). done.
Qed.

(** One item. *)
Lemma put_spec i b :
  wf b -> valid_item i ->
  exists b', put i b = Ok b' /\ wf b' /\ zlen (data_ b') = zlen (data_ b) /\
    toString b' = spec_put (zlen (data_ b)) (toString b) i.
Proof.
  intros Hb Hi. unfold spec_put, admitted. rewrite toString_length by done.
  assert (forall t m (c : bool), (exists b', m = Ok b' /\ if c then grown b b' t else b' = b) ->
    exists b', m = Ok b' /\ wf b' /\ zlen (data_ b') = zlen (data_ b) /\
      toString b' = if c then toString b ++ t else toString b) as Hcase.
  { intros t m c (b' & -> & H). exists b'. destruct c; [destruct H as (? & ? & ?)|subst]; done. }
  assert (forall s, wf b -> exists b', append s (zlen s) b = Ok b' /\
    if zlen s <? zlen (data_ b) - cur_ b then grown b b' s else b' = b) as Happ.
  { intros s _. zlen_pos. pose proof (fixed_append_spec s (zlen s) b Hb ltac:(lia)) as Hap.
    by rewrite ztake_all in Hap by lia. }
  destruct i as [v|c|v|v|v|v|v|v|v|v|p|v|[s|]|s|s size|o|text]; cbn [numeric item_text put valid_item] in *;
    apply Hcase.
  - destruct v; by apply Happ.
  - by apply (Happ [c]).
  - apply formatInteger_spec; [done|lia].
  - apply formatInteger_spec; [done|lia].
  - apply formatInteger_spec; [done|lia].
  - apply formatInteger_spec; [done|lia].
  - apply formatInteger_spec; [done|lia].
  - apply formatInteger_spec; [done|lia].
  - apply formatInteger_spec; [done|lia].
  - apply formatInteger_spec; [done|lia].
  - by apply formatPointer_spec.
  - by apply formatDouble_spec.
  - by apply Happ.
  - by apply (Happ (bytes "(null)")).
  - by apply Happ.
  - destruct Hi as [Hsz Hmax]. rewrite u64_small by lia. rewrite zlen_take by lia. by apply fixed_append_spec.
  - pose proof (toString_length o Hi) as Hl. destruct Hi as [Hc Hm]. unfold length_. rewrite i32_small, u64_small by lia.
    rewrite <- Hl. by apply Happ.
  - rewrite assert_true by lia. bind_simpl. zlen_pos. rewrite i32_small, u64_small by lia. by apply Happ.
Qed.

Lemma put_all_app xs ys b : put_all (xs ++ ys) b = (b ← put_all xs b; put_all ys b).
Proof. revert b. induction xs as [|x xs IH]; intros b; [done|]. cbn. destruct (put x b); [apply IH|done]. Qed.

Lemma put_all_spec items b :
  wf b -> Forall valid_item items ->
  exists b', put_all items b = Ok b' /\ wf b' /\
    toString b' = foldl (spec_put (zlen (data_ b))) (toString b) items.
Proof.
  intros Hb Hi. revert b Hb. induction Hi as [|i items Hi _ IH]; intros b Hb; [by exists b|].
  cbn [put_all foldl]. destruct (put_spec i b Hb Hi) as (b1 & -> & Hb1 & Hl & Ht). bind_simpl.
  destruct (IH b1 Hb1) as (b' & E & Hb' & Ht'). exists b'. by rewrite Ht', Ht, Hl.
Qed.

(** With 32 characters to spare nothing is left out. *)
Lemma spec_put_fits SIZE items line :
  zlen line + zlen (concat (item_text <$> items)) + 32 <= SIZE ->
  foldl (spec_put SIZE) line items = line ++ concat (item_text <$> items).
Proof.
  revert line. induction items as [|i items IH]; intros line Hfit; cbn [foldl fmap list_fmap concat] in *; [by rewrite app_nil_r|].
  rewrite zlen_app in Hfit. zlen_pos. assert (spec_put SIZE line i = line ++ item_text i) as ->.
  { unfold spec_put, admitted. destruct (numeric i).
    - by rewrite (proj2 (Z.leb_le _ _)) by lia.
    - by rewrite (proj2 (Z.ltb_lt _ _)) by lia. }
  rewrite IH, app_assoc; [done|]. rewrite zlen_app. lia.
Qed.

(** C32: A log line never overflows its buffer: whatever is streamed into it,
    every store stays inside the array and the line is the text of the items in
    order, each taken whole or left out whole: a number (printed in decimal,
    pointers in hexadecimal, doubles with [%.12g]) when 32 characters are free,
    anything else when it leaves one character free; so nothing is left out of a
    line that leaves 32 characters. *)
Theorem logstream_refines_line items b :
  wf b -> Forall valid_item items ->
  exists b', put_all items b = Ok b' /\ wf b' /\
    toString b' = foldl (spec_put (zlen (data_ b))) (toString b) items /\
    (cur_ b + zlen (concat (item_text <$> items)) + 32 <= zlen (data_ b) ->
     toString b' = toString b ++ concat (item_text <$> items)).
Proof.
  intros Hb Hi. destruct (put_all_spec items b Hb Hi) as (b' & E & Hb' & Ht). exists b'. split_and!; [done..|].
  rewrite <- toString_length by done. intros Hfit. rewrite Ht. by apply spec_put_fits.
Qed.

(** Integers survive printing: every 64-bit integer, signed or unsigned,
    including the least one, whose negation does not fit, is written as its
    decimal digits, which read back to the value. *)
Theorem convert_reads_back off v data :
  - 2 ^ 63 <= v < 2 ^ 64 -> 0 <= off -> off + kMaxNumericSize <= zlen data ->
  exists len data', convert off v data = Ok (len, data') /\ 0 < len <= 21 /\
    let text := zslice off (off + len) data' in
    match text with
    | Byte.x2d :: ds => - dec_value ds = v
    | ds => dec_value ds = v
    end.
Proof.
  intros Hv Hoff Hlen. unfold kMaxNumericSize in Hlen. pose proof (dec_length v ltac:(lia)) as Hl.
  exists (zlen (dec v)), (stored off (dec v ++ [Byte.x00]) data). split; [apply convert_spec; lia|]. split; [done|].
  cbv zeta. rewrite stored_slice by (change (zlen [Byte.x00]) with 1; lia). unfold dec in *.
  destruct (Z.ltb_spec v 0); [rewrite dec_value_dec_nat; lia|].
  pose proof (dec_nat_digits v ltac:(lia)) as Hd. pose proof (dec_value_dec_nat v ltac:(lia)) as Hval.
  destruct (dec_nat v) as [|c l]; [done|]. apply Forall_cons in Hd as [Hc _]. by destruct c.
Qed.

(** [formatSI] can exceed the five characters it promises: the eight
    quantities just below 99950 * 10^12 convert to the double 9.995e16, whose
    quotient by 1e15 prints as 100.0. *)
Theorem formatSI_six_characters s :
  99949999999999992 <= s < 99950000000000000 -> formatSI s = bytes "100.0P".
Proof.
  intros Hs.
  assert (exists k, s = 99949999999999992 + k /\
    (k = 0 \/ k = 1 \/ k = 2 \/ k = 3 \/ k = 4 \/ k = 5 \/ k = 6 \/ k = 7)) as (k & -> & Hk)
    by (exists (s - 99949999999999992); lia).
  repeat destruct Hk as [->|Hk]; try subst k; vm_compute; reflexivity.
Qed.

(** ** Witnesses *)

Definition sample_items : list item :=
  [String (bytes "pid "); Int (- 2 ^ 31); Char Byte.x20; Pointer 48879; CString None; Double (literal 1 3)].

Lemma logstream_refines_line_witness :
  exists b', put_all sample_items (new_fixed 100) = Ok b' /\ wf b' /\
    toString b' = bytes "pid -2147483648 0xBEEF(null)0.333333333333".
Proof.
  destruct (logstream_refines_line sample_items (new_fixed 100)) as (b' & E & Hb' & Ht & _).
  - split; [split|]; vm_compute; congruence.
  - repeat constructor; vm_compute; intuition congruence.
  - exists b'. split; [exact E|]. split; [exact Hb'|]. rewrite Ht. vm_compute. reflexivity.
Defined.

Lemma convert_reads_back_witness :
  exists len data', convert 0 (- 2 ^ 63) (replicate 40 Byte.x00) = Ok (len, data') /\ 0 < len <= 21 /\
    let text := zslice 0 (0 + len) data' in
    match text with
    | Byte.x2d :: ds => - dec_value ds = - 2 ^ 63
    | ds => dec_value ds = - 2 ^ 63
    end.
Proof. apply (convert_reads_back 0 (- 2 ^ 63) (replicate 40 Byte.x00)); [lia|lia|vm_compute; congruence]. Defined.

Lemma formatSI_six_characters_witness : formatSI 99949999999999999 = bytes "100.0P".
Proof. apply (formatSI_six_characters 99949999999999999). lia. Defined.
End LogStream.
