(* ===== verification/Logging.v ===== *)
(** * Logging front end ([src/base/Logging.h], [Logging.cpp], parts of
    [CurrentThread.h], [Thread.cpp])

    A log statement makes a [Logger], streams into its [LogStream] and, at the
    end of the statement, hands the line to the output function.  The time text
    of the last second is cached per thread; level, zone and output functions are
    global.  [strerror_r] is a parameter. *)

From S2P Require Import Prelude CxxStd Decimal Date TimeZone Timestamp LogStream.

Module Logging.
Import LogStream.

Inductive LogLevel := TRACE | DEBUG | INFO | WARN | ERROR | FATAL.

Definition level_num (l : LogLevel) : Z :=
  match l with TRACE => 0 | DEBUG => 1 | INFO => 2 | WARN => 3 | ERROR => 4 | FATAL => 5 end.

Definition LogLevelName (l : LogLevel) : list byte :=
  match l with
  | TRACE => bytes "TRACE " | DEBUG => bytes "DEBUG " | INFO => bytes "INFO  "
  | WARN => bytes "WARN  " | ERROR => bytes "ERROR " | FATAL => bytes "FATAL "
  end.

(** Whether the two environment variables are set. *)
Definition initLogLevel (log_trace log_debug : bool) : LogLevel :=
  if log_trace then TRACE else if log_debug then DEBUG else INFO.

(** ** [SourceFile] *)

(** The position of the last [c]. *)
Fixpoint strrchr (c : byte) (s : list byte) : option Z :=
  match s with
  | [] => None
  | x :: s' =>
      match strrchr c s' with
      | Some i => Some (i + 1)
      | None => if Byte.eqb x c then Some 0 else None
      end
  end.

Record SourceFile := mkSource { file_data : list byte; file_size : Z }.

(** From an array of [N] characters, the last one the terminator. *)
Definition SourceFile_array (arr : list byte) : SourceFile :=
  let size := i32 (zlen arr + 1 - 1) in
  match strrchr Byte.x2f arr with
  | Some slash => mkSource (zdrop (slash + 1) arr) (size - i32 (slash + 1))%int
  | None => mkSource arr size
  end.

Definition SourceFile_name (filename : list byte) : SourceFile :=
  let data := match strrchr Byte.x2f filename with Some slash => zdrop (slash + 1) filename | None => filename end in
  mkSource data (i32 (zlen data)).

(** ** Thread-local and global state *)

Record Locals := mkLocals {
  t_time : list byte;
  t_lastSecond : Z;
  t_cachedTid : Z;
  t_tidString : list byte;
  t_tidStringLength : Z }.

Definition fresh_locals : Locals := mkLocals [] 0 0 [] 6.

(** [CurrentThread::tid()] in the thread the kernel calls [gettid]. *)
Definition cacheTid (gettid : Z) (l : Locals) : Locals :=
  if t_cachedTid l =? 0 then
    let text := decw 5 gettid ++ bytes " " in
    mkLocals (t_time l) (t_lastSecond l) gettid (snprintf 32 text) (zlen text)
  else l.
Definition tid (gettid : Z) (l : Locals) : Locals := if t_cachedTid l =? 0 then cacheTid gettid l else l.

(** What is called through the function pointers. *)
Inductive call := Output (fn : Z) (msg : list byte) (len : Z) | Flush (fn : Z).

(** [g_output] and [g_flush] by number, 0 the default. *)
Record Globals := mkGlobals {
  g_logLevel : LogLevel;
  g_output : Z;
  g_flush : Z;
  g_logTimeZone : TimeZone.TimeZone;
  locals : gmap Z Locals;
  calls : list call;
  aborted : bool }.

Definition locals_of (gettid : Z) (g : Globals) : Locals := default fresh_locals (locals g !! gettid).

(** ** [Logger::Impl] *)

Section statement.
Context (strerror_tl : Z -> list byte).

(** [stream_ << T(str, len)] *)
Definition put_T (str : list byte) (len : Z) (b : FixedBuffer) : outcome FixedBuffer :=
  assert_ (zlen str =? len);;
  append str len b.

Definition put_file (f : SourceFile) (b : FixedBuffer) : outcome FixedBuffer := append (file_data f) (u64 (file_size f)) b.

Definition local_tm (tz : TimeZone.TimeZone) (seconds : Z) : outcome TimeZone.tm :=
  if TimeZone.tz_valid tz then TimeZone.toLocalTime tz seconds else Ok (TimeZone.gmtime_r seconds).

Definition tm_text (tm_time : TimeZone.tm) : list byte :=
  decw 4 (TimeZone.tm_year tm_time + 1900)%int ++ dec0 2 (TimeZone.tm_mon tm_time + 1)%int ++ dec0 2 (TimeZone.tm_mday tm_time) ++
  bytes " " ++ dec0 2 (TimeZone.tm_hour tm_time) ++ bytes ":" ++ dec0 2 (TimeZone.tm_min tm_time) ++ bytes ":" ++
  dec0 2 (TimeZone.tm_sec tm_time).

Definition formatTime (tz : TimeZone.TimeZone) (time : Z) (l : Locals) (b : FixedBuffer) : outcome (Locals * FixedBuffer) :=
  let seconds := Z.quot time Timestamp.kMicroSecondsPerSecond in
  let microseconds := i32 (Z.rem time Timestamp.kMicroSecondsPerSecond) in
  l ← (if negb (seconds =? t_lastSecond l) then
         tm_time ← local_tm tz seconds;
         let text := tm_text tm_time in
         assert_ (zlen text =? 17);;
         Ok (mkLocals (snprintf 64 text) seconds (t_cachedTid l) (t_tidString l) (t_tidStringLength l))
       else Ok l);
  if TimeZone.tz_valid tz then
    let us := bytes "." ++ dec0 6 microseconds ++ bytes " " in
    assert_ (zlen us <? 32);;
    assert_ (zlen us =? 8);;
    b ← put_T (t_time l) 17 b;
    b ← put_T us 8 b;
    Ok (l, b)
  else
    let us := bytes "." ++ dec0 6 microseconds ++ bytes "Z " in
    assert_ (zlen us <? 32);;
    assert_ (zlen us =? 9);;
    b ← put_T (t_time l) 17 b;
    b ← put_T us 9 b;
    Ok (l, b).

(** The constructor of [Impl] in the thread [gettid], at [time]. *)
Definition Impl_new (tz : TimeZone.TimeZone) (gettid time : Z) (level : LogLevel) (savedErrno : Z) (l : Locals) :
    outcome (Locals * FixedBuffer) :=
  '(l, b) ← formatTime tz time l (new_fixed kSmallBuffer);
  let l := tid gettid l in
  b ← put_T (t_tidString l) (t_tidStringLength l) b;
  b ← put_T (LogLevelName level) 6 b;
  b ← (if negb (savedErrno =? 0) then
         put_all [CString (Some (strerror_tl savedErrno)); CString (Some (bytes " (errno=")); Int savedErrno;
                  CString (Some (bytes ") "))] b
       else Ok b);
  Ok (l, b).

Definition finish (basename : SourceFile) (line : Z) (b : FixedBuffer) : outcome FixedBuffer :=
  b ← put (CString (Some (bytes " - "))) b;
  b ← put_file basename b;
  put_all [Char Byte.x3a; Int line; Char Byte.x0a] b.

(** ** [Logger] and the macros *)

Inductive macro := LOG_TRACE | LOG_DEBUG | LOG_INFO | LOG_WARN | LOG_ERROR | LOG_FATAL | LOG_SYSERR | LOG_SYSFATAL.

(** The level a macro logs at, and whether [g_logLevel] lets it. *)
Definition macro_level (m : macro) : LogLevel :=
  match m with
  | LOG_TRACE => TRACE | LOG_DEBUG => DEBUG | LOG_INFO => INFO | LOG_WARN => WARN
  | LOG_ERROR | LOG_SYSERR => ERROR | LOG_FATAL | LOG_SYSFATAL => FATAL
  end.

Definition enabled (m : macro) (current : LogLevel) : bool :=
  match m with
  | LOG_TRACE => level_num current <=? level_num TRACE
  | LOG_DEBUG => level_num current <=? level_num DEBUG
  | LOG_INFO => level_num current <=? level_num INFO
  | _ => true
  end.

(** A statement: the thread, the time, [errno], the place and what is streamed. *)
Record statement := mkStatement {
  st_macro : macro;
  st_tid : Z;
  st_time : Z;
  st_errno : Z;
  st_file : list byte;
  st_line : Z;
  st_func : list byte;
  st_items : list item }.

(** The four constructors of [Logger] as the macros use them. *)
Definition Logger_new (tz : TimeZone.TimeZone) (s : statement) (l : Locals) : outcome (Locals * FixedBuffer) :=
  let impl level savedErrno := Impl_new tz (st_tid s) (st_time s) level savedErrno l in
  match st_macro s with
  | LOG_TRACE | LOG_DEBUG =>
      '(l, b) ← impl (macro_level (st_macro s)) 0;
      b ← put_all [CString (Some (st_func s)); Char Byte.x20] b;
      Ok (l, b)
  | LOG_INFO => impl INFO 0
  | LOG_WARN | LOG_ERROR | LOG_FATAL => impl (macro_level (st_macro s)) 0
  | LOG_SYSERR => impl ERROR (st_errno s)
  | LOG_SYSFATAL => impl FATAL (st_errno s)
  end.

(** [~Logger] *)
Definition Logger_delete (s : statement) (b : FixedBuffer) (g : Globals) : outcome Globals :=
  b ← finish (SourceFile_array (st_file s)) (st_line s) b;
  let out := Output (g_output g) (toString b) (length_ b) in
  match macro_level (st_macro s) with
  | FATAL => Ok (mkGlobals (g_logLevel g) (g_output g) (g_flush g) (g_logTimeZone g) (locals g) (calls g ++ [out; Flush (g_flush g)]) true)
  | _ => Ok (mkGlobals (g_logLevel g) (g_output g) (g_flush g) (g_logTimeZone g) (locals g) (calls g ++ [out]) (aborted g))
  end.

(** A whole log statement. *)
Definition log (s : statement) (g : Globals) : outcome Globals :=
  if enabled (st_macro s) (g_logLevel g) then
    '(l, b) ← Logger_new (g_logTimeZone g) s (locals_of (st_tid s) g);
    let g := mkGlobals (g_logLevel g) (g_output g) (g_flush g) (g_logTimeZone g) (<[st_tid s := l]> (locals g)) (calls g) (aborted g) in
    b ← put_all (st_items s) b;
    Logger_delete s b g
  else Ok g.

Definition setLogLevel (l : LogLevel) (g : Globals) : Globals :=
  mkGlobals l (g_output g) (g_flush g) (g_logTimeZone g) (locals g) (calls g) (aborted g).
Definition setOutput (fn : Z) (g : Globals) : Globals :=
  mkGlobals (g_logLevel g) fn (g_flush g) (g_logTimeZone g) (locals g) (calls g) (aborted g).
Definition setFlush (fn : Z) (g : Globals) : Globals :=
  mkGlobals (g_logLevel g) (g_output g) fn (g_logTimeZone g) (locals g) (calls g) (aborted g).
Definition setTimeZone (tz : TimeZone.TimeZone) (g : Globals) : Globals :=
  mkGlobals (g_logLevel g) (g_output g) (g_flush g) tz (locals g) (calls g) (aborted g).

Definition initial (level : LogLevel) : Globals := mkGlobals level 0 0 None ∅ [] false.

(** ** Programs *)
Inductive event :=
  | Log (s : statement) | SetLogLevel (l : LogLevel) | SetOutput (fn : Z) | SetFlush (fn : Z)
  | SetTimeZone (tz : TimeZone.TimeZone).

Definition log_step (e : event) (g : Globals) : outcome Globals :=
  match e with
  | Log s => log s g
  | SetLogLevel l => Ok (setLogLevel l g)
  | SetOutput fn => Ok (setOutput fn g)
  | SetFlush fn => Ok (setFlush fn g)
  | SetTimeZone tz => Ok (setTimeZone tz g)
  end.

(** Nothing runs after [abort()]. *)
Fixpoint log_run (es : list event) (g : Globals) : outcome Globals :=
  match es with
  | [] => Ok g
  | e :: es' => if aborted g then Ok g else g ← log_step e g; log_run es' g
  end.

(** ** The line a statement writes *)

(** The part of a path behind its last slash. *)
Definition basename (file : list byte) : list byte := file_data (SourceFile_name file).

Definition stamp (tz : TimeZone.TimeZone) (time : Z) : list byte :=
  match local_tm tz (Z.quot time Timestamp.kMicroSecondsPerSecond) with Ok tm_time => tm_text tm_time | Err _ => [] end.
Definition micros (tz : TimeZone.TimeZone) (time : Z) : list byte :=
  bytes "." ++ dec0 6 (i32 (Z.rem time Timestamp.kMicroSecondsPerSecond)) ++ (if TimeZone.tz_valid tz then bytes " " else bytes "Z ").
Definition tid_text (gettid : Z) : list byte := decw 5 gettid ++ bytes " ".

Definition errno_items (m : macro) (err : Z) : list item :=
  match m with
  | LOG_SYSERR | LOG_SYSFATAL =>
      if err =? 0 then []
      else [CString (Some (strerror_tl err)); CString (Some (bytes " (errno=")); Int err; CString (Some (bytes ") "))]
  | _ => []
  end.
Definition func_items (m : macro) (func : list byte) : list item :=
  match m with LOG_TRACE | LOG_DEBUG => [CString (Some func); Char Byte.x20] | _ => [] end.

Definition head_items (tz : TimeZone.TimeZone) (s : statement) : list item :=
  [String (stamp tz (st_time s)); String (micros tz (st_time s)); String (tid_text (st_tid s));
   String (LogLevelName (macro_level (st_macro s)))] ++
  errno_items (st_macro s) (st_errno s) ++ func_items (st_macro s) (st_func s).
Definition tail_items (s : statement) : list item :=
  [CString (Some (bytes " - ")); String (basename (st_file s)); Char Byte.x3a; Int (st_line s); Char Byte.x0a].
Definition line_items (tz : TimeZone.TimeZone) (s : statement) : list item := head_items tz s ++ st_items s ++ tail_items s.

(** The full text, and what a buffer of 4000 characters keeps of it. *)
Definition line_text (tz : TimeZone.TimeZone) (s : statement) : list byte := concat (item_text <$> line_items tz s).
Definition line_kept (tz : TimeZone.TimeZone) (s : statement) : list byte := foldl (spec_put kSmallBuffer) [] (line_items tz s).

(** What the output functions are to see. *)
Fixpoint expected (tz : TimeZone.TimeZone) (es : list event) (level : LogLevel) (out fl : Z) : list call :=
  match es with
  | [] => []
  | SetLogLevel l :: es' => expected tz es' l out fl
  | SetOutput fn :: es' => expected tz es' level fn fl
  | SetFlush fn :: es' => expected tz es' level out fn
  | SetTimeZone _ :: es' => expected tz es' level out fl
  | Log s :: es' =>
      if enabled (st_macro s) level then
        let line := line_kept tz s in
        match macro_level (st_macro s) with
        | FATAL => [Output out line (zlen line); Flush fl]
        | _ => Output out line (zlen line) :: expected tz es' level out fl
        end
      else expected tz es' level out fl
  end.

(** ** Hypotheses on a statement *)
Record statement_ok (tz : TimeZone.TimeZone) (s : statement) : Prop := {
  ok_tid : 0 < st_tid s < 2 ^ 31;
  ok_time : 0 <= st_time s;
  ok_second : Z.quot (st_time s) Timestamp.kMicroSecondsPerSecond <> 0;
  ok_stamp : exists tm_time, local_tm tz (Z.quot (st_time s) Timestamp.kMicroSecondsPerSecond) = Ok tm_time /\ zlen (tm_text tm_time) = 17;
  ok_errno : - 2 ^ 31 <= st_errno s < 2 ^ 31;
  ok_line : - 2 ^ 31 <= st_line s < 2 ^ 31;
  ok_file : zlen (st_file s) < 2 ^ 31 - 1;
  ok_items : Forall valid_item (st_items s) }.

(** The thread-local caches are those of the zone and the thread. *)
Record cached (tz : TimeZone.TimeZone) (gettid : Z) (l : Locals) : Prop := {
  c_tid : t_cachedTid l = 0 \/ (t_cachedTid l <> 0 /\ t_tidString l = tid_text gettid /\ t_tidStringLength l = zlen (tid_text gettid));
  c_time : t_lastSecond l = 0 \/
           exists tm_time, local_tm tz (t_lastSecond l) = Ok tm_time /\ t_time l = tm_text tm_time /\ zlen (tm_text tm_time) = 17 }.

Lemma strrchr_spec c s :
  match strrchr c s with
  | Some i => exists a b, s = a ++ c :: b /\ i = zlen a /\ c ∉ b
  | None => c ∉ s
  end.
Proof.
  induction s as [|x s IH]; cbn [strrchr]; [apply not_elem_of_nil|]. destruct (strrchr c s) as [i|].
  - destruct IH as (a & b & -> & -> & Hn). exists (x :: a), b. split; [done|]. split; [by rewrite zlen_cons; lia|done].
  - destruct (Byte.eqb x c) eqn:E.
    + apply byte_eqb_true in E as ->. by exists [], s.
    + apply not_elem_of_cons. split; [|done]. intros ->. by rewrite byte_eqb_refl in E.
Qed.

(** Both constructors of [SourceFile] give the part behind the last slash. *)
Lemma SourceFile_agree file :
  zlen file < 2 ^ 31 - 1 ->
  SourceFile_array file = mkSource (basename file) (zlen (basename file)) /\
  SourceFile_name file = mkSource (basename file) (zlen (basename file)) /\ zlen (basename file) <= zlen file /\
  Byte.x2f ∉ basename file /\ exists dir, file = dir ++ basename file /\ (dir = [] \/ last dir = Some Byte.x2f).
Proof.
  intros Hl. zlen_pos. unfold basename, SourceFile_array, SourceFile_name. pose proof (strrchr_spec Byte.x2f file) as Hs.
  destruct (strrchr Byte.x2f file) as [i|]; cbn [file_data].
  - destruct Hs as (a & b & -> & -> & Hn). rewrite zlen_app, zlen_cons in Hl |- *. zlen_pos.
    assert (zdrop (zlen a + 1) (a ++ Byte.x2f :: b) = b) as ->.
    { change (Byte.x2f :: b) with ([Byte.x2f] ++ b). rewrite app_assoc. apply zdrop_app_exact. by rewrite zlen_app. }
    rewrite (i32_small (_ + 1 - 1)), (i32_small (zlen a + 1)) by lia. rewrite !i32_small by lia.
    split_and!; [f_equal; lia|done|lia|done|]. exists (a ++ [Byte.x2f]). rewrite <- app_assoc. split; [done|]. right. apply last_snoc.
  - rewrite !i32_small by lia. split_and!; [f_equal; lia|done|lia|done|]. exists []. by split; [|left].
Qed.

Lemma put_T_String str b : put_T str (zlen str) b = put (String str) b.
Proof. unfold put_T. by rewrite Z.eqb_refl. Qed.

Lemma cached_fresh tz gettid : cached tz gettid fresh_locals.
Proof. split; by left. Qed.

Lemma tid_spec tz gettid l :
  cached tz gettid l -> 0 < gettid < 2 ^ 31 ->
  cached tz gettid (tid gettid l) /\ t_tidString (tid gettid l) = tid_text gettid /\
  t_tidStringLength (tid gettid l) = zlen (tid_text gettid).
Proof.
  intros [Ht Hc] Hr. unfold tid, cacheTid. destruct (Z.eqb_spec (t_cachedTid l) 0) as [E|E].
  - assert (snprintf 32 (decw 5 gettid ++ bytes " ") = tid_text gettid) as Es.
    { unfold snprintf, tid_text. apply ztake_all. unfold decw, dec. rewrite (proj2 (Z.ltb_ge _ _)) by lia.
      rewrite zlen_app, zlen_pad_left. pose proof (dec_nat_length gettid 10 ltac:(lia) ltac:(lia)).
      change (zlen (bytes " ")) with 1. lia. }
    cbv zeta. cbn [t_tidString t_tidStringLength]. rewrite Es. split; [|done]. split; [right|done].
    cbn [t_cachedTid t_tidString t_tidStringLength]. split; [lia|done].
  - destruct Ht as [?|(_ & ? & ?)]; [done|]. split; [split; [by right|done]|done].
Qed.

Lemma zlen_micros tz time : 0 <= time -> zlen (micros tz time) = if TimeZone.tz_valid tz then 8 else 9.
Proof.
  intros Ht. unfold micros, Timestamp.kMicroSecondsPerSecond. rewrite Z.rem_mod_nonneg by lia.
  pose proof (Z.mod_pos_bound time 1000000 ltac:(lia)). rewrite i32_small by lia. rewrite !zlen_app, zlen_dec0 by lia.
  by destruct (TimeZone.tz_valid tz).
Qed.

Lemma formatTime_spec tz s l b :
  statement_ok tz s -> cached tz (st_tid s) l ->
  exists l', cached tz (st_tid s) l' /\
    formatTime tz (st_time s) l b =
    (b ← put_all [String (stamp tz (st_time s)); String (micros tz (st_time s))] b; Ok (l', b)).
Proof.
  intros Hs Hl. destruct (ok_stamp _ _ Hs) as (tm_time & Etm & H17). unfold formatTime, stamp. rewrite Etm.
  pose proof (zlen_micros tz (st_time s) (ok_time _ _ Hs)) as Hm. unfold micros in *.
  set (l1 := if negb (Z.quot (st_time s) Timestamp.kMicroSecondsPerSecond =? t_lastSecond l)
             then mkLocals (tm_text tm_time) (Z.quot (st_time s) Timestamp.kMicroSecondsPerSecond) (t_cachedTid l) (t_tidString l) (t_tidStringLength l)
             else l).
  assert (cached tz (st_tid s) l1 /\ t_time l1 = tm_text tm_time) as [H1 Et].
  { destruct Hl as [Ht Hc]. unfold l1. destruct (Z.eqb_spec (Z.quot (st_time s) Timestamp.kMicroSecondsPerSecond) (t_lastSecond l)) as [E|E]; cbn.
    - rewrite <- E in Hc. destruct Hc as [Hc|(tm' & E' & Et & _)]; [by destruct (ok_second _ _ Hs)|].
      rewrite Etm in E'. injection E' as <-. split; [|done]. split; [done|]. right. rewrite <- E. by exists tm_time.
    - split; [|done]. split; [done|]. right. by exists tm_time. }
  exists l1. split; [done|].
  match goal with |- mbind _ ?m = _ => assert (m = Ok l1) as -> end.
  { unfold l1. destruct (negb _); [|done]. bind_simpl. rewrite assert_true by lia. bind_simpl. unfold snprintf. by rewrite ztake_all by lia. }
  bind_simpl. rewrite Et. cbn [put_all]. destruct (TimeZone.tz_valid tz).
  all: cbv zeta; rewrite Hm, !assert_true by done; bind_simpl; rewrite <- Hm, <- H17, put_T_String.
  all: destruct (put _ b) as [b1|]; [|done]; bind_simpl; rewrite put_T_String; by destruct (put _ b1).
Qed.

Lemma Impl_new_spec tz s level savedErrno l :
  statement_ok tz s -> cached tz (st_tid s) l ->
  exists l', cached tz (st_tid s) l' /\
    Impl_new tz (st_tid s) (st_time s) level savedErrno l =
    (b ← put_all ([String (stamp tz (st_time s)); String (micros tz (st_time s)); String (tid_text (st_tid s)); String (LogLevelName level)] ++
                  errno_items LOG_SYSERR savedErrno) (new_fixed kSmallBuffer);
     Ok (l', b)).
Proof.
  intros Hs Hl. unfold Impl_new. destruct (formatTime_spec tz s l (new_fixed kSmallBuffer) Hs Hl) as (l1 & H1 & ->).
  destruct (tid_spec tz (st_tid s) l1 H1 (ok_tid _ _ Hs)) as (H2 & Et & En). exists (tid (st_tid s) l1). split; [done|].
  change ([String ?a; String ?b; String ?c; String ?d] ++ ?e) with ([String a; String b] ++ ([String c] ++ [String d] ++ e)).
  rewrite put_all_app. destruct (put_all _ (new_fixed kSmallBuffer)) as [b|]; [|done]. bind_simpl. cbv zeta.
  rewrite Et, En, put_T_String, !put_all_app. cbn [put_all].
  destruct (put (String (tid_text _)) b) as [b1|]; [|done]. bind_simpl.
  assert (6 = zlen (LogLevelName level)) as -> by (by destruct level). rewrite put_T_String, ?put_all_app. cbn [put_all].
  destruct (put (String (LogLevelName level)) b1) as [b2|]; [|done]. bind_simpl. cbn [errno_items].
  by destruct (savedErrno =? 0).
Qed.

Lemma Logger_new_spec tz s l :
  statement_ok tz s -> cached tz (st_tid s) l ->
  exists l', cached tz (st_tid s) l' /\
    Logger_new tz s l = (b ← put_all (head_items tz s) (new_fixed kSmallBuffer); Ok (l', b)).
Proof.
  intros Hs Hl. pose proof (fun level e => Impl_new_spec tz s level e l Hs Hl) as Hi. unfold Logger_new, head_items.
  destruct (st_macro s) eqn:Em; cbn [macro_level errno_items func_items].
  1,2: destruct (Hi (macro_level (st_macro s)) 0) as (l' & Hc & E); rewrite Em in E; cbn [macro_level] in E; rewrite E;
    exists l'; split; [done|]; cbn [errno_items Z.eqb]; rewrite !app_nil_r, app_nil_l, put_all_app;
    destruct (put_all _ (new_fixed kSmallBuffer)) as [b|]; [|done]; bind_simpl; by destruct (put_all _ b).
  all: rewrite ?app_nil_r;
    match goal with |- exists l', _ /\ Impl_new _ _ _ ?level ?e _ = _ => destruct (Hi level e) as (l' & Hc & E) end;
    exists l'; split; [done|]; rewrite E; cbn [errno_items Z.eqb]; by rewrite ?app_nil_r.
Qed.

Lemma finish_spec s b :
  zlen (st_file s) < 2 ^ 31 - 1 ->
  finish (SourceFile_array (st_file s)) (st_line s) b = put_all (tail_items s) b.
Proof.
  intros Hf. destruct (SourceFile_agree (st_file s) Hf) as (-> & _ & Hl & _). zlen_pos. unfold finish, tail_items, put_file.
  cbn [file_data file_size put_all]. destruct (put (CString _) b) as [b1|]; [|done]. bind_simpl. rewrite u64_small by lia. done.
Qed.

Lemma line_items_valid tz s : statement_ok tz s -> Forall valid_item (line_items tz s).
Proof.
  intros [Ht _ _ _ He Hl _ Hi]. unfold line_items, head_items, tail_items. repeat apply Forall_app_2; [repeat constructor| | |done|].
  - unfold errno_items. destruct (st_macro s); try done; (destruct (st_errno s =? 0); [done|]); repeat constructor; cbn; lia.
  - by destruct (st_macro s); repeat constructor.
  - repeat constructor; cbn; lia.
Qed.

(** A statement that is not filtered out hands its line to the output function. *)
Lemma log_spec s g :
  statement_ok (g_logTimeZone g) s -> (forall t l, locals g !! t = Some l -> cached (g_logTimeZone g) t l) ->
  enabled (st_macro s) (g_logLevel g) = true ->
  exists g', log s g = Ok g' /\ g_logLevel g' = g_logLevel g /\ g_output g' = g_output g /\ g_flush g' = g_flush g /\
    g_logTimeZone g' = g_logTimeZone g /\ (forall t l, locals g' !! t = Some l -> cached (g_logTimeZone g) t l) /\
    let line := line_kept (g_logTimeZone g) s in
    match macro_level (st_macro s) with
    | FATAL => aborted g' = true /\ calls g' = calls g ++ [Output (g_output g) line (zlen line); Flush (g_flush g)]
    | _ => aborted g' = aborted g /\ calls g' = calls g ++ [Output (g_output g) line (zlen line)]
    end.
Proof.
  intros Hs Hl He. unfold log. rewrite He. set (tz := g_logTimeZone g) in *.
  assert (cached tz (st_tid s) (locals_of (st_tid s) g)) as Hc.
  { unfold locals_of. destruct (locals g !! st_tid s) as [l|] eqn:E; [by apply Hl|apply cached_fresh]. }
  destruct (Logger_new_spec tz s _ Hs Hc) as (l' & Hl' & ->).
  assert (wf (new_fixed kSmallBuffer)) as Hwf by (split; [split|]; vm_compute; congruence).
  destruct (put_all_spec (line_items tz s) _ Hwf (line_items_valid tz s Hs)) as (b & E & Hb & Ht).
  change (toString (new_fixed kSmallBuffer)) with (@nil byte) in Ht. change (zlen (data_ (new_fixed kSmallBuffer))) with kSmallBuffer in Ht.
  unfold line_items in E. rewrite !put_all_app in E. apply bind_Ok in E as (b1 & -> & E). rewrite put_all_app in E.
  apply bind_Ok in E as (b2 & E2 & E). bind_simpl. rewrite E2. bind_simpl. unfold Logger_delete. rewrite finish_spec by apply Hs. rewrite E. bind_simpl.
  assert (length_ b = zlen (toString b)) as -> by (rewrite toString_length by done; destruct Hb; unfold length_; apply i32_small; lia).
  assert (toString b = line_kept tz s) as -> by exact Ht.
  destruct (macro_level (st_macro s)); (eexists; split; [done|]); cbn; split_and!; try done;
    intros t l; (destruct (decide (t = st_tid s)) as [->|]; [rewrite lookup_insert_eq; by intros [= <-]|rewrite lookup_insert_ne by done; apply Hl]).
Qed.

Definition keeps_zone (tz : TimeZone.TimeZone) (e : event) : Prop :=
  match e with Log s => statement_ok tz s | SetTimeZone _ => False | _ => True end.

Lemma log_run_spec tz es g :
  g_logTimeZone g = tz -> (forall t l, locals g !! t = Some l -> cached tz t l) -> aborted g = false ->
  Forall (keeps_zone tz) es ->
  exists g', log_run es g = Ok g' /\ calls g' = calls g ++ expected tz es (g_logLevel g) (g_output g) (g_flush g).
Proof.
  intros Hz Hl Ha Hes. revert g Hz Hl Ha. induction Hes as [|e es He Hes IH]; intros g Hz Hl Ha.
  { exists g. cbn [log_run expected]. by rewrite app_nil_r. }
  cbn [log_run expected]. rewrite Ha. destruct e as [s|lv|fn|fn|z]; cbn [log_step keeps_zone] in *; bind_simpl; [|by apply IH..|done].
  destruct (enabled (st_macro s) (g_logLevel g)) eqn:En.
  2:{ unfold log. rewrite En. bind_simpl. by apply IH. }
  subst tz. destruct (log_spec s g He Hl En) as (g1 & -> & Elv & Eo & Ef & Ez & Hl1 & Hc). bind_simpl.
  destruct (macro_level (st_macro s)); destruct Hc as [Ha1 Hc].
  6:{ exists g1. split; [destruct es; cbn [log_run]; [done|by rewrite Ha1]|done]. }
  all: destruct (IH g1 Ez Hl1 ltac:(congruence)) as (g' & -> & Hc'); exists g'; split; [done|];
    rewrite Hc', Hc, Elv, Eo, Ef, <- app_assoc; done.
Qed.

(** C38: Logging, for any sequence of log statements of any threads and changes
    of level and output functions, in a zone that can tell the times (any
    second of the epoch but the zeroth, years of four digits): no assertion
    fails; the statements the level admits hand the output function, one by one
    and in order, their own line, with the time of that statement though it
    comes from a per-thread cache; nothing is logged after a fatal statement,
    which flushes first.  The line is, as long as it leaves 32 characters of the
    4000, the time, the thread, the level, the error text, the function and the
    streamed items, and the base name of the file with the line number. *)
Theorem logging_correct tz level es :
  Forall (keeps_zone tz) es ->
  (exists g, log_run es (setTimeZone tz (initial level)) = Ok g /\ calls g = expected tz es level 0 0) /\
  forall s, zlen (line_text tz s) + 32 <= kSmallBuffer -> line_kept tz s = line_text tz s.
Proof.
  intros Hes. split.
  - destruct (log_run_spec tz es (setTimeZone tz (initial level))) as (g & E & Hc); [done| |done|done|by exists g].
    intros t l Hl. cbn in Hl. by apply lookup_empty_Some in Hl.
  - intros s Hs. apply (spec_put_fits kSmallBuffer (line_items tz s) []). unfold line_text in Hs. rewrite zlen_nil. lia.
Qed.
End statement.

(** ** Times of four-digit years are fine in UTC *)
Lemma utc_stamp seconds :
  0 <= seconds < 253402300800 ->
  exists tm_time, local_tm None seconds = Ok tm_time /\ zlen (tm_text tm_time) = 17.
Proof.
  intros Hs. eexists. split; [done|]. unfold tm_text, TimeZone.gmtime_r.
  destruct (TimeZone.utc_split seconds) as (r & Hr & Et & ->).
  { unfold TimeZone.utc_range, TimeZone.day_of, Date.jdn_range, TimeZone.kSecondsPerDay. rewrite Date.kJulianDayOf1970_01_01_eq.
    pose proof (Z.div_lt_upper_bound seconds 86400 2932897). pose proof (Z.div_pos seconds 86400). lia. }
  unfold TimeZone.fillHMS, TimeZone.day_of, TimeZone.kSecondsPerDay in *. rewrite Date.kJulianDayOf1970_01_01_eq.
  set (ymd := Date.getYearMonthDay _).
  assert (0 <= seconds / 86400 < 2932897) as Hd by (split; [apply Z.div_pos|apply Z.div_lt_upper_bound]; lia).
  pose proof (Date.getYearMonthDay_four_digits (seconds / 86400 + 2440588) ltac:(lia)) as Hy.
  destruct (Date.getYearMonthDay_valid (seconds / 86400 + 2440588) ltac:(lia)) as [Hm Hday]. fold ymd in Hy, Hm, Hday.
  pose proof (Date.days_in_month_le (Date.year ymd) (Date.month ymd)).
  assert (0 <= r mod 60 < 60) by (apply Z.mod_pos_bound; lia). assert (0 <= r / 60 mod 60 < 60) by (apply Z.mod_pos_bound; lia).
  assert (0 <= r / 60 / 60 < 24) by (rewrite Z.div_div by lia; split; [apply Z.div_pos|apply Z.div_lt_upper_bound]; lia).
  cbn [TimeZone.tm_year TimeZone.tm_mon TimeZone.tm_mday TimeZone.tm_hour TimeZone.tm_min TimeZone.tm_sec].
  rewrite (i32_small (Date.year ymd - 1900)), (i32_small (Date.month ymd - 1)), !i32_small by lia.
  rewrite !zlen_app, !zlen_dec0 by lia. unfold decw, dec. rewrite (proj2 (Z.ltb_ge _ _)) by lia. rewrite zlen_pad_left.
  pose proof (dec_nat_length (Date.year ymd - 1900 + 1900) 4 ltac:(lia) ltac:(lia)).
  change (zlen (bytes " ")) with 1. change (zlen (bytes ":")) with 1. lia.
Qed.

(** ** Witness: two threads; the second and third line are of the same second *)
Definition sample_strerror (e : Z) : list byte := bytes "No such file or directory".
Definition sample_events : list event :=
  [Log (mkStatement LOG_DEBUG 41 1000000000000000 0 (bytes "a/b/c.cc") 7 (bytes "f") []);
   Log (mkStatement LOG_INFO 41 1000000000000001 0 (bytes "a/b/c.cc") 8 (bytes "f") [CString (Some (bytes "x=")); Int (-5)]);
   Log (mkStatement LOG_SYSERR 123456 1000000000999999 2 (bytes "d.cc") 9 (bytes "g") [Double (literal 1 2)]);
   SetLogLevel DEBUG; SetOutput 3;
   Log (mkStatement LOG_DEBUG 41 1000000001000000 0 (bytes "a/b/c.cc") 10 (bytes "f") []);
   Log (mkStatement LOG_FATAL 41 1000000001000000 0 (bytes "a/b/c.cc") 11 (bytes "f") [Char Byte.x21]);
   Log (mkStatement LOG_WARN 41 1000000001000000 0 (bytes "a/b/c.cc") 12 (bytes "f") [])].

Definition out_text (c : call) : list byte := match c with Output _ msg _ => msg | Flush _ => bytes "<flush>" end.

Lemma logging_correct_witness :
  exists g, log_run sample_strerror sample_events (setTimeZone None (initial INFO)) = Ok g /\
    out_text <$> calls g =
    [bytes "20010909 01:46:40.000001Z    41 INFO  x=-5 - c.cc:8" ++ [Byte.x0a];
     bytes "20010909 01:46:40.999999Z 123456 ERROR No such file or directory (errno=2) 0.5 - d.cc:9" ++ [Byte.x0a];
     bytes "20010909 01:46:41.000000Z    41 DEBUG f  - c.cc:10" ++ [Byte.x0a];
     bytes "20010909 01:46:41.000000Z    41 FATAL ! - c.cc:11" ++ [Byte.x0a]; bytes "<flush>"].
Proof.
  destruct (logging_correct sample_strerror None INFO sample_events) as [(g & E & Hc) _].
  - assert (forall m t time e f l fn its, 0 < t < 2 ^ 31 -> 0 <= time -> Z.quot time Timestamp.kMicroSecondsPerSecond <> 0 ->
      0 <= Z.quot time Timestamp.kMicroSecondsPerSecond < 253402300800 -> - 2 ^ 31 <= e < 2 ^ 31 -> - 2 ^ 31 <= l < 2 ^ 31 ->
      zlen f < 2 ^ 31 - 1 -> Forall valid_item its -> statement_ok None (mkStatement m t time e f l fn its)) as Hok.
    { intros m t time e f l fn its H1 H2 H3 H4 H5 H6 H7 H8. split; cbn; try done. by apply utc_stamp. }
    repeat (constructor; [first [exact I|apply Hok; [lia|lia|vm_compute; discriminate|vm_compute; intuition congruence|lia|lia|vm_compute; congruence|
      repeat constructor; vm_compute; intuition congruence]]|]). constructor.
  - exists g. split; [exact E|]. rewrite Hc. vm_compute. reflexivity.
Defined.

(** [setTimeZone] does not clear the cached time: in the second of the last line
    a thread goes on printing the time of the old zone, now without the [Z]. *)
Theorem zone_change_keeps_old_time :
  exists g, log_run sample_strerror
    [Log (mkStatement LOG_INFO 41 1000000000000000 0 (bytes "c.cc") 1 (bytes "f") []);
     SetTimeZone (TimeZone.tz_fixed 28800 (bytes "CST"));
     Log (mkStatement LOG_INFO 41 1000000000000001 0 (bytes "c.cc") 2 (bytes "f") []);
     Log (mkStatement LOG_INFO 41 1000000001000000 0 (bytes "c.cc") 3 (bytes "f") [])] (initial INFO) = Ok g /\
  out_text <$> calls g =
    [bytes "20010909 01:46:40.000000Z    41 INFO   - c.cc:1" ++ [Byte.x0a];
     bytes "20010909 01:46:40.000001    41 INFO   - c.cc:2" ++ [Byte.x0a];
     bytes "20010909 09:46:41.000000    41 INFO   - c.cc:3" ++ [Byte.x0a]].
Proof. eexists. split; [vm_compute; reflexivity|vm_compute; reflexivity]. Qed.
End Logging.
