(* ===== verification/LogFile.v ===== *)
(** * Log files ([src/base/LogFile.h], [LogFile.cpp], [FileUtil.h], [FileUtil.cpp])

    [AppendFile] writes through stdio; what [fwrite_unlocked] takes is a
    parameter.  [LogFile] starts a new file when the current one is large or a
    new day has begun; the times [time(NULL)] returns are arguments. *)

From S2P Require Import Prelude Decimal TimeZone.

Module LogFile.

(** ** [FileUtil::AppendFile] *)

(** [content]: what was handed to stdio; [flushed]: how much of it [fflush] has
    pushed out; [writes]: calls of [fwrite_unlocked]. *)
Record AppendFile := mkFile { content : list byte; flushed : Z; writtenBytes_ : Z; writes : Z }.

(** The constructor: [fopen] must succeed. *)
Definition new_file (opens : bool) : outcome AppendFile := assert_ opens;; Ok (mkFile [] 0 0 0).
Definition file_flush (f : AppendFile) : AppendFile := mkFile (content f) (zlen (content f)) (writtenBytes_ f) (writes f).

Section append_file.
Context (fwrite : Z -> Z -> Z).

(** [write(logline, len)] *)
Definition file_write (s : list byte) (f : AppendFile) : Z * AppendFile :=
  let x := fwrite (writes f) (zlen s) in
  (x, mkFile (content f ++ ztake x s) (flushed f) (writtenBytes_ f) (writes f + 1)).

(** The loop of [append]; every round but the last writes something, so a round
    per byte is enough. *)
Fixpoint append_loop (fuel : nat) (logline : list byte) (n remain : Z) (f : AppendFile) : option AppendFile :=
  match fuel with
  | O => None
  | S fuel' =>
      if 0 <? remain then
        let '(x, f) := file_write (zdrop n logline) f in
        if x =? 0 then Some f
        else append_loop fuel' logline (n + x) (u64 (zlen logline - (n + x))) f
      else Some f
  end.

Definition file_append (logline : list byte) (f : AppendFile) : outcome AppendFile :=
  let len := zlen logline in
  let '(n, f) := file_write logline f in
  match append_loop (S (length logline)) logline n (u64 (len - n)) f with
  | Some f => Ok (mkFile (content f) (flushed f) (writtenBytes_ f + len) (writes f))
  | None => Err Fatal
  end.

(** [fwrite] writes no more than it is given. *)
Definition fwrite_ok : Prop := forall i len, 0 <= len -> 0 <= fwrite i len <= len.

Lemma append_loop_spec (Hw : fwrite_ok) (fuel : nat) (logline : list byte) (n : Z) (f : AppendFile) :
  zlen logline < 2 ^ 63 -> 0 <= n <= zlen logline -> zlen logline - n < Z.of_nat fuel ->
  exists k f', append_loop fuel logline n (u64 (zlen logline - n)) f = Some f' /\ n <= k <= zlen logline /\
    content f' = content f ++ zslice n k logline /\ writtenBytes_ f' = writtenBytes_ f /\ flushed f' = flushed f /\
    ((forall i len, 0 < len -> 0 < fwrite i len) -> k = zlen logline).
Proof.
  intros Hlen. revert n f. induction fuel as [|fuel IH]; intros n f Hn Hf; [lia|]. cbn [append_loop]. rewrite u64_small by lia.
  destruct (Z.ltb_spec 0 (zlen logline - n)) as [Hr|Hr].
  - unfold file_write. rewrite zlen_drop by lia. pose proof (Hw (writes f) (zlen logline - n) ltac:(lia)) as Hx.
    set (x := fwrite (writes f) (zlen logline - n)) in *. destruct (Z.eqb_spec x 0) as [E|Hne].
    + exists n. eexists. split; [done|]. cbn. rewrite E, ztake_0, zslice_empty. split_and!; [lia|lia|done|done|done|].
      intros Hpos. specialize (Hpos (writes f) (zlen logline - n) Hr). unfold x in E. lia.
    + destruct (IH (n + x) (mkFile (content f ++ ztake x (zdrop n logline)) (flushed f) (writtenBytes_ f) (writes f + 1)))
        as (k & f' & E & Hk & Hc & Hb & Hfl & Hall); [lia|lia|].
      exists k, f'. split; [exact E|]. split; [lia|]. split; [|by split_and!].
      rewrite Hc. cbn. rewrite <- app_assoc. f_equal. rewrite (zslice_split n (n + x) k) by lia. f_equal.
      unfold zslice. f_equal. lia.
  - exists n, f. split; [done|]. assert (n = zlen logline) as -> by lia. rewrite zslice_empty, app_nil_r. split_and!; done || lia.
Qed.

(** [append] writes a prefix of the line, and all of it when the file takes it. *)
Lemma file_append_spec (Hw : fwrite_ok) (logline : list byte) (f : AppendFile) :
  zlen logline < 2 ^ 63 ->
  exists k f', file_append logline f = Ok f' /\ 0 <= k <= zlen logline /\
    content f' = content f ++ ztake k logline /\ writtenBytes_ f' = writtenBytes_ f + zlen logline /\
    ((forall i len, 0 < len -> 0 < fwrite i len) -> k = zlen logline).
Proof.
  intros Hl. zlen_pos. unfold file_append, file_write. pose proof (Hw (writes f) (zlen logline) ltac:(lia)) as Hx.
  set (x := fwrite (writes f) (zlen logline)) in *.
  destruct (append_loop_spec Hw (S (length logline)) logline x
    (mkFile (content f ++ ztake x logline) (flushed f) (writtenBytes_ f) (writes f + 1))) as (k & f' & E & Hk & Hc & Hb & _ & Hall);
    [lia|lia|unfold zlen; lia|].
  rewrite E. exists k. eexists. split; [done|]. cbn. split; [lia|]. split; [|by rewrite Hb].
  rewrite Hc. cbn. rewrite <- app_assoc. f_equal.
  unfold zslice. replace (k) with (x + (k - x)) at 2 by lia. by rewrite ztake_zdrop_succ by lia.
Qed.
End append_file.

(** ** [LogFile] *)

Definition kRollPerSeconds_ : Z := (60 * 60 * 24)%int.

Record LogFile := mkLog {
  basename_ : list byte;
  rollSize_ : Z;
  flushInterval_ : Z;
  checkEveryN_ : Z;
  count_ : Z;
  startOfPeriod_ : Z;
  lastRoll_ : Z;
  lastFlush_ : Z;
  file_ : option AppendFile;
  (** the files that were closed, and the names and times of all files *)
  closed : list AppendFile;
  file_names : list (Z * list byte) }.

Section log_file.
Context (fwrite : Z -> Z -> Z) (fopen : list byte -> bool) (hostname : list byte) (pid : Z).

(** [strftime(timebuf, 32, ".%Y%m%d-%H%M%S.", &tm)] *)
Definition time_text (now : Z) : list byte :=
  let tm := TimeZone.gmtime_r now in
  bytes "." ++ dec (TimeZone.tm_year tm + 1900)%int ++ dec0 2 (TimeZone.tm_mon tm + 1)%int ++ dec0 2 (TimeZone.tm_mday tm) ++
  bytes "-" ++ dec0 2 (TimeZone.tm_hour tm) ++ dec0 2 (TimeZone.tm_min tm) ++ dec0 2 (TimeZone.tm_sec tm) ++ bytes ".".

Definition getLogFileName (basename : list byte) (now : Z) : list byte :=
  basename ++ time_text now ++ hostname ++ snprintf 32 (bytes "." ++ dec pid) ++ bytes ".log".

Definition rollFile (now : Z) (s : LogFile) : outcome (bool * LogFile) :=
  let filename := getLogFileName (basename_ s) now in
  let start := i64 (i64 (Z.quot now kRollPerSeconds_) * kRollPerSeconds_) in
  if now >? lastRoll_ s then
    f ← new_file (fopen filename);
    Ok (true, mkLog (basename_ s) (rollSize_ s) (flushInterval_ s) (checkEveryN_ s) (count_ s) start now now (Some f)
                (closed s ++ option_list (file_ s)) (file_names s ++ [(now, filename)]))
  else Ok (false, s).

(** [LogFile::LogFile]; the name must not have a directory. *)
Definition new_log (basename : list byte) (rollSize flushInterval checkEveryN now : Z) : outcome LogFile :=
  assert_ (negb (bool_decide (Byte.x2f ∈ basename)));;
  '(_, s) ← rollFile now (mkLog basename rollSize flushInterval checkEveryN 0 0 0 0 None [] []);
  Ok s.

Definition set_file (f : AppendFile) (s : LogFile) : LogFile :=
  mkLog (basename_ s) (rollSize_ s) (flushInterval_ s) (checkEveryN_ s) (count_ s) (startOfPeriod_ s) (lastRoll_ s) (lastFlush_ s)
    (Some f) (closed s) (file_names s).
Definition set_count (n : Z) (s : LogFile) : LogFile :=
  mkLog (basename_ s) (rollSize_ s) (flushInterval_ s) (checkEveryN_ s) n (startOfPeriod_ s) (lastRoll_ s) (lastFlush_ s)
    (file_ s) (closed s) (file_names s).
Definition set_lastFlush (t : Z) (s : LogFile) : LogFile :=
  mkLog (basename_ s) (rollSize_ s) (flushInterval_ s) (checkEveryN_ s) (count_ s) (startOfPeriod_ s) (lastRoll_ s) t
    (file_ s) (closed s) (file_names s).

Definition flush (s : LogFile) : outcome LogFile :=
  match file_ s with Some f => Ok (set_file (file_flush f) s) | None => Err OutOfBounds end.

(** [append_unlocked]; [now] is the time at the check, [roll_now] in [rollFile]. *)
Definition append_unlocked (logline : list byte) (now roll_now : Z) (s : LogFile) : outcome LogFile :=
  match file_ s with
  | None => Err OutOfBounds
  | Some f =>
      f ← file_append fwrite logline f;
      let s := set_file f s in
      if writtenBytes_ f >? rollSize_ s then '(_, s) ← rollFile roll_now s; Ok s
      else
        let s := set_count (count_ s + 1)%int s in
        if count_ s >=? checkEveryN_ s then
          let s := set_count 0 s in
          let thisPeriod_ := i64 (i64 (Z.quot now kRollPerSeconds_) * kRollPerSeconds_) in
          if negb (thisPeriod_ =? startOfPeriod_ s) then '(_, s) ← rollFile roll_now s; Ok s
          else if i64 (now - lastFlush_ s) >? flushInterval_ s then flush (set_lastFlush now s)
          else Ok s
        else Ok s
  end.

(** A line and the two times. *)
Fixpoint log_run (es : list (list byte * Z * Z)) (s : LogFile) : outcome LogFile :=
  match es with
  | [] => Ok s
  | (l, now, roll_now) :: es' => s ← append_unlocked l now roll_now s; log_run es' s
  end.

(** ** What is in the files *)

Definition files (s : LogFile) : list AppendFile := closed s ++ option_list (file_ s).

(** The files hold the groups [gs] of pieces, the last one the open file. *)
Record inv (gs : list (list (list byte))) (s : LogFile) : Prop := {
  f_open : is_Some (file_ s);
  f_times : Forall (fun x => x.1 <= lastRoll_ s) (file_names s);
  f_sorted : StronglySorted (fun x y => x.1 < y.1) (file_names s);
  f_count : length (file_names s) = length (files s);
  f_names : Forall (fun x => x.2 = getLogFileName (basename_ s) x.1) (file_names s);
  f_content : content <$> files s = concat (A:=byte) <$> gs }.

Context (fopen_ok : forall name, fopen name = true).

Lemma rollFile_inv now gs s :
  inv gs s ->
  exists s', rollFile now s = Ok (now >? lastRoll_ s, s') /\
    inv (if now >? lastRoll_ s then gs ++ [[]] else gs) s' /\
    basename_ s' = basename_ s /\ rollSize_ s' = rollSize_ s /\
    (lastRoll_ s < now -> exists f, file_ s' = Some f /\ writtenBytes_ f = 0).
Proof.
  intros Hi. unfold rollFile. rewrite Z.gtb_ltb, fopen_ok. destruct (Z.ltb_spec (lastRoll_ s) now) as [Hlt|].
  2:{ exists s. split_and!; done || lia. }
  destruct Hi as [[f Hf] Ht Hs Hc Hn Hg]. eexists. split; [done|]. split_and!; [|done|done|by eexists].
  split; cbn; [done| | | | |].
  - apply Forall_app. split; [|by apply Forall_singleton]. eapply Forall_impl; [exact Ht|]. cbn. lia.
  - clear -Ht Hs Hlt. induction Hs as [|x l Hs IH Hx]; [by repeat constructor|]. apply Forall_cons in Ht as [Hx' Ht].
    cbn. constructor; [by apply IH|]. apply Forall_app. split; [done|]. apply Forall_singleton. cbn. lia.
  - unfold files in *. rewrite !length_app. cbn. rewrite Hc, length_app. lia.
  - apply Forall_app. split; [done|by apply Forall_singleton].
  - unfold files in *. cbn. by rewrite !fmap_app, <- Hg, fmap_app.
Qed.

Lemma set_file_inv f f' k gs g s :
  inv (gs ++ [g]) s -> file_ s = Some f -> content f' = content f ++ k -> inv (gs ++ [g ++ [k]]) (set_file f' s).
Proof.
  intros [Hf Ht Hs Hc Hn Hg] E Ek. split; try done; unfold files in *; cbn; rewrite E in *.
  - by rewrite Hc, !length_app.
  - rewrite !fmap_app in *. cbn in Hg |- *. apply app_inj_tail in Hg as [Hg1 Hg2]. rewrite concat_app. cbn.
    by rewrite Hg1, <- Hg2, Ek, app_nil_r.
Qed.

Lemma set_file_same f f' gs s :
  inv gs s -> file_ s = Some f -> content f' = content f -> inv gs (set_file f' s).
Proof.
  intros [Hf Ht Hs Hc Hn Hg] E Ek. split; try done; unfold files in *; cbn; rewrite E in *.
  - by rewrite Hc, !length_app.
  - rewrite fmap_app in *. cbn in Hg |- *. by rewrite Ek.
Qed.

Lemma set_count_inv n gs s : inv gs s -> inv gs (set_count n s).
Proof. intros [Hf Ht Hs Hc Hn Hg]. by split. Qed.
Lemma set_lastFlush_inv n gs s : inv gs s -> inv gs (set_lastFlush n s).
Proof. intros [Hf Ht Hs Hc Hn Hg]. by split. Qed.

(** The piece of a line goes to the end of the last group; a fresh group may be
    opened behind it. *)
Definition placed (gs : list (list (list byte))) (g : list (list byte)) (k : list byte) (gs' : list (list (list byte))) : Prop :=
  gs' = gs ++ [g ++ [k]] \/ gs' = gs ++ [g ++ [k]] ++ [[]].

(** What [append_unlocked] promises of its result: the first [n] bytes of the
    line were written, all of it when writing makes progress, and the open file
    is not over the limit unless the last one was opened this second. *)
Definition appended (gs : list (list (list byte))) (g : list (list byte)) (l : list byte) (roll_now : Z) (s : LogFile)
    (r : outcome LogFile) : Prop :=
  exists n s' gs', r = Ok s' /\ inv gs' s' /\ placed gs g (ztake n l) gs' /\ 0 <= n <= zlen l /\
    rollSize_ s' = rollSize_ s /\ basename_ s' = basename_ s /\
    (lastRoll_ s < roll_now -> exists f, file_ s' = Some f /\ writtenBytes_ f <= rollSize_ s) /\
    ((forall i len, 0 < len -> 0 < fwrite i len) -> n = zlen l).

Lemma append_unlocked_inv (Hw : fwrite_ok fwrite) l now roll_now gs g s :
  inv (gs ++ [g]) s -> zlen l < 2 ^ 63 -> 0 <= rollSize_ s ->
  appended gs g l roll_now s (append_unlocked l now roll_now s).
Proof.
  intros Hi Hl Hsz. unfold append_unlocked. destruct (f_open _ _ Hi) as [f Hf]. rewrite Hf.
  destruct (file_append_spec fwrite Hw l f Hl) as (n & f' & -> & Hn & Hc & _ & Hall). bind_simpl.
  pose proof (set_file_inv f f' _ gs g s Hi Hf Hc) as Hi1.
  assert (forall s1, inv (gs ++ [g ++ [ztake n l]]) s1 -> basename_ s1 = basename_ s -> rollSize_ s1 = rollSize_ s ->
    lastRoll_ s1 = lastRoll_ s -> appended gs g l roll_now s ('(_, s') ← rollFile roll_now s1; Ok s')) as Hroll.
  { intros s1 H1 Hb Hr Hlr. destruct (rollFile_inv roll_now _ s1 H1) as (s2 & -> & H2 & Hb2 & Hr2 & Hf2). bind_simpl.
    exists n, s2. eexists. split; [done|]. split; [exact H2|]. rewrite Hb2, Hr2. split_and!; try done || lia.
    - unfold placed. rewrite <- !app_assoc. case_match; [by right|by left].
    - intros Hlt. destruct Hf2 as (f2 & ? & ?); [lia|]. exists f2. split; [done|lia]. }
  assert (forall s1 f1, inv (gs ++ [g ++ [ztake n l]]) s1 -> basename_ s1 = basename_ s -> rollSize_ s1 = rollSize_ s ->
    file_ s1 = Some f1 -> writtenBytes_ f1 <= rollSize_ s -> appended gs g l roll_now s (Ok s1)) as Hdone.
  { intros s1 f1 H1 Hb Hr Hf1 Hw1. exists n, s1. eexists. split; [done|]. split; [exact H1|]. split_and!; try done || lia; [by left|].
    intros _. by exists f1. }
  rewrite Z.gtb_ltb. destruct (Z.ltb_spec (rollSize_ (set_file f' s)) (writtenBytes_ f')) as [|Hle]; [by apply Hroll|]. cbn in Hle.
  destruct (_ >=? _); [|by eapply Hdone; [apply set_count_inv| | | |]].
  destruct (negb _); [by apply Hroll; [apply set_count_inv, set_count_inv| | |]|].
  destruct (_ >? _); [|by eapply Hdone; [apply set_count_inv, set_count_inv| | | |]].
  eapply Hdone; [|done|done|done|done].
  by eapply (set_file_same f'); [apply set_lastFlush_inv, set_count_inv, set_count_inv| |].
Qed.

Lemma placed_last gs g k gs' : placed gs g k gs' -> exists gs1 g1, gs' = gs1 ++ [g1] /\ concat gs' = concat gs ++ g ++ [k].
Proof.
  intros [-> | ->]; [exists gs, (g ++ [k])|exists (gs ++ [g ++ [k]]), []];
    rewrite <- ?app_assoc, !concat_app; cbn; by rewrite ?app_nil_r.
Qed.

Context (Hw : fwrite_ok fwrite) (progress : forall i len, 0 < len -> 0 < fwrite i len).

Lemma log_run_inv es gs g s :
  inv (gs ++ [g]) s -> 0 <= rollSize_ s -> Forall (fun e => zlen e.1.1 < 2 ^ 31) es ->
  exists s' gs' g', log_run es s = Ok s' /\ inv (gs' ++ [g']) s' /\ rollSize_ s' = rollSize_ s /\ basename_ s' = basename_ s /\
    concat (gs' ++ [g']) = concat (gs ++ [g]) ++ (fst ∘ fst <$> es).
Proof.
  revert gs g s. induction es as [|[[l now] roll_now] es IH]; intros gs g s Hi Hsz Hes.
  { exists s, gs, g. cbn [log_run fmap list_fmap]. by rewrite app_nil_r. }
  apply Forall_cons in Hes as [Hl Hes]. cbn [log_run]. cbn in Hl.
  destruct (append_unlocked_inv Hw l now roll_now gs g s Hi ltac:(lia) Hsz) as (n & s1 & gs1 & -> & Hi1 & Hp & _ & Hr & Hb & _ & Hall).
  bind_simpl. rewrite (Hall progress), ztake_all in Hp by lia.
  destruct (placed_last _ _ _ _ Hp) as (gs2 & g2 & -> & Hcat).
  destruct (IH gs2 g2 s1 Hi1 ltac:(lia) Hes) as (s' & gs' & g' & -> & Hi' & Hr' & Hb' & Hc').
  exists s', gs', g'. split_and!; [done|done|congruence|congruence|].
  rewrite Hc', Hcat, concat_app. cbn. by rewrite app_nil_r, <- !app_assoc.
Qed.

Lemma new_log_inv basename rollSize flushInterval checkEveryN now :
  Byte.x2f ∉ basename -> 0 < now ->
  exists s, new_log basename rollSize flushInterval checkEveryN now = Ok s /\ inv ([] ++ [[]]) s /\
    rollSize_ s = rollSize /\ basename_ s = basename.
Proof.
  intros Hb Hnow. unfold new_log, rollFile. rewrite bool_decide_eq_false_2 by done. cbn. rewrite fopen_ok, Z.gtb_ltb.
  destruct (Z.ltb_spec 0 now); [|lia]. cbn. eexists. split; [done|].
  split; [split; cbn; [done| | |done| |done]|done]; repeat constructor; done || lia.
Qed.
End log_file.

(** C37: A [LogFile] over files that open and take what they are given: every
    line is written whole and in order, and none is split between two files; the
    files were opened at strictly increasing times, each under the name made of
    the base name, that time, the host and the process; and an append leaves the
    open file within [rollSize_] unless a file was already opened in that second. *)
Theorem logfile_correct fwrite fopen hostname pid basename rollSize flushInterval checkEveryN now es :
  fwrite_ok fwrite -> (forall i len, 0 < len -> 0 < fwrite i len) -> (forall name, fopen name = true) ->
  Byte.x2f ∉ basename -> 0 < now -> 0 <= rollSize -> Forall (fun e => zlen e.1.1 < 2 ^ 31) es ->
  exists s gs,
    (s ← new_log fopen hostname pid basename rollSize flushInterval checkEveryN now; log_run fwrite fopen hostname pid es s) = Ok s /\
    content <$> files s = concat (A:=byte) <$> gs /\ concat gs = (fst ∘ fst <$> es) /\
    length (file_names s) = length (files s) /\ StronglySorted (fun x y => x.1 < y.1) (file_names s) /\
    Forall (fun x => x.2 = getLogFileName hostname pid basename x.1) (file_names s) /\
    (forall l now roll_now, zlen l < 2 ^ 31 -> lastRoll_ s < roll_now ->
       exists s' f, append_unlocked fwrite fopen hostname pid l now roll_now s = Ok s' /\
         file_ s' = Some f /\ writtenBytes_ f <= rollSize).
Proof.
  intros Hw Hp Ho Hb Hnow Hsz Hes.
  destruct (new_log_inv fopen hostname pid Ho basename rollSize flushInterval checkEveryN now Hb Hnow)
    as (s0 & -> & Hi0 & Hr0 & Hb0). bind_simpl.
  destruct (log_run_inv fwrite fopen hostname pid Ho Hw Hp es [] [] s0 Hi0 ltac:(lia) Hes) as (s & gs & g & -> & Hi & Hr & Hb1 & Hc).
  exists s, (gs ++ [g]). pose proof Hi as [Hop Ht Hs Hcnt Hn Hg]. rewrite Hb1, Hb0 in Hn. split_and!; try done.
  intros l now' roll_now Hl Hlt.
  destruct (append_unlocked_inv fwrite fopen hostname pid Ho Hw l now' roll_now gs g s Hi ltac:(lia) ltac:(lia))
    as (n & s' & gs' & -> & _ & _ & _ & _ & _ & Hf & _).
  destruct (Hf Hlt) as (f & ? & ?). exists s', f. split_and!; [done|done|lia].
Qed.

(** Three bytes a call at most; the second line passes the limit, the fourth
    comes a day later. *)
Lemma logfile_correct_witness : exists s,
  (s ← new_log (fun _ => true) (bytes "host") 42 (bytes "log") 12 3 1 1000; log_run (fun _ n => Z.min 3 n) (fun _ => true) (bytes "host") 42
     [(bytes "first", 1001, 1001); (bytes "second..", 1002, 1002); (bytes "3", 1003, 1003); (bytes "4", 90000, 90000)] s) = Ok s /\
  content <$> files s = [bytes "firstsecond.."; bytes "34"; []] /\
  file_names s = [(1000, bytes "log.19700101-001640.host.42.log"); (1002, bytes "log.19700101-001642.host.42.log");
                  (90000, bytes "log.19700102-010000.host.42.log")].
Proof.
  destruct (logfile_correct (fun _ n => Z.min 3 n) (fun _ => true) (bytes "host") 42 (bytes "log") 12 3 1 1000
    [(bytes "first", 1001, 1001); (bytes "second..", 1002, 1002); (bytes "3", 1003, 1003); (bytes "4", 90000, 90000)])
    as (s & gs & E & _).
  - intros i len. lia.
  - intros i len. lia.
  - done.
  - rewrite list_elem_of_In. vm_compute. intuition discriminate.
  - lia.
  - lia.
  - repeat constructor.
  - vm_compute in E. exists s. split; [vm_compute; exact E|]. injection E as <-. split; vm_compute; reflexivity.
Defined.

End LogFile.
