(* ===== verification/AsyncLogging.v ===== *)
(** * Asynchronous logging ([src/base/AsyncLogging.h], [AsyncLogging.cpp])

    Any number of front-end threads append lines to a buffer under a mutex; one
    back-end thread takes the filled buffers away and writes them to the log
    file.  A critical section is one step; the steps interleave freely, and
    [waitForSeconds] may end at any time.  The size of the buffers is a
    parameter ([kLargeBuffer] in the code). *)

From S2P Require Import Prelude Decimal Timestamp LogStream.

Module AsyncLogging.
Import LogStream.

(** Where the back end is: at the loop test, at the lock, in [waitForSeconds],
    writing, or returned. *)
Inductive backend_pc := BTest | BLock | BWaiting | BWrite | BExited.

Record AsyncLogging := mkLogging {
  running_ : bool;
  currentBuffer_ : FixedBuffer;
  nextBuffer_ : option FixedBuffer;
  buffers_ : list FixedBuffer;
  (** locals of [threadFunc] *)
  pc : backend_pc;
  newBuffer1 : option FixedBuffer;
  newBuffer2 : option FixedBuffer;
  buffersToWrite : list FixedBuffer;
  (** what was written to the log file *)
  output : list byte;
  (** history: the text of the accepted lines; the batches written and when *)
  accepted : list byte;
  written : list (Z * list (list byte)) }.

(** The logger after [start()]. *)
Definition started (SIZE : Z) : AsyncLogging :=
  let b := bzero (new_fixed SIZE) in
  mkLogging true b (Some b) [] BTest (Some b) (Some b) [] [] [] [].

Definition set_front (cur : FixedBuffer) (nxt : option FixedBuffer) (bs : list FixedBuffer) (acc : list byte) (s : AsyncLogging) :
    AsyncLogging :=
  mkLogging (running_ s) cur nxt bs (pc s) (newBuffer1 s) (newBuffer2 s) (buffersToWrite s) (output s) acc (written s).
Definition set_pc (p : backend_pc) (s : AsyncLogging) : AsyncLogging :=
  mkLogging (running_ s) (currentBuffer_ s) (nextBuffer_ s) (buffers_ s) p (newBuffer1 s) (newBuffer2 s) (buffersToWrite s)
    (output s) (accepted s) (written s).

(** [append(logline, len)] with [len] the length of the line. *)
Definition append (SIZE : Z) (logline : list byte) (s : AsyncLogging) : outcome AsyncLogging :=
  let len := zlen logline in
  let acc := if len <? SIZE then accepted s ++ logline else accepted s in
  if avail (currentBuffer_ s) >? len then
    cur ← LogStream.append logline len (currentBuffer_ s);
    Ok (set_front cur (nextBuffer_ s) (buffers_ s) acc s)
  else
    let bs := buffers_ s ++ [currentBuffer_ s] in
    let '(cur, nxt) := match nextBuffer_ s with Some b => (b, None) | None => (new_fixed SIZE, None) end in
    cur ← LogStream.append logline len cur;
    Ok (set_front cur nxt bs acc s).

Definition stop (s : AsyncLogging) : AsyncLogging :=
  mkLogging false (currentBuffer_ s) (nextBuffer_ s) (buffers_ s) (pc s) (newBuffer1 s) (newBuffer2 s) (buffersToWrite s)
    (output s) (accepted s) (written s).

(** ** [threadFunc] *)

Definition is_empty (b : option FixedBuffer) : bool := match b with Some b => length_ b =? 0 | None => false end.

(** The end of the critical section: the filled buffers change hands. *)
Definition swap (s : AsyncLogging) : outcome AsyncLogging :=
  let bs := buffers_ s ++ [currentBuffer_ s] in
  match newBuffer1 s with
  | None => Err OutOfBounds
  | Some cur =>
      let '(nxt, new2) := match nextBuffer_ s with Some b => (Some b, newBuffer2 s) | None => (newBuffer2 s, None) end in
      Ok (mkLogging (running_ s) cur nxt [] BWrite None new2 bs (output s) (accepted s) (written s))
  end.

(** The message about dropped buffers. *)
Definition notice (now n : Z) : list byte :=
  snprintf 256 (bytes "Dropped log messages at " ++ Timestamp.toFormattedString now true ++ bytes ", " ++ dec n ++
    bytes " larger buffers" ++ [Byte.x0a]).

(** [newBuffer = move(buffersToWrite.back()); pop_back(); newBuffer->reset()] when it is null. *)
Definition refill (new : option FixedBuffer) (bs : list FixedBuffer) : outcome (option FixedBuffer * list FixedBuffer) :=
  match new with
  | Some b => Ok (Some b, bs)
  | None =>
      match last bs with
      | Some b => Ok (Some (reset b), removelast bs)
      | None => Err AssertFail
      end
  end.

(** Writing; [now] is the time a message about dropped buffers shows. *)
Definition write (now : Z) (s : AsyncLogging) : outcome AsyncLogging :=
  assert_ (negb (bool_decide (length (buffersToWrite s) = 0%nat)));;
  let n := length (buffersToWrite s) in
  let '(out, bs) :=
    if decide (25 < n)%nat then (output s ++ notice now (Z.of_nat n - 2), take 2 (buffersToWrite s))
    else (output s, buffersToWrite s) in
  let out := out ++ concat (toString <$> bs) in
  let bs := if decide (2 < length bs)%nat then take 2 bs else bs in
  x ← refill (newBuffer1 s) bs;
  let '(new1, bs) := x in
  y ← refill (newBuffer2 s) bs;
  let '(new2, _) := y in
  Ok (mkLogging (running_ s) (currentBuffer_ s) (nextBuffer_ s) (buffers_ s) BTest new1 new2 [] out (accepted s)
        (written s ++ [(now, toString <$> buffersToWrite s)])).

Definition threadFunc (now : Z) (s : AsyncLogging) : outcome AsyncLogging :=
  match pc s with
  | BTest =>
      if running_ s then
        assert_ (is_empty (newBuffer1 s));;
        assert_ (is_empty (newBuffer2 s));;
        assert_ (bool_decide (length (buffersToWrite s) = 0%nat));;
        Ok (set_pc BLock s)
      else Ok (set_pc BExited s)
  | BLock => match buffers_ s with [] => Ok (set_pc BWaiting s) | _ => swap s end
  | BWaiting => swap s
  | BWrite => write now s
  | BExited => Ok s
  end.

(** ** Histories *)
Inductive event := Append (logline : list byte) | Backend (now : Z) | Stop.

Definition logging_step (SIZE : Z) (e : event) (s : AsyncLogging) : outcome AsyncLogging :=
  match e with
  | Append l => append SIZE l s
  | Backend now => threadFunc now s
  | Stop => Ok (stop s)
  end.

Fixpoint logging_run (SIZE : Z) (es : list event) (s : AsyncLogging) : outcome AsyncLogging :=
  match es with
  | [] => Ok s
  | e :: es' => s ← logging_step SIZE e s; logging_run SIZE es' s
  end.

(** ** The invariant *)

(** What the file gets of a batch: all of it, or a message and two buffers. *)
Definition batch_text (b : Z * list (list byte)) : list byte :=
  if decide (25 < length b.2)%nat then notice b.1 (Z.of_nat (length b.2) - 2) ++ concat (take 2 b.2) else concat b.2.

Section invariant.
Context (SIZE : Z) (HSIZE : 0 < SIZE < 2 ^ 31).

Definition good (b : FixedBuffer) : Prop := wf b /\ zlen (data_ b) = SIZE.
Definition spare (b : option FixedBuffer) : Prop := exists f, b = Some f /\ good f /\ toString f = [].

(** The back end's buffers. *)
Definition backend_ok (s : AsyncLogging) : Prop :=
  match pc s with
  | BWrite =>
      newBuffer1 s = None /\ (1 <= length (buffersToWrite s))%nat /\ Forall good (buffersToWrite s) /\
      (spare (newBuffer2 s) \/ newBuffer2 s = None /\ (2 <= length (buffersToWrite s))%nat)
  | _ => spare (newBuffer1 s) /\ spare (newBuffer2 s) /\ buffersToWrite s = []
  end.

Record inv (s : AsyncLogging) : Prop := {
  l_current : good (currentBuffer_ s);
  l_next : spare (nextBuffer_ s) \/ nextBuffer_ s = None /\ buffers_ s <> [];
  l_buffers : Forall good (buffers_ s);
  l_backend : backend_ok s;
  l_accepted : accepted s = concat (concat (snd <$> written s)) ++ concat (toString <$> buffersToWrite s) ++
      concat (toString <$> buffers_ s) ++ toString (currentBuffer_ s);
  l_output : output s = concat (batch_text <$> written s) }.

Lemma new_spare : spare (Some (new_fixed SIZE)).
Proof.
  exists (new_fixed SIZE). split; [done|]. split; [|done]. unfold good, wf, new_fixed. cbn.
  rewrite zlen_replicate by lia. lia.
Qed.

Lemma length_toString b : wf b -> toString b = [] -> length_ b = 0.
Proof.
  intros Hb E. pose proof (toString_length b Hb) as Hl. rewrite E in Hl. unfold length_. rewrite zlen_nil in Hl. by rewrite <- Hl.
Qed.

Lemma empty_cur b : good b -> toString b = [] -> cur_ b = 0.
Proof. intros [Hb _] E. pose proof (toString_length b Hb) as Hl. by rewrite E in Hl. Qed.

Lemma front_append_inv l s : inv s -> zlen l < 2 ^ 31 -> exists s', append SIZE l s = Ok s' /\ inv s'.
Proof.
  intros [[Hc Hcl] Hn Hb Hbk Ha Ho] Hl. zlen_pos. unfold append. rewrite avail_eq by done. rewrite Hcl, Z.gtb_ltb.
  destruct (Z.ltb_spec (zlen l) (SIZE - cur_ (currentBuffer_ s))) as [Hroom|Hfull].
  - destruct (fixed_append_spec l (zlen l) (currentBuffer_ s) Hc ltac:(lia)) as (cur & E & Hg). rewrite E. bind_simpl.
    rewrite Hcl, (proj2 (Z.ltb_lt _ _)) in Hg by lia. destruct Hg as (Hw & Ht & Hd). rewrite ztake_all in Ht by lia.
    rewrite (proj2 (Z.ltb_lt _ _)) by (destruct Hc; lia). eexists. split; [done|]. split; cbn; try done.
    + split; [done|lia].
    + rewrite Ha, Ht. by rewrite <- !app_assoc.
  - set (fresh := match nextBuffer_ s with Some b => (b, None) | None => (new_fixed SIZE, None) end).
    assert (exists f, fresh = (f, None) /\ good f /\ toString f = []) as (f & Ef & [Hf Hfl] & Htf).
    { unfold fresh. destruct Hn as [(f & -> & Hg & Ht)|[-> _]]; [by exists f|].
      destruct new_spare as (f & [= <-] & Hg & Ht). by exists (new_fixed SIZE). }
    rewrite Ef. destruct (fixed_append_spec l (zlen l) f Hf ltac:(lia)) as (cur & E & Hg). rewrite E. bind_simpl.
    rewrite Hfl, (empty_cur f) in Hg by done. rewrite Z.sub_0_r in Hg.
    eexists. split; [done|]. assert (good cur /\ toString cur = if zlen l <? SIZE then l else []) as [Hgc Htc].
    { destruct (zlen l <? SIZE); [|by subst]. destruct Hg as (Hw & Ht & Hd). rewrite ztake_all, Htf in Ht by lia.
      split; [split; [done|lia]|done]. }
    split; cbn; try done.
    + right. split; [done|]. by destruct (buffers_ s).
    + apply Forall_app. split; [done|]. apply Forall_singleton. by split.
    + rewrite fmap_app, concat_app, Htc. cbn. rewrite app_nil_r, <- !app_assoc.
      destruct (zlen l <? SIZE); rewrite Ha, <- ?app_assoc, ?app_nil_r; done.
Qed.

Lemma swap_inv s :
  inv s -> pc s = BLock \/ pc s = BWaiting -> exists s', swap s = Ok s' /\ inv s'.
Proof.
  intros [Hc Hn Hb Hbk Ha Ho] Hpc. assert (spare (newBuffer1 s) /\ spare (newBuffer2 s) /\ buffersToWrite s = []) as
    ((f1 & E1 & Hg1 & Ht1) & H2 & Hw) by (unfold backend_ok in Hbk; by destruct Hpc as [E|E]; rewrite E in Hbk).
  unfold swap. rewrite E1. rewrite Hw in Ha. cbn in Ha.
  assert (Forall good (buffers_ s ++ [currentBuffer_ s])) as Hall by (apply Forall_app; split; [done|by apply Forall_singleton]).
  assert (concat (toString <$> buffers_ s ++ [currentBuffer_ s]) = concat (toString <$> buffers_ s) ++ toString (currentBuffer_ s)) as Hcat
    by (rewrite fmap_app, concat_app; cbn; by rewrite app_nil_r).
  destruct Hn as [(fn & En & Hgn & Htn)|[En Hne]]; rewrite En; eexists; (split; [done|]); split; cbn; try done.
  - left. by exists fn.
  - unfold backend_ok. cbn. rewrite length_app. cbn. split_and!; [done|lia|done|by left].
  - rewrite Hcat, Ht1, !app_nil_r. done.
  - by left.
  - unfold backend_ok. cbn. rewrite length_app. cbn. destruct (buffers_ s); [done|]. cbn. split_and!; [done|lia|done|].
    right. split; [done|lia].
  - rewrite Hcat, Ht1, !app_nil_r. done.
Qed.

Lemma reset_spare b : good b -> spare (Some (reset b)).
Proof.
  intros [[Hc Hl] Hd]. exists (reset b). split; [done|]. split; [|done]. unfold good, wf, reset. cbn. lia.
Qed.

Lemma refill_ok new bs :
  Forall good bs -> spare new \/ new = None /\ (1 <= length bs)%nat ->
  exists new' bs', refill new bs = Ok (new', bs') /\ spare new' /\ Forall good bs' /\
    (length bs - 1 <= length bs')%nat.
Proof.
  intros Hg [(f & -> & Hf)|[-> Hl]]; cbn.
  - exists (Some f), bs. split_and!; [done|by exists f|done|lia].
  - destruct bs as [|b bs] using rev_ind; [cbn in Hl; lia|]. rewrite last_snoc. apply Forall_app in Hg as [Hg Hb].
    rewrite Forall_singleton in Hb. exists (Some (reset b)), bs. rewrite removelast_last. split_and!; [done|by apply reset_spare|done|].
    rewrite length_app. cbn. lia.
Qed.

Lemma write_inv now s : inv s -> pc s = BWrite -> exists s', write now s = Ok s' /\ inv s'.
Proof.
  intros [Hc Hn Hb Hbk Ha Ho] Hpc. unfold backend_ok in Hbk. rewrite Hpc in Hbk. destruct Hbk as (E1 & Hlen & Hg & H2).
  unfold write. rewrite assert_true by (rewrite bool_decide_eq_false_2; [done|lia]). bind_simpl.
  set (kept := if decide (25 < length (buffersToWrite s))%nat
    then (output s ++ notice now (Z.of_nat (length (buffersToWrite s)) - 2), take 2 (buffersToWrite s))
    else (output s, buffersToWrite s)).
  destruct kept as [out bs] eqn:Ek.
  assert (out ++ concat (toString <$> bs) = output s ++ batch_text (now, toString <$> buffersToWrite s) /\
    Forall good bs /\ (Nat.min 2 (length (buffersToWrite s)) <= length bs)%nat) as (Hout & Hgb & Hlb).
  { unfold kept in Ek. unfold batch_text. cbn [fst snd]. rewrite length_fmap. case_decide; simplify_eq.
    - rewrite <- app_assoc, <- firstn_map. split_and!; [done|by apply Forall_take|rewrite length_take; lia].
    - split_and!; [done..|lia]. }
  set (bs2 := if decide (2 < length bs)%nat then take 2 bs else bs).
  assert (Forall good bs2 /\ (Nat.min 2 (length (buffersToWrite s)) <= length bs2)%nat) as [Hg2 Hl2].
  { unfold bs2. case_decide; [|done]. split; [by apply Forall_take|rewrite length_take; lia]. }
  destruct (refill_ok (newBuffer1 s) bs2) as (new1 & bs3 & -> & Hs1 & Hg3 & Hl3); [done|right; split; [done|lia]|]. bind_simpl.
  destruct (refill_ok (newBuffer2 s) bs3) as (new2 & bs4 & -> & Hs2 & _); [done|destruct H2 as [?|[? ?]]; [by left|right; split; [done|lia]]|].
  bind_simpl. eexists. split; [done|]. split; cbn; try done.
  - rewrite fmap_app, !concat_app. cbn. rewrite app_nil_r, <- !app_assoc, Ha. done.
  - rewrite Hout, Ho, fmap_app, concat_app. cbn. by rewrite app_nil_r.
Qed.

Lemma threadFunc_inv now s : inv s -> exists s', threadFunc now s = Ok s' /\ inv s'.
Proof.
  intros Hi. unfold threadFunc. destruct (pc s) eqn:Hpc.
  - destruct Hi as [Hc Hn Hb Hbk Ha Ho]. assert (forall p, p = BLock \/ p = BExited -> inv (set_pc p s)) as Hset.
    { intros p Hp. split; try done. unfold backend_ok in *. rewrite Hpc in Hbk. by destruct Hp as [->| ->]. }
    destruct (running_ s); [|eexists; split; [done|apply Hset; by right]].
    unfold backend_ok in Hbk. rewrite Hpc in Hbk. destruct Hbk as ((f1 & E1 & [Hw1 _] & Ht1) & (f2 & E2 & [Hw2 _] & Ht2) & Hw).
    rewrite E1, E2, Hw. cbn [is_empty]. rewrite !length_toString by done. cbn. eexists. split; [done|]. apply Hset. by left.
  - destruct (buffers_ s) eqn:Eb; [|by apply swap_inv; [|left]].
    eexists. split; [done|]. destruct Hi as [Hc Hn Hb Hbk Ha Ho]. split; try done. unfold backend_ok in *. by rewrite Hpc in Hbk.
  - apply swap_inv; [done|by right].
  - by apply write_inv.
  - by eexists.
Qed.

Lemma logging_run_inv es s :
  inv s -> Forall (fun e => forall l, e = Append l -> zlen l < 2 ^ 31) es -> exists s', logging_run SIZE es s = Ok s' /\ inv s'.
Proof.
  intros Hi Hes. revert s Hi. induction Hes as [|e es He _ IH]; intros s Hi; [by eexists|].
  assert (exists s', logging_step SIZE e s = Ok s' /\ inv s') as (s1 & E & H1).
  { destruct e as [l|now|]; cbn [logging_step]; [by apply front_append_inv; [|apply He]|by apply threadFunc_inv|].
    eexists. split; [done|]. by destruct Hi. }
  cbn [logging_run]. rewrite E. bind_simpl. by apply IH.
Qed.

Lemma started_inv : inv (started SIZE).
Proof.
  assert (bzero (new_fixed SIZE) = new_fixed SIZE) as E by (unfold bzero, new_fixed; cbn; by rewrite length_replicate).
  unfold started. rewrite E. destruct new_spare as (f & [= <-] & Hg & Ht). split; cbn; try done.
  - left. apply new_spare.
  - split_and!; [apply new_spare..|done].
Qed.
End invariant.

(** What was accepted and is not in the file yet. *)
Definition unwritten (s : AsyncLogging) : list byte :=
  concat (toString <$> buffersToWrite s) ++ concat (toString <$> buffers_ s) ++ toString (currentBuffer_ s).

(** Lines that fit into a buffer. *)
Definition lines (SIZE : Z) (es : list event) : list byte :=
  concat (omap (fun e => match e with Append l => if zlen l <? SIZE then Some l else None | _ => None end) es).

Lemma small_batches ws : Forall (fun b => (length b.2 <= 25)%nat) ws -> concat (batch_text <$> ws) = concat (concat (snd <$> ws)).
Proof.
  induction 1 as [|b bs Hb _ IH]; [done|]. cbn. rewrite IH, concat_app. f_equal. unfold batch_text. by rewrite decide_False by lia.
Qed.

Lemma threadFunc_accepted now s s' : threadFunc now s = Ok s' -> accepted s' = accepted s.
Proof.
  assert (forall s1, swap s = Ok s1 -> accepted s1 = accepted s) as Hswap.
  { intros s1. unfold swap. destruct (newBuffer1 s); [|done]. destruct (nextBuffer_ s); by intros [= <-]. }
  unfold threadFunc. destruct (pc s); intros E.
  - destruct (running_ s); outcome_inv E; done.
  - destruct (buffers_ s); [by injection E as <-|by apply Hswap].
  - by apply Hswap.
  - unfold write in E. apply bind_Ok in E as (u & _ & E). destruct (decide (25 < _)%nat); cbv beta iota zeta in E;
      apply bind_Ok in E as ([n1 b1] & _ & E); apply bind_Ok in E as ([n2 b2] & _ & E); by injection E as <-.
  - by injection E as <-.
Qed.

Lemma accepted_lines SIZE es s s' : logging_run SIZE es s = Ok s' -> accepted s' = accepted s ++ lines SIZE es.
Proof.
  revert s. induction es as [|e es IH]; intros s E; cbn [logging_run] in E.
  - injection E as <-. unfold lines. cbn. by rewrite app_nil_r.
  - apply bind_Ok in E as (s1 & E1 & E). apply IH in E as ->. unfold lines. cbn [omap list_omap].
    destruct e as [l|now|]; cbn [logging_step] in E1.
    + assert (accepted s1 = if zlen l <? SIZE then accepted s ++ l else accepted s) as ->.
      { unfold append in E1. destruct (_ >? _); [|destruct (nextBuffer_ s)]; apply bind_Ok in E1 as (cur & _ & E1); by injection E1 as <-. }
      destruct (zlen l <? SIZE); [by rewrite <- app_assoc|done].
    + by rewrite (threadFunc_accepted _ _ _ E1).
    + by injection E1 as <-.
Qed.

(** Asynchronous logging, for any interleaving of front ends and back end:
    no assertion fails, no buffer overflows and no null buffer is used.  The
    lines that fit into a buffer are, in order, those of the batches the back end
    has written and then those still in buffers.  The file has every batch in
    full, or, of a batch of more than 25 buffers, a message and the first two; so
    as long as no batch is that large, the file and the buffers together hold
    every line exactly once and in order. *)
Theorem async_logging_correct SIZE es :
  0 < SIZE < 2 ^ 31 -> Forall (fun e => forall l, e = Append l -> zlen l < 2 ^ 31) es ->
  exists s, logging_run SIZE es (started SIZE) = Ok s /\
    lines SIZE es = concat (concat (snd <$> written s)) ++ unwritten s /\
    output s = concat (batch_text <$> written s) /\
    (Forall (fun b => (length b.2 <= 25)%nat) (written s) -> output s ++ unwritten s = lines SIZE es).
Proof.
  intros HSIZE Hes. destruct (logging_run_inv SIZE HSIZE es _ (started_inv SIZE HSIZE) Hes) as (s & E & [_ _ _ _ Ha Ho]).
  exists s. split; [done|]. rewrite (accepted_lines _ _ _ _ E) in Ha. change (accepted (started SIZE)) with (@nil byte) in Ha.
  rewrite app_nil_l in Ha. split; [done|]. split; [done|]. intros Hsmall. rewrite Ha, Ho. unfold unwritten. by rewrite small_batches.
Qed.

(** ** Witness: buffers of 8 characters *)
Definition sample_events : list event :=
  [Append (bytes "abc"); Append (bytes "defgh"); Backend 0; Backend 0; Append (bytes "ij"); Backend 0; Backend 0].

Lemma async_logging_correct_witness :
  exists s, logging_run 8 sample_events (started 8) = Ok s /\ output s = bytes "abcdefgh" /\
    output s ++ unwritten s = bytes "abcdefghij".
Proof.
  destruct (async_logging_correct 8 sample_events) as (s & E & _ & _ & H); [lia| |].
  - repeat (constructor; [intros ? [= <-]; vm_compute; reflexivity || (intros ? [=])|]). constructor.
  - exists s. split; [exact E|]. vm_compute in E. injection E as <-. split; [reflexivity|]. apply H.
    repeat constructor.
Defined.

(** [stop()] while the back end is writing: it leaves its loop without looking at
    the buffers again, and the line appended meanwhile is never written. *)
Theorem stop_loses_lines :
  exists s, logging_run 8 [Append (bytes "a"); Backend 0; Backend 0; Backend 0; Append (bytes "b"); Stop; Backend 0; Backend 0]
      (started 8) = Ok s /\
    pc s = BExited /\ output s = bytes "a" /\ unwritten s = bytes "b".
Proof. eexists. split; [vm_compute; reflexivity|]. split_and!; reflexivity. Qed.
End AsyncLogging.
