(* ===== verification/LogPipeline.v ===== *)
(** * From a log statement to the log files

    The composition of [Logger], [AsyncLogging] and [LogFile]: the output function
    of the loggers is [AsyncLogging::append], and the back end of [AsyncLogging]
    writes to a [LogFile].  Statements of any threads and steps of the back end
    interleave freely. *)

From S2P Require Import Prelude LogStream TimeZone Logging LogFile AsyncLogging.

Module LogPipeline.

(** The number of the output function that calls [AsyncLogging::append]. *)
Definition asyncOutput : Z := 1.

Record pipeline := mkPipeline {
  loggers : Logging.Globals;
  async : AsyncLogging.AsyncLogging;
  log : LogFile.LogFile }.

Inductive event :=
  | Program (e : Logging.event)
  (** a step of the back end; the times it reads, also at each [LogFile::append] *)
  | Backend (now : Z) (times : nat -> Z * Z)
  | Stop.

Section pipeline.
Context (strerror_tl : Z -> list byte) (fwrite : Z -> Z -> Z) (fopen : list byte -> bool) (hostname : list byte) (pid SIZE : Z).

(** What the function pointers are called with. *)
Fixpoint forward (cs : list Logging.call) (a : AsyncLogging.AsyncLogging) : outcome AsyncLogging.AsyncLogging :=
  match cs with
  | [] => Ok a
  | Logging.Output fn msg len :: cs =>
      a ← (if fn =? asyncOutput then AsyncLogging.append SIZE (ztake len msg) a else Ok a);
      forward cs a
  | Logging.Flush _ :: cs => forward cs a
  end.

(** The [output.append] calls of one round of [threadFunc]. *)
Definition pieces (now : Z) (a : AsyncLogging.AsyncLogging) : list (list byte) :=
  let texts := LogStream.toString <$> AsyncLogging.buffersToWrite a in
  if decide (25 < length texts)%nat then AsyncLogging.notice now (Z.of_nat (length texts) - 2) :: take 2 texts else texts.

Definition pipe_step (e : event) (s : pipeline) : outcome pipeline :=
  match e with
  | Program e =>
      g ← Logging.log_step strerror_tl e (loggers s);
      a ← forward (drop (length (Logging.calls (loggers s))) (Logging.calls g)) (async s);
      Ok (mkPipeline g a (log s))
  | Backend now times =>
      a ← AsyncLogging.threadFunc now (async s);
      l ← match AsyncLogging.pc (async s) with
          | AsyncLogging.BWrite =>
              l ← LogFile.log_run fwrite fopen hostname pid (imap (fun i p => (p, (times i).1, (times i).2)) (pieces now (async s))) (log s);
              LogFile.flush l
          | _ => Ok (log s)
          end;
      Ok (mkPipeline (loggers s) a l)
  | Stop => Ok (mkPipeline (loggers s) (AsyncLogging.stop (async s)) (log s))
  end.

(** Nothing runs after [abort()]. *)
Fixpoint pipe_run (es : list event) (s : pipeline) : outcome pipeline :=
  match es with
  | [] => Ok s
  | e :: es => if Logging.aborted (loggers s) then Ok s else s ← pipe_step e s; pipe_run es s
  end.

(** [setOutput(asyncOutput)], and the back end started at the time [now]. *)
Definition pipe_start (tz : TimeZone.TimeZone) (level : Logging.LogLevel) (basename : list byte) (rollSize now : Z) : outcome pipeline :=
  l ← LogFile.new_log fopen hostname pid basename rollSize 3 1024 now;
  Ok (mkPipeline (Logging.setOutput asyncOutput (Logging.setTimeZone tz (Logging.initial level))) (AsyncLogging.started SIZE) l).

(** ** The specification: the lines of the statements the level admits *)

Fixpoint logged (tz : TimeZone.TimeZone) (es : list event) (level : Logging.LogLevel) : list (list byte) :=
  match es with
  | [] => []
  | Program (Logging.SetLogLevel l) :: es => logged tz es l
  | Program (Logging.Log s) :: es =>
      if Logging.enabled (Logging.st_macro s) level then
        Logging.line_kept strerror_tl tz s ::
        match Logging.macro_level (Logging.st_macro s) with Logging.FATAL => [] | _ => logged tz es level end
      else logged tz es level
  | _ :: es => logged tz es level
  end.

Definition keeps (tz : TimeZone.TimeZone) (e : event) : Prop :=
  match e with
  | Program (Logging.SetOutput fn) => fn = asyncOutput
  | Program e => Logging.keeps_zone tz e
  | _ => True
  end.

(** What the back end hands to [LogFile::append] for a batch, piece by piece: the text
    of each buffer, or, of a batch of more than 25 buffers, a message and the first two. *)
Definition batch_pieces (b : Z * list (list byte)) : list (list byte) :=
  if decide (25 < length b.2)%nat then AsyncLogging.notice b.1 (Z.of_nat (length b.2) - 2) :: take 2 b.2 else b.2.

(** ** The parts *)

Lemma concat_pieces b : concat (batch_pieces b) = AsyncLogging.batch_text b.
Proof. unfold batch_pieces, AsyncLogging.batch_text. by case_decide. Qed.

Lemma concat_batches bs : concat (concat (batch_pieces <$> bs)) = concat (AsyncLogging.batch_text <$> bs).
Proof. induction bs as [|b bs IH]; [done|]. cbn. by rewrite concat_app, concat_pieces, IH. Qed.

Lemma append_accepted l a a' :
  AsyncLogging.append SIZE l a = Ok a' ->
  AsyncLogging.accepted a' = AsyncLogging.accepted a ++ (if zlen l <? SIZE then l else []) /\ AsyncLogging.written a' = AsyncLogging.written a.
Proof.
  intros H. unfold AsyncLogging.append in H. destruct (_ >? _).
  - apply bind_Ok in H as (cur & _ & H). injection H as <-. cbn. destruct (zlen l <? SIZE); [done|by rewrite app_nil_r].
  - destruct (AsyncLogging.nextBuffer_ a) as [b|]; apply bind_Ok in H as (cur & _ & H); injection H as <-; cbn;
      (destruct (zlen l <? SIZE); [done|by rewrite app_nil_r]).
Qed.

Lemma threadFunc_written now a a' :
  AsyncLogging.threadFunc now a = Ok a' ->
  concat (batch_pieces <$> AsyncLogging.written a') =
  concat (batch_pieces <$> AsyncLogging.written a) ++ match AsyncLogging.pc a with AsyncLogging.BWrite => pieces now a | _ => [] end.
Proof.
  assert (forall a', AsyncLogging.swap a = Ok a' -> AsyncLogging.written a' = AsyncLogging.written a) as Hswap.
  { intros b. unfold AsyncLogging.swap. destruct (AsyncLogging.newBuffer1 a); [|done]. destruct (AsyncLogging.nextBuffer_ a); by intros [= <-]. }
  unfold AsyncLogging.threadFunc. destruct (AsyncLogging.pc a); rewrite ?app_nil_r.
  - destruct (AsyncLogging.running_ a); [|by intros [= <-]]. intros H. do 3 (apply bind_Ok in H as (_ & _ & H)). by injection H as <-.
  - destruct (AsyncLogging.buffers_ a); [by intros [= <-]|by intros ->%Hswap].
  - by intros ->%Hswap.
  - unfold AsyncLogging.write. intros H. apply bind_Ok in H as (_ & _ & H).
    case_decide; apply bind_Ok in H as ([n1 bs1] & _ & H); apply bind_Ok in H as ([n2 bs2] & _ & H); injection H as <-;
      cbn [AsyncLogging.written]; by rewrite fmap_app, concat_app; cbn; rewrite app_nil_r.
  - by intros [= <-].
Qed.

Lemma pieces_short now a :
  0 < SIZE < 2 ^ 31 -> AsyncLogging.inv SIZE a -> AsyncLogging.pc a = AsyncLogging.BWrite -> Forall (fun p => zlen p < 2 ^ 31) (pieces now a).
Proof.
  intros HSIZE Hi Hpc. pose proof (AsyncLogging.l_backend _ _ Hi) as Hb. unfold AsyncLogging.backend_ok in Hb. rewrite Hpc in Hb.
  destruct Hb as (_ & _ & Hg & _).
  assert (Forall (fun p => zlen p < 2 ^ 31) (LogStream.toString <$> AsyncLogging.buffersToWrite a)) as H.
  { apply Forall_fmap. eapply Forall_impl; [exact Hg|]. intros b [Hw Hl]. cbn. rewrite LogStream.toString_length by done. destruct Hw. lia. }
  unfold pieces. case_decide; [|done]. constructor; [|by apply Forall_take]. unfold AsyncLogging.notice, Decimal.snprintf.
  unfold ztake, zlen. rewrite length_take. lia.
Qed.

(** A line never fills the buffer it is made in. *)
Lemma line_kept_short tz s : Logging.statement_ok tz s -> zlen (Logging.line_kept strerror_tl tz s) < LogStream.kSmallBuffer.
Proof.
  intros Hs. pose proof (Logging.line_items_valid strerror_tl tz s Hs) as Hv. unfold Logging.line_kept.
  assert (forall items b, LogStream.wf b -> zlen (LogStream.data_ b) = LogStream.kSmallBuffer -> Forall LogStream.valid_item items ->
    zlen (foldl (LogStream.spec_put LogStream.kSmallBuffer) (LogStream.toString b) items) < LogStream.kSmallBuffer) as Hgen.
  { induction items as [|i items IH]; intros b Hb Hl Hi; cbn [foldl].
    - rewrite LogStream.toString_length by done. destruct Hb. lia.
    - apply Forall_cons in Hi as [Hi His]. destruct (LogStream.put_spec i b Hb Hi) as (b1 & _ & Hb1 & Hl1 & Ht).
      rewrite Hl in Ht. rewrite <- Ht. apply IH; [done|lia|done]. }
  apply (Hgen _ (LogStream.new_fixed LogStream.kSmallBuffer)); [split; [split|]; vm_compute; congruence|done|done].
Qed.

(** ** The whole *)

Context (HSIZE : LogStream.kSmallBuffer <= SIZE < 2 ^ 31) (fwrite_ok : LogFile.fwrite_ok fwrite).
Context (progress : forall i len, 0 < len -> 0 < fwrite i len) (fopen_ok : forall name, fopen name = true).

(** The loggers print in the zone and write to [append]. *)
Record loggers_ok (tz : TimeZone.TimeZone) (g : Logging.Globals) : Prop := {
  p_zone : Logging.g_logTimeZone g = tz;
  p_cached : forall t l, Logging.locals g !! t = Some l -> Logging.cached tz t l;
  p_output : Logging.g_output g = asyncOutput }.

(** The files hold the pieces the back end has written, each in one file. *)
Definition files_hold (l : LogFile.LogFile) (written : list (list byte)) : Prop :=
  0 <= LogFile.rollSize_ l /\
  exists gs g, LogFile.inv hostname pid (gs ++ [g]) l /\ concat (gs ++ [g]) = written.

Record inv (tz : TimeZone.TimeZone) (s : pipeline) : Prop := {
  i_loggers : loggers_ok tz (loggers s);
  i_async : AsyncLogging.inv SIZE (async s);
  i_files : files_hold (log s) (concat (batch_pieces <$> AsyncLogging.written (async s))) }.

Lemma SIZE_ok : 0 < SIZE < 2 ^ 31.
Proof. unfold LogStream.kSmallBuffer in HSIZE. lia. Qed.

Lemma forward_line tz st cs a :
  Logging.statement_ok tz st -> AsyncLogging.inv SIZE a -> Forall (fun c => exists fn, c = Logging.Flush fn) cs ->
  let line := Logging.line_kept strerror_tl tz st in
  exists a', forward (Logging.Output asyncOutput line (zlen line) :: cs) a = Ok a' /\ AsyncLogging.inv SIZE a' /\
    AsyncLogging.accepted a' = AsyncLogging.accepted a ++ line /\ AsyncLogging.written a' = AsyncLogging.written a.
Proof.
  intros Hs Ha Hcs line. pose proof (line_kept_short tz st Hs) as Hl. fold line in Hl. pose proof SIZE_ok.
  destruct (AsyncLogging.front_append_inv SIZE SIZE_ok line a Ha ltac:(lia)) as (a' & E & Ha'). exists a'.
  destruct (append_accepted line a a' E) as [Hacc Hout]. rewrite (proj2 (Z.ltb_lt _ _)) in Hacc by lia.
  split; [|done]. cbn [forward]. rewrite Z.eqb_refl, ztake_all, E by done. bind_simpl.
  clear -Hcs. induction Hcs as [|c cs [fn ->] _ IH]; [done|]. apply IH.
Qed.

Lemma program_step tz e s :
  inv tz s -> Logging.aborted (loggers s) = false -> keeps tz (Program e) ->
  exists s', pipe_step (Program e) s = Ok s' /\ inv tz s' /\
    Logging.g_logLevel (loggers s') = match e with Logging.SetLogLevel l => l | _ => Logging.g_logLevel (loggers s) end /\
    match e with
    | Logging.Log st =>
        if Logging.enabled (Logging.st_macro st) (Logging.g_logLevel (loggers s)) then
          AsyncLogging.accepted (async s') = AsyncLogging.accepted (async s) ++ Logging.line_kept strerror_tl tz st /\
          Logging.aborted (loggers s') = match Logging.macro_level (Logging.st_macro st) with Logging.FATAL => true | _ => false end
        else AsyncLogging.accepted (async s') = AsyncLogging.accepted (async s) /\ Logging.aborted (loggers s') = false
    | _ => AsyncLogging.accepted (async s') = AsyncLogging.accepted (async s) /\ Logging.aborted (loggers s') = false
    end.
Proof.
  intros [[Hz Hl Ho] Ha Hf] Hab He. cbn [pipe_step].
  destruct e as [st|lv|fn|fn|z]; cbn [Logging.log_step keeps Logging.keeps_zone] in *; bind_simpl.
  2,3,4: rewrite drop_ge by done; cbn [forward]; bind_simpl; eexists; (split; [done|]);
    split_and!; try done; split; try done; by split; cbn; try congruence.
  2: done.
  destruct (Logging.enabled (Logging.st_macro st) (Logging.g_logLevel (loggers s))) eqn:En.
  2:{ unfold Logging.log. rewrite En. bind_simpl. rewrite drop_ge by done. cbn [forward]. bind_simpl. eexists. by split_and!. }
  rewrite <- Hz in He, Hl.
  destruct (Logging.log_spec strerror_tl st (loggers s) He Hl En) as (g' & -> & Elv & Eo & Ef & Ez & Hl1 & Hc). bind_simpl. rewrite Hz in *.
  assert (exists cs, Logging.calls g' = Logging.calls (loggers s) ++ Logging.Output asyncOutput (Logging.line_kept strerror_tl tz st)
      (zlen (Logging.line_kept strerror_tl tz st)) :: cs /\ Forall (fun c => exists fn, c = Logging.Flush fn) cs /\
    Logging.aborted g' = match Logging.macro_level (Logging.st_macro st) with Logging.FATAL => true | _ => false end) as (cs & Ecs & Hcs & Hab').
  { rewrite Ho in Hc. destruct (Logging.macro_level (Logging.st_macro st)); destruct Hc as [Hab' Hc]; eexists; rewrite Hc;
      (split; [reflexivity|]); (split; [by repeat (constructor; eauto)|congruence]). }
  rewrite Ecs, drop_app_length. destruct (forward_line tz st cs (async s) He Ha Hcs) as (a' & -> & Ha' & Hacc & Hout). bind_simpl.
  eexists. split; [done|]. split_and!; cbn [loggers async log]; [|done|done|done].
  split; cbn [loggers async log]; [split; [congruence|exact Hl1|congruence]|done|by rewrite Hout].
Qed.

Lemma backend_step tz now times s :
  inv tz s -> exists s', pipe_step (Backend now times) s = Ok s' /\ inv tz s' /\ loggers s' = loggers s /\
    AsyncLogging.accepted (async s') = AsyncLogging.accepted (async s).
Proof.
  intros [Hg Ha Hf]. cbn [pipe_step]. destruct (AsyncLogging.threadFunc_inv SIZE now (async s) Ha) as (a' & E & Ha'). rewrite E. bind_simpl.
  pose proof (threadFunc_written now _ _ E) as Hout. pose proof (AsyncLogging.threadFunc_accepted _ _ _ E) as Hacc.
  assert (exists l, match AsyncLogging.pc (async s) with
      | AsyncLogging.BWrite => l ← LogFile.log_run fwrite fopen hostname pid (imap (fun i p => (p, (times i).1, (times i).2)) (pieces now (async s))) (log s);
                               LogFile.flush l
      | _ => Ok (log s) end = Ok l /\ files_hold l (concat (batch_pieces <$> AsyncLogging.written a'))) as (l & -> & Hl).
  { rewrite Hout. destruct (AsyncLogging.pc (async s)) eqn:Hpc; rewrite ?app_nil_r; [by exists (log s)..| |by exists (log s)].
    destruct Hf as (Hr & gs & g & Hi & Ht). set (es := imap _ _).
    assert (fst ∘ fst <$> es = pieces now (async s)) as Hes.
    { unfold es. apply list_eq. intros i. rewrite list_lookup_fmap, list_lookup_imap. by destruct (pieces now (async s) !! i). }
    destruct (LogFile.log_run_inv fwrite fopen hostname pid fopen_ok fwrite_ok progress es gs g (log s) Hi Hr) as (l & gs' & g' & -> & Hi' & Hr' & _ & Hcat).
    { apply (Forall_fmap (fst ∘ fst) (fun p => zlen p < 2 ^ 31)). rewrite Hes. by apply pieces_short; [apply SIZE_ok|..]. }
    bind_simpl. unfold LogFile.flush. destruct (LogFile.f_open _ _ _ _ Hi') as [f Ef]. rewrite Ef. eexists. split; [done|].
    split; [cbn; lia|]. exists gs', g'. split; [by apply (LogFile.set_file_same hostname pid f)|]. by rewrite Hcat, Ht, Hes. }
  bind_simpl. eexists. split; [done|]. split; [by split|done].
Qed.

Lemma pipe_run_spec tz es : forall s,
  inv tz s -> Logging.aborted (loggers s) = false -> Forall (keeps tz) es ->
  exists s', pipe_run es s = Ok s' /\ inv tz s' /\
    AsyncLogging.accepted (async s') = AsyncLogging.accepted (async s) ++ concat (logged tz es (Logging.g_logLevel (loggers s))).
Proof.
  induction es as [|e es IH]; intros s Hi Hab Hes; cbn [pipe_run].
  { exists s. cbn. by rewrite app_nil_r. }
  apply Forall_cons in Hes as [He Hes]. rewrite Hab. destruct e as [e|now times|].
  - destruct (program_step tz e s Hi Hab He) as (s1 & -> & Hi1 & Hlv & Hs1). bind_simpl.
    destruct e as [st|lv|fn|fn|z]; [|destruct Hs1 as [Hacc Hab1]; destruct (IH s1 Hi1 Hab1 Hes) as (s' & -> & Hi' & Hacc');
      exists s'; split_and!; [done..|by cbn [logged]; rewrite Hacc', Hacc, Hlv]..].
    cbn [logged]. destruct (Logging.enabled _ _).
    + destruct Hs1 as [Hacc Hab1]. destruct (Logging.macro_level (Logging.st_macro st)).
      6:{ exists s1. split; [by destruct es; cbn [pipe_run]; rewrite ?Hab1|]. cbn. by rewrite app_nil_r. }
      all: destruct (IH s1 Hi1 Hab1 Hes) as (s' & -> & Hi' & Hacc'); exists s'; split_and!; [done..|cbn; by rewrite Hacc', Hacc, Hlv, <- app_assoc].
    + destruct Hs1 as [Hacc Hab1]. destruct (IH s1 Hi1 Hab1 Hes) as (s' & -> & Hi' & Hacc'). exists s'. split_and!; [done..|by rewrite Hacc', Hacc, Hlv].
  - destruct (backend_step tz now times s Hi) as (s1 & -> & Hi1 & Hg & Hacc). bind_simpl. rewrite <- Hg in Hab.
    destruct (IH s1 Hi1 Hab Hes) as (s' & -> & Hi' & Hacc'). exists s'. split_and!; [done..|]. cbn [logged]. by rewrite Hacc', Hacc, Hg.
  - cbn [pipe_step]. bind_simpl. assert (inv tz (mkPipeline (loggers s) (AsyncLogging.stop (async s)) (log s))) as Hi1.
    { destruct Hi as [Hg [] Hf]. split; [done|by split|done]. }
    destruct (IH _ Hi1 Hab Hes) as (s' & -> & Hi' & Hacc'). by exists s'.
Qed.

Lemma concat_groups (gs : list (list (list byte))) : concat (concat (A:=byte) <$> gs) = concat (concat gs).
Proof. induction gs as [|g gs IH]; [done|]. cbn. by rewrite IH, concat_app. Qed.

(** C19: from statement to file.  For any log statements of any threads, with any
    changes of level, interleaved with the back end in any way: no assertion fails
    anywhere.  The lines of the statements the level admits, up to a fatal one, each
    once and in the order of the statements, are those of the batches the back end has
    taken over and then those still in buffers.  The files, one after the other, have
    the pieces of every batch in order, each piece whole in one file: the texts of its
    buffers, or, of a batch of more than 25 buffers, a message and the first two.  So as
    long as no batch is that large the files and the buffers hold exactly the lines. *)
Theorem log_pipeline_correct tz level basename rollSize now es :
  Byte.x2f ∉ basename -> 0 < now -> 0 <= rollSize -> Forall (keeps tz) es ->
  exists s, (s ← pipe_start tz level basename rollSize now; pipe_run es s) = Ok s /\
    (exists gs, LogFile.content <$> LogFile.files (log s) = concat (A:=byte) <$> gs /\
       concat gs = concat (batch_pieces <$> AsyncLogging.written (async s))) /\
    concat (logged tz es level) = concat (concat (snd <$> AsyncLogging.written (async s))) ++ AsyncLogging.unwritten (async s) /\
    (Forall (fun b => (length b.2 <= 25)%nat) (AsyncLogging.written (async s)) ->
     concat (LogFile.content <$> LogFile.files (log s)) ++ AsyncLogging.unwritten (async s) = concat (logged tz es level)).
Proof.
  intros Hb Hnow Hr Hes. unfold pipe_start.
  destruct (LogFile.new_log_inv fopen hostname pid fopen_ok basename rollSize 3 1024 now Hb Hnow) as (l & -> & Hl & Hrs & _). bind_simpl.
  set (s0 := mkPipeline _ _ _). assert (inv tz s0) as Hi0.
  { split; [split; [done|by intros t x; change (Logging.locals (loggers s0)) with (∅ : gmap Z Logging.Locals); rewrite lookup_empty|done]|apply AsyncLogging.started_inv, SIZE_ok|].
    split; [cbn; lia|]. by exists [], []. }
  destruct (pipe_run_spec tz es s0 Hi0 eq_refl Hes) as (s & -> & [_ Ha (_ & gs & g & Hf & Ht)] & Hacc). exists s.
  pose proof (LogFile.f_content _ _ _ _ Hf) as Hc.
  split; [done|]. split; [by exists (gs ++ [g])|]. change (AsyncLogging.accepted (async s0)) with (@nil byte) in Hacc.
  rewrite app_nil_l in Hacc. change (Logging.g_logLevel (loggers s0)) with level in Hacc. rewrite <- Hacc, (AsyncLogging.l_accepted _ _ Ha).
  split; [done|]. intros Hsmall. by rewrite Hc, concat_groups, Ht, concat_batches, AsyncLogging.small_batches.
Qed.
End pipeline.

(** ** Witness *)

Definition sample_statement (m : Logging.macro) (line : Z) : Logging.statement :=
  Logging.mkStatement m 41 1000000000000000 0 (bytes "a/b/c.cc") line (bytes "f") [].

Definition sample_events : list event :=
  [Program (Logging.Log (sample_statement Logging.LOG_INFO 7)); Program (Logging.Log (sample_statement Logging.LOG_DEBUG 8));
   Backend 5 (fun _ => (6, 7)); Backend 5 (fun _ => (6, 7)); Backend 5 (fun _ => (6, 7)); Program (Logging.Log (sample_statement Logging.LOG_WARN 9));
   Backend 5 (fun _ => (6, 7)); Program (Logging.Log (sample_statement Logging.LOG_FATAL 10)); Backend 5 (fun _ => (6, 7))].

Lemma sample_statement_ok m line : - 2 ^ 31 <= line < 2 ^ 31 -> Logging.statement_ok None (sample_statement m line).
Proof.
  intros Hl. split; cbn [sample_statement Logging.st_tid Logging.st_time Logging.st_errno Logging.st_line Logging.st_file Logging.st_items]; try lia; try done.
  apply Logging.utc_stamp. vm_compute. split; congruence.
Qed.

Lemma log_pipeline_correct_witness :
  exists s, (s ← pipe_start (fun _ => true) (bytes "host") 5 8000 None Logging.INFO (bytes "app") 1000 1;
             pipe_run Logging.sample_strerror (fun _ len => len) (fun _ => true) (bytes "host") 5 8000 sample_events s) = Ok s /\
    exists gs, LogFile.content <$> LogFile.files (log s) = concat (A:=byte) <$> gs /\
      concat gs = concat (batch_pieces <$> AsyncLogging.written (async s)).
Proof.
  destruct (log_pipeline_correct Logging.sample_strerror (fun _ len => len) (fun _ => true) (bytes "host") 5 8000) with
    (tz := None : TimeZone.TimeZone) (level := Logging.INFO) (basename := bytes "app") (rollSize := 1000) (now := 1) (es := sample_events)
    as (s & E & (gs & Hgs & Hcat) & _).
  - vm_compute. split; congruence.
  - intros i len H. lia.
  - intros i len H. exact H.
  - reflexivity.
  - apply (bool_decide_unpack _). vm_compute. exact I.
  - lia.
  - lia.
  - repeat (apply Forall_cons; split; [first [exact I|apply sample_statement_ok; lia]|]). apply Forall_nil. exact I.
  - exists s. split; [exact E|]. exists gs. split; [exact Hgs|exact Hcat].
Defined.

(** A fatal statement ends the process without waiting for the back end: its own line,
    like all others still in the buffers, does not reach the files. *)
Theorem fatal_line_is_lost :
  match (s ← pipe_start (fun _ => true) (bytes "host") 5 8000 None Logging.INFO (bytes "app") 1000 1;
         pipe_run Logging.sample_strerror (fun _ len => len) (fun _ => true) (bytes "host") 5 8000 sample_events s) with
  | Ok s => LogFile.content <$> LogFile.files (log s) = [bytes "20010909 01:46:40.000000Z    41 INFO   - c.cc:7" ++ [Byte.x0a]] /\
      AsyncLogging.unwritten (async s) =
        bytes "20010909 01:46:40.000000Z    41 WARN   - c.cc:9" ++ [Byte.x0a] ++ bytes "20010909 01:46:40.000000Z    41 FATAL  - c.cc:10" ++ [Byte.x0a]
  | Err _ => False
  end.
Proof. vm_compute. split; reflexivity. Qed.
End LogPipeline.
