(* ===== verification/Monitor.v ===== *)
(** * Mutexes, condition variables and the objects they guard
    ([src/base/Mutex.h], [src/base/Condition.h])

    The synchronised classes of [src/base] have one shape: a method locks
    [mutex_], waits on a condition in a while loop, changes the guarded members,
    notifies and unlocks.  An object is given by what a method does once it has
    the lock: wait, or finish with new members, a result and notifications.
    Threads interleave at the locks; a notification wakes one waiting thread of
    the scheduler's choice, and any waiting thread may wake up spuriously.

    The laws [MonitorLaws] say that the notifications keep up with the work: if
    they hold, no thread is left waiting for something that is there. *)

From S2P Require Import Prelude.

Module Monitor.

(** ** [MutexLock]: the pthread mutex and [holder_] *)

Record MutexLock := mkMutex { mutex_ : option nat; holder_ : option nat }.

Definition new_mutex : MutexLock := mkMutex None None.
Definition assignHolder (tid : nat) (m : MutexLock) : MutexLock := mkMutex (mutex_ m) (Some tid).
Definition unassignHolder (m : MutexLock) : MutexLock := mkMutex (mutex_ m) None.
(** [lock()] blocks while another thread has the mutex. *)
Definition lock (tid : nat) (m : MutexLock) : option MutexLock :=
  match mutex_ m with
  | None => Some (assignHolder tid (mkMutex (Some tid) (holder_ m)))
  | Some _ => None
  end.
Definition unlock (m : MutexLock) : MutexLock := mkMutex None (holder_ (unassignHolder m)).
Definition isLockedByThisThread (tid : nat) (m : MutexLock) : bool := bool_decide (holder_ m = Some tid).
Definition assertLocked (tid : nat) (m : MutexLock) : outcome unit := assert_ (isLockedByThisThread tid m).

(** [Condition::wait] gives the mutex up under an [UnassignGuard]. *)
Definition wait_release (m : MutexLock) : MutexLock := mkMutex None (holder_ (unassignHolder m)).

(** ** Counting threads *)
Section count.
Context {A : Type} (P : A -> bool).

Definition count (l : list A) : nat := length (List.filter P l).

Definition one (x : A) : nat := if P x then 1%nat else 0%nat.

Lemma count_cons x l : count (x :: l) = (one x + count l)%nat.
Proof. unfold count, one. cbn. by destruct (P x). Qed.

Lemma count_insert l i x y : l !! i = Some x -> (count (<[i := y]> l) + one x = count l + one y)%nat.
Proof.
  revert i. induction l as [|z l IH]; intros [|i] Hi; cbn in Hi; simplify_eq.
  - change (<[0%nat := y]> (x :: l)) with (y :: l). rewrite !count_cons. lia.
  - change (<[S i := y]> (z :: l)) with (z :: <[i := y]> l). rewrite !count_cons. specialize (IH i Hi). lia.
Qed.

Lemma count_pos l : (0 < count l)%nat <-> exists i x, l !! i = Some x /\ P x = true.
Proof.
  induction l as [|z l IH].
  - split; [unfold count; cbn; lia|]. intros (i & x & Hi & _). by rewrite lookup_nil in Hi.
  - rewrite count_cons. unfold one. split.
    + destruct (P z) eqn:E; [intros _; by exists 0%nat, z|]. intros (i & x & Hi & Hx)%IH. by exists (S i), x.
    + intros ([|i] & x & Hi & Hx); cbn in Hi; [simplify_eq; rewrite Hx; lia|].
      enough (0 < count l)%nat by lia. apply IH. by exists i, x.
Qed.
End count.

#[global] Arguments count {A} P l : simpl never.

Lemma count_map_ge {A B} (P : A -> bool) (Q : B -> bool) (f : A -> B) l :
  (forall x, P x = true -> Q (f x) = true) -> (count P l <= count Q (f <$> l))%nat.
Proof.
  intros H. induction l as [|x l IH]; [done|]. rewrite fmap_cons, !count_cons. unfold one.
  destruct (P x) eqn:E; [rewrite H by done; lia|lia].
Qed.

Lemma count_map_le {A B} (P : A -> bool) (Q : B -> bool) (f : A -> B) l :
  (forall x, Q (f x) = true -> P x = true) -> (count Q (f <$> l) <= count P l)%nat.
Proof.
  intros H. induction l as [|x l IH]; [done|]. rewrite fmap_cons, !count_cons. unfold one.
  destruct (Q (f x)) eqn:E; [rewrite H by done; lia|lia].
Qed.

(** Sums over the threads' programs. *)
Lemma sum_insert {A} (f : A -> nat) l i x y :
  l !! i = Some x -> (sum_list_with f (<[i := y]> l) + f x = sum_list_with f l + f y)%nat.
Proof.
  revert i. induction l as [|z l IH]; intros [|i] Hi; cbn in Hi; simplify_eq.
  - change (<[0%nat := y]> (x :: l)) with (y :: l). cbn. lia.
  - change (<[S i := y]> (z :: l)) with (z :: <[i := y]> l). cbn. specialize (IH i Hi). lia.
Qed.

Lemma sum_delete {A} (f : A -> nat) l i x : l !! i = Some x -> (sum_list_with f l = f x + sum_list_with f (delete i l))%nat.
Proof.
  revert i. induction l as [|z l IH]; intros [|i] Hi; cbn in Hi; simplify_eq.
  - change (delete 0%nat (x :: l)) with l. cbn. lia.
  - change (delete (S i) (z :: l)) with (z :: delete i l). cbn. specialize (IH i Hi). lia.
Qed.

Lemma sum_pos {A} (f : A -> nat) l : (0 < sum_list_with f l)%nat -> exists i x, l !! i = Some x /\ (0 < f x)%nat.
Proof.
  induction l as [|z l IH]; cbn; [lia|]. intros H. destruct (decide (0 < f z)%nat); [by exists 0%nat, z|].
  destruct IH as (i & x & Hi & Hx); [lia|]. by exists (S i), x.
Qed.

Lemma sum_map_le {A} (f g : A -> nat) (h : A -> A) n l :
  (forall x, f (h x) <= g x + n)%nat -> (sum_list_with f (h <$> l) <= sum_list_with g l + n * length l)%nat.
Proof. intros H. induction l as [|x l IH]; cbn; [lia|]. specialize (H x). lia. Qed.

(** ** Objects guarded by a mutex *)

Inductive signal (C : Type) := Notify (c : C) | NotifyAll (c : C).
Arguments Notify {C} c.
Arguments NotifyAll {C} c.

#[global] Instance signal_eq_dec {C} `{!EqDecision C} : EqDecision (signal C).
Proof. solve_decision. Defined.

(** Counts the notifications of a list given in full. *)
Ltac count_signals := repeat first [rewrite decide_True by done | rewrite decide_False by done]; cbn [length].

(** What a method does when it has the lock and evaluates its loop condition. *)
Inductive verdict (St C Ret : Type) :=
  | Wait (c : C)
  | Done (s : St) (r : Ret) (sigs : list (signal C))
  | Fails (e : error).
Arguments Wait {St C Ret} c.
Arguments Done {St C Ret} s r sigs.
Arguments Fails {St C Ret} e.

(** The guarded members [St], the conditions [C], the methods with their
    arguments [Call], and [cond_of], the condition a method may wait on. *)
Class Monitor (St C Call Ret : Type) := {
  body : Call -> St -> verdict St C Ret;
  cond_of : Call -> option C }.

(** The programs of the threads: the method a thread is in or about to enter,
    how it goes on with the result, and its steps outside the object, which may
    look at the members without the lock. *)
Class Program (St Call Ret L : Type) := {
  request : L -> option Call;
  resume : L -> Ret -> L;
  local : L -> St -> option (L * St) }.

Inductive status (C : Type) := Outside | Inside | Waiting (c : C).
Arguments Outside {C}.
Arguments Inside {C}.
Arguments Waiting {C} c.

Section monitor.
Context {St C Call Ret L : Type} `{!EqDecision C} `{!Monitor St C Call Ret} `{!Program St Call Ret L}.

Abbreviation thread := (L * status C)%type.
Abbreviation config := (St * MutexLock * list thread)%type.

Definition waiting (c : C) (t : thread) : bool :=
  match t.2 with Waiting c' => bool_decide (c' = c) | _ => false end.
(** Threads that are awake in a method that can wait on [c], or about to call it. *)
Definition awake (c : C) (t : thread) : bool :=
  match t.2 with
  | Waiting _ => false
  | _ => match request t.1 with Some m => bool_decide (cond_of m = Some c) | None => false end
  end.

Definition wake (c : C) (t : thread) : thread := if waiting c t then (t.1, Outside) else t.

(** [pthread_cond_signal] and [pthread_cond_broadcast] *)
Inductive signalled : list (signal C) -> list thread -> list thread -> Prop :=
  | no_signal ths : signalled [] ths ths
  | notify_none c sigs ths ths' :
      count (waiting c) ths = 0%nat -> signalled sigs ths ths' -> signalled (Notify c :: sigs) ths ths'
  | notify_one c sigs ths ths' i t :
      ths !! i = Some t -> waiting c t = true -> signalled sigs (<[i := (t.1, Outside)]> ths) ths' ->
      signalled (Notify c :: sigs) ths ths'
  | notify_all c sigs ths ths' :
      signalled sigs (wake c <$> ths) ths' -> signalled (NotifyAll c :: sigs) ths ths'.

(** A step of thread [tid] that is not a spurious wakeup. *)
Inductive progress (tid : nat) : config -> config -> Prop :=
  | step_lock s m m' ths l call :
      ths !! tid = Some (l, Outside) -> request l = Some call -> lock tid m = Some m' ->
      progress tid (s, m, ths) (s, m', <[tid := (l, Inside)]> ths)
  | step_wait s m ths l call c :
      ths !! tid = Some (l, Inside) -> request l = Some call -> body call s = Wait c ->
      progress tid (s, m, ths) (s, wait_release m, <[tid := (l, Waiting c)]> ths)
  | step_done s m ths ths' l call s' r sigs :
      ths !! tid = Some (l, Inside) -> request l = Some call -> body call s = Done s' r sigs ->
      signalled sigs (<[tid := (resume l r, Outside)]> ths) ths' ->
      progress tid (s, m, ths) (s', unlock m, ths')
  | step_local s m ths l l' s' :
      ths !! tid = Some (l, Outside) -> request l = None -> local l s = Some (l', s') ->
      progress tid (s, m, ths) (s', m, <[tid := (l', Outside)]> ths).

Inductive step : config -> config -> Prop :=
  | step_progress tid c c' : progress tid c c' -> step c c'
  | step_spurious s m ths tid l c :
      ths !! tid = Some (l, Waiting c) -> step (s, m, ths) (s, m, <[tid := (l, Outside)]> ths).

Definition start (s : St) (ls : list L) : config := (s, new_mutex, (fun l => (l, Outside)) <$> ls).

(** No thread can do anything but wake up spuriously. *)
Definition stuck (c : config) : Prop := forall tid c', ~ progress tid c c'.

(** ** Laws: notifications keep up

    [demand s c] is the number of threads waiting on [c] that could go on, [None]
    when all could. *)
Class MonitorLaws (inv : St -> Prop) (demand : St -> C -> option nat) : Prop := {
  law_wait m s c : inv s -> body m s = Wait c -> cond_of m = Some c /\ demand s c = Some 0%nat;
  law_safe m s : inv s -> forall e, body m s <> Fails e;
  law_inv m s s' r sigs : inv s -> body m s = Done s' r sigs -> inv s';
  law_signal m s s' r sigs c : inv s -> body m s = Done s' r sigs -> NotifyAll c ∉ sigs ->
    match demand s c, demand s' c with
    | Some n, Some n' =>
        (n' + (if decide (cond_of m = Some c) then 1 else 0) <= n + length (filter (fun x => x = Notify c) sigs))%nat
    | None, _ => True
    | Some _, None => False
    end;
  law_local l s l' s' : inv s -> local l s = Some (l', s') -> inv s' /\ forall c, demand s' c = demand s c }.

(** ** The invariant of a monitor *)

Definition typed (ths : list thread) : Prop :=
  forall i l c, ths !! i = Some (l, Waiting c) -> exists m, request l = Some m /\ cond_of m = Some c.

Lemma waiting_wake c c0 t : waiting c (wake c0 t) = true -> waiting c t = true /\ c <> c0.
Proof.
  unfold wake. destruct (waiting c0 t) eqn:E; [done|]. intros Hw. split; [done|]. intros ->. congruence.
Qed.

Lemma awake_wake c c0 t : awake c t = true -> awake c (wake c0 t) = true.
Proof. unfold wake, waiting, awake. by destruct t as [l []]. Qed.

(** The shape of a thread's status after notifications. *)
Definition woken (ths ths' : list thread) : Prop :=
  forall i, ths' !! i = ths !! i \/
    exists l c, ths !! i = Some (l, Waiting c) /\ ths' !! i = Some (l, Outside).

Lemma woken_refl ths : woken ths ths.
Proof. by left. Qed.

Lemma woken_trans a b c : woken a b -> woken b c -> woken a c.
Proof.
  intros H1 H2 i. destruct (H1 i) as [E1|(l & x & E1 & E1')], (H2 i) as [E2|(l2 & x2 & E2 & E2')].
  - left. by rewrite E2.
  - right. exists l2, x2. by rewrite <- E1.
  - right. exists l, x. by rewrite E2.
  - by rewrite E1' in E2.
Qed.

Lemma woken_typed ths ths' : woken ths ths' -> typed ths -> typed ths'.
Proof.
  intros Hw Ht i l c Hi. destruct (Hw i) as [E|(l2 & x & _ & E)]; [|by rewrite E in Hi]. eapply Ht. by rewrite <- E.
Qed.

Lemma woken_one ths i t c : ths !! i = Some t -> waiting c t = true -> woken ths (<[i := (t.1, Outside)]> ths).
Proof.
  intros Hi Hw j. destruct (decide (i = j)) as [<-|Hne]; [|left; by rewrite list_lookup_insert_ne].
  right. destruct t as [l st]. unfold waiting in Hw. cbn in *. destruct st as [| |c']; [done..|].
  exists l, c'. split; [done|]. apply list_lookup_insert_eq. by eapply lookup_lt_Some.
Qed.

Lemma woken_all c ths : woken ths (wake c <$> ths).
Proof.
  intros i. rewrite list_lookup_fmap. destruct (ths !! i) as [[l st]|] eqn:E; [|by left]. cbn. unfold wake, waiting. cbn.
  destruct st as [| |c']; [by left..|]. case_bool_decide; [|by left]. right. by exists l, c'.
Qed.

Lemma signalled_woken sigs ths ths' : signalled sigs ths ths' -> woken ths ths'.
Proof.
  induction 1; [apply woken_refl|done| |].
  - eapply woken_trans; [by eapply woken_one|done].
  - eapply woken_trans; [apply woken_all|done].
Qed.

(** Notifications always go through. *)
Lemma signal_exists sigs ths : exists ths', signalled sigs ths ths'.
Proof.
  revert ths. induction sigs as [|[c|c] sigs IH]; intros ths; [by exists ths; constructor| |].
  - destruct (decide (0 < count (waiting c) ths)%nat) as [(i & t & Hi & Hw)%count_pos|Hz].
    + destruct (IH (<[i := (t.1, Outside)]> ths)) as [ths' H]. exists ths'. by eapply notify_one.
    + destruct (IH ths) as [ths' H]. exists ths'. apply notify_none; [lia|done].
  - destruct (IH (wake c <$> ths)) as [ths' H]. exists ths'. by apply notify_all.
Qed.

(** Fewer threads wait, and those notified are awake, unless none waits any more. *)
Lemma signalled_counts sigs ths ths' c :
  signalled sigs ths ths' -> typed ths ->
  (count (waiting c) ths' <= count (waiting c) ths)%nat /\
  (NotifyAll c ∈ sigs -> count (waiting c) ths' = 0%nat) /\
  ((0 < count (waiting c) ths')%nat ->
   (count (awake c) ths + length (filter (fun x => x = Notify c) sigs) <= count (awake c) ths')%nat).
Proof.
  intros Hs. induction Hs as [ths|c0 sigs ths ths' Hz Hs IH|c0 sigs ths ths' i t Hi Hw Hs IH|c0 sigs ths ths' Hs IH];
    intros Ht.
  - split_and!; [lia|by intros ?%elem_of_nil|cbn; lia].
  - destruct (IH Ht) as (H1 & H2 & H3). split_and!; [done| |].
    + intros [?|?]%elem_of_cons; [done|auto].
    + intros Hp. rewrite filter_cons_False; [auto|]. intros [= ->]. lia.
  - assert (typed (<[i := (t.1, Outside)]> ths)) as Ht1 by (eapply woken_typed; [by eapply woken_one|done]).
    destruct (IH Ht1) as (H1 & H2 & H3).
    pose proof (count_insert (waiting c) ths i t (t.1, Outside) Hi) as Cw.
    pose proof (count_insert (awake c) ths i t (t.1, Outside) Hi) as Ca.
    unfold one in Cw, Ca. change (waiting c (t.1, Outside)) with false in Cw.
    destruct t as [l st]. unfold waiting in Hw. cbn in Hw. destruct st as [| |c']; [done..|].
    apply bool_decide_eq_true_1 in Hw as ->. change (awake c (l, Waiting c0)) with false in Ca.
    destruct (Ht i l c0 Hi) as (m & Hm & Hc). cbn [fst] in *.
    assert (awake c (l, Outside) = bool_decide (c0 = c)) as Ha.
    { unfold awake. cbn. rewrite Hm, Hc. apply bool_decide_ext. naive_solver. }
    rewrite Ha in Ca. change (waiting c (l, Waiting c0)) with (bool_decide (c0 = c)) in Cw.
    split_and!.
    + destruct (bool_decide _); lia.
    + intros [?|?]%elem_of_cons; [done|auto].
    + intros Hp. specialize (H3 Hp). destruct (decide (c0 = c)) as [->|Hne].
      * rewrite filter_cons_True by done. rewrite bool_decide_eq_true_2 in Ca by done. cbn [length]. lia.
      * rewrite filter_cons_False by congruence. rewrite bool_decide_eq_false_2 in Ca by done. lia.
  - assert (typed (wake c0 <$> ths)) as Ht1 by (eapply woken_typed; [apply woken_all|done]).
    destruct (IH Ht1) as (H1 & H2 & H3).
    pose proof (count_map_le (waiting c) (waiting c) (wake c0) ths (fun x H => proj1 (waiting_wake _ _ _ H))) as Cw.
    pose proof (count_map_ge (awake c) (awake c) (wake c0) ths (awake_wake c c0)) as Ca.
    split_and!; [lia| |].
    + intros [[= <-]|?]%elem_of_cons; [|auto].
      enough (count (waiting c) (wake c <$> ths) = 0%nat) by lia.
      enough (~ (0 < count (waiting c) (wake c <$> ths))%nat) by lia. intros (i & x & Hi & Hx)%count_pos.
      rewrite list_lookup_fmap in Hi. destruct (ths !! i); cbn in Hi; [|done]. simplify_eq.
      by apply waiting_wake in Hx as [_ ?].
    + intros Hp. specialize (H3 Hp). rewrite filter_cons_False by done. lia.
Qed.

Section laws.
Context (inv : St -> Prop) (demand : St -> C -> option nat) `{!MonitorLaws inv demand}.

(** Wherever threads wait, at least as many others are awake as could go on. *)
Definition keeps_up (s : St) (ths : list thread) : Prop :=
  forall c, (0 < count (waiting c) ths)%nat -> exists n, demand s c = Some n /\ (n <= count (awake c) ths)%nat.

Record cinv (c : config) : Prop := {
  ci_inv : inv c.1.1;
  ci_holder : holder_ c.1.2 = mutex_ c.1.2;
  ci_mutex tid : mutex_ c.1.2 = Some tid <-> exists l, c.2 !! tid = Some (l, Inside);
  ci_request i l : c.2 !! i = Some (l, Inside) -> is_Some (request l);
  ci_typed : typed c.2;
  ci_keeps : keeps_up c.1.1 c.2 }.

(** A change of one thread that does not put it to sleep. *)
Lemma counts_change ths i (t t' : thread) c :
  ths !! i = Some t -> waiting c t' = false ->
  (count (waiting c) (<[i := t']> ths) <= count (waiting c) ths)%nat /\
  (count (awake c) ths + one (awake c) t' <= count (awake c) (<[i := t']> ths) + one (awake c) t)%nat.
Proof.
  intros Hi Hw. pose proof (count_insert (waiting c) ths i t t' Hi) as Cw.
  pose proof (count_insert (awake c) ths i t t' Hi) as Ca. unfold one in *. rewrite Hw in Cw. lia.
Qed.

Lemma keeps_up_change s ths i t t' :
  keeps_up s ths -> ths !! i = Some t -> (forall c, waiting c t' = false) ->
  (forall c, one (awake c) t <= one (awake c) t')%nat -> keeps_up s (<[i := t']> ths).
Proof.
  intros Hk Hi Hw Ha c Hp. destruct (counts_change ths i t t' c Hi (Hw c)) as [Cw Ca].
  destruct (Hk c) as (n & Hn & Hle); [lia|]. exists n. split; [done|]. specialize (Ha c). lia.
Qed.

Lemma typed_change ths i l st : typed ths -> (forall c, st <> Waiting c) -> typed (<[i := (l, st)]> ths).
Proof.
  intros Ht Hst j l' c. rewrite list_lookup_insert_Some. intros [(-> & E & _)|[_ Hj]]; [|eauto].
  injection E as -> ->. by destruct (Hst c).
Qed.

(** Who is inside after thread [i] changed to [(l, st)]. *)
Lemma inside_change (ths : list thread) i l (st : status C) tid :
  (exists l', <[i := (l, st)]> ths !! tid = Some (l', Inside)) <->
  (tid = i /\ (i < length ths)%nat /\ st = Inside) \/ (tid <> i /\ exists l', ths !! tid = Some (l', Inside)).
Proof.
  setoid_rewrite list_lookup_insert_Some. split.
  - intros (l' & [(-> & E & Hl)|[Hne Hi]]); [left; by injection E|right; eauto].
  - intros [(-> & Hl & ->)|[Hne (l' & Hi)]]; [exists l; by left|exists l'; by right].
Qed.

Lemma cinv_lock s m m' ths tid l call :
  cinv (s, m, ths) -> ths !! tid = Some (l, Outside) -> request l = Some call -> lock tid m = Some m' ->
  cinv (s, m', <[tid := (l, Inside)]> ths).
Proof.
  intros [Hinv Hh Hm Hr Ht Hk] Hi Hreq E. cbn in *. unfold lock in E. destruct (mutex_ m) eqn:Em; [done|].
  injection E as <-. pose proof (lookup_lt_Some _ _ _ Hi) as Hlen. split; cbn; try done.
  - intros tid'. rewrite inside_change. split; [intros [= ->]; by left|].
    intros [(-> & _)|[_ Hx]]; [done|]. by apply Hm in Hx.
  - intros i l'. rewrite list_lookup_insert_Some. intros [(-> & E & _)|[_ ?]]; [injection E as ->; by rewrite Hreq|eauto].
  - by apply typed_change.
  - eapply keeps_up_change; [done|done|done|]. intros c. unfold one, awake. cbn. lia.
Qed.

Lemma cinv_wait s m ths tid l call c :
  cinv (s, m, ths) -> ths !! tid = Some (l, Inside) -> request l = Some call -> body call s = Wait c ->
  cinv (s, wait_release m, <[tid := (l, Waiting c)]> ths).
Proof.
  intros [Hinv Hh Hm Hr Ht Hk] Hi Hreq E. cbn in *. destruct (law_wait call s c Hinv E) as [Hc Hd].
  pose proof (lookup_lt_Some _ _ _ Hi) as Hlen. assert (mutex_ m = Some tid) as Hmt by (apply Hm; eauto).
  split; cbn; try done.
  - intros tid'. rewrite inside_change. split; [done|]. intros [(_ & _ & ?)|[Hne Hx]]; [done|].
    apply Hm in Hx. congruence.
  - intros i l'. rewrite list_lookup_insert_Some. intros [(-> & ? & _)|[_ ?]]; [done|eauto].
  - intros i l' c'. rewrite list_lookup_insert_Some. intros [(-> & [= <- <-] & _)|[_ ?]]; eauto.
  - intros c' Hp. destruct (decide (c' = c)) as [->|Hne]; [exists 0%nat; split; [done|lia]|].
    assert (waiting c' (l, Waiting c) = false) as Hw by (unfold waiting; cbn; by apply bool_decide_eq_false_2).
    destruct (counts_change ths tid (l, Inside) (l, Waiting c) c' Hi Hw) as [Cw Ca].
    destruct (Hk c') as (n & Hn & Hle); [lia|]. exists n. split; [done|].
    unfold one in Ca. assert (awake c' (l, Inside) = false) as Hf; [|rewrite Hf in Ca; lia].
    unfold awake. cbn. rewrite Hreq, Hc. apply bool_decide_eq_false_2. congruence.
Qed.

Lemma cinv_done s m ths ths' tid l call s' r sigs :
  cinv (s, m, ths) -> ths !! tid = Some (l, Inside) -> request l = Some call -> body call s = Done s' r sigs ->
  signalled sigs (<[tid := (resume l r, Outside)]> ths) ths' -> cinv (s', unlock m, ths').
Proof.
  intros [Hinv Hh Hm Hr Ht Hk] Hi Hreq E Hs. cbn in *.
  assert (mutex_ m = Some tid) as Hmt by (apply Hm; eauto). pose proof (signalled_woken _ _ _ Hs) as Hw.
  assert (typed (<[tid := (resume l r, Outside)]> ths)) as Ht1 by (by apply typed_change).
  assert (forall i l', ths' !! i = Some (l', Inside) -> i <> tid /\ ths !! i = Some (l', Inside)) as Hin.
  { intros i l' Hi'. destruct (Hw i) as [Ew|(l2 & x & _ & Ew)]; [|by rewrite Ew in Hi'].
    rewrite Ew, list_lookup_insert_Some in Hi'. destruct Hi' as [(_ & ? & _)|[? ?]]; done. }
  split; cbn.
  - by eapply law_inv.
  - done.
  - intros tid'. split; [done|]. intros (l' & [Hne Hx]%Hin).
    assert (mutex_ m = Some tid') by (apply Hm; eauto). congruence.
  - intros i l' [_ Hx]%Hin. eauto.
  - by eapply woken_typed.
  - intros c Hp. destruct (signalled_counts _ _ _ c Hs Ht1) as (Hle & Hall & Hge).
    destruct (counts_change ths tid (l, Inside) (resume l r, Outside) c Hi eq_refl) as [Cw Ca].
    destruct (Hk c) as (n & Hn & Hn'); [lia|]. specialize (Hge Hp).
    assert (NotifyAll c ∉ sigs) as Hna by (intros Hx; specialize (Hall Hx); lia).
    pose proof (law_signal call s s' r sigs c Hinv E Hna) as Hlaw. rewrite Hn in Hlaw.
    destruct (demand s' c) as [n'|]; [|done]. exists n'. split; [done|].
    assert (one (awake c) (l, Inside) = if decide (cond_of call = Some c) then 1 else 0)%nat as Ho.
    { unfold one, awake. cbn. rewrite Hreq. by case_decide; case_bool_decide. }
    rewrite Ho in Ca. lia.
Qed.

Lemma cinv_local s m ths tid l l' s' :
  cinv (s, m, ths) -> ths !! tid = Some (l, Outside) -> request l = None -> local l s = Some (l', s') ->
  cinv (s', m, <[tid := (l', Outside)]> ths).
Proof.
  intros [Hinv Hh Hm Hr Ht Hk] Hi Hreq E. cbn in *. destruct (law_local l s l' s' Hinv E) as [Hinv' Hd].
  split; cbn; try done.
  - intros tid'. rewrite inside_change, Hm. split.
    + intros (l2 & Hx). right. split; [|eauto]. intros ->. by rewrite Hi in Hx.
    + intros [(_ & _ & ?)|[_ ?]]; done.
  - intros i l2. rewrite list_lookup_insert_Some. intros [(_ & ? & _)|[_ ?]]; [done|eauto].
  - by apply typed_change.
  - intros c. rewrite Hd. revert c. change (keeps_up s (<[tid := (l', Outside)]> ths)).
    eapply keeps_up_change; [done|done|done|]. intros c. unfold one, awake. cbn. rewrite Hreq. lia.
Qed.

Lemma cinv_spurious s m ths tid l c :
  cinv (s, m, ths) -> ths !! tid = Some (l, Waiting c) -> cinv (s, m, <[tid := (l, Outside)]> ths).
Proof.
  intros [Hinv Hh Hm Hr Ht Hk] Hi. cbn in *. split; cbn; try done.
  - intros tid'. rewrite inside_change, Hm. split.
    + intros (l2 & Hx). right. split; [|eauto]. intros ->. by rewrite Hi in Hx.
    + intros [(_ & _ & ?)|[_ ?]]; done.
  - intros i l2. rewrite list_lookup_insert_Some. intros [(_ & ? & _)|[_ ?]]; [done|eauto].
  - by apply typed_change.
  - eapply keeps_up_change; [done|done|done|]. intros c'. unfold one at 1, awake. cbn. lia.
Qed.

Lemma cinv_step c c' : step c c' -> cinv c -> cinv c'.
Proof.
  intros [tid c1 c2 Hp|s m ths tid l x Hi] Hc; [|by eapply cinv_spurious]. destruct Hp.
  - by eapply cinv_lock.
  - by eapply cinv_wait.
  - by eapply cinv_done.
  - by eapply cinv_local.
Qed.

Lemma cinv_start s ls : inv s -> cinv (start s ls).
Proof.
  intros Hs. assert (forall i l st, (start s ls).2 !! i = Some (l, st) -> st = Outside) as Hout.
  { intros i l st. cbn. rewrite list_lookup_fmap. destruct (ls !! i); cbn; [|done]. by intros [= _ <-]. }
  split; cbn; try done.
  - intros tid. split; [done|]. intros (l & Hi). by apply Hout in Hi.
  - intros i l Hi. by apply Hout in Hi.
  - intros i l c Hi. by apply Hout in Hi.
  - intros c Hp. apply count_pos in Hp as (i & [l st] & Hi & Hw). apply Hout in Hi as ->. done.
Qed.

Lemma cinv_reachable s ls c : inv s -> rtc step (start s ls) c -> cinv c.
Proof. intros Hs Hr. eapply rtc_invariant, cinv_start; [|done..]. intros. by eapply cinv_step. Qed.

(** Code under the lock passes [assertLocked]. *)
Lemma inside_locked c tid l : cinv c -> c.2 !! tid = Some (l, Inside) -> assertLocked tid c.1.2 = Ok tt.
Proof.
  intros [_ Hh Hm _ _ _] Hi. unfold assertLocked, isLockedByThisThread. rewrite Hh, bool_decide_eq_true_2; [done|].
  apply Hm. eauto.
Qed.

(** A monitor in which nothing moves is unlocked. *)
Lemma stuck_unlocked c :
  cinv c -> stuck c -> mutex_ c.1.2 = None /\ forall i l, c.2 !! i <> Some (l, Inside).
Proof.
  intros [Hinv Hh Hm Hreq Ht Hk] Hst. destruct c as [[s m] ths]. cbn in *.
  assert (forall i l', ths !! i <> Some (l', Inside)) as Hnone.
  { intros i l' Hin. destruct (Hreq i l' Hin) as [call Hc]. destruct (body call s) as [w|s2 r sigs|e] eqn:E.
    - eapply (Hst i). by eapply step_wait.
    - destruct (signal_exists sigs (<[i := (resume l' r, Outside)]> ths)) as [ths' Hsig].
      eapply (Hst i). by eapply step_done.
    - by eapply law_safe. }
  split; [|done]. destruct (mutex_ m) as [t|]; [|done].
  destruct (proj1 (Hm t) eq_refl) as [l' Hl]. by apply Hnone in Hl.
Qed.

(** When nothing moves any more, a thread that is not waiting has nothing left to do. *)
Lemma stuck_threads c i l st :
  cinv c -> stuck c -> c.2 !! i = Some (l, st) ->
  match st with
  | Outside => request l = None /\ local l c.1.1 = None
  | Inside => False
  | Waiting _ => True
  end.
Proof.
  intros Hc Hst Hi. destruct (stuck_unlocked c Hc Hst) as [Hfree Hnone]. destruct c as [[s m] ths]. cbn in *.
  destruct st; [|by apply Hnone in Hi|done]. destruct (request l) as [call|] eqn:E.
  - exfalso. eapply (Hst i). eapply step_lock; [done|done|]. unfold lock. by rewrite Hfree.
  - split; [done|]. destruct (local l s) as [[l' s']|] eqn:El; [|done]. exfalso. eapply (Hst i). by eapply step_local.
Qed.

(** Then nobody waits in vain either. *)
Lemma stuck_waiters c tid l x :
  cinv c -> stuck c -> c.2 !! tid = Some (l, Waiting x) -> demand c.1.1 x = Some 0%nat.
Proof.
  intros Hc Hst Hi. pose proof (ci_keeps _ Hc x) as Hk. destruct Hk as (n & Hn & Hle).
  { apply count_pos. exists tid, (l, Waiting x). split; [done|]. unfold waiting. cbn. by apply bool_decide_eq_true_2. }
  rewrite Hn. f_equal. enough (~ (0 < count (awake x) c.2)%nat) by lia.
  intros (i & [l' st] & Hi' & Ha)%count_pos. pose proof (stuck_threads c i l' st Hc Hst Hi') as Hs.
  unfold awake in Ha. cbn in Ha. destruct st; [|done|done]. destruct Hs as [Hs _]. by rewrite Hs in Ha.
Qed.
End laws.

(** ** What a step does to the members and the programs *)

Definition locals (c : config) : list L := fst <$> c.2.

Lemma woken_locals ths ths' : woken ths ths' -> fst <$> ths' = fst <$> ths.
Proof.
  intros Hw. apply list_eq. intros i. rewrite !list_lookup_fmap.
  destruct (Hw i) as [->|(l & x & -> & ->)]; done.
Qed.

Lemma locals_insert (ths : list thread) i l st : fst <$> <[i := (l, st)]> ths = <[i := l]> (fst <$> ths).
Proof. by rewrite list_fmap_insert. Qed.

Lemma locals_same (ths : list thread) i l st st' :
  ths !! i = Some (l, st) -> fst <$> <[i := (l, st')]> ths = fst <$> ths.
Proof. intros Hi. rewrite locals_insert. apply list_insert_id. by rewrite list_lookup_fmap, Hi. Qed.

(** Only a method that finishes and a local step change them. *)
Lemma step_effect c c' :
  step c c' ->
  c'.1.1 = c.1.1 /\ locals c' = locals c \/
  exists i l, locals c !! i = Some l /\
    ((exists m r sigs, request l = Some m /\ body m c.1.1 = Done c'.1.1 r sigs /\
        locals c' = <[i := resume l r]> (locals c)) \/
     (exists l', request l = None /\ local l c.1.1 = Some (l', c'.1.1) /\ locals c' = <[i := l']> (locals c))).
Proof.
  unfold locals. intros [tid c1 c2 Hp|s m ths tid l x Hi]; [|left; split; [done|by eapply locals_same]].
  destruct Hp as [s m m' ths l call Hi Hr Hl|s m ths l call x Hi Hr Hb|s m ths ths' l call s' r sigs Hi Hr Hb Hs|
    s m ths l l' s' Hi Hr Hl]; cbn.
  - left. split; [done|]. by eapply locals_same.
  - left. split; [done|]. by eapply locals_same.
  - right. exists tid, l. rewrite list_lookup_fmap, Hi. split; [done|]. left. exists call, r, sigs.
    split_and!; [done|done|]. by rewrite (woken_locals _ _ (signalled_woken _ _ _ Hs)), locals_insert.
  - right. exists tid, l. rewrite list_lookup_fmap, Hi. split; [done|]. right. exists l'. by rewrite locals_insert.
Qed.

(** ** Running a schedule

    A notification wakes the first waiting thread. *)
Fixpoint first_waiting (c : C) (ths : list thread) : option nat :=
  match ths with
  | [] => None
  | t :: ths' => if waiting c t then Some 0%nat else S <$> first_waiting c ths'
  end.

Fixpoint do_signals (sigs : list (signal C)) (ths : list thread) : list thread :=
  match sigs with
  | [] => ths
  | Notify c :: sigs' =>
      do_signals sigs'
        (match first_waiting c ths with
         | Some i => match ths !! i with Some t => <[i := (t.1, Outside)]> ths | None => ths end
         | None => ths
         end)
  | NotifyAll c :: sigs' => do_signals sigs' (wake c <$> ths)
  end.

Definition exec (tid : nat) (c : config) : option config :=
  let '(s, m, ths) := c in
  match ths !! tid with
  | Some (l, Outside) =>
      match request l with
      | Some _ => (fun m' => (s, m', <[tid := (l, Inside)]> ths)) <$> lock tid m
      | None => (fun r => (r.2, m, <[tid := (r.1, Outside)]> ths)) <$> local l s
      end
  | Some (l, Inside) =>
      match request l with
      | Some call =>
          match body call s with
          | Wait w => Some (s, wait_release m, <[tid := (l, Waiting w)]> ths)
          | Done s' r sigs => Some (s', unlock m, do_signals sigs (<[tid := (resume l r, Outside)]> ths))
          | Fails _ => None
          end
      | None => None
      end
  | _ => None
  end.

Lemma first_waiting_spec c ths :
  match first_waiting c ths with
  | Some i => exists t, ths !! i = Some t /\ waiting c t = true
  | None => count (waiting c) ths = 0%nat
  end.
Proof.
  induction ths as [|t ths IH]; [done|]. cbn [first_waiting]. destruct (waiting c t) eqn:E; [by exists t|].
  destruct (first_waiting c ths) as [i|]; cbn; [done|]. rewrite count_cons. unfold one. by rewrite E.
Qed.

Lemma do_signals_ok sigs ths : signalled sigs ths (do_signals sigs ths).
Proof.
  revert ths. induction sigs as [|[c|c] sigs IH]; intros ths; cbn [do_signals]; [constructor| |by constructor].
  pose proof (first_waiting_spec c ths) as H. destruct (first_waiting c ths) as [i|]; [|by constructor].
  destruct H as (t & Hi & Hw). rewrite Hi. by eapply notify_one.
Qed.

Lemma exec_progress tid c c' : exec tid c = Some c' -> progress tid c c'.
Proof.
  destruct c as [[s m] ths]. unfold exec. destruct (ths !! tid) as [[l st]|] eqn:Ei; [|done].
  destruct st; [| |done]; destruct (request l) as [call|] eqn:Er; [| | |done].
  - destruct (lock tid m) eqn:El; cbn; [|done]. intros [= <-]. by eapply step_lock.
  - destruct (local l s) as [[l' s']|] eqn:El; cbn; [|done]. intros [= <-]. by eapply step_local.
  - destruct (body call s) eqn:Eb; [| |done]; intros [= <-]; [by eapply step_wait|].
    eapply step_done; [done..|]. apply do_signals_ok.
Qed.

Lemma exec_stuck (c : config) : Forall (fun tid => exec tid c = None) (seq 0 (length c.2)) -> stuck c.
Proof.
  intros Hall tid c' Hp. rewrite Forall_forall in Hall. destruct c as [[s m] ths]. cbn in *.
  assert (forall l st, ths !! tid = Some (l, st) -> exec tid (s, m, ths) = None) as Hx.
  { intros l st Hi. apply Hall, elem_of_seq. apply lookup_lt_Some in Hi. lia. }
  inversion Hp as [? ? m' ? l call Hi Hr Hl|? ? ? l call w Hi Hr Hb|? ? ? ths' l call s' r sigs Hi Hr Hb Hs|
    ? ? ? l l' s' Hi Hr Hl]; subst; specialize (Hx _ _ Hi); unfold exec in Hx; rewrite Hi, Hr in Hx;
    first [rewrite Hl in Hx; done | rewrite Hb in Hx; done].
Qed.

Fixpoint run_schedule (tids : list nat) (c : config) : option config :=
  match tids with
  | [] => Some c
  | tid :: tids' => exec tid c ≫= run_schedule tids'
  end.

Lemma run_schedule_steps tids c c' : run_schedule tids c = Some c' -> rtc step c c'.
Proof.
  revert c. induction tids as [|tid tids IH]; intros c E; cbn in E; [by simplify_eq|].
  destruct (exec tid c) as [c1|] eqn:E1; [|done]. eapply rtc_l; [|by apply IH]. eapply step_progress. by apply exec_progress.
Qed.

Lemma signalled_length sigs (ths ths' : list thread) : signalled sigs ths ths' -> length ths' = length ths.
Proof. induction 1; [done|done| |]; by rewrite IHsignalled, ?length_insert, ?length_fmap. Qed.

Lemma step_length (c c' : config) : step c c' -> length c'.2 = length c.2.
Proof.
  intros [tid c1 c2 Hp|s m ths tid l x Hi]; [|by cbn; rewrite length_insert].
  destruct Hp as [| |? ? ? ? ? ? ? ? ? ? ? ? Hs|]; cbn; rewrite ?(signalled_length _ _ _ Hs); by rewrite ?length_insert.
Qed.

(** ** Coming to rest

    The work left in [N] threads: [weight] of each program, [stock] of the members,
    and what the status of a thread allows.  Where every call that finishes and every
    local step uses up work, notifications included, only finitely many steps are
    left, spurious wakeups apart. *)
Section work.
Context (weight : L -> St -> nat) (stock : St -> nat) (N : nat).

Definition status_weight (st : status C) : nat := match st with Outside => 3 | Inside => 2 | Waiting _ => 0 end.
Definition thread_weight (s : St) (t : thread) : nat := (weight t.1 s + status_weight t.2)%nat.
Definition work (c : config) : nat := (stock c.1.1 + sum_list_with (thread_weight c.1.1) c.2)%nat.
Definition signal_cost (sigs : list (signal C)) : nat :=
  sum_list_with (fun x => match x with Notify _ => 3 | NotifyAll _ => 3 * N end)%nat sigs.

Lemma signal_cost_cons x sigs :
  signal_cost (x :: sigs) = ((match x with Notify _ => 3 | NotifyAll _ => 3 * N end) + signal_cost sigs)%nat.
Proof. done. Qed.
Lemma thread_weight_eq s l st : thread_weight s (l, st) = (weight l s + status_weight st)%nat.
Proof. done. Qed.

Class Diminishing : Prop := {
  dim_done l m s s' r sigs : request l = Some m -> body m s = Done s' r sigs ->
    (stock s' + weight (resume l r) s' + signal_cost sigs + 2 <= stock s + weight l s)%nat;
  dim_done_others m s s' r sigs l : body m s = Done s' r sigs -> (weight l s' <= weight l s)%nat;
  dim_local l s l' s' : request l = None -> local l s = Some (l', s') -> (stock s' + weight l' s' < stock s + weight l s)%nat;
  dim_local_others l s l' s' l2 : local l s = Some (l', s') -> (weight l2 s' <= weight l2 s)%nat }.
Context `{!Diminishing}.

Lemma signalled_work s sigs ths ths' :
  signalled sigs ths ths' -> length ths = N ->
  (sum_list_with (thread_weight s) ths' <= sum_list_with (thread_weight s) ths + signal_cost sigs)%nat.
Proof.
  induction 1 as [ths|c sigs ths ths' _ _ IH|c sigs ths ths' i [l st] Hi Hw _ IH|c sigs ths ths' _ IH]; intros HN.
  - lia.
  - specialize (IH HN). rewrite signal_cost_cons. lia.
  - rewrite length_insert in IH. specialize (IH HN). cbn [fst] in IH. pose proof (sum_insert (thread_weight s) ths i (l, st) (l, Outside) Hi) as E.
    rewrite !thread_weight_eq in E. rewrite signal_cost_cons. cbn in E. lia.
  - rewrite length_fmap in IH. specialize (IH HN).
    pose proof (sum_map_le (thread_weight s) (thread_weight s) (wake c) 3 ths) as E. rewrite HN in E.
    assert (sum_list_with (thread_weight s) (wake c <$> ths) <= sum_list_with (thread_weight s) ths + 3 * N)%nat as E'.
    { apply E. intros [l st]. unfold wake, waiting, thread_weight. cbn. destruct st as [| |c']; cbn; [lia..|]. case_bool_decide; cbn; lia. }
    rewrite signal_cost_cons. lia.
Qed.

Lemma sum_others s s' (ths : list thread) :
  (forall l, weight l s' <= weight l s)%nat -> (sum_list_with (thread_weight s') ths <= sum_list_with (thread_weight s) ths)%nat.
Proof. intros Hle. induction ths as [|[l st] ths IH]; cbn; [lia|]. specialize (Hle l). rewrite !thread_weight_eq. lia. Qed.

Lemma progress_work tid c c' :
  length c.2 = N -> progress tid c c' -> (work c' < work c)%nat /\ length c'.2 = N.
Proof.
  intros HN Hp. unfold work.
  destruct Hp as [s m m' ths l call Hi Hr Hl|s m ths l call x Hi Hr Hb|s m ths ths' l call s' r sigs Hi Hr Hb Hs|s m ths l l' s' Hi Hr Hl];
    cbn [fst snd] in *.
  - pose proof (sum_insert (thread_weight s) ths tid _ (l, Inside) Hi) as E. rewrite !thread_weight_eq in E. cbn in E.
    rewrite length_insert. lia.
  - pose proof (sum_insert (thread_weight s) ths tid _ (l, Waiting x) Hi) as E. rewrite !thread_weight_eq in E. cbn in E.
    rewrite length_insert. lia.
  - pose proof (sum_insert (thread_weight s') ths tid _ (resume l r, Outside) Hi) as E. rewrite !thread_weight_eq in E. cbn in E.
    pose proof (signalled_work s' _ _ _ Hs ltac:(by rewrite length_insert)). pose proof (dim_done _ _ _ _ _ _ Hr Hb).
    pose proof (sum_others s s' (delete tid ths) (fun l => dim_done_others _ _ _ _ _ l Hb)) as Ho.
    pose proof (sum_delete (thread_weight s) ths tid _ Hi) as E1. pose proof (sum_delete (thread_weight s') ths tid _ Hi) as E2.
    rewrite thread_weight_eq in E1, E2. cbn in E1, E2.
    rewrite (signalled_length _ _ _ Hs), length_insert. lia.
  - pose proof (sum_insert (thread_weight s') ths tid _ (l', Outside) Hi) as E. rewrite !thread_weight_eq in E. cbn in E.
    pose proof (dim_local _ _ _ _ Hr Hl).
    pose proof (sum_others s s' (delete tid ths) (fun l2 => dim_local_others _ _ _ _ l2 Hl)) as Ho.
    pose proof (sum_delete (thread_weight s) ths tid _ Hi) as E1. pose proof (sum_delete (thread_weight s') ths tid _ Hi) as E2.
    rewrite thread_weight_eq in E1, E2. cbn in E1, E2.
    rewrite length_insert. lia.
Qed.

(** Steps other than spurious wakeups. *)
Definition moves (c c' : config) : Prop := exists tid, progress tid c c'.

Lemma moves_bounded k c c' : length c.2 = N -> nsteps moves k c c' -> (k <= work c)%nat.
Proof.
  intros HN Hk. revert HN. induction Hk as [c|k c c1 c' [tid Hp] _ IH]; intros HN; [lia|].
  destruct (progress_work tid c c1 HN Hp) as [Hw HN1]. specialize (IH HN1). lia.
Qed.

Lemma moves_end c : length c.2 = N -> exists c', rtc moves c c' /\ stuck c'.
Proof.
  remember (work c) as w eqn:Ew. revert c Ew. induction (lt_wf w) as [w _ IH]. intros c -> HN.
  destruct (decide (Forall (fun tid => exec tid c = None) (seq 0 (length c.2)))) as [Hall|Hex].
  { exists c. split; [done|]. by apply exec_stuck. }
  apply not_Forall_Exists, Exists_exists in Hex as (tid & _ & Hx); [|intros t; destruct (exec t c); [by right|by left]].
  destruct (exec tid c) as [c1|] eqn:E; [|done]. apply exec_progress in E.
  destruct (progress_work tid c c1 HN E) as [Hw HN1]. destruct (IH _ Hw c1 eq_refl HN1) as (c' & Hr & Hst).
  exists c'. split; [|done]. eapply rtc_l; [by exists tid|done].
Qed.
End work.
End monitor.

(** Threads that make a fixed sequence of calls. *)
#[global] Instance calls_program {St Call Ret} : Program St Call Ret (list Call) := {
  request l := head l;
  resume l _ := tail l;
  local _ _ := None }.
End Monitor.
