(* ===== verification/MutexLock.v ===== *)
(** * Mutexes and conditions, instruction by instruction
    ([src/base/Mutex.h], [src/base/Condition.h], [src/base/Condition.cpp])

    [Monitor] takes a critical section as one step.  Here the methods of
    [MutexLock] and [Condition] are the sequences of instructions they are made
    of, the instructions of the threads interleave, and [holder_] is read and
    written without protection of its own, as in the code.  Clients are typed by
    the annotations of the methods ([ACQUIRE], [RELEASE], [ASSERT_CAPABILITY]):
    what Clang's thread safety analysis checks. *)

From S2P Require Import Prelude Timestamp Monitor.

Module MutexLock.
Import Timestamp.

Definition tid := Z.

(** The pthread mutex, by the thread that owns it, and [holder_]. *)
Record MutexLock := mkMutexLock { mutex_ : option tid; holder_ : tid }.

(** A [Condition] of the mutex, by number. *)
Definition cond := nat.

Definition new_MutexLock : MutexLock := mkMutexLock None 0.

Definition isLockedByThisThread (t : tid) (m : MutexLock) : bool := holder_ m =? t.
Definition assertLocked (t : tid) (m : MutexLock) : outcome unit := assert_ (isLockedByThisThread t m).

(** [~MutexLock]; [pthread_mutex_destroy] of a locked mutex returns [EBUSY]. *)
Definition destroy (m : MutexLock) : outcome unit :=
  assert_ (holder_ m =? 0);;
  assert_ (bool_decide (mutex_ m = None)).

(** ** [Condition::waitForSeconds] *)

Definition kNanoSecondsPerSecond : Z := 1000000000.

(** [struct timespec] *)
Definition timespec : Type := Z * Z.
Definition nanos (ts : timespec) : Z := ts.1 * kNanoSecondsPerSecond + ts.2.

(** The absolute time at which the wait ends; a number of nanoseconds that does
    not fit [int64_t] has no defined conversion. *)
Definition abstime (now : timespec) (seconds : double) : outcome timespec :=
  match int64_of_double (dmul seconds (double_of_Z kNanoSecondsPerSecond)) with
  | None => Err OutOfBounds
  | Some nanoseconds =>
      Ok (i64 (now.1 + Z.quot (i64 (now.2 + nanoseconds)) kNanoSecondsPerSecond),
          Z.rem (i64 (now.2 + nanoseconds)) kNanoSecondsPerSecond)
  end.

(** [pthread_cond_timedwait] refuses a time that is not normalised ([EINVAL]). *)
Definition valid_timespec (ts : timespec) : bool := (0 <=? ts.2) && (ts.2 <? kNanoSecondsPerSecond).

(** ** Instructions and threads *)

Inductive instr :=
  | PthreadLock
  | AssignHolder
  | UnassignHolder
  | PthreadUnlock
  | CondWait (c : cond)
  | GetAbstime (seconds : double)
  | CondTimedWait (c : cond)
  | CondSignal (c : cond)
  | CondBroadcast (c : cond)
  | AssertLocked.

(** What a client calls. *)
Inductive call :=
  | Lock
  | Unlock
  | Wait (c : cond)
  | WaitForSeconds (c : cond) (seconds : double)
  | Notify (c : cond)
  | NotifyAll (c : cond)
  | CheckLocked.

Definition lock : list instr := [PthreadLock; AssignHolder].
Definition unlock : list instr := [UnassignHolder; PthreadUnlock].
(** The constructor and the destructor of [UnassignGuard] around the wait. *)
Definition wait (c : cond) : list instr := [UnassignHolder; CondWait c; AssignHolder].
Definition waitForSeconds (c : cond) (seconds : double) : list instr :=
  [GetAbstime seconds; UnassignHolder; CondTimedWait c; AssignHolder].
Definition notify (c : cond) : list instr := [CondSignal c].
Definition notifyAll (c : cond) : list instr := [CondBroadcast c].

Definition code_of (k : call) : list instr :=
  match k with
  | Lock => lock
  | Unlock => unlock
  | Wait c => wait c
  | WaitForSeconds c s => waitForSeconds c s
  | Notify c => notify c
  | NotifyAll c => notifyAll c
  | CheckLocked => [AssertLocked]
  end.

Definition code (p : list call) : list instr := p ≫= code_of.

(** [MutexLockGuard] around a block. *)
Definition guarded (block : list call) : list call := Lock :: block ++ [Unlock].

Inductive status :=
  | Running
  | Blocked (c : cond) (until : option Z)
  | Waking (timedout : bool).

Record thread := mkThread {
  rest : list instr;
  stat : status;
  abstime_ : timespec;
  results : list bool (* what [waitForSeconds] returned, latest first *)
}.

Record state := mkState { mtx : MutexLock; now : Z; threads : gmap tid thread }.

Definition clock_gettime (s : state) : timespec :=
  (now s / kNanoSecondsPerSecond, now s mod kNanoSecondsPerSecond).

(** What happens next: thread [t] executes an instruction (a signal wakes the
    thread [choice], if it waits), or gets the mutex back after a wait, a waiting thread
    wakes up spuriously or by its timeout, or time passes. *)
Inductive label :=
  | Run (t : tid) (choice : tid)
  | Reacquire (t : tid)
  | Spurious (t : tid)
  | Timeout (t : tid)
  | Tick (n : Z).

Definition set_thread (t : tid) (th : thread) (s : state) : state :=
  mkState (mtx s) (now s) (<[t := th]> (threads s)).
Definition set_mtx (m : MutexLock) (s : state) : state := mkState m (now s) (threads s).

Definition goto (r : list instr) (th : thread) : thread := mkThread r Running (abstime_ th) (results th).
Definition block (c : cond) (until : option Z) (th : thread) : thread :=
  mkThread (rest th) (Blocked c until) (abstime_ th) (results th).
Definition wake (th : thread) : thread := mkThread (rest th) (Waking false) (abstime_ th) (results th).

Definition waits_on (c : cond) (th : thread) : bool :=
  match stat th with Blocked c' _ => bool_decide (c' = c) | _ => false end.

(** [pthread_cond_wait] gives up the mutex, which the caller must own. *)
Definition start_wait (t : tid) (th : thread) (c : cond) (until : option Z) (s : state) : outcome state :=
  in_bounds (bool_decide (mutex_ (mtx s) = Some t));;
  Ok (set_thread t (block c until th) (set_mtx (mkMutexLock None (holder_ (mtx s))) s)).

(** One instruction of thread [t]; [None] while it cannot be executed. *)
Definition execute (t choice : tid) (i : instr) (r : list instr) (th : thread) (s : state) : option (outcome state) :=
  let m := mtx s in
  let next m := Some (Ok (set_thread t (goto r th) (set_mtx m s))) in
  match i with
  | PthreadLock =>
      match mutex_ m with
      | None => next (mkMutexLock (Some t) (holder_ m))
      | Some _ => None
      end
  | AssignHolder => next (mkMutexLock (mutex_ m) t)
  | UnassignHolder => next (mkMutexLock (mutex_ m) 0)
  | PthreadUnlock =>
      if bool_decide (mutex_ m = Some t) then next (mkMutexLock None (holder_ m)) else Some (Err AssertFail)
  | CondWait c => Some (start_wait t th c None s)
  | GetAbstime seconds =>
      Some (ts ← abstime (clock_gettime s) seconds;
            Ok (set_thread t (mkThread r Running ts (results th)) s))
  | CondTimedWait c =>
      if valid_timespec (abstime_ th)
      then Some (start_wait t th c (Some (nanos (abstime_ th))) s)
      else Some (Ok (set_thread t (mkThread r Running (abstime_ th) (false :: results th)) s))
  | CondSignal c =>
      match threads s !! choice with
      | Some th' =>
          if waits_on c th'
          then Some (Ok (set_thread t (goto r th) (set_thread choice (wake th') s)))
          else if decide (map_Forall (fun _ th => waits_on c th = false) (threads s))
          then next m else None
      | None =>
          if decide (map_Forall (fun _ th => waits_on c th = false) (threads s)) then next m else None
      end
  | CondBroadcast c =>
      Some (Ok (set_thread t (goto r th)
        (mkState m (now s) ((fun th => if waits_on c th then wake th else th) <$> threads s))))
  | AssertLocked => Some (_ ← assertLocked t m; Ok (set_thread t (goto r th) s))
  end.

Definition step (l : label) (s : state) : option (outcome state) :=
  match l with
  | Run t choice =>
      match threads s !! t with
      | Some (mkThread (i :: r) Running a res as th) => execute t choice i r th s
      | _ => None
      end
  | Reacquire t =>
      match threads s !! t, mutex_ (mtx s) with
      | Some (mkThread (i :: r) (Waking timedout) a res), None =>
          let res := match i with CondTimedWait _ => timedout :: res | _ => res end in
          Some (Ok (set_thread t (mkThread r Running a res) (set_mtx (mkMutexLock (Some t) (holder_ (mtx s))) s)))
      | _, _ => None
      end
  | Spurious t =>
      match threads s !! t with
      | Some (mkThread r (Blocked _ _) a res as th) => Some (Ok (set_thread t (wake th) s))
      | _ => None
      end
  | Timeout t =>
      match threads s !! t with
      | Some (mkThread r (Blocked _ (Some d)) a res) =>
          if d <=? now s then Some (Ok (set_thread t (mkThread r (Waking true) a res) s)) else None
      | _ => None
      end
  | Tick n => Some (Ok (mkState (mtx s) (now s + Z.abs n) (threads s)))
  end.

(** A schedule; a label that is not enabled is skipped. *)
Fixpoint run (ls : list label) (s : state) : outcome state :=
  match ls with
  | [] => Ok s
  | l :: ls => match step l s with None => run ls s | Some o => s ← o; run ls s end
  end.

Definition start (t0 : Z) (progs : gmap tid (list call)) : state :=
  mkState new_MutexLock t0 ((fun p => mkThread (code p) Running (0, 0) []) <$> progs).

(** ** Typing

    [annotated h p]: a client that calls [p] holding the mutex or not, as [h]
    says, respects the annotations and ends without it.  Waiting times must fit
    64 bits of nanoseconds. *)
Fixpoint annotated (h : bool) (p : list call) : bool :=
  match p with
  | [] => negb h
  | Lock :: p => negb h && annotated true p
  | Unlock :: p => h && annotated false p
  | Wait _ :: p => h && annotated true p
  | WaitForSeconds _ seconds :: p =>
      h && bool_decide (int64_of_double (dmul seconds (double_of_Z kNanoSecondsPerSecond)) <> None) &&
      annotated true p
  | (Notify _ | NotifyAll _) :: p => annotated h p
  | CheckLocked :: p => h && annotated true p
  end.

(** Guarded blocks that do not lock are well annotated. *)
Fixpoint block_ok (p : list call) : bool :=
  match p with
  | [] => true
  | (Lock | Unlock) :: _ => false
  | WaitForSeconds _ seconds :: p =>
      bool_decide (int64_of_double (dmul seconds (double_of_Z kNanoSecondsPerSecond)) <> None) && block_ok p
  | _ :: p => block_ok p
  end.

Lemma annotated_guarded blk p : block_ok blk = true -> annotated false p = true -> annotated false (guarded blk ++ p) = true.
Proof.
  intros Hb Hp. unfold guarded. cbn. rewrite <-app_assoc. cbn. revert Hb.
  induction blk as [|k blk IH]; [done|]. destruct k; cbn; try done. intros [-> Hb]%andb_prop. by rewrite IH.
Qed.

(** Where a thread is: without the mutex, with it but not (any more) in
    [holder_], or inside.  [before i q] is the phase in which instruction [i]
    must start to end in phase [q]. *)
Inductive phase := Free | Taken | Held.

Definition before (i : instr) (q : phase) : option phase :=
  match i, q with
  | PthreadLock, Taken => Some Free
  | AssignHolder, Held => Some Taken
  | UnassignHolder, Taken => Some Held
  | PthreadUnlock, Free => Some Taken
  | (CondWait _ | CondTimedWait _), Taken => Some Taken
  | AssertLocked, Held => Some Held
  | GetAbstime seconds, q =>
      if int64_of_double (dmul seconds (double_of_Z kNanoSecondsPerSecond)) then Some q else None
  | (CondSignal _ | CondBroadcast _), q => Some q
  | _, _ => None
  end.

Fixpoint phase_of (r : list instr) : option phase :=
  match r with
  | [] => Some Free
  | i :: r => q ← phase_of r; before i q
  end.

(** The instructions of an annotated client have a phase at every point. *)
Lemma annotated_phase p : forall h, annotated h p = true -> phase_of (code p) = Some (if h then Held else Free).
Proof.
  unfold code. induction p as [|k p IH]; intros h; cbn; [by destruct h|].
  destruct k; cbn; intros H; try (apply andb_prop in H as [H1 H]); rewrite (IH _ H); cbn; try by destruct h.
  apply andb_prop in H1 as [-> H1%bool_decide_eq_true]. by destruct (int64_of_double _).
Qed.

(** What [holder_] and the mutex must be for a thread. *)
Definition thread_ok (m : MutexLock) (t : tid) (th : thread) : Prop :=
  match stat th with
  | Running =>
      match phase_of (rest th) with
      | Some Free => mutex_ m <> Some t /\ holder_ m <> t
      | Some Taken => mutex_ m = Some t /\ holder_ m <> t
      | Some Held => mutex_ m = Some t /\ holder_ m = t
      | None => False
      end
  | _ =>
      mutex_ m <> Some t /\ holder_ m <> t /\
      exists i r, rest th = i :: r /\ phase_of r = Some Taken /\ match i with CondWait _ | CondTimedWait _ => True | _ => False end
  end.

Record inv (s : state) : Prop := {
  inv_threads t th : threads s !! t = Some th -> t <> 0 /\ thread_ok (mtx s) t th;
  inv_holder : holder_ (mtx s) = 0 \/ mutex_ (mtx s) = Some (holder_ (mtx s));
  inv_owner t : mutex_ (mtx s) = Some t -> is_Some (threads s !! t)
}.

Lemma mutex_start_inv t0 progs :
  map_Forall (fun t p => t <> 0 /\ annotated false p = true) progs -> inv (start t0 progs).
Proof.
  intros Hp. split; [|by left|done]. intros t th. cbn. rewrite lookup_fmap_Some. intros (p & <- & Hl).
  destruct (Hp t p Hl) as [Ht Ha]. split; [done|]. unfold thread_ok. cbn. rewrite (annotated_phase p false Ha). cbn.
  split; [done|]. by intros E.
Qed.

(** Another thread's state survives a change of the mutex by [t]. *)
Definition unowned (t : tid) (m : MutexLock) : Prop := mutex_ m = Some t \/ mutex_ m = None.

Lemma thread_ok_other t u m m' th :
  u <> t -> u <> 0 -> unowned t m -> unowned t m' -> holder_ m' = t \/ holder_ m' = 0 \/ holder_ m' = holder_ m ->
  thread_ok m u th -> thread_ok m' u th.
Proof.
  intros Hne H0 Hm Hm' Hh. unfold thread_ok, unowned in *.
  assert (mutex_ m <> Some u) by (intros E; rewrite E in Hm; naive_solver).
  assert (mutex_ m' <> Some u) by (intros E; rewrite E in Hm'; naive_solver).
  assert (holder_ m <> u -> holder_ m' <> u) by (destruct Hh as [-> | [-> | ->]]; congruence).
  destruct (stat th); [destruct (phase_of (rest th)) as [[]|]| |]; tauto.
Qed.

(** One thread moves on and may change the mutex. *)
Lemma mutex_change_inv t th' m' s :
  inv s -> is_Some (threads s !! t) -> unowned t (mtx s) -> unowned t m' ->
  holder_ m' = t \/ holder_ m' = 0 \/ holder_ m' = holder_ (mtx s) ->
  holder_ m' = 0 \/ mutex_ m' = Some (holder_ m') -> thread_ok m' t th' ->
  inv (set_thread t th' (set_mtx m' s)).
Proof.
  intros [Ht Hh Ho] [th Hl] Hm Hm' Hc Hh' Hth. split; cbn; [|done|].
  - intros u thu. rewrite lookup_insert_Some. intros [[<- <-]|[Hne Hu]].
    + split; [|done]. by apply Ht in Hl as [? _].
    + destruct (Ht u thu Hu) as [H0 Hok]. split; [done|].
      apply (thread_ok_other t u (mtx s)); [congruence|done..].
  - intros u Hu. rewrite lookup_insert_is_Some. destruct (decide (t = u)); [by left|right]. split; [done|].
    destruct Hm' as [E|E]; congruence.
Qed.

(** One thread moves on and leaves the mutex alone. *)
Lemma inv_same t th' s :
  inv s -> is_Some (threads s !! t) -> thread_ok (mtx s) t th' -> inv (set_thread t th' s).
Proof.
  intros [Ht Hh Ho] [th Hl] Hth. split; cbn; [|done|].
  - intros u thu. rewrite lookup_insert_Some. intros [[<- <-]|[Hne Hu]]; [|by apply Ht].
    split; [|done]. by apply Ht in Hl as [? _].
  - intros u Hu. rewrite lookup_insert_is_Some. destruct (decide (t = u)); [by left|right]. split; [done|]. by apply Ho.
Qed.

Lemma wake_ok m t c u th : thread_ok m t th -> stat th = Blocked c u -> thread_ok m t (wake th).
Proof. unfold thread_ok. intros H E. rewrite E in H. done. Qed.

Lemma waits_on_blocked c th : waits_on c th = true -> exists u, stat th = Blocked c u.
Proof. unfold waits_on. destruct (stat th); try done. intros ->%bool_decide_eq_true. eauto. Qed.

Lemma run_ok m t r a res :
  thread_ok m t (mkThread r Running a res) <->
  match phase_of r with
  | Some Free => mutex_ m <> Some t /\ holder_ m <> t
  | Some Taken => mutex_ m = Some t /\ holder_ m <> t
  | Some Held => mutex_ m = Some t /\ holder_ m = t
  | None => False
  end.
Proof. done. Qed.

Lemma start_wait_inv t i r a res c u s :
  let th := mkThread (i :: r) Running a res in
  inv s -> threads s !! t = Some th -> phase_of r = Some Taken ->
  match i with CondWait _ | CondTimedWait _ => True | _ => False end ->
  mutex_ (mtx s) = Some t -> holder_ (mtx s) <> t ->
  exists s', start_wait t th c u s = Ok s' /\ inv s'.
Proof.
  intros th Hs Hl Eq Hi Hm Hne. unfold start_wait. rewrite in_bounds_true by by apply bool_decide_eq_true_2.
  eexists. split; [done|]. apply mutex_change_inv; unfold unowned; cbn; try tauto; [done| |].
  - destruct (inv_holder s Hs) as [E|E]; [by left|]. congruence.
  - unfold thread_ok. cbn. split_and!; [done..|]. by exists i, r.
Qed.

(** A typed instruction does not fail and keeps the invariant. *)
Lemma execute_inv t choice i r a res s o :
  let th := mkThread (i :: r) Running a res in
  inv s -> threads s !! t = Some th -> execute t choice i r th s = Some o -> exists s', o = Ok s' /\ inv s'.
Proof.
  intros th Hs Hl. pose proof (inv_threads s Hs t th Hl) as [H0 Hok]. pose proof (inv_holder s Hs) as Hh.
  pose proof (ex_intro _ th Hl : is_Some (threads s !! t)) as Hsome.
  assert (forall th', thread_ok (mtx s) t th' -> inv (set_thread t th' s)) as Hsame by (intros; by apply inv_same).
  unfold th in Hok. rewrite run_ok in Hok. cbn [phase_of] in Hok.
  destruct (phase_of r) as [q|] eqn:Eq; [cbn [mbind option_bind] in Hok|done].
  destruct i; cbn [before execute] in *.
  - destruct q; try done. destruct (mutex_ (mtx s)) eqn:Em; [done|]. intros [= <-]. eexists. split; [done|].
    apply mutex_change_inv; unfold unowned; cbn; [done|done|tauto..| |].
    + destruct Hh; [tauto|congruence].
    + unfold thread_ok, goto. cbn. rewrite Eq. tauto.
  - destruct q; try done. intros [= <-]. eexists. split; [done|].
    apply mutex_change_inv; unfold unowned; cbn; [done|done|tauto..|].
    unfold thread_ok, goto. cbn. rewrite Eq. tauto.
  - destruct q; try done. intros [= <-]. eexists. split; [done|].
    apply mutex_change_inv; unfold unowned; cbn; [done|done|tauto..|].
    unfold thread_ok, goto. cbn. rewrite Eq. split; [tauto|congruence].
  - destruct q; try done. rewrite bool_decide_eq_true_2 by tauto. intros [= <-]. eexists. split; [done|].
    apply mutex_change_inv; unfold unowned; cbn; [done|done|tauto..| |].
    + destruct Hh as [Hh|Hh]; [by left|]. destruct Hok as [E Hne]. rewrite E in Hh. congruence.
    + unfold thread_ok, goto. cbn. rewrite Eq. split; [done|tauto].
  - destruct q; try done. intros [= <-]. apply (start_wait_inv t (CondWait c) r a res); tauto.
  - unfold abstime. destruct (int64_of_double _); [|done]. cbn. intros [= <-]. eexists. split; [done|].
    apply Hsame. by rewrite run_ok, Eq.
  - destruct q; try done. destruct (valid_timespec _); intros [= <-].
    + apply (start_wait_inv t (CondTimedWait c) r a res); tauto.
    + eexists. split; [done|]. apply Hsame. rewrite run_ok, Eq. tauto.
  - assert (thread_ok (mtx s) t (goto r th)) as Hgo by (unfold goto; by rewrite run_ok, Eq).
    assert (inv (set_thread t (goto r th) (set_mtx (mtx s) s))) as Hnext by (by destruct s; apply Hsame).
    destruct (threads s !! choice) as [th'|] eqn:Ec; [destruct (waits_on c th') eqn:Ew|];
      [|case_decide; [|done]..]; intros [= <-]; eexists; (split; [done|]); try done.
    destruct (waits_on_blocked _ _ Ew) as [u Eu]. destruct (inv_threads s Hs choice th' Ec) as [_ Hc].
    apply inv_same; [apply inv_same; [done|by eexists|by eapply wake_ok]| |done]. cbn. rewrite lookup_insert_is_Some'. by right.
  - intros [= <-]. eexists. split; [done|]. apply inv_same; [|cbn; by rewrite lookup_fmap, Hl; eexists|].
    2:{ unfold goto. by rewrite run_ok, Eq. }
    split; cbn; [|done|].
    + intros u thu. rewrite lookup_fmap_Some. intros (th' & <- & Hu). destruct (inv_threads s Hs u th' Hu) as [Hu0 Huok].
      split; [done|]. destruct (waits_on c th') eqn:Ew; [|done]. destruct (waits_on_blocked _ _ Ew) as [x Ex]. by eapply wake_ok.
    + intros u Hu. rewrite lookup_fmap. apply fmap_is_Some. by apply (inv_owner s Hs).
  - destruct q; try done. unfold assertLocked, isLockedByThisThread. rewrite assert_true by lia. intros [= <-].
    eexists. split; [done|]. apply Hsame. unfold goto. by rewrite run_ok, Eq.
Qed.

Lemma step_inv l s o : inv s -> step l s = Some o -> exists s', o = Ok s' /\ inv s'.
Proof.
  intros Hs. destruct l as [t choice|t|t|t|n]; cbn [step].
  - destruct (threads s !! t) as [[[|i r] [] a res]|] eqn:El; try done. by apply execute_inv.
  - destruct (threads s !! t) as [[[|i r] [] a res]|] eqn:El; try done. destruct (mutex_ (mtx s)) eqn:Em; [done|].
    intros [= <-]. eexists. split; [done|]. destruct (inv_threads s Hs t _ El) as [H0 (Hm & Hne & i' & r' & E & Eq & _)].
    injection E as <- <-. destruct (inv_holder s Hs) as [Hh|Hh]; [|congruence].
    apply mutex_change_inv; unfold unowned; cbn; [done|by eexists|tauto..|]. unfold thread_ok. cbn. rewrite Eq. tauto.
  - destruct (threads s !! t) as [[r [] a res]|] eqn:El; try done. intros [= <-]. eexists. split; [done|].
    destruct (inv_threads s Hs t _ El) as [H0 Hok]. apply inv_same; [done|by eexists|by eapply wake_ok].
  - destruct (threads s !! t) as [[r [|? [d|]|] a res]|] eqn:El; try done. destruct (_ <=? _); [|done].
    intros [= <-]. eexists. split; [done|].
    destruct (inv_threads s Hs t _ El) as [H0 Hok]. apply inv_same; [done|by eexists|done].
  - intros [= <-]. eexists. split; [done|]. by destruct Hs.
Qed.

Lemma mutex_run_inv ls : forall s, inv s -> exists s', run ls s = Ok s' /\ inv s'.
Proof.
  induction ls as [|l ls IH]; intros s Hs; cbn [run]; [by exists s|].
  destruct (step l s) as [o|] eqn:E; [|by apply IH]. destruct (step_inv l s o Hs E) as (s1 & -> & H1). cbn. by apply IH.
Qed.

Lemma reachable_inv t0 progs ls :
  map_Forall (fun t p => t <> 0 /\ annotated false p = true) progs ->
  exists s, run ls (start t0 progs) = Ok s /\ inv s.
Proof. intros. by apply mutex_run_inv, mutex_start_inv. Qed.

(** C20: whatever the interleaving of the instructions of clients that respect the
    annotations, and whatever wakes up: no assertion fails; between its calls a
    thread finds [isLockedByThisThread()] true exactly when it has locked the
    mutex and not yet unlocked it, and never while it waits; a set [holder_] is
    the owner of the pthread mutex; and the mutex can be destroyed when every
    thread is done. *)
Theorem mutex_typed t0 progs ls :
  map_Forall (fun t p => t <> 0 /\ annotated false p = true) progs ->
  exists s, run ls (start t0 progs) = Ok s /\
    (forall t th h p, threads s !! t = Some th -> stat th = Running -> rest th = code p -> annotated h p = true ->
      isLockedByThisThread t (mtx s) = h) /\
    (forall t th, threads s !! t = Some th -> stat th <> Running ->
      isLockedByThisThread t (mtx s) = false /\ mutex_ (mtx s) <> Some t) /\
    (holder_ (mtx s) <> 0 -> mutex_ (mtx s) = Some (holder_ (mtx s))) /\
    (map_Forall (fun _ th => rest th = []) (threads s) -> destroy (mtx s) = Ok tt).
Proof.
  intros Hp. destruct (reachable_inv t0 progs ls Hp) as (s & E & Hs). exists s. split; [done|].
  pose proof (inv_holder s Hs) as Hh. split; [|split; [|split; [tauto|]]].
  - intros t th h p Hl Hst Hr Ha. destruct (inv_threads s Hs t th Hl) as [_ Hok]. unfold thread_ok in Hok.
    rewrite Hst, Hr, (annotated_phase p h Ha) in Hok. unfold isLockedByThisThread. destruct h; lia.
  - intros t th Hl Hst. destruct (inv_threads s Hs t th Hl) as [_ Hok]. unfold thread_ok in Hok.
    unfold isLockedByThisThread. destruct (stat th); [done|..]; destruct Hok as (? & ? & _); split; done || lia.
  - intros Hall.
    assert (mutex_ (mtx s) = None) as Hm.
    { destruct (mutex_ (mtx s)) as [t|] eqn:Em; [|done]. destruct (inv_owner s Hs t Em) as [th Hl].
      destruct (inv_threads s Hs t th Hl) as [_ Hok]. unfold thread_ok in Hok. rewrite (Hall t th Hl) in Hok.
      cbn in Hok. destruct (stat th); naive_solver. }
    unfold destroy. rewrite Hm in *. destruct Hh as [-> |?]; done.
Qed.

Definition demo_progs : gmap tid (list call) :=
  <[7 := guarded [CheckLocked; Wait 0%nat] ++ []]> (<[8 := guarded [Notify 0%nat; WaitForSeconds 1%nat (double_of_Z 3)]]> ∅).

Lemma mutex_typed_witness :
  exists s, run [Run 7 0; Run 8 0; Run 7 0; Run 7 0] (start 0 demo_progs) = Ok s /\
    (forall t th h p, threads s !! t = Some th -> stat th = Running -> rest th = code p -> annotated h p = true ->
      isLockedByThisThread t (mtx s) = h) /\
    (forall t th, threads s !! t = Some th -> stat th <> Running ->
      isLockedByThisThread t (mtx s) = false /\ mutex_ (mtx s) <> Some t) /\
    (holder_ (mtx s) <> 0 -> mutex_ (mtx s) = Some (holder_ (mtx s))) /\
    (map_Forall (fun _ th => rest th = []) (threads s) -> destroy (mtx s) = Ok tt).
Proof.
  apply (mutex_typed 0 demo_progs).
  repeat (apply map_Forall_insert_2; [split; [lia|vm_compute; reflexivity]|]). apply map_Forall_empty.
Defined.

(** ** The mutex of [Monitor] is the view of this one

    A thread has the mutex of the abstract monitor while it is in [holder_]. *)
Definition view (m : MutexLock) : Monitor.MutexLock :=
  if bool_decide (mutex_ m = Some (holder_ m))
  then Monitor.mkMutex (Some (Z.to_nat (holder_ m))) (Some (Z.to_nat (holder_ m)))
  else Monitor.new_mutex.

Lemma view_free m : mutex_ m <> Some (holder_ m) -> view m = Monitor.new_mutex.
Proof. intros H. unfold view. by rewrite bool_decide_eq_false_2. Qed.

Lemma execute_view t choice i r a res s s' :
  let th := mkThread (i :: r) Running a res in
  inv s -> threads s !! t = Some th -> execute t choice i r th s = Some (Ok s') ->
  match i with
  | AssignHolder => Monitor.lock (Z.to_nat t) (view (mtx s)) = Some (view (mtx s'))
  | UnassignHolder =>
      view (mtx s') = Monitor.unlock (view (mtx s)) /\ view (mtx s') = Monitor.wait_release (view (mtx s))
  | _ => view (mtx s') = view (mtx s)
  end.
Proof.
  intros th Hs Hl. pose proof (inv_threads s Hs t th Hl) as [H0 Hok]. pose proof (inv_holder s Hs) as Hh.
  unfold th in Hok. rewrite run_ok in Hok. cbn [phase_of] in Hok.
  destruct (phase_of r) as [q|] eqn:Eq; [cbn [mbind option_bind] in Hok|done].
  destruct i; cbn [before execute] in *.
  - destruct (mutex_ (mtx s)) eqn:Em; [done|]. intros [= <-]. destruct Hh as [Hh|Hh]; [|done].
    rewrite !view_free; cbn; rewrite ?Hh, ?Em; congruence.
  - destruct q; try done. intros [= <-]. rewrite (view_free (mtx s)) by (destruct Hok; congruence). cbn.
    unfold view. cbn. by rewrite bool_decide_eq_true_2 by tauto.
  - destruct q; try done. intros [= <-]. cbn. rewrite view_free by (cbn; destruct Hok; congruence). done.
  - destruct q; try done. rewrite bool_decide_eq_true_2 by tauto. intros [= <-]. cbn.
    destruct Hok as [E Hne]. rewrite !view_free; cbn; congruence.
  - destruct q; try done. destruct Hok as [E Hne]. unfold start_wait. rewrite in_bounds_true by by apply bool_decide_eq_true_2.
    intros [= <-]. cbn. rewrite !view_free; cbn; congruence.
  - unfold abstime. destruct (int64_of_double _); [|done]. by intros [= <-].
  - destruct q; try done. destruct Hok as [E Hne]. destruct (valid_timespec _); [|by intros [= <-]].
    unfold start_wait. rewrite in_bounds_true by by apply bool_decide_eq_true_2.
    intros [= <-]. cbn. rewrite !view_free; cbn; congruence.
  - destruct (threads s !! choice) as [th'|]; [destruct (waits_on c th')|];
      [|case_decide; [|done]..]; by intros [= <-].
  - by intros [= <-].
  - destruct (assertLocked t (mtx s)); cbn; [|done]. by intros [= <-].
Qed.

(** The instructions refine the mutex of [Monitor]: seen through [holder_], a
    step either changes nothing, or is its [lock], or its [unlock] or the release
    of a wait. *)
Theorem refines_monitor t0 progs ls s l s' :
  map_Forall (fun t p => t <> 0 /\ annotated false p = true) progs ->
  run ls (start t0 progs) = Ok s -> step l s = Some (Ok s') ->
  view (mtx s') = view (mtx s) \/
  (exists t, Monitor.lock (Z.to_nat t) (view (mtx s)) = Some (view (mtx s'))) \/
  (view (mtx s') = Monitor.unlock (view (mtx s)) /\ view (mtx s') = Monitor.wait_release (view (mtx s))).
Proof.
  intros Hp E Hst. destruct (reachable_inv t0 progs ls Hp) as (s1 & E1 & Hs). rewrite E in E1. injection E1 as <-.
  destruct l as [t choice|t|t|t|n]; cbn [step] in Hst.
  - destruct (threads s !! t) as [[[|i r] [] a res]|] eqn:El; try done.
    pose proof (execute_view t choice i r a res s s' Hs El Hst) as H. destruct i; eauto.
  - destruct (threads s !! t) as [[[|i r] [] a res]|] eqn:El; try done. destruct (mutex_ (mtx s)) eqn:Em; [done|].
    injection Hst as <-. left. destruct (inv_threads s Hs t _ El) as [H0 _].
    destruct (inv_holder s Hs) as [Hh|Hh]; [|congruence]. rewrite !view_free; cbn; rewrite ?Hh, ?Em; congruence.
  - destruct (threads s !! t) as [[r [] a res]|]; try done. injection Hst as <-. by left.
  - destruct (threads s !! t) as [[r [|? [d|]|] a res]|]; try done. destruct (_ <=? _); [|done].
    injection Hst as <-. by left.
  - injection Hst as <-. by left.
Qed.

(** ** Timeouts *)

(** For a time that is not negative the wait ends exactly that many nanoseconds
    (rounded down) from now, at a normalised time. *)
Theorem abstime_spec ts seconds ns :
  0 <= ts.1 -> 0 <= ts.2 < kNanoSecondsPerSecond ->
  int64_of_double (dmul seconds (double_of_Z kNanoSecondsPerSecond)) = Some ns ->
  0 <= ns -> nanos ts + ns < 2 ^ 63 ->
  exists d, abstime ts seconds = Ok d /\ valid_timespec d = true /\ nanos d = nanos ts + ns.
Proof.
  intros H1 H2 Hns H0 Hmax. unfold abstime, nanos, valid_timespec, kNanoSecondsPerSecond in *. rewrite Hns.
  eexists. split; [done|]. cbn. rewrite (i64_small (ts.2 + ns)) by lia.
  pose proof (Z.quot_rem' (ts.2 + ns) 1000000000). pose proof (Z.rem_bound_pos (ts.2 + ns) 1000000000).
  pose proof (Z.quot_pos (ts.2 + ns) 1000000000). rewrite i64_small by lia. lia.
Qed.

(** A wait of -0.5 s is refused by the kernel, because the nanoseconds come out
    negative, and reports that it did not time out, at once. *)
Example negative_wait :
  let half := ddiv (double_of_Z (-1)) (double_of_Z 2) in
  let p := [Lock; WaitForSeconds 0%nat half; Unlock] in
  annotated false p = true /\
  abstime (100, 200000000) half = Ok (100, -300000000) /\
  exists s th, run (replicate 5 (Run 7 0)) (start 100200000000 (<[7 := p]> ∅)) = Ok s /\
    threads s !! 7 = Some th /\ results th = [false].
Proof.
  split; [by vm_compute|]. split; [by vm_compute|]. do 2 eexists. split; [by vm_compute|]. split; by vm_compute.
Qed.
End MutexLock.
