(* ===== verification/BlockingQueue.v ===== *)
(** * The unbounded blocking queue ([src/base/BlockingQueue.h])

    A [Monitor] whose consumers wait on [notEmpty_].  Elements are numbers; the
    members carry the history of what was put and what was taken. *)

From S2P Require Import Prelude Monitor.

Module BlockingQueue.
Import Monitor.

Record BlockingQueue := mkQueue { queue_ : list Z; put_log : list Z; taken : list Z }.
Definition new_queue : BlockingQueue := mkQueue [] [] [].

Inductive condition := notEmpty_.
Inductive method := Put (x : Z) | Take | Size.
Inductive result := RUnit | RElem (x : Z) | RSize (n : Z).

#[global] Instance condition_eq_dec : EqDecision condition.
Proof. solve_decision. Defined.

Definition put (x : Z) (s : BlockingQueue) : verdict BlockingQueue condition result :=
  Done (mkQueue (queue_ s ++ [x]) (put_log s ++ [x]) (taken s)) RUnit [Notify notEmpty_].

Definition take (s : BlockingQueue) : verdict BlockingQueue condition result :=
  match queue_ s with
  | [] => Wait notEmpty_
  | front :: q => Done (mkQueue q (put_log s) (taken s ++ [front])) (RElem front) []
  end.

Definition size (s : BlockingQueue) : verdict BlockingQueue condition result :=
  Done s (RSize (zlen (queue_ s))) [].

#[global] Instance queue_monitor : Monitor BlockingQueue condition method result := {
  body m s := match m with Put x => put x s | Take => take s | Size => size s end;
  cond_of m := match m with Take => Some notEmpty_ | _ => None end }.

Definition inv (s : BlockingQueue) : Prop := put_log s = taken s ++ queue_ s.
Definition demand (s : BlockingQueue) (c : condition) : option nat := Some (length (queue_ s)).

#[global] Instance queue_laws :
  @MonitorLaws _ _ _ _ (list method) _ queue_monitor calls_program inv demand.
Proof.
  split; unfold inv, demand; cbn.
  - intros [x| |] s [] Hs E; cbn in E; try done. unfold take in E. by destruct (queue_ s).
  - intros [x| |] s Hs e; cbn; [done| |done]. unfold take. by destruct (queue_ s).
  - intros [x| |] s s' r sigs Hs E; cbn in E.
    + unfold put in E. simplify_eq. cbn. by rewrite Hs, app_assoc.
    + unfold take in E. destruct (queue_ s) eqn:Eq; simplify_eq. cbn. by rewrite <- app_assoc.
    + unfold size in E. by simplify_eq.
  - intros [x| |] s s' r sigs [] Hs E _; cbn in E.
    + unfold put in E. simplify_eq. cbn. count_signals. rewrite length_app. cbn. lia.
    + unfold take in E. destruct (queue_ s) eqn:Eq; simplify_eq. cbn. count_signals. lia.
    + unfold size in E. simplify_eq. cbn. count_signals. lia.
  - done.
Qed.

(** Elements come out in order and once each; when nothing moves, consumers wait
    only on an empty queue. *)
Theorem blocking_queue_correct (progs : list (list method)) c :
  rtc step (start new_queue progs) c ->
  put_log c.1.1 = taken c.1.1 ++ queue_ c.1.1 /\
  (stuck c -> forall i l x, c.2 !! i = Some (l, Waiting x) -> queue_ c.1.1 = []).
Proof.
  intros Hr. assert (inv new_queue) as H0 by done.
  pose proof (cinv_reachable inv demand new_queue progs c H0 Hr) as Hc. split; [apply Hc|].
  intros Hst i l x Hi. pose proof (stuck_waiters inv demand c i l x Hc Hst Hi) as [= Hd].
  by apply length_zero_iff_nil.
Qed.
End BlockingQueue.
