(* ===== verification/BoundedBlockingQueue.v ===== *)
(** * The bounded blocking queue ([src/base/BoundedBlockingQueue.h])

    A [Monitor] with two conditions: producers wait on [notFull_], consumers on
    [notEmpty_].  The [boost::circular_buffer] it keeps its elements in is a list
    with a capacity. *)

From S2P Require Import Prelude Monitor.

Module BoundedBlockingQueue.
Import Monitor.

Record BoundedBlockingQueue := mkQueue {
  queue_ : list Z; capacity : nat; put_log : list Z; taken : list Z }.
Definition new_queue (maxSize : nat) : BoundedBlockingQueue := mkQueue [] maxSize [] [].

Inductive condition := notEmpty_ | notFull_.
Inductive method := Put (x : Z) | Take | Empty | Full | Size | Capacity.
Inductive result := RUnit | RElem (x : Z) | RBool (b : bool) | RSize (n : Z).

#[global] Instance condition_eq_dec : EqDecision condition.
Proof. solve_decision. Defined.

Definition full (s : BoundedBlockingQueue) : bool := bool_decide (length (queue_ s) = capacity s).
Definition empty (s : BoundedBlockingQueue) : bool := bool_decide (queue_ s = []).

(** [circular_buffer::push_back] drops the oldest element of a full buffer. *)
Definition push_back (x : Z) (q : list Z) (cap : nat) : list Z :=
  if decide (length q = cap) then match cap with O => [] | S _ => tail q ++ [x] end else q ++ [x].

Definition put (x : Z) (s : BoundedBlockingQueue) : verdict BoundedBlockingQueue condition result :=
  if full s then Wait notFull_
  else match assert_ (negb (full s)) with
       | Ok _ => Done (mkQueue (push_back x (queue_ s) (capacity s)) (capacity s) (put_log s ++ [x]) (taken s)) RUnit
                   [Notify notEmpty_]
       | Err e => Fails e
       end.

Definition take (s : BoundedBlockingQueue) : verdict BoundedBlockingQueue condition result :=
  if empty s then Wait notEmpty_
  else match queue_ s with
       | front :: q => Done (mkQueue q (capacity s) (put_log s) (taken s ++ [front])) (RElem front) [Notify notFull_]
       | [] => Fails AssertFail
       end.

#[global] Instance bounded_monitor : Monitor BoundedBlockingQueue condition method result := {
  body m s :=
    match m with
    | Put x => put x s
    | Take => take s
    | Empty => Done s (RBool (empty s)) []
    | Full => Done s (RBool (full s)) []
    | Size => Done s (RSize (zlen (queue_ s))) []
    | Capacity => Done s (RSize (Z.of_nat (capacity s))) []
    end;
  cond_of m := match m with Take => Some notEmpty_ | Put _ => Some notFull_ | _ => None end }.

Definition inv (maxSize : nat) (s : BoundedBlockingQueue) : Prop :=
  put_log s = taken s ++ queue_ s /\ (length (queue_ s) <= capacity s)%nat /\ capacity s = maxSize.
Definition demand (s : BoundedBlockingQueue) (c : condition) : option nat :=
  Some (match c with notEmpty_ => length (queue_ s) | notFull_ => capacity s - length (queue_ s) end)%nat.

Lemma put_cases maxSize x s :
  inv maxSize s ->
  length (queue_ s) = capacity s /\ put x s = Wait notFull_ \/
  (length (queue_ s) < capacity s)%nat /\
  put x s = Done (mkQueue (queue_ s ++ [x]) (capacity s) (put_log s ++ [x]) (taken s)) RUnit [Notify notEmpty_].
Proof.
  intros (_ & Hle & _). unfold put, full. case_bool_decide as Hf; [by left|right]. split; [lia|].
  cbn. unfold push_back. by rewrite decide_False.
Qed.

Lemma take_cases s :
  queue_ s = [] /\ take s = Wait notEmpty_ \/
  exists front q, queue_ s = front :: q /\
    take s = Done (mkQueue q (capacity s) (put_log s) (taken s ++ [front])) (RElem front) [Notify notFull_].
Proof.
  unfold take, empty. case_bool_decide as He; [by left|right]. destruct (queue_ s) as [|front q]; [done|]. eauto.
Qed.

#[global] Instance bounded_laws maxSize :
  @MonitorLaws _ _ _ _ (list method) _ bounded_monitor calls_program (inv maxSize) demand.
Proof.
  split.
  - intros [x| | | | |] s c Hs E; cbn in E; try done.
    + destruct (put_cases _ x s Hs) as [[Hf E']|[_ E']]; rewrite E' in E; [|done]. injection E as <-.
      split; [done|]. unfold demand. by rewrite Hf, Nat.sub_diag.
    + destruct (take_cases s) as [[Hf E']|(f & q & _ & E')]; rewrite E' in E; [|done]. injection E as <-.
      split; [done|]. unfold demand. by rewrite Hf.
  - intros [x| | | | |] s Hs e E; cbn in E; try done.
    + destruct (put_cases _ x s Hs) as [[_ E']|[_ E']]; by rewrite E' in E.
    + destruct (take_cases s) as [[_ E']|(f & q & _ & E')]; by rewrite E' in E.
  - intros [x| | | | |] s s' r sigs Hs E; cbn in E; try by simplify_eq.
    + destruct (put_cases _ x s Hs) as [[_ E']|[Hl E']]; rewrite E' in E; simplify_eq. destruct Hs as (Hs & _ & Hm).
      split_and!; cbn; [by rewrite Hs, app_assoc|rewrite length_app; cbn; lia|done].
    + destruct (take_cases s) as [[_ E']|(f & q & Hq & E')]; rewrite E' in E; simplify_eq. destruct Hs as (Hs & Hl & Hm).
      rewrite Hq in Hs, Hl. split_and!; cbn in *; [by rewrite <- app_assoc|lia|done].
  - intros [x| | | | |] s s' r sigs c Hs E _; cbn in E.
    + destruct (put_cases _ x s Hs) as [[_ E']|[Hl E']]; rewrite E' in E; simplify_eq.
      destruct c; cbn; count_signals; rewrite length_app; cbn; lia.
    + destruct (take_cases s) as [[_ E']|(f & q & Hq & E')]; rewrite E' in E; simplify_eq.
      destruct Hs as (_ & Hl & _). destruct c; cbn; count_signals; rewrite Hq in *; cbn in *; lia.
    + simplify_eq. destruct c; cbn; count_signals; lia.
    + simplify_eq. destruct c; cbn; count_signals; lia.
    + simplify_eq. destruct c; cbn; count_signals; lia.
    + simplify_eq. destruct c; cbn; count_signals; lia.
  - done.
Qed.

(** ** What the queue promises *)

Definition is_put (m : method) : bool := match m with Put _ => true | _ => false end.
Definition is_take (m : method) : bool := match m with Take => true | _ => false end.
Definition puts (progs : list (list method)) : nat := sum_list_with (count is_put) progs.
Definition takes (progs : list (list method)) : nat := sum_list_with (count is_take) progs.

Abbreviation config := (BoundedBlockingQueue * MutexLock * list (list method * status condition))%type.

(** A thread that only produces or only consumes. *)
Definition one_sided (l : list method) : Prop := count is_put l = 0%nat \/ count is_take l = 0%nat.

(** Calls made and calls still to make. *)
Definition accounted (P T : nat) (c : config) : Prop :=
  (length (put_log c.1.1) + puts (locals c) = P)%nat /\ (length (taken c.1.1) + takes (locals c) = T)%nat.

(** A step takes the first call off a program, or changes nothing. *)
Lemma step_calls maxSize (c c' : config) :
  inv maxSize c.1.1 -> step c c' ->
  c'.1.1 = c.1.1 /\ locals c' = locals c \/
  exists i m l, locals c !! i = Some (m :: l) /\ locals c' = <[i := l]> (locals c) /\
    length (put_log c'.1.1) = (length (put_log c.1.1) + one is_put m)%nat /\
    length (taken c'.1.1) = (length (taken c.1.1) + one is_take m)%nat.
Proof.
  intros Hs Hstep. destruct (step_effect c c' Hstep) as [?|(i & l & Hi & [(m & r & sigs & Hr & Hb & E)|(l' & _ & Hl & _)])];
    [by left| |done].
  right. destruct l as [|m' l]; [done|]. cbn in Hr. injection Hr as ->. exists i, m, l. split_and!; [done|done| |].
  all: destruct m as [x| | | | |]; cbn in Hb;
    [destruct (put_cases _ x _ Hs) as [[_ E']|[_ E']]; rewrite E' in Hb; [done|]
    |destruct (take_cases c.1.1) as [[_ E']|(f & q & _ & E')]; rewrite E' in Hb; [done|]|..];
    injection Hb as <- _ _; cbn; rewrite ?length_app; cbn; lia.
Qed.

Lemma bounded_accounted_step P T maxSize (c c' : config) :
  inv maxSize c.1.1 -> step c c' -> accounted P T c -> accounted P T c'.
Proof.
  intros Hs Hstep [HP HT]. destruct (step_calls _ c c' Hs Hstep) as [[E1 E2]|(i & m & l & Hi & E & Hp & Ht)];
    [by unfold accounted; rewrite E1, E2|].
  unfold accounted, puts, takes in *. rewrite E, Hp, Ht.
  pose proof (sum_insert (count is_put) (locals c) i (m :: l) l Hi) as Sp.
  pose proof (sum_insert (count is_take) (locals c) i (m :: l) l Hi) as St. rewrite count_cons in Sp, St. lia.
Qed.

Lemma one_sided_step maxSize (c c' : config) :
  inv maxSize c.1.1 -> step c c' -> Forall one_sided (locals c) -> Forall one_sided (locals c').
Proof.
  intros Hs Hstep Hf. destruct (step_calls _ c c' Hs Hstep) as [[_ ->]|(i & m & l & Hi & -> & _)]; [done|].
  apply Forall_insert; [done|]. rewrite Forall_lookup in Hf. specialize (Hf i _ Hi). unfold one_sided in *.
  rewrite !count_cons in Hf. lia.
Qed.

Lemma start_locals maxSize (progs : list (list method)) :
  locals (start (new_queue maxSize) progs : config) = progs.
Proof. unfold locals, start. cbn. by rewrite <- list_fmap_compose, list_fmap_id. Qed.

Lemma bounded_reachable maxSize progs (c : config) :
  rtc step (start (new_queue maxSize) progs) c ->
  cinv (inv maxSize) demand c /\ accounted (puts progs) (takes progs) c /\
  (Forall one_sided progs -> Forall one_sided (locals c)).
Proof.
  intros Hr. assert (inv maxSize (new_queue maxSize)) as H0 by (split_and!; cbn; [done|lia|done]).
  eapply (rtc_invariant step (fun c => cinv (inv maxSize) demand c /\ accounted (puts progs) (takes progs) c /\
    (Forall one_sided progs -> Forall one_sided (locals c)))); [|done|].
  - intros a b Hab (Ha & Hacc & Hside). split; [exact (cinv_step (inv maxSize) demand _ _ Hab Ha)|]. pose proof (ci_inv _ _ _ Ha) as Hinv.
    split; [by eapply bounded_accounted_step|]. intros. eapply one_sided_step; eauto.
  - split; [by apply cinv_start|]. unfold accounted. by rewrite start_locals.
Qed.

(** A thread that waits on a condition is in the method that can wait on it. *)
Lemma waiting_method maxSize (c : config) i l x :
  cinv (inv maxSize) demand c -> c.2 !! i = Some (l, Waiting x) ->
  match x with notEmpty_ => (0 < count is_take l)%nat | notFull_ => (0 < count is_put l)%nat end.
Proof.
  intros Hc Hi. destruct (ci_typed _ _ _ Hc i l x Hi) as (m & Hm & Hx). destruct l as [|m' l]; [done|].
  cbn in Hm. injection Hm as ->. destruct m, x; try done; rewrite count_cons; cbn; lia.
Qed.

Definition kind (x : condition) : method -> bool := match x with notEmpty_ => is_take | notFull_ => is_put end.

(** When nothing moves and no thread waits on [x], the calls that could are done. *)
Lemma kind_done maxSize (c : config) x :
  cinv (inv maxSize) demand c -> stuck c -> Forall one_sided (locals c) ->
  (forall i l, c.2 !! i <> Some (l, Waiting x)) -> sum_list_with (count (kind x)) (locals c) = 0%nat.
Proof.
  intros Hc Hst Hside Hno. destruct (decide (0 < sum_list_with (count (kind x)) (locals c))%nat) as [Hp|]; [|lia].
  exfalso. apply sum_pos in Hp as (j & l & Hj & Hl). rewrite Forall_lookup in Hside. pose proof (Hside j l Hj) as Hs.
  unfold locals in Hj. rewrite list_lookup_fmap in Hj. destruct (c.2 !! j) as [[l2 st]|] eqn:Ej; [|done].
  cbn in Hj. injection Hj as ->. pose proof (stuck_threads _ _ c j l st Hc Hst Ej) as Hx.
  destruct st as [| |y]; [|done|].
  - destruct l; [unfold count in Hl; cbn in Hl; lia|]. by destruct Hx.
  - assert (y <> x) as Hne by (intros ->; by apply Hno in Ej). pose proof (waiting_method _ _ _ _ _ Hc Ej) as Hm.
    unfold one_sided in Hs. destruct x, y; try done; cbn in Hl; lia.
Qed.

(** C16: The bounded queue, for any threads that use it in any interleaving and
    with spurious wakeups: elements come out in the order they went in, once
    each, and never more than [maxSize] are inside.  When nothing can move any
    more, consumers wait only on an empty queue and producers only on a full
    one; and if the queue can hold something, no thread both produces and
    consumes, and as many elements are to be taken as put, then every thread has
    finished. *)
Theorem bounded_queue_correct maxSize progs (c : config) :
  rtc step (start (new_queue maxSize) progs) c ->
  put_log c.1.1 = taken c.1.1 ++ queue_ c.1.1 /\ (length (queue_ c.1.1) <= maxSize)%nat /\
  (stuck c ->
   (forall i l x, c.2 !! i = Some (l, Waiting x) ->
      match x with notEmpty_ => queue_ c.1.1 = [] | notFull_ => length (queue_ c.1.1) = maxSize end) /\
   ((0 < maxSize)%nat -> Forall one_sided progs -> puts progs = takes progs ->
    forall i l st, c.2 !! i = Some (l, st) -> l = [])).
Proof.
  intros Hr. destruct (bounded_reachable _ _ _ Hr) as (Hc & [HP HT] & Hside).
  pose proof (ci_inv _ _ _ Hc) as (Hlog & Hlen & Hcap). split_and!; [done|lia|]. intros Hst.
  assert (forall i l x, c.2 !! i = Some (l, Waiting x) ->
    match x with notEmpty_ => queue_ c.1.1 = [] | notFull_ => length (queue_ c.1.1) = maxSize end) as Hwait.
  { intros i l x Hi. pose proof (stuck_waiters _ _ c i l x Hc Hst Hi) as Hd. unfold demand in Hd.
    destruct x; injection Hd as Hd; [by apply length_zero_iff_nil|lia]. }
  split; [done|]. intros Hpos Hpure Hbal. specialize (Hside Hpure).
  assert (forall i l x, c.2 !! i <> Some (l, Waiting x)) as Hnone.
  { intros i l x Hi. pose proof (Hwait i l x Hi) as Hx. pose proof (waiting_method _ _ _ _ _ Hc Hi) as Hm.
    assert (0 < sum_list_with (count (kind x)) (locals c))%nat as Hrest.
    { assert (l ∈ locals c) as Hin.
      { unfold locals. apply list_elem_of_fmap. exists (l, Waiting x). split; [done|]. by eapply list_elem_of_lookup_2. }
      pose proof (sum_list_with_in l (count (kind x)) _ Hin). destruct x; cbn [kind] in *; lia. }
    apply (f_equal length) in Hlog. rewrite length_app in Hlog. unfold puts, takes in *.
    destruct x; cbn [kind] in Hrest.
    - pose proof (kind_done _ c notFull_ Hc Hst Hside) as Hd. cbn [kind] in Hd. rewrite Hx in *. cbn in Hlog.
      rewrite Hd in HP; [lia|]. intros j l' Hj%Hwait. cbn in Hj. lia.
    - pose proof (kind_done _ c notEmpty_ Hc Hst Hside) as Hd. cbn [kind] in Hd.
      rewrite Hd in HT; [lia|]. intros j l' Hj%Hwait. rewrite Hj in Hx. cbn in Hx. lia. }
  intros i l st Hi. pose proof (stuck_threads _ _ c i l st Hc Hst Hi) as Hs.
  destruct st as [| |y]; [|done|by apply Hnone in Hi]. destruct l; [done|]. by destruct Hs.
Qed.

(** ** Witness: one producer and one consumer share a queue of one element *)
Definition sample_progs : list (list method) := [[Put 1; Put 2]; [Take; Take]].
Definition sample_config : config :=
  default (start (new_queue 1) sample_progs)
    (run_schedule [1; 1; 0; 0; 0; 0; 1; 1; 0; 0; 1; 1]%nat (start (new_queue 1) sample_progs)).

Lemma BoundedBlockingQueue_sample_reached : rtc step (start (new_queue 1) sample_progs) sample_config.
Proof. apply (run_schedule_steps [1; 1; 0; 0; 0; 0; 1; 1; 0; 0; 1; 1]%nat). vm_compute. reflexivity. Qed.

Lemma bounded_queue_correct_witness :
  taken sample_config.1.1 = [1; 2] /\ put_log sample_config.1.1 = taken sample_config.1.1 ++ queue_ sample_config.1.1.
Proof.
  split; [vm_compute; reflexivity|].
  exact (proj1 (bounded_queue_correct 1 sample_progs sample_config BoundedBlockingQueue_sample_reached)).
Defined.
End BoundedBlockingQueue.
