(* ===== verification/CountDownLatch.v ===== *)
(** * The count-down latch ([src/base/CountDownLatch.h], [CountDownLatch.cpp])

    A [Monitor] on a C [int]; [downs] counts the calls of [countDown] and
    [passed] has their number at every return of [wait]. *)

From S2P Require Import Prelude Monitor.

Module CountDownLatch.
Import Monitor.

Record CountDownLatch := mkLatch { count_ : Z; downs : Z; passed : list Z }.
Definition new_latch (count : Z) : CountDownLatch := mkLatch count 0 [].

Inductive condition := condition_.
Inductive method := WaitLatch | CountDown | GetCount.
Inductive result := RUnit | RCount (n : Z).

#[global] Instance condition_eq_dec : EqDecision condition.
Proof. solve_decision. Defined.

Definition wait (s : CountDownLatch) : verdict CountDownLatch condition result :=
  if count_ s >? 0 then Wait condition_
  else Done (mkLatch (count_ s) (downs s) (passed s ++ [downs s])) RUnit [].

Definition countDown (s : CountDownLatch) : verdict CountDownLatch condition result :=
  let count := i32 (count_ s - 1) in
  Done (mkLatch count (downs s + 1) (passed s)) RUnit (if count =? 0 then [NotifyAll condition_] else []).

Definition getCount (s : CountDownLatch) : verdict CountDownLatch condition result := Done s (RCount (count_ s)) [].

#[global] Instance latch_monitor : Monitor CountDownLatch condition method result := {
  body m s := match m with WaitLatch => wait s | CountDown => countDown s | GetCount => getCount s end;
  cond_of m := match m with WaitLatch => Some condition_ | _ => None end }.

(** [wait] returned only when the count was not positive. *)
Definition inv (n : Z) (s : CountDownLatch) : Prop :=
  count_ s = i32 (n - downs s) /\ 0 <= downs s /\ Forall (fun d => 0 <= d /\ i32 (n - d) <= 0) (passed s).
Definition demand (s : CountDownLatch) (c : condition) : option nat := if count_ s >? 0 then Some 0%nat else None.

Lemma i32_pred z : i32 (i32 z - 1) = i32 (z - 1).
Proof.
  unfold i32, wraps. change (2 ^ (32 - 1)) with 2147483648. change (2 ^ 32) with 4294967296.
  replace (((z + 2147483648) mod 4294967296 - 2147483648 - 1 + 2147483648)) with ((z + 2147483648) mod 4294967296 - 1) by lia.
  rewrite Zminus_mod_idemp_l. do 2 f_equal. lia.
Qed.

#[global] Instance latch_laws n : @MonitorLaws _ _ _ _ (list method) _ latch_monitor calls_program (inv n) demand.
Proof.
  split.
  - intros [| |] s [] Hs E; cbn in E; try done. unfold wait in E. unfold demand.
    destruct (count_ s >? 0); [done|discriminate].
  - intros [| |] s Hs e; cbn; try done. unfold wait. by case_match.
  - intros [| |] s s' r sigs (Hc & Hd & Hf) E; cbn in E.
    + unfold wait in E. destruct (count_ s >? 0) eqn:Eg; simplify_eq. split_and!; cbn; [done|done|].
      apply Forall_app. split; [done|]. repeat constructor; lia.
    + unfold countDown in E. simplify_eq. split_and!; cbn; [|lia|done].
      rewrite Hc, i32_pred. f_equal. lia.
    + unfold getCount in E. by simplify_eq.
  - intros [| |] s s' r sigs [] (Hc & Hd & Hf) E Hna; cbn in E.
    + unfold wait in E. unfold demand. destruct (count_ s >? 0) eqn:Eg; [done|]. done.
    + unfold countDown in E. simplify_eq. unfold demand. cbn.
      destruct (count_ s >? 0) eqn:Eg; [|done].
      assert (count_ s < 2 ^ 31) by (rewrite Hc; pose proof (wraps_range 32 (n - downs s) ltac:(lia)) as Hw; cbn in Hw; lia).
      rewrite i32_small in * by lia. destruct (Z.eqb_spec (count_ s - 1) 0).
      * exfalso. apply Hna. by left.
      * replace (count_ s - 1 >? 0) with true by lia. count_signals. cbn. lia.
    + unfold getCount in E. simplify_eq. unfold demand. case_match; [|done]. count_signals. cbn. lia.
  - done.
Qed.

(** C33: The latch opens after [n] calls of [countDown] and not before, for every
    interleaving: [wait] never returned while fewer were made, and when nothing
    can move any more a thread still waits only if the count is positive. *)
Theorem latch_opens n (progs : list (list method)) c :
  0 <= n < 2 ^ 31 -> rtc step (start (new_latch n) progs) c ->
  Forall (fun d => n <= d) (passed c.1.1) /\
  (stuck c -> forall i l x, c.2 !! i = Some (l, Waiting x) -> 0 < count_ c.1.1).
Proof.
  intros Hn Hr. assert (inv n (new_latch n)) as H0.
  { split_and!; cbn; [|lia|done]. rewrite i32_small; lia. }
  pose proof (cinv_reachable (inv n) demand (new_latch n) progs c H0 Hr) as Hc. split.
  - destruct (ci_inv _ _ _ Hc) as (_ & _ & Hf). eapply Forall_impl; [exact Hf|]. intros d [Hd Hi].
    destruct (Z.le_gt_cases n d); [done|]. rewrite i32_small in Hi; lia.
  - intros Hst i l x Hi. pose proof (stuck_waiters (inv n) demand c i l x Hc Hst Hi) as Hd. unfold demand in Hd.
    destruct (Z.gtb_spec (count_ c.1.1) 0); [lia|done].
Qed.

Definition sample_progs : list (list method) := [[WaitLatch]; [CountDown]; [CountDown]].
Definition sample_config :=
  default (start (new_latch 2) sample_progs)
    (run_schedule [0; 0; 1; 1; 2; 2; 0; 0]%nat (start (new_latch 2) sample_progs)).

Lemma CountDownLatch_sample_reached : rtc step (start (new_latch 2) sample_progs) sample_config.
Proof. apply (run_schedule_steps [0; 0; 1; 1; 2; 2; 0; 0]%nat). vm_compute. reflexivity. Qed.

Lemma latch_opens_witness : passed sample_config.1.1 = [2] /\ Forall (fun d => 2 <= d) (passed sample_config.1.1).
Proof.
  split; [vm_compute; reflexivity|].
  exact (proj1 (latch_opens 2 sample_progs sample_config ltac:(lia) CountDownLatch_sample_reached)).
Defined.
End CountDownLatch.
