(* ===== verification/ThreadPool.v ===== *)
(** * The thread pool ([src/base/ThreadPool.h], [ThreadPool.cpp])

    A [Monitor] whose workers run [runInThread] and whose clients call [run] and
    [stop].  Tasks are numbers.  [running_] is read by the workers without the
    lock.  [Thread::join] asserts that the thread is joined once and waits for it:
    [workers] is the number of workers and [exited] how many have returned. *)

From S2P Require Import Prelude Monitor.

Module ThreadPool.
Import Monitor.

Record ThreadPool := mkPool {
  queue_ : list Z;
  maxQueueSize_ : nat;
  running_ : bool;
  (** history: tasks queued, tasks taken from the queue, tasks run *)
  submitted : list Z;
  taken : list Z;
  executed : list Z;
  (** tasks that [run] called itself because the pool has no threads *)
  direct : list Z;
  workers : nat;
  exited : nat;
  (** [threads_[0]->joined_], which a second [stop] finds set *)
  joined_ : bool }.

Inductive condition := notEmpty_ | notFull_.
Inductive method := Run (task : Z) | Take | Stop | QueueSize.
Inductive result := RUnit | RTask (task : option Z) | RSize (n : Z).

#[global] Instance condition_eq_dec : EqDecision condition.
Proof. solve_decision. Defined.

(** A pool after [setMaxQueueSize(maxSize)] and [start(numThreads)]. *)
Definition started (maxSize numThreads : nat) : ThreadPool := mkPool [] maxSize true [] [] [] [] numThreads 0 false.

Definition isFull (s : ThreadPool) : bool :=
  bool_decide (0 < maxQueueSize_ s)%nat && bool_decide (maxQueueSize_ s <= length (queue_ s))%nat.

(** The part of [run] under the lock. *)
Definition run (task : Z) (s : ThreadPool) : verdict ThreadPool condition result :=
  if isFull s then Wait notFull_
  else match assert_ (negb (isFull s)) with
       | Ok _ => Done (mkPool (queue_ s ++ [task]) (maxQueueSize_ s) (running_ s) (submitted s ++ [task]) (taken s)
                         (executed s) (direct s) (workers s) (exited s) (joined_ s)) RUnit [Notify notEmpty_]
       | Err e => Fails e
       end.

Definition take (s : ThreadPool) : verdict ThreadPool condition result :=
  match queue_ s with
  | [] => if running_ s then Wait notEmpty_ else Done s (RTask None) []
  | task :: q =>
      Done (mkPool q (maxQueueSize_ s) (running_ s) (submitted s) (taken s ++ [task]) (executed s) (direct s) (workers s) (exited s) (joined_ s))
        (RTask (Some task)) (if decide (0 < maxQueueSize_ s)%nat then [Notify notFull_] else [])
  end.

(** The part of [stop] under the lock. *)
Definition stop (s : ThreadPool) : verdict ThreadPool condition result :=
  Done (mkPool (queue_ s) (maxQueueSize_ s) false (submitted s) (taken s) (executed s) (direct s) (workers s) (exited s) (joined_ s)) RUnit
    [NotifyAll notEmpty_].

#[global] Instance pool_monitor : Monitor ThreadPool condition method result := {
  body m s :=
    match m with
    | Run t => run t s
    | Take => take s
    | Stop => stop s
    | QueueSize => Done s (RSize (zlen (queue_ s))) []
    end;
  cond_of m := match m with Take => Some notEmpty_ | Run _ => Some notFull_ | _ => None end }.

(** [runInThread]: at the test of [running_], in [take], running a task, returned. *)
Inductive worker := WTest | WTake | WRun (task : Z) | WReturned.

(** The calls of a client. *)
Inductive client_call := CRun (task : Z) | CStop | CSize.

(** A client knows whether [threads_] is empty.  [Joining]: before the loop over the
    threads in [stop]; [Awaiting]: in [pthread_join]; [Aborted]: an assertion of
    [join] has failed. *)
Inductive program :=
  | Worker (w : worker)
  | Client (no_threads : bool) (calls : list client_call)
  | Joining (no_threads : bool) (calls : list client_call)
  | Awaiting (calls : list client_call)
  | Aborted (calls : list client_call).

Definition runInThread (r : result) : worker :=
  match r with RTask (Some t) => WRun t | _ => WTest end.

Definition set_exited (s : ThreadPool) : ThreadPool :=
  mkPool (queue_ s) (maxQueueSize_ s) (running_ s) (submitted s) (taken s) (executed s) (direct s) (workers s) (S (exited s)) (joined_ s).
Definition set_executed (t : Z) (s : ThreadPool) : ThreadPool :=
  mkPool (queue_ s) (maxQueueSize_ s) (running_ s) (submitted s) (taken s) (executed s ++ [t]) (direct s) (workers s) (exited s) (joined_ s).
Definition set_direct (t : Z) (s : ThreadPool) : ThreadPool :=
  mkPool (queue_ s) (maxQueueSize_ s) (running_ s) (submitted s) (taken s) (executed s) (direct s ++ [t]) (workers s) (exited s) (joined_ s).

Definition set_joined (s : ThreadPool) : ThreadPool :=
  mkPool (queue_ s) (maxQueueSize_ s) (running_ s) (submitted s) (taken s) (executed s) (direct s) (workers s) (exited s) true.

(** Steps without the lock: the loop of [runInThread], [run] when the pool has
    no threads, the joins at the end of [stop]. *)
Definition pool_local (l : program) (s : ThreadPool) : option (program * ThreadPool) :=
  match l with
  | Worker WTest => if running_ s then Some (Worker WTake, s) else Some (Worker WReturned, set_exited s)
  | Worker (WRun t) => Some (Worker WTest, set_executed t s)
  | Client true (CRun t :: calls) => Some (Client true calls, set_direct t s)
  | Joining true calls => Some (Client true calls, s)
  | Joining false calls => if joined_ s then Some (Aborted calls, s) else Some (Awaiting calls, set_joined s)
  | Awaiting calls => if decide (exited s = workers s) then Some (Client false calls, s) else None
  | _ => None
  end.

#[global] Instance pool_program : Program ThreadPool method result program := {
  request l :=
    match l with
    | Worker WTake => Some Take
    | Client false (CRun t :: _) => Some (Run t)
    | Client _ (CStop :: _) => Some Stop
    | Client _ (CSize :: _) => Some QueueSize
    | _ => None
    end;
  resume l r :=
    match l with
    | Worker _ => Worker (runInThread r)
    | Client nt (CStop :: calls) => Joining nt calls
    | Client nt (_ :: calls) => Client nt calls
    | _ => l
    end;
  local := pool_local }.

Definition inv (maxSize : nat) (s : ThreadPool) : Prop :=
  submitted s = taken s ++ queue_ s /\ maxQueueSize_ s = maxSize /\ ((0 < maxSize)%nat -> (length (queue_ s) <= maxSize)%nat).
Definition demand (s : ThreadPool) (c : condition) : option nat :=
  match c with
  | notEmpty_ => if running_ s then Some (length (queue_ s)) else None
  | notFull_ => if decide (0 < maxQueueSize_ s)%nat then Some (maxQueueSize_ s - length (queue_ s))%nat else None
  end.

Lemma run_cases t s :
  (0 < maxQueueSize_ s <= length (queue_ s))%nat /\ run t s = Wait notFull_ \/
  ((0 < maxQueueSize_ s)%nat -> (length (queue_ s) < maxQueueSize_ s)%nat) /\
  run t s = Done (mkPool (queue_ s ++ [t]) (maxQueueSize_ s) (running_ s) (submitted s ++ [t]) (taken s)
                    (executed s) (direct s) (workers s) (exited s) (joined_ s)) RUnit [Notify notEmpty_].
Proof.
  unfold run, isFull. case_bool_decide; case_bool_decide; cbn [andb]; [left; split; [lia|done]|right; split; [lia|done]..].
Qed.

#[global] Instance pool_laws maxSize : MonitorLaws (inv maxSize) demand.
Proof.
  split.
  - intros [t| | |] s c (Hl & Hm & Hs) E; cbn in E; try done.
    + destruct (run_cases t s) as [[Hf E']|[_ E']]; rewrite E' in E; [|done]. injection E as <-. split; [done|].
      unfold demand. rewrite decide_True by lia. f_equal. lia.
    + unfold take in E. destruct (queue_ s) eqn:Eq; [|done]. destruct (running_ s) eqn:Er; [|done].
      injection E as <-. split; [done|]. unfold demand. by rewrite Er, Eq.
  - intros [t| | |] s Hs e E; cbn in E; try done.
    + destruct (run_cases t s) as [[_ E']|[_ E']]; by rewrite E' in E.
    + unfold take in E. by repeat case_match.
  - intros [t| | |] s s' r sigs (Hl & Hm & Hs) E; cbn in E.
    + destruct (run_cases t s) as [[_ E']|[Hf E']]; rewrite E' in E; [done|]. injection E as <- _ _.
      split_and!; cbn; [by rewrite Hl, app_assoc|done|]. rewrite length_app. cbn. lia.
    + unfold take in E. destruct (queue_ s) eqn:Eq; [destruct (running_ s); [done|]|].
      * injection E as <- _ _. split_and!; [by rewrite Eq|done|by rewrite Eq].
      * injection E as <- _ _. split_and!; cbn in *; [by rewrite <- app_assoc|done|lia].
    + injection E as <- _ _. done.
    + injection E as <- _ _. done.
  - intros [t| | |] s s' r sigs c (Hl & Hm & Hs) E Hna; cbn in E.
    + destruct (run_cases t s) as [[_ E']|[Hf E']]; rewrite E' in E; [done|]. injection E as <- _ <-.
      unfold demand. destruct c; cbn.
      * destruct (running_ s); [|done]. count_signals. rewrite length_app. cbn. lia.
      * destruct (decide (0 < maxQueueSize_ s)%nat); [|done]. count_signals. rewrite length_app. cbn. lia.
    + unfold take in E. destruct (queue_ s) as [|t q] eqn:Eq.
      * destruct (running_ s) eqn:Er; [done|]. injection E as <- _ <-. unfold demand. rewrite Er, Eq.
        destruct c; [done|]. destruct (decide _); [|done]. cbn. count_signals. lia.
      * injection E as <- _ <-. unfold demand. rewrite Eq. cbn. destruct c.
        -- destruct (running_ s); [|done]. destruct (decide (0 < _)%nat); cbn; count_signals; lia.
        -- destruct (decide (0 < _)%nat); [|done]. cbn. count_signals. cbn in Hs. lia.
    + injection E as <- _ <-. unfold demand. destruct c; cbn.
      * exfalso. apply Hna. by left.
      * destruct (decide (0 < _)%nat); [|done]. count_signals. lia.
    + injection E as <- _ <-. destruct (demand s c); [|done]. destruct c; cbn; count_signals; lia.
  - intros [[| |t|]|[] [|[t| |] cs]|[] cs|cs|cs] s l' s' Hs E; cbn in E; try done.
    all: try (case_decide; [|done]); try (destruct (running_ s) eqn:Er); try (destruct (joined_ s)); simplify_eq; (split; [done|]);
      intros []; unfold demand; cbn; by rewrite ?Er.
Qed.

(** ** Every task is somewhere *)

(** The tasks a thread has yet to run or to hand in. *)
Definition runs (calls : list client_call) : list Z := omap (fun x => match x with CRun t => Some t | _ => None end) calls.
Definition pending (l : program) : list Z :=
  match l with Worker (WRun t) => [t] | Worker _ => [] | Client _ calls | Joining _ calls | Awaiting calls | Aborted calls => runs calls end.

Definition is_worker (l : program) : bool := match l with Worker _ => true | _ => false end.
Definition is_returned (l : program) : bool := match l with Worker WReturned => true | _ => false end.
(** Threads that are where they are only because of [stop]. *)
Definition ended (l : program) : bool := match l with Worker WReturned | Joining _ _ | Awaiting _ | Aborted _ => true | _ => false end.
Definition is_aborted (l : program) : bool := match l with Aborted _ => true | _ => false end.
Definition flag (l : program) : option bool := match l with Worker _ => None | Client nt _ | Joining nt _ => Some nt | _ => Some false end.

(** The calls of [stop] that a thread has not got through the assertion of [join]. *)
Definition stops (calls : list client_call) : nat := sum_list_with (fun x => match x with CStop => 1 | _ => 0 end)%nat calls.
Definition stopping (l : program) : nat :=
  match l with Worker _ => 0 | Client _ calls | Awaiting calls => stops calls | Joining _ calls | Aborted calls => S (stops calls) end.

Abbreviation config := (ThreadPool * MutexLock * list (program * status condition))%type.

Definition tasks (s : ThreadPool) : list Z := executed s ++ direct s ++ queue_ s.

(** A thread goes from [l] to [l'] and the members from [s] to [s']. *)
Record moved (s : ThreadPool) (l : program) (s' : ThreadPool) (l' : program) : Prop := {
  mv_tasks : tasks s' ++ pending l' ≡ₚ tasks s ++ pending l;
  mv_ended : ended l' = true -> running_ s' = false \/ ended l = true;
  mv_running : running_ s = false -> running_ s' = false;
  mv_exited : (exited s' + one is_returned l = exited s + one is_returned l')%nat;
  mv_submitted : flag l = Some false \/ submitted s' = submitted s;
  mv_stops : (stopping l' + Nat.b2n (joined_ s') <= stopping l + Nat.b2n (joined_ s))%nat;
  mv_aborted : is_aborted l' = true -> joined_ s' = true;
  mv_joined : joined_ s = true -> joined_ s' = true;
  mv_workers : workers s' = workers s /\ is_worker l' = is_worker l /\ flag l' = flag l }.

Lemma body_moved l m s s' r sigs :
  request l = Some m -> body m s = Done s' r sigs -> moved s l s' (resume l r).
Proof.
  destruct l as [[| | |]|[] [|[t| |] cs]|nt cs|cs|cs]; cbn [request pool_program]; intros [= <-] Hb; cbn in Hb.
  4: destruct (run_cases t s) as [[_ E]|[_ E]]; rewrite E in Hb; [done|].
  1: unfold take in Hb; destruct (queue_ s) as [|t q] eqn:Eq; [destruct (running_ s) eqn:Er; [done|]|].
  all: injection Hb as <- <- _; split; try (by auto); cbn; try lia; unfold tasks; cbn; rewrite ?Eq; solve_Permutation.
Qed.

Lemma local_moved l s l' s' : local l s = Some (l', s') -> moved s l s' l'.
Proof.
  destruct l as [[| |t|]|[] [|[t| |] cs]|[] cs|cs|cs]; cbn; intros E; try done.
  all: try (destruct (running_ s) eqn:Er); try (case_decide; [|done]); try (destruct (joined_ s) eqn:Ej); simplify_eq; split;
    try (by auto); cbn; rewrite ?Ej; cbn; try lia.
  all: unfold tasks, runs; cbn; solve_Permutation.
Qed.

Lemma bind_insert (f : program -> list Z) ls i l l' :
  ls !! i = Some l -> (<[i := l']> ls ≫= f) ++ f l ≡ₚ (ls ≫= f) ++ f l'.
Proof.
  revert i. induction ls as [|x ls IH]; intros [|i] Hi; cbn in Hi; simplify_eq.
  - change (<[0%nat := l']> (l :: ls)) with (l' :: ls). cbn. solve_Permutation.
  - change (<[S i := l']> (x :: ls)) with (x :: <[i := l']> ls). cbn. by rewrite <- !app_assoc, (IH i Hi).
Qed.

(** [all] are the tasks of the clients' calls, [allstops] is how often they stop the
    pool, [n] the number of threads. *)
Record accounted (all : list Z) (allstops n : nat) (c : config) : Prop := {
  ac_tasks : tasks c.1.1 ++ (locals c ≫= pending) ≡ₚ all;
  ac_ended i l : locals c !! i = Some l -> ended l = true -> running_ c.1.1 = false;
  ac_flag i l nt : locals c !! i = Some l -> flag l = Some nt -> nt = bool_decide (n = 0)%nat;
  ac_stops : (sum_list_with stopping (locals c) + Nat.b2n (joined_ c.1.1) <= allstops)%nat;
  ac_aborted i l : locals c !! i = Some l -> is_aborted l = true -> joined_ c.1.1 = true;
  ac_direct : n = 0%nat -> submitted c.1.1 = [];
  ac_exited : exited c.1.1 = count is_returned (locals c);
  ac_workers : workers c.1.1 = n /\ count is_worker (locals c) = n }.

Lemma accounted_moved all k n (c c' : config) i l l' :
  locals c !! i = Some l -> locals c' = <[i := l']> (locals c) -> moved c.1.1 l c'.1.1 l' ->
  accounted all k n c -> accounted all k n c'.
Proof.
  intros Hi E [Ht He Hr Hx Hs Hst Hab Hj (Hw & Hk & Hf)] [At Ae Af As Aab Ad Ax [Aw Ak]].
  split; rewrite ?E.
  - apply (Permutation_app_inv_r (pending l)).
    rewrite <- app_assoc, (bind_insert pending _ _ _ l' Hi), <- At.
    rewrite (Permutation_app_comm (_ ≫= _) (pending l')), app_assoc, Ht. solve_Permutation.
  - intros j lj. rewrite list_lookup_insert_Some. intros [(_ & <- & _)|[_ Hjl]]; [|intros Hend; eauto].
    intros [?|?]%He; [done|eauto].
  - intros j lj nt. rewrite list_lookup_insert_Some. intros [(_ & <- & _)|[_ Hjl]]; [rewrite Hf|]; eauto.
  - pose proof (sum_insert stopping _ _ _ l' Hi). lia.
  - intros j lj. rewrite list_lookup_insert_Some. intros [(_ & <- & _)|[_ Hjl]]; eauto.
  - intros Hn. destruct Hs as [Hs| ->]; [|auto]. specialize (Af i l false Hi Hs). by rewrite bool_decide_eq_true_2 in Af.
  - pose proof (count_insert is_returned _ _ _ l' Hi). lia.
  - rewrite Hw. split; [done|]. pose proof (count_insert is_worker _ _ _ l' Hi) as Hc. unfold one in Hc.
    rewrite Hk in Hc. lia.
Qed.

Lemma pool_accounted_step all k n (c c' : config) : step c c' -> accounted all k n c -> accounted all k n c'.
Proof.
  intros Hstep Ha.
  destruct (step_effect c c' Hstep) as [[E1 E2]|(i & l & Hi & [(m & r & sigs & Hr & Hb & E)|(l' & Hr & Hl & E)])].
  - destruct Ha. split; by rewrite ?E1, ?E2.
  - by eapply accounted_moved; [..|eapply body_moved|].
  - by eapply accounted_moved; [..|eapply local_moved|].
Qed.

(** ** What the pool promises *)

(** [numThreads] workers and any number of client threads. *)
Definition progs (numThreads : nat) (clients : list (list client_call)) : list program :=
  replicate numThreads (Worker WTest) ++ (Client (bool_decide (numThreads = 0)%nat) <$> clients).
Definition all_tasks (clients : list (list client_call)) : list Z := clients ≫= runs.
Definition all_stops (clients : list (list client_call)) : nat := sum_list_with stops clients.

Lemma progs_lookup n clients i l :
  progs n clients !! i = Some l -> l = Worker WTest \/ exists calls, l = Client (bool_decide (n = 0)%nat) calls.
Proof.
  unfold progs. rewrite lookup_app_Some. intros [[<- _]%lookup_replicate|[_ Hi]]; [by left|right].
  rewrite list_lookup_fmap in Hi. destruct (clients !! _) as [calls|]; simplify_eq/=. eauto.
Qed.

Lemma progs_pending n clients : (progs n clients ≫= pending) = all_tasks clients.
Proof.
  unfold progs, all_tasks. rewrite bind_app. generalize (bool_decide (n = 0)%nat) as nt. intros nt.
  induction n as [|n IH]; cbn; [|done]. induction clients; cbn; congruence.
Qed.

Lemma progs_count n clients (P : program -> bool) :
  (forall nt calls, P (Client nt calls) = false) -> count P (progs n clients) = (n * one P (Worker WTest))%nat.
Proof.
  intros HP. unfold progs. generalize (bool_decide (n = 0)%nat) as nt. intros nt.
  induction n as [|n IH]; cbn [replicate app]; [|rewrite count_cons; lia].
  induction clients as [|x cs IH]; [done|]. rewrite fmap_cons, count_cons. unfold one in *. by rewrite HP.
Qed.

Lemma progs_stops n clients : sum_list_with stopping (progs n clients) = all_stops clients.
Proof.
  unfold progs, all_stops. generalize (bool_decide (n = 0)%nat) as nt. intros nt. induction n as [|n IH]; cbn; [|done].
  induction clients as [|x cs IH]; [done|]. rewrite fmap_cons. cbn. by rewrite IH.
Qed.

Lemma pool_reachable maxSize n clients (c : config) :
  rtc step (start (started maxSize n) (progs n clients)) c ->
  cinv (inv maxSize) demand c /\ accounted (all_tasks clients) (all_stops clients) n c.
Proof.
  intros Hr. eapply (rtc_invariant step (fun c => cinv (inv maxSize) demand c /\ accounted (all_tasks clients) (all_stops clients) n c)); [|done|].
  - intros a b Hab [Ha Hacc]. split; [exact (cinv_step (inv maxSize) demand _ _ Hab Ha)|by eapply pool_accounted_step].
  - split; [apply cinv_start; split_and!; cbn; [done..|lia]|].
    assert (locals (start (started maxSize n) (progs n clients) : config) = progs n clients) as El.
    { unfold locals, start. cbn. by rewrite <- list_fmap_compose, list_fmap_id. }
    split; rewrite ?El; cbn.
    + by rewrite progs_pending.
    + intros i l [->|[calls ->]]%progs_lookup; done.
    + intros i l nt [->|[calls ->]]%progs_lookup; cbn; [done|]. by intros [= <-].
    + rewrite progs_stops. lia.
    + intros i l [->|[calls ->]]%progs_lookup; done.
    + done.
    + by rewrite progs_count, Nat.mul_0_r.
    + by rewrite progs_count, Nat.mul_1_r.
Qed.

(** A worker that cannot move has returned, or waits for work that is not there. *)
Lemma stuck_worker maxSize (c : config) i w st :
  cinv (inv maxSize) demand c -> stuck c -> c.2 !! i = Some (Worker w, st) ->
  w = WReturned \/ w = WTake /\ running_ c.1.1 = true /\ queue_ c.1.1 = [].
Proof.
  intros Hc Hst Hi. pose proof (stuck_threads _ _ c i _ st Hc Hst Hi) as Hs. destruct st as [| |x]; [|done|].
  - destruct Hs as [Hreq Hloc]. destruct w; cbn in *; [by destruct (running_ _)|done|done|by left].
  - pose proof (stuck_waiters _ _ c i _ x Hc Hst Hi) as Hd. destruct (ci_typed _ _ _ Hc i _ x Hi) as (m & Hm & Hx).
    right. destruct w; cbn in Hm; try done. injection Hm as <-. cbn in Hx. injection Hx as <-. cbn in Hd.
    destruct (running_ _); [|done]. injection Hd as Hd. split_and!; [done..|by apply length_zero_iff_nil].
Qed.

(** A client that cannot move is done, waits in [run] for room, or joins workers that have not returned. *)
Lemma stuck_client maxSize (c : config) i nt calls st :
  cinv (inv maxSize) demand c -> stuck c -> c.2 !! i = Some (Client nt calls, st) ->
  calls = [] \/ nt = false /\ st = Waiting notFull_ /\ (0 < maxSize <= length (queue_ c.1.1))%nat.
Proof.
  intros Hc Hst Hi. pose proof (stuck_threads _ _ c i _ st Hc Hst Hi) as Hs. destruct st as [| |x]; [|done|].
  - destruct Hs as [Hreq Hloc]. destruct nt, calls as [|[] calls]; cbn in *; try done; by left.
  - pose proof (stuck_waiters _ _ c i _ x Hc Hst Hi) as Hd. destruct (ci_typed _ _ _ Hc i _ x Hi) as (m & Hm & Hx).
    right. destruct nt, calls as [|[] calls]; cbn in Hm; try done; injection Hm as <-; cbn in Hx; try done.
    injection Hx as <-. cbn in Hd. destruct (ci_inv _ _ _ Hc) as (_ & Hmax & Hlen).
    destruct (decide _); [|done]. injection Hd as Hd. split_and!; [done..|lia|lia].
Qed.

(** When [stop] has been called, nothing is left to join. *)
Lemma stuck_joined maxSize n k all (c : config) :
  cinv (inv maxSize) demand c -> accounted all k n c -> stuck c -> running_ c.1.1 = false ->
  exited c.1.1 = workers c.1.1.
Proof.
  intros Hc Ha Hst Hrun. destruct (ac_workers _ _ _ _ Ha) as [-> Hn]. rewrite (ac_exited _ _ _ _ Ha), <- Hn. unfold locals.
  assert (forall i l st, c.2 !! i = Some (l, st) -> is_returned l = is_worker l) as Hall.
  { intros i [w|nt cs|nt cs|cs|cs] st Hi; [|done..].
    destruct (stuck_worker _ c i w st Hc Hst Hi) as [->|(_ & ? & _)]; [done|congruence]. }
  clear -Hall. induction (c.2) as [|[l st] ths IH]; [done|]. rewrite fmap_cons, !count_cons, IH.
  - unfold one. cbn. by rewrite (Hall 0%nat l st eq_refl).
  - intros i l' st' Hi. exact (Hall (S i) l' st' Hi).
Qed.

(** While the pool runs, nothing is left in the queue. *)
Lemma stuck_queue maxSize n k all (c : config) :
  cinv (inv maxSize) demand c -> accounted all k n c -> stuck c -> running_ c.1.1 = true -> queue_ c.1.1 = [].
Proof.
  intros Hc Ha Hst Hrun. destruct (decide (n = 0)%nat) as [Hz|Hz].
  - pose proof (ci_inv _ _ _ Hc) as (Hsub & _). rewrite (ac_direct _ _ _ _ Ha Hz) in Hsub. by apply eq_sym, app_nil in Hsub as [_ ?].
  - destruct (ac_workers _ _ _ _ Ha) as [_ Hn]. assert (0 < count is_worker (locals c))%nat as Hp by lia.
    apply count_pos in Hp as (i & l & Hi & Hl). pose proof (ac_ended _ _ _ _ Ha i l Hi) as Hend.
    unfold locals in Hi. rewrite list_lookup_fmap in Hi. destruct (c.2 !! i) as [[l' st]|] eqn:Ei; [|done].
    cbn in Hi. injection Hi as ->. destruct l as [w|nt cs|nt cs|cs|cs]; [|done..].
    destruct (stuck_worker _ c i w st Hc Hst Ei) as [->|(_ & _ & ?)]; [|done]. specialize (Hend eq_refl). congruence.
Qed.

Lemma stuck_pending maxSize n k all (c : config) :
  cinv (inv maxSize) demand c -> accounted all k n c -> stuck c -> running_ c.1.1 = true ->
  (forall i nt calls st, c.2 !! i = Some (Client nt calls, st) -> calls = []) -> (locals c ≫= pending) = [].
Proof.
  intros Hc Ha Hst Hrun Hdone.
  assert (forall i l, locals c !! i = Some l -> pending l = []) as Hall.
  { intros i l Hi. pose proof (ac_ended _ _ _ _ Ha i l Hi) as Hend.
    unfold locals in Hi. rewrite list_lookup_fmap in Hi. destruct (c.2 !! i) as [[l' st]|] eqn:Ei; [|done].
    cbn in Hi. injection Hi as ->. destruct l as [w|nt cs|nt cs|cs|cs]; try (specialize (Hend eq_refl); congruence).
    - by destruct (stuck_worker _ c i w st Hc Hst Ei) as [->|(-> & _)].
    - by rewrite (Hdone i nt cs st Ei). }
  clear -Hall. induction (locals c) as [|l ls IH]; [done|]. cbn. rewrite (Hall 0%nat l eq_refl). apply IH.
  intros i. exact (Hall (S i)).
Qed.

(** ** The pool comes to rest

    The work left in a pool with [N] threads in all: a queued task will be taken and
    wake a client, a task handed in will be queued and wake a worker, [stop] may wake
    everybody; a worker that finds [running_] false returns. *)
Definition call_weight (N : nat) (x : client_call) : nat :=
  match x with CRun _ => 12 | CStop => 3 * N + 4 | CSize => 2 end.
Definition calls_weight (N : nat) (calls : list client_call) : nat := sum_list_with (call_weight N) calls.
Definition weight (N : nat) (l : program) (s : ThreadPool) : nat :=
  match l with
  | Worker WTest => if running_ s then 4 else 1
  | Worker WTake => 3
  | Worker (WRun _) => if running_ s then 5 else 2
  | Worker WReturned => 0
  | Client _ calls | Aborted calls => calls_weight N calls
  | Awaiting calls => S (calls_weight N calls)
  | Joining _ calls => S (S (calls_weight N calls))
  end.
Definition stock (s : ThreadPool) : nat := 7 * length (queue_ s).

Lemma weight_stops N l s s' : (running_ s = false -> running_ s' = false) -> (weight N l s' <= weight N l s)%nat.
Proof. intros H. destruct l as [[]|nt cs|nt cs|cs|cs]; cbn; try lia; destruct (running_ s), (running_ s'); naive_solver lia. Qed.

#[global] Instance pool_diminishing N : Diminishing (weight N) stock N.
Proof.
  split.
  - intros l m s s' r sigs Hr Hb. destruct l as [[]|[] [|[] cs]|nt cs|cs|cs]; cbn in Hr; try done; injection Hr as <-; cbn in Hb.
    + unfold take in Hb. destruct (queue_ s) as [|t q] eqn:Eq; [destruct (running_ s) eqn:Er; [done|]|]; injection Hb as <- <- <-;
        unfold stock; cbn; rewrite ?Eq, ?Er; cbn; [lia|]. destruct (decide _), (running_ s); cbn; lia.
    + injection Hb as <- <- <-. unfold stock, signal_cost. cbn. unfold calls_weight. cbn. lia.
    + injection Hb as <- <- <-. unfold stock, signal_cost. cbn. unfold calls_weight. cbn. lia.
    + destruct (run_cases task s) as [[_ E]|[_ E]]; rewrite E in Hb; [done|]. injection Hb as <- <- <-. unfold stock, signal_cost. cbn.
      unfold calls_weight. cbn. rewrite length_app. cbn. lia.
    + injection Hb as <- <- <-. unfold stock, signal_cost. cbn. unfold calls_weight. cbn. lia.
    + injection Hb as <- <- <-. unfold stock, signal_cost. cbn. unfold calls_weight. cbn. lia.
  - intros m s s' r sigs l Hb. apply weight_stops. intros Hrun. destruct m as [t| | |]; cbn in Hb.
    + destruct (run_cases t s) as [[_ E]|[_ E]]; rewrite E in Hb; [done|]. by injection Hb as <- _ _.
    + unfold take in Hb. destruct (queue_ s); [destruct (running_ s) eqn:Er; [done|]|]; by injection Hb as <- _ _.
    + by injection Hb as <- _ _.
    + by injection Hb as <- _ _.
  - intros l s l' s' _ E. destruct l as [[| |t|]|[] [|[t| |] cs]|[] cs|cs|cs]; cbn in E; try done.
    all: try (destruct (running_ s) eqn:Er); try (case_decide; [|done]); try (destruct (joined_ s)); simplify_eq; unfold stock; cbn;
      unfold calls_weight; cbn; rewrite ?Er; lia.
  - intros l s l' s' l2 E. apply weight_stops. destruct l as [[| |t|]|[] [|[t| |] cs]|[] cs|cs|cs]; cbn in E; try done.
    all: try (destruct (running_ s) eqn:Er); try (case_decide; [|done]); try (destruct (joined_ s)); simplify_eq; done.
Qed.

(** A bound on the steps that are left. *)
Definition steps_left (c : config) : nat := work (weight (length c.2)) stock c.

(** A second [stop] fails the assertion of [join]. *)
Lemma aborted_stops k n all (c : config) i calls :
  accounted all k n c -> locals c !! i = Some (Aborted calls) -> (2 <= k)%nat /\ n <> 0%nat.
Proof.
  intros Ha Hi. pose proof (ac_stops _ _ _ _ Ha) as Hs. rewrite (ac_aborted _ _ _ _ Ha i _ Hi eq_refl) in Hs.
  rewrite (sum_delete stopping _ _ _ Hi) in Hs. cbn in Hs. split; [lia|]. intros Hn.
  pose proof (ac_flag _ _ _ _ Ha i _ false Hi eq_refl) as Hf. by rewrite bool_decide_eq_true_2 in Hf.
Qed.

(** C15: The thread pool with any number of threads and clients, in any
    interleaving: tasks leave the queue in the order they were submitted, the
    queue keeps to [maxQueueSize_], and every task of the clients' calls is in
    exactly one place.  The pool comes to rest: spurious wakeups apart, only
    [steps_left] steps are left.  If it is still running then, every task has been run
    exactly once and every client has finished.  If [stop()] was called, every worker
    has returned and the joins have gone through; only clients blocked in [run] may
    be left.  The assertion of [Thread::join] fails only when a pool with threads is
    stopped more than once. *)
Theorem thread_pool_correct maxSize n clients (c : config) :
  rtc step (start (started maxSize n) (progs n clients)) c ->
  submitted c.1.1 = taken c.1.1 ++ queue_ c.1.1 /\
  ((0 < maxSize)%nat -> (length (queue_ c.1.1) <= maxSize)%nat) /\
  executed c.1.1 ++ direct c.1.1 ++ queue_ c.1.1 ++ (locals c ≫= pending) ≡ₚ all_tasks clients /\
  ((forall k c', nsteps moves k c c' -> (k <= steps_left c)%nat) /\ exists c', rtc moves c c' /\ stuck c') /\
  (stuck c -> running_ c.1.1 = true ->
   executed c.1.1 ++ direct c.1.1 ≡ₚ all_tasks clients /\
   forall i nt calls st, c.2 !! i = Some (Client nt calls, st) -> calls = []) /\
  (stuck c -> running_ c.1.1 = false ->
   forall i l st, c.2 !! i = Some (l, st) ->
     match l with
     | Worker w => w = WReturned
     | Joining _ _ | Awaiting _ => False
     | Client nt calls => calls = [] \/ nt = false /\ st = Waiting notFull_
     | Aborted _ => (2 <= all_stops clients)%nat /\ n <> 0%nat
     end) /\
  ((all_stops clients <= 1)%nat \/ n = 0%nat -> forall i calls st, c.2 !! i <> Some (Aborted calls, st)).
Proof.
  intros Hr. destruct (pool_reachable _ _ _ _ Hr) as [Hc Ha]. destruct (ci_inv _ _ _ Hc) as (Hsub & Hmax & Hlen).
  pose proof (ac_tasks _ _ _ _ Ha) as Ht. unfold tasks in Ht. rewrite <- !app_assoc in Ht.
  assert (forall i calls st, c.2 !! i = Some (Aborted calls, st) -> (2 <= all_stops clients)%nat /\ n <> 0%nat) as Hab.
  { intros i calls st Hi. apply (aborted_stops _ _ _ c i calls Ha). unfold locals. by rewrite list_lookup_fmap, Hi. }
  split_and!; [done|done|done| | | | |].
  - intros k c' Hk. by apply (moves_bounded _ _ _ k c c' eq_refl).
  - by apply (moves_end (weight (length c.2)) stock (length c.2)).
  - intros Hst Hrun. pose proof (stuck_queue _ _ _ _ _ Hc Ha Hst Hrun) as Hq.
    assert (forall i nt calls st, c.2 !! i = Some (Client nt calls, st) -> calls = []) as Hdone.
    { intros i nt calls st Hi. destruct (stuck_client _ c i nt calls st Hc Hst Hi) as [?|(_ & _ & Hx)]; [done|].
      rewrite Hq in Hx. cbn in Hx. lia. }
    split; [|done]. rewrite <- Ht, Hq. cbn. f_equiv. rewrite <- (app_nil_r (direct c.1.1)) at 1. f_equiv.
    by rewrite (stuck_pending _ _ _ _ _ Hc Ha Hst Hrun Hdone).
  - intros Hst Hrun i l st Hi. pose proof (stuck_threads _ _ c i _ st Hc Hst Hi) as Hs.
    assert (forall x, st = Waiting x -> exists m, request l = Some m) as Hw.
    { intros x ->. destruct (ci_typed _ _ _ Hc i _ x Hi) as (m & ? & _). by exists m. }
    destruct l as [w|nt calls|nt calls|calls|calls]; [| | | |eauto].
    + destruct (stuck_worker _ c i w st Hc Hst Hi) as [->|(_ & ? & _)]; [done|congruence].
    + destruct (stuck_client _ c i nt calls st Hc Hst Hi) as [?|(? & ? & _)]; auto.
    + destruct st as [| |x]; [|done|by destruct (Hw x eq_refl)]. destruct Hs as [_ Hs]. cbn in Hs. by destruct nt; [|destruct (joined_ _)].
    + destruct st as [| |x]; [|done|by destruct (Hw x eq_refl)]. destruct Hs as [_ Hs]. cbn in Hs.
      rewrite decide_True in Hs; [done|]. exact (stuck_joined _ _ _ _ _ Hc Ha Hst Hrun).
  - intros Hone i calls st Hi. destruct (Hab i calls st Hi). destruct Hone; [lia|done].
Qed.

(** ** Witnesses *)

(** One worker and a queue of one place: it takes a task while the client submits two. *)
Definition sample_clients : list (list client_call) := [[CRun 1; CRun 2]].
Definition sample_schedule : list nat := [0; 0; 0; 1; 1; 1; 1; 0; 0; 0; 1; 1; 0; 0; 0; 0; 0; 0; 0]%nat.
Definition sample_config : config :=
  default (start (started 1 1) (progs 1 sample_clients)) (run_schedule sample_schedule (start (started 1 1) (progs 1 sample_clients))).

Lemma ThreadPool_sample_reached : rtc step (start (started 1 1) (progs 1 sample_clients)) sample_config.
Proof. apply (run_schedule_steps sample_schedule). vm_compute. reflexivity. Qed.

Lemma sample_stuck : stuck sample_config.
Proof. apply exec_stuck. repeat constructor. Qed.

Lemma thread_pool_correct_witness :
  executed sample_config.1.1 = [1; 2] /\ executed sample_config.1.1 ++ direct sample_config.1.1 ≡ₚ all_tasks sample_clients.
Proof.
  split; [vm_compute; reflexivity|].
  destruct (thread_pool_correct 1 1 sample_clients sample_config ThreadPool_sample_reached) as (_ & _ & _ & _ & H & _).
  exact (proj1 (H sample_stuck eq_refl)).
Defined.

(** [stop] notifies [notEmpty_] only.  A client blocked in [run] on a full queue
    is not woken, the workers return without emptying the queue, and then nobody
    is left to make room: [stop] returns, a queued task is never run and the
    client stays in [run]. *)
Theorem stop_leaves_producer_blocked :
  exists c : config,
    rtc step (start (started 1 1) (progs 1 [[CRun 1; CRun 2; CRun 3]; [CStop]])) c /\ stuck c /\
    running_ c.1.1 = false /\ queue_ c.1.1 = [2] /\ executed c.1.1 = [1] /\
    c.2 = [(Worker WReturned, Outside); (Client false [CRun 3], Waiting notFull_); (Client false [], Outside)].
Proof.
  set (c0 := start (started 1 1) (progs 1 [[CRun 1; CRun 2; CRun 3]; [CStop]]) : config).
  set (sched := [0; 1; 1; 0; 0; 1; 1; 1; 1; 2; 2; 0; 0; 2; 2]%nat).
  exists (default c0 (run_schedule sched c0)). split_and!.
  - apply (run_schedule_steps sched). vm_compute. reflexivity.
  - apply exec_stuck. vm_compute. repeat constructor.
  - reflexivity.
  - reflexivity.
  - reflexivity.
  - reflexivity.
Qed.

(** A second [stop()], by the same or another thread, aborts the program. *)
Theorem second_stop_asserts :
  exists c : config, rtc step (start (started 0 1) (progs 1 [[CStop; CStop]])) c /\ c.2 !! 1%nat = Some (Aborted [], Outside).
Proof.
  set (c0 := start (started 0 1) (progs 1 [[CStop; CStop]]) : config).
  set (sched := [1; 1; 0; 1; 1; 1; 1; 1]%nat).
  exists (default c0 (run_schedule sched c0)). split; [|reflexivity].
  apply (run_schedule_steps sched). vm_compute. reflexivity.
Qed.
End ThreadPool.
