(* ===== verification/ThreadPoolLife.v ===== *)
(** * The life of a thread pool ([src/base/ThreadPool.cpp])

    What [ThreadPool] models as given: making a pool, naming and starting its
    threads, the initialisation callback, exceptions thrown by tasks, and the
    joins of [stop] and of the destructor.  [Thread::join] asserts that a thread
    is joined once ([src/base/Thread.cpp]). *)

From S2P Require Import Prelude Decimal Timestamp.

Module ThreadPoolLife.

Record Pool := mkPool {
  name_ : list byte;
  maxQueueSize_ : Z;
  threadInitCallback_ : bool;
  running_ : bool;
  (** the names of the threads and how often each was joined *)
  threads_ : list (list byte * nat);
  (** whether the thread that called [start] ran the initialisation callback *)
  caller_init : bool }.

Definition ThreadPool_new (nameArg : list byte) : Pool := mkPool nameArg 0 false false [] false.
Definition setMaxQueueSize (n : Z) (s : Pool) : Pool :=
  mkPool (name_ s) n (threadInitCallback_ s) (running_ s) (threads_ s) (caller_init s).
Definition setThreadInitCallback (s : Pool) : Pool :=
  mkPool (name_ s) (maxQueueSize_ s) true (running_ s) (threads_ s) (caller_init s).

(** [name_ + id] of the [i]th thread. *)
Definition thread_name (name : list byte) (i : Z) : list byte := name ++ snprintf 32 (dec (i + 1)).

(** The loop of [start], from [i] on; [n] rounds are left. *)
Fixpoint start_threads (n : nat) (i : Z) (name : list byte) : list (list byte * nat) :=
  match n with
  | O => []
  | S n => (thread_name name i, 0%nat) :: start_threads n (i + 1) name
  end.

Definition start (numThreads : Z) (s : Pool) : outcome Pool :=
  assert_ (bool_decide (threads_ s = []));;
  Ok (mkPool (name_ s) (maxQueueSize_ s) (threadInitCallback_ s) true (start_threads (Z.to_nat numThreads) 0 (name_ s))
        ((numThreads =? 0) && threadInitCallback_ s)).

(** [thr->join()] for every thread. *)
Fixpoint join_all (threads : list (list byte * nat)) : outcome (list (list byte * nat)) :=
  match threads with
  | [] => Ok []
  | (name, joined) :: threads =>
      assert_ (Nat.eqb joined 0);;
      threads ← join_all threads;
      Ok ((name, S joined) :: threads)
  end.

Definition stop (s : Pool) : outcome Pool :=
  threads ← join_all (threads_ s);
  Ok (mkPool (name_ s) (maxQueueSize_ s) (threadInitCallback_ s) false threads (caller_init s)).

Definition dtor (s : Pool) : outcome Pool := if running_ s then stop s else Ok s.

(** ** A worker and the exceptions of its callbacks *)

(** How a callback ends: it returns, or throws an [Exception] (message and stack
    trace), another [std::exception], or something else. *)
Inductive ending := Returns | ThrowsException (what stack : list byte) | ThrowsStd (what : list byte) | ThrowsOther.

(** The end of a worker: its loop ends, [abort()], or the exception leaves
    [runInThread]; with what it wrote to [stderr]. *)
Inductive worker_end := Finished | Aborted (stderr : list (list byte)) | Rethrown (stderr : list (list byte)).

Definition caught (name : list byte) (e : ending) : worker_end :=
  let nl := [Byte.x0a] in
  match e with
  | Returns => Finished
  | ThrowsException what stack =>
      Aborted [bytes "exception caught in ThreadPool " ++ name ++ nl; bytes "reason: " ++ what ++ nl; bytes "stack trace: " ++ stack ++ nl]
  | ThrowsStd what => Aborted [bytes "exception caught in ThreadPool " ++ name ++ nl; bytes "reason: " ++ what ++ nl]
  | ThrowsOther => Rethrown [bytes "unknown exception caught in ThreadPool " ++ name ++ nl]
  end.

(** The loop over the tasks [take] returns, [None] being an empty one. *)
Fixpoint run_tasks (name : list byte) (tasks : list (option ending)) (ran : nat) : worker_end * nat :=
  match tasks with
  | [] => (Finished, ran)
  | None :: tasks => run_tasks name tasks ran
  | Some Returns :: tasks => run_tasks name tasks (S ran)
  | Some e :: _ => (caught name e, S ran)
  end.

(** [runInThread]: how it ends and how many tasks it called; [init] is how the
    initialisation callback ends. *)
Definition runInThread (init : ending) (tasks : list (option ending)) (s : Pool) : worker_end * nat :=
  match (if threadInitCallback_ s then init else Returns) with
  | Returns => run_tasks (name_ s) tasks 0
  | e => (caught (name_ s) e, 0%nat)
  end.

(** ** Theorems *)

Definition all_names (n : nat) (name : list byte) : list (list byte) := (fun i => name ++ dec (Z.of_nat (S i))) <$> seq 0 n.

Lemma start_threads_names n : forall i name,
  Z.of_nat (i + n) < 2 ^ 31 ->
  start_threads n (Z.of_nat i) name = (fun j => (name ++ dec (Z.of_nat (S j)), 0%nat)) <$> seq i n.
Proof.
  induction n as [|n IH]; intros i name Hn; [done|]. cbn [start_threads seq]. rewrite fmap_cons. f_equal.
  - unfold thread_name, snprintf. rewrite ztake_all; [do 3 f_equal; lia|]. rewrite Timestamp.dec_nonneg by lia.
    pose proof (dec_nat_length (Z.of_nat i + 1) 10). lia.
  - rewrite <- IH by lia. f_equal. lia.
Qed.

Lemma join_all_fresh names : join_all ((fun n => (n, 0%nat)) <$> names) = Ok ((fun n => (n, 1%nat)) <$> names).
Proof. induction names as [|n names IH]; [done|]. rewrite !fmap_cons. cbn [join_all Nat.eqb assert_]. bind_simpl. by rewrite IH. Qed.

Lemma dec_inj_nat i j : dec (Z.of_nat i) = dec (Z.of_nat j) -> i = j.
Proof.
  rewrite !Timestamp.dec_nonneg by lia. intros H. apply (f_equal dec_value) in H. rewrite !dec_value_dec_nat in H by lia. lia.
Qed.

Lemma all_names_nodup n name : NoDup (all_names n name).
Proof.
  apply NoDup_fmap_2; [|apply NoDup_seq]. intros i j H. apply app_inv_head in H. apply dec_inj_nat in H. lia.
Qed.

(** A pool of [n] threads: they are named after the pool and numbered from 1, no
    two alike; every thread is joined once, by [stop] or by the destructor; the
    initialisation callback runs in the caller exactly when there are no threads. *)
Theorem pool_lifetime n name init stopped :
  0 <= n < 2 ^ 31 ->
  let s := (if init : bool then setThreadInitCallback else id) (ThreadPool_new name) in
  exists s1 s2, start n s = Ok s1 /\ (threads_ s1).*1 = all_names (Z.to_nat n) name /\ NoDup (threads_ s1).*1 /\
    caller_init s1 = (n =? 0) && init /\
    (s' ← (if stopped : bool then stop s1 else Ok s1); dtor s') = Ok s2 /\
    threads_ s2 = (fun n => (n, 1%nat)) <$> all_names (Z.to_nat n) name /\ running_ s2 = false.
Proof.
  intros Hn s. assert (threads_ s = [] /\ name_ s = name /\ threadInitCallback_ s = init) as (Ht & Hname & Hinit) by by destruct init.
  assert (start_threads (Z.to_nat n) 0 name = (fun x => (x, 0%nat)) <$> all_names (Z.to_nat n) name) as Hs.
  { rewrite (start_threads_names _ 0) by lia. unfold all_names. by rewrite <- list_fmap_compose. }
  unfold start. rewrite Ht, Hname, Hinit. cbn [assert_]. rewrite bool_decide_eq_true_2 by done. cbn [assert_]. bind_simpl.
  eexists. exists (mkPool name (maxQueueSize_ s) init false ((fun x => (x, 1%nat)) <$> all_names (Z.to_nat n) name) ((n =? 0) && init)).
  split; [done|]. cbn [threads_ caller_init running_]. rewrite Hs.
  assert (((fun x : list byte => (x, 0%nat)) <$> all_names (Z.to_nat n) name).*1 = all_names (Z.to_nat n) name) as Hfst.
  { rewrite <- list_fmap_compose. apply list_fmap_id. }
  rewrite Hfst. split; [done|]. split; [apply all_names_nodup|]. split; [done|]. split; [|done].
  destruct stopped; bind_simpl; unfold dtor, stop; cbn [running_ threads_ name_ maxQueueSize_ threadInitCallback_ caller_init];
    rewrite join_all_fresh; bind_simpl; done.
Qed.

(** A pool with threads cannot be stopped twice, nor started again: [stop] keeps
    the joined threads. *)
Theorem stop_twice_asserts n name s1 :
  0 < n < 2 ^ 31 -> (s ← start n (ThreadPool_new name); stop s) = Ok s1 -> stop s1 = Err AssertFail /\ forall k, start k s1 = Err AssertFail.
Proof.
  intros Hn. unfold start. cbn [threads_ ThreadPool_new name_]. rewrite bool_decide_eq_true_2 by done. cbn [assert_]. bind_simpl.
  unfold stop at 1. cbn [threads_]. destruct (Z.to_nat n) as [|m] eqn:Em; [lia|]. cbn [start_threads join_all Nat.eqb assert_]. bind_simpl.
  destruct (join_all _) as [ts|]; [|done]. bind_simpl. intros [= <-]. split; [done|]. intros k. done.
Qed.

(** A worker whose callbacks return calls every task it takes; the first one that
    throws is the last that is called, and ends the program with a message, or
    leaves the thread's function. *)
Theorem worker_runs init tasks s :
  (init = Returns \/ threadInitCallback_ s = false) ->
  forall before e after, tasks = (Some <$> replicate before Returns) ++ match e with Some e => Some e :: after | None => [] end -> e <> Some Returns ->
  runInThread init tasks s = match e with Some e => (caught (name_ s) e, S before) | None => (Finished, before) end.
Proof.
  intros Hi before e after -> He. unfold runInThread.
  assert ((if threadInitCallback_ s then init else Returns) = Returns) as -> by (destruct Hi as [-> | ->]; by destruct (threadInitCallback_ s)).
  assert (forall k ran rest, run_tasks (name_ s) ((Some <$> replicate k Returns) ++ rest) ran = run_tasks (name_ s) rest (k + ran)) as Hk.
  { induction k as [|k IH]; intros ran rest; [done|]. rewrite replicate_S, fmap_cons. cbn [app run_tasks]. rewrite IH. f_equal. lia. }
  rewrite Hk, Nat.add_0_r. destruct e as [[]|]; done.
Qed.

Example pool_names : (fun s => (threads_ s).*1) <$> (match start 2 (ThreadPool_new (bytes "Worker")) with Ok s => Some s | _ => None end) =
  Some [bytes "Worker1"; bytes "Worker2"].
Proof. vm_compute. reflexivity. Qed.
End ThreadPoolLife.
