(* ===== verification/Singleton.v ===== *)
(** * One object for all threads ([src/base/Singleton.h])

    [Singleton<T>] creates its object behind [pthread_once].  Objects are numbered in the order of their creation; the heap is the number
    created so far and the list of those deleted. *)

From S2P Require Import Prelude.

Module Singleton.

(** [pthread_once_t]: the init routine has not been called, is running in a
    thread, or has returned. *)
Inductive once := OnceInit | OnceRunning (t : nat) | OnceDone.

(** Where a thread is in [instance()]. *)
Inductive pc :=
  | Outside
  | InitNew        (* in [init()], about to create the object *)
  | InitAtexit     (* ... about to register [destroy] *)
  | InitReturn     (* ... about to return to [pthread_once] *)
  | AfterOnce.     (* [pthread_once] has returned *)

(** A thread: where it is, how many calls it has still to start, and the
    objects its calls returned. *)
Record thread := mkThread { at_ : pc; calls : nat; got : list nat }.

Record state := mkState {
  ponce_ : once;
  value_ : option nat;
  created : nat;
  deleted : list nat;
  atexit_ : nat; (* registrations of [destroy] *)
  threads : list thread
}.

Definition start (ns : list nat) : state :=
  mkState OnceInit None 0 [] 0 ((fun n => mkThread Outside n []) <$> ns).

Section instance.
Context (no_destroy : bool). (* [detail::has_no_destroy<T>::value] *)

(** The next step of thread [t] in [instance()] and [init()]; [None] while it is
    blocked or has nothing to do. *)
Definition instance (t : nat) (s : state) : option (outcome state) :=
  th ← threads s !! t;
  let go pc := <[t := mkThread pc (calls th) (got th)]> (threads s) in
  match at_ th with
  | Outside =>
      match calls th with
      | O => None
      | S n =>
          let enter pc := <[t := mkThread pc n (got th)]> (threads s) in
          match ponce_ s with
          | OnceInit => Some (Ok (mkState (OnceRunning t) (value_ s) (created s) (deleted s) (atexit_ s) (enter InitNew)))
          | OnceRunning _ => None
          | OnceDone => Some (Ok (mkState OnceDone (value_ s) (created s) (deleted s) (atexit_ s) (enter AfterOnce)))
          end
      end
  | InitNew => Some (Ok (mkState (ponce_ s) (Some (created s)) (S (created s)) (deleted s) (atexit_ s) (go InitAtexit)))
  | InitAtexit =>
      Some (Ok (mkState (ponce_ s) (value_ s) (created s) (deleted s)
                  (if no_destroy then atexit_ s else S (atexit_ s)) (go InitReturn)))
  | InitReturn => Some (Ok (mkState OnceDone (value_ s) (created s) (deleted s) (atexit_ s) (go AfterOnce)))
  | AfterOnce =>
      match value_ s with
      | None => Some (Err AssertFail)
      | Some o => Some (Ok (mkState (ponce_ s) (value_ s) (created s) (deleted s) (atexit_ s)
                              (<[t := mkThread Outside (calls th) (got th ++ [o])]> (threads s))))
      end
  end.

(** [destroy()]; [delete NULL] does nothing. *)
Definition destroy (s : state) : state :=
  mkState (ponce_ s) None (created s) (deleted s ++ option_list (value_ s)) (atexit_ s) (threads s).

(** [exit()] runs the registered functions. *)
Definition exit_ (s : state) : state := Nat.iter (atexit_ s) destroy s.

(** A schedule; a thread that cannot move is passed over. *)
Fixpoint run (ts : list nat) (s : state) : outcome state :=
  match ts with
  | [] => Ok s
  | t :: ts => match instance t s with None => run ts s | Some o => s ← o; run ts s end
  end.

(** ** Correctness *)

Definition initialising (p : pc) : bool :=
  match p with InitNew | InitAtexit | InitReturn => true | _ => false end.

Definition registered : nat := if no_destroy then 0 else 1.

(** What is set up, by how far [init()] has come. *)
Definition stage_ok (s : state) : Prop :=
  match ponce_ s with
  | OnceInit => value_ s = None /\ created s = 0%nat /\ atexit_ s = 0%nat
  | OnceDone => value_ s = Some 0%nat /\ created s = 1%nat /\ atexit_ s = registered
  | OnceRunning t =>
      match at_ <$> threads s !! t with
      | Some InitNew => value_ s = None /\ created s = 0%nat /\ atexit_ s = 0%nat
      | Some InitAtexit => value_ s = Some 0%nat /\ created s = 1%nat /\ atexit_ s = 0%nat
      | Some InitReturn => value_ s = Some 0%nat /\ created s = 1%nat /\ atexit_ s = registered
      | _ => False
      end
  end.

Record inv (s : state) : Prop := {
  inv_stage : stage_ok s;
  inv_thread t th : threads s !! t = Some th ->
    Forall (eq 0%nat) (got th) /\ (got th <> [] -> ponce_ s = OnceDone) /\
    (initialising (at_ th) = true -> ponce_ s = OnceRunning t) /\ (at_ th = AfterOnce -> ponce_ s = OnceDone);
  inv_deleted : deleted s = []
}.

Lemma once_start_inv ns : inv (start ns).
Proof.
  split; [done| |done]. intros t th. cbn. rewrite list_lookup_fmap. intros (n & _ & ->)%fmap_Some. cbn.
  split_and!; [constructor|done..].
Qed.

(** Thread [t] moves on to [th'] and the once control may advance. *)
Lemma threads_change t th' s once' :
  inv s ->
  (forall u, ponce_ s = OnceRunning u -> once' = OnceRunning u \/ (u = t /\ once' = OnceDone)) ->
  (ponce_ s = OnceDone -> once' = OnceDone) ->
  (Forall (eq 0%nat) (got th') /\ (got th' <> [] -> once' = OnceDone) /\
   (initialising (at_ th') = true -> once' = OnceRunning t) /\ (at_ th' = AfterOnce -> once' = OnceDone)) ->
  forall u th, <[t := th']> (threads s) !! u = Some th ->
    Forall (eq 0%nat) (got th) /\ (got th <> [] -> once' = OnceDone) /\
    (initialising (at_ th) = true -> once' = OnceRunning u) /\ (at_ th = AfterOnce -> once' = OnceDone).
Proof.
  intros [_ Ht _] Hr Hd Hth u th. rewrite list_lookup_insert_Some. intros [(-> & <- & _)|[Hne Hu]]; [done|].
  destruct (Ht u th Hu) as (? & Hx & Hy & Hz). split_and!; [done|auto| |auto].
  intros Hi. destruct (Hr u (Hy Hi)) as [?|[-> _]]; done.
Qed.

Lemma instance_inv t s o : inv s -> instance t s = Some o -> exists s', o = Ok s' /\ inv s'.
Proof.
  intros Hs. pose proof Hs as [Hst Ht Hd]. unfold instance. destruct (threads s !! t) as [th|] eqn:El; [cbn|done].
  pose proof (Ht t th El) as (Hg & Hgd & Hi & Ha). pose proof (lookup_lt_Some _ _ _ El) as Hlt.
  unfold stage_ok in Hst. destruct (at_ th) eqn:Eat; cbn in *.
  - destruct (calls th) as [|n]; [done|]. destruct (ponce_ s) eqn:Eo; [|done|]; intros [= <-]; eexists;
      (split; [done|]); (split; [|apply threads_change; rewrite ?Eo; cbn; try done|done]); [| |done].
    + unfold stage_ok. cbn. by rewrite list_lookup_insert_eq.
    + split_and!; try done. intros Hx. by apply Hgd in Hx.
  - intros [= <-]. eexists. split; [done|]. specialize (Hi eq_refl). rewrite Hi in Hst, Hgd. rewrite El in Hst. cbn in Hst. rewrite Eat in Hst.
    destruct Hst as (_ & Hc & Hx). split; [|apply threads_change; rewrite ?Hi; cbn; [done|auto|done|by split_and!; auto]|done].
    unfold stage_ok. cbn. rewrite Hi, list_lookup_insert_eq by done. cbn. by rewrite Hc, Hx.
  - intros [= <-]. eexists. split; [done|]. specialize (Hi eq_refl). rewrite Hi in Hst, Hgd. rewrite El in Hst. cbn in Hst. rewrite Eat in Hst.
    destruct Hst as (Hv & Hc & Hx). split; [|apply threads_change; rewrite ?Hi; cbn; [done|auto|done|by split_and!; auto]|done].
    unfold stage_ok, registered. cbn. rewrite Hi, list_lookup_insert_eq by done. cbn. rewrite Hv, Hc, Hx. by destruct no_destroy.
  - intros [= <-]. eexists. split; [done|]. specialize (Hi eq_refl). rewrite Hi in Hst, Hgd. rewrite El in Hst. cbn in Hst. rewrite Eat in Hst.
    split; [done|apply threads_change; rewrite ?Hi; cbn; [done|intros u [= <-]; by right|done|by split_and!; auto]|done].
  - specialize (Ha eq_refl). rewrite Ha in Hst. destruct Hst as (Hv & Hc & Hx). rewrite Hv. intros [= <-].
    eexists. split; [done|]. split; [|apply threads_change; rewrite ?Ha; cbn; try done|done].
    + unfold stage_ok. cbn. by rewrite Ha.
    + split_and!; try done. apply Forall_app. by split; [|repeat constructor].
Qed.

Lemma once_run_inv ts : forall s, inv s -> exists s', run ts s = Ok s' /\ inv s'.
Proof.
  induction ts as [|t ts IH]; intros s Hs; cbn [run]; [by exists s|].
  destruct (instance t s) as [o|] eqn:E; [|by apply IH]. destruct (instance_inv t s o Hs E) as (s1 & -> & H1). cbn. by apply IH.
Qed.

(** A thread that has something to do is blocked only while another runs [init()],
    which can go on. *)
Lemma no_deadlock s t th :
  inv s -> threads s !! t = Some th -> (at_ th <> Outside \/ calls th <> 0%nat) -> exists u, instance u s <> None.
Proof.
  intros [Hst Ht _] El Hw. destruct (ponce_ s) as [|u|] eqn:Eo.
  - exists t. unfold instance. rewrite El. cbn. destruct (at_ th); try done.
    + destruct (calls th); [by destruct Hw|]. by rewrite Eo.
    + by destruct (value_ s).
  - exists u. unfold stage_ok in Hst. rewrite Eo in Hst. unfold instance. destruct (threads s !! u) as [thu|]; [cbn in *|done].
    by destruct (at_ thu).
  - exists t. unfold instance. rewrite El. cbn. destruct (at_ th); try done.
    + destruct (calls th); [by destruct Hw|]. by rewrite Eo.
    + by destruct (value_ s).
Qed.

(** any number of threads may call [Singleton<T>::instance()] at the same
    time: no assertion fails, at most one object is created, every call returns
    it, and some call can always go on.  When the threads have finished, [exit()]
    deletes the object exactly once, or never if [T] has [no_destroy]. *)
Theorem singleton_once ns ts :
  exists s, run ts (start ns) = Ok s /\ (created s <= 1)%nat /\ deleted s = [] /\
    (forall t th o, threads s !! t = Some th -> o ∈ got th -> o = 0%nat /\ value_ s = Some o) /\
    (forall t th, threads s !! t = Some th -> (at_ th <> Outside \/ calls th <> 0%nat) -> exists u, instance u s <> None) /\
    ((forall t th, threads s !! t = Some th -> at_ th = Outside) ->
      deleted (exit_ s) = (if no_destroy then [] else seq 0 (created s)) /\
      (value_ (exit_ s) = None <-> no_destroy = false \/ created s = 0%nat)).
Proof.
  destruct (once_run_inv ts (start ns) (once_start_inv ns)) as (s & E & Hs). exists s. pose proof Hs as [Hst Ht Hd].
  split; [done|]. split.
  { unfold stage_ok in Hst. destruct (ponce_ s); [lia| |lia]. destruct (at_ <$> threads s !! t) as [[]|]; lia || done. }
  split; [done|]. split; [|split; [by intros; eapply no_deadlock|]].
  - intros t th o El Ho. destruct (Ht t th El) as (Hg & Hgd & _). rewrite Forall_forall in Hg. rewrite <-(Hg o Ho).
    split; [done|]. unfold stage_ok in Hst. rewrite Hgd in Hst; [tauto|]. intros E0. by rewrite E0, elem_of_nil in Ho.
  - intros Hout. unfold exit_. unfold stage_ok in Hst. destruct (ponce_ s) as [|t|].
    + destruct Hst as (Hv & -> & ->). cbn. rewrite Hd, Hv. split; [by destruct no_destroy|tauto].
    + destruct (threads s !! t) as [th|] eqn:El; [|done]. cbn in Hst. by rewrite (Hout t th El) in Hst.
    + destruct Hst as (Hv & -> & ->). unfold registered. destruct no_destroy; cbn; rewrite Hd, ?Hv; cbn; (split; [done|intuition discriminate]).
Qed.

End instance.

(** After [exit()] has deleted the object, [instance()] fails its assertion. *)
Lemma instance_after_exit :
  exists s, run false [0; 0; 0; 0; 0; 0]%nat (start [2%nat]) = Ok s /\ instance false 0 (exit_ s) = Some (Err AssertFail).
Proof. eexists. split; by vm_compute. Qed.
End Singleton.
