(* ===== verification/ThreadLocal.v ===== *)
(** * An object a thread ([src/base/ThreadLocal.h])

    [ThreadLocal<T>] keeps an object a thread behind a pthread key.  Objects are
    numbered in the order of their creation. *)

From S2P Require Import Prelude.

Module ThreadLocal.

(** [specific] holds the values of the key that are not [NULL], by thread. *)
Record state := mkState {
  pkey_ : bool; (* the key exists *)
  specific : gmap nat nat;
  created : nat;
  deleted : list nat
}.

Definition new_ThreadLocal : state := mkState true ∅ 0 [].

(** [value()] in thread [t]; using a deleted key is undefined. *)
Definition value (t : nat) (s : state) : outcome (state * nat) :=
  in_bounds (pkey_ s);;
  match specific s !! t with
  | Some perThreadValue => Ok (s, perThreadValue)
  | None =>
      let newObj := created s in
      Ok (mkState (pkey_ s) (<[t := newObj]> (specific s)) (S newObj) (deleted s), newObj)
  end.

Definition destructor (x : nat) (s : state) : state :=
  mkState (pkey_ s) (specific s) (created s) (deleted s ++ [x]).

(** [~ThreadLocal()]: deletes the key; no destructor is called. *)
Definition destroy (s : state) : outcome state :=
  assert_ (pkey_ s);;
  Ok (mkState false (specific s) (created s) (deleted s)).

(** The end of thread [t]: up to [PTHREAD_DESTRUCTOR_ITERATIONS] rounds, in
    which a value that is not [NULL] is reset and passed to the destructor;
    [touch] says in which rounds the destructor of something else uses the object
    afterwards. *)
Definition kDestructorIterations : nat := 4.

Definition end_round (t : nat) (s : state) : state :=
  match specific s !! t with
  | Some x => destructor x (mkState (pkey_ s) (delete t (specific s)) (created s) (deleted s))
  | None => s
  end.

Fixpoint thread_end (n : nat) (touch : list bool) (t : nat) (s : state) : outcome state :=
  match n with
  | O => Ok s
  | S n =>
      let s := if pkey_ s then end_round t s else s in
      s ← (if hd false touch then '(s, _) ← value t s; Ok s else Ok s);
      thread_end n (tl touch) t s
  end.

Inductive op := Value (t : nat) | ThreadEnd (t : nat) (touch : list bool).

(** Runs operations; returns also the objects [value()] returned, with the
    threads. *)
Fixpoint run (ops : list op) (s : state) : outcome (state * list (nat * nat)) :=
  match ops with
  | [] => Ok (s, [])
  | Value t :: ops => '(s, o) ← value t s; '(s, rs) ← run ops s; Ok (s, (t, o) :: rs)
  | ThreadEnd t touch :: ops => s ← thread_end kDestructorIterations touch t s; run ops s
  end.

(** [o] is the object of thread [t] or deleted. *)
Definition accounted (t o : nat) (s : state) : Prop := specific s !! t = Some o \/ o ∈ deleted s.

(** Every object created is either deleted or the value of one thread. *)
Record inv (s : state) : Prop := {
  inv_key : pkey_ s = true;
  inv_objects : deleted s ++ (map_to_list (specific s)).*2 ≡ₚ seq 0 (created s)
}.

Lemma new_inv : inv new_ThreadLocal.
Proof. done. Qed.

Lemma value_inv t s : inv s -> exists s' o, value t s = Ok (s', o) /\ inv s' /\ specific s' !! t = Some o /\
  (forall u, u <> t -> specific s' !! u = specific s !! u) /\
  (specific s !! t = Some o /\ s' = s \/ specific s !! t = None /\ o = created s /\ created s' = S o /\ deleted s' = deleted s).
Proof.
  intros [Hk Hp]. unfold value. rewrite Hk. cbn. destruct (specific s !! t) as [o|] eqn:E.
  - exists s, o. split_and!; try done. by left.
  - do 2 eexists. split; [done|]. split; [split; [done|]|].
    + cbn [deleted specific created]. rewrite map_to_list_insert by done. cbn [fmap list_fmap snd].
      rewrite <-Permutation_middle, Hp, seq_S. apply Permutation_cons_append.
    + cbn. split_and!; [by rewrite lookup_insert_eq|intros u Hu; by rewrite lookup_insert_ne|by right].
Qed.

Lemma value_accounted t u o s s' o' : value t s = Ok (s', o') -> accounted u o s -> accounted u o s'.
Proof.
  unfold value, accounted. intros E. apply bind_Ok in E as (? & _ & E). destruct (specific s !! t) eqn:Et; [by injection E as <- <-|].
  injection E as <- <-. cbn. intros [Ho|Ho]; [left|by right]. rewrite lookup_insert_ne; [done|congruence].
Qed.

Lemma end_round_inv t s :
  inv s -> inv (end_round t s) /\ specific (end_round t s) = delete t (specific s) /\
    forall u o, accounted u o s -> accounted u o (end_round t s).
Proof.
  intros [Hk Hp]. unfold end_round, accounted. destruct (specific s !! t) as [x|] eqn:E.
  - cbn. split_and!; [|done|].
    2:{ intros u o. rewrite elem_of_app, list_elem_of_singleton. intros [Ho|Ho]; [|by right; left].
        destruct (decide (u = t)) as [->|Hu]; [right; right; congruence|left; by rewrite lookup_delete_ne]. } split; [done|]. cbn.
    rewrite <-Hp, <-app_assoc. f_equiv. cbn. by rewrite <-(map_to_list_delete (specific s) t x E).
  - split_and!; [done| |done]. by rewrite delete_id.
Qed.

Lemma thread_end_inv t n : forall touch s, inv s ->
  exists s', thread_end n touch t s = Ok s' /\ inv s' /\ (forall u o, accounted u o s -> accounted u o s') /\
    ((0 < n)%nat -> nth (n - 1) touch false = false -> specific s' !! t = None).
Proof.
  induction n as [|n IH]; intros touch s Hs; cbn [thread_end]; [exists s; split_and!; [done..|lia]|].
  rewrite (inv_key _ Hs). destruct (end_round_inv t s Hs) as (H1 & E1 & Ha1). set (s1 := end_round t s) in *.
  assert (exists s2, (if hd false touch then '(s2, _) ← value t s1; Ok s2 else Ok s1) = Ok s2 /\ inv s2 /\
    (forall u o, accounted u o s -> accounted u o s2) /\ (hd false touch = false -> specific s2 !! t = None))
    as (s2 & E2 & H2 & Ho2 & Ht2).
  { destruct (hd false touch).
    - destruct (value_inv t s1 H1) as (s2 & o & E2 & H2 & _). rewrite E2. exists s2. split_and!; [done|done| |done].
      intros u o' Ho. eapply value_accounted; eauto.
    - exists s1. split_and!; [done..|exact Ha1|]. intros _. by rewrite E1, lookup_delete_eq. }
  rewrite E2. cbn. destruct (IH (tl touch) s2 H2) as (s' & E' & H' & Ho' & Ht'). exists s'. split; [done|]. split; [done|].
  split; [by auto|]. intros _ Hn. destruct n as [|n].
  - cbn in E'. injection E' as <-. apply Ht2. by destruct touch.
  - apply Ht'; [lia|]. replace (S (S n) - 1)%nat with (S n) in Hn by lia. cbn. rewrite Nat.sub_0_r. by destruct touch; [destruct n|].
Qed.

(** Any use of [ThreadLocal<T>] by any threads: [value()] returns the thread's
    own object, which it keeps until it is deleted and which no other thread has; every object is deleted at most once, by the end of its thread;
    nothing is lost unless the destructors of other data use the object in every
    one of the four rounds. *)
Theorem thread_local_objects ops : forall s, inv s ->
  exists s' rs, run ops s = Ok (s', rs) /\ inv s' /\ (forall t o, (t, o) ∈ rs \/ accounted t o s -> accounted t o s') /\
    NoDup (deleted s') /\
    (forall t u o, specific s' !! t = Some o -> specific s' !! u = Some o -> t = u /\ o ∉ deleted s') /\
    (forall o, (o < created s')%nat <-> o ∈ deleted s' \/ exists t, specific s' !! t = Some o).
Proof.
  assert (forall s, inv s -> NoDup (deleted s) /\
    (forall t u o, specific s !! t = Some o -> specific s !! u = Some o -> t = u /\ o ∉ deleted s) /\
    (forall o, (o < created s)%nat <-> o ∈ deleted s \/ exists t, specific s !! t = Some o)) as Hinv.
  { intros s [_ Hp]. assert (NoDup (deleted s ++ (map_to_list (specific s)).*2)) as Hnd by (rewrite Hp; apply NoDup_seq).
    apply NoDup_app in Hnd as (Hd & Hdis & Hnd). split_and!; [done| |].
    - intros t u o Ht Hu. split.
      + apply elem_of_map_to_list in Ht, Hu. apply list_elem_of_lookup in Ht as [i Hi]. apply list_elem_of_lookup in Hu as [j Hj].
        assert (i = j) as <-. { eapply NoDup_lookup; [done|..]; rewrite list_lookup_fmap; [by rewrite Hi|by rewrite Hj]. }
        rewrite Hi in Hj. by injection Hj.
      + intros Ho. eapply Hdis; [done|]. apply list_elem_of_fmap. exists (t, o). split; [done|]. by apply elem_of_map_to_list.
    - intros o. transitivity (o ∈ seq 0 (created s)); [rewrite elem_of_seq; lia|]. rewrite <-Hp, elem_of_app, list_elem_of_fmap. f_equiv.
      split.
      + intros ([t o'] & -> & Ht). exists t. by apply elem_of_map_to_list.
      + intros [t Ht]. exists (t, o). split; [done|]. by apply elem_of_map_to_list. }
  induction ops as [|[t|t touch] ops IH]; intros s Hs; cbn [run].
  - exists s, []. split; [done|]. split; [done|]. split; [|by apply Hinv]. intros t o [[]%elem_of_nil|?]; done.
  - destruct (value_inv t s Hs) as (s1 & o & E1 & H1 & Hv & _). rewrite E1. cbn.
    destruct (IH s1 H1) as (s' & rs & -> & H' & Ha & Hr). cbn. exists s', ((t, o) :: rs). split; [done|]. split; [done|]. split; [|done].
    intros u o'. rewrite elem_of_cons. intros [[[= -> ->]|Ho]|Ho]; apply Ha; [right; by left|by left|right].
    by eapply value_accounted.
  - destruct (thread_end_inv t kDestructorIterations touch s Hs) as (s1 & -> & H1 & Ha1 & _). cbn.
    destruct (IH s1 H1) as (s' & rs & -> & H' & Ha & Hr). exists s', rs. split; [done|]. split; [done|]. split; [|done].
    intros u o [Ho|Ho]; apply Ha; auto.
Qed.
End ThreadLocal.
