(* ===== verification/ThreadLocalSingleton.v ===== *)
(** * One object a thread ([src/base/ThreadLocalSingleton.h])

    A thread-local pointer, and a pthread key whose destructor deletes the
    object: the pair behaves as a [ThreadLocal]. *)

From S2P Require Import Prelude ThreadLocal.

Module ThreadLocalSingleton.
Import ThreadLocal(op(..), kDestructorIterations).

Record state := mkState {
  t_value_ : gmap nat nat;   (* the pointers that are not [NULL], by thread *)
  specific : gmap nat nat;   (* the values of the key of [deleter_] *)
  created : nat;
  deleted : list nat
}.

Definition initial : state := mkState ∅ ∅ 0 [].

(** [Deleter::set] *)
Definition set (t newObj : nat) (s : state) : outcome state :=
  assert_ (bool_decide (specific s !! t = None));;
  Ok (mkState (t_value_ s) (<[t := newObj]> (specific s)) (created s) (deleted s)).

Definition instance (t : nat) (s : state) : outcome (state * nat) :=
  match t_value_ s !! t with
  | Some o => Ok (s, o)
  | None =>
      let o := created s in
      s ← set t o (mkState (<[t := o]> (t_value_ s)) (specific s) (S o) (deleted s));
      Ok (s, o)
  end.

Definition pointer (t : nat) (s : state) : option nat := t_value_ s !! t.

Definition destructor (t obj : nat) (s : state) : outcome state :=
  assert_ (bool_decide (t_value_ s !! t = Some obj));;
  Ok (mkState (delete t (t_value_ s)) (specific s) (created s) (deleted s ++ option_list (t_value_ s !! t))).

(** The end of a thread, as in [ThreadLocal]. *)
Definition end_round (t : nat) (s : state) : outcome state :=
  match specific s !! t with
  | Some x => destructor t x (mkState (t_value_ s) (delete t (specific s)) (created s) (deleted s))
  | None => Ok s
  end.

Fixpoint thread_end (n : nat) (touch : list bool) (t : nat) (s : state) : outcome state :=
  match n with
  | O => Ok s
  | S n =>
      s ← end_round t s;
      s ← (if hd false touch then '(s, _) ← instance t s; Ok s else Ok s);
      thread_end n (tl touch) t s
  end.

Fixpoint run (ops : list op) (s : state) : outcome (state * list (nat * nat)) :=
  match ops with
  | [] => Ok (s, [])
  | Value t :: ops => '(s, o) ← instance t s; '(s, rs) ← run ops s; Ok (s, (t, o) :: rs)
  | ThreadEnd t touch :: ops => s ← thread_end kDestructorIterations touch t s; run ops s
  end.

(** The pointer and the key agree, and together they are a [ThreadLocal]. *)
Definition refines (s : state) (a : ThreadLocal.state) : Prop :=
  t_value_ s = specific s /\ a = ThreadLocal.mkState true (specific s) (created s) (deleted s).

Lemma instance_refines t s a a' o :
  refines s a -> ThreadLocal.value t a = Ok (a', o) -> exists s', instance t s = Ok (s', o) /\ refines s' a'.
Proof.
  intros [Hv ->]. unfold ThreadLocal.value, instance, set. cbn [ThreadLocal.specific ThreadLocal.pkey_ t_value_ specific in_bounds].
  bind_simpl. rewrite Hv. destruct (specific s !! t) as [x|] eqn:E.
  - intros [= <- <-]. by exists s.
  - intros [= <- <-]. rewrite assert_true by by apply bool_decide_eq_true_2. eexists. split; [done|]. by split.
Qed.

Lemma end_round_refines t s a : refines s a -> exists s', end_round t s = Ok s' /\ refines s' (ThreadLocal.end_round t a).
Proof.
  intros [Hv ->]. unfold ThreadLocal.end_round, end_round, destructor.
  cbn [ThreadLocal.specific t_value_ specific]. destruct (specific s !! t) as [x|] eqn:E; [|by exists s].
  rewrite Hv, assert_true by by apply bool_decide_eq_true_2. eexists. split; [done|]. split; [done|]. cbn. by rewrite E.
Qed.

Lemma thread_end_refines t n : forall touch s a a',
  refines s a -> ThreadLocal.thread_end n touch t a = Ok a' ->
  exists s', thread_end n touch t s = Ok s' /\ refines s' a'.
Proof.
  induction n as [|n IH]; intros touch s a a' Hr E; cbn [thread_end ThreadLocal.thread_end] in *.
  { injection E as <-. by exists s. }
  assert (ThreadLocal.pkey_ a = true) as Hk by (by destruct Hr as [_ ->]). rewrite Hk in E.
  destruct (end_round_refines t s a Hr) as (s1 & E1 & Hr1). rewrite E1. cbn. destruct (hd false touch).
  - apply bind_Ok in E as (a2 & E2 & E). apply bind_Ok in E2 as ([a3 o] & E2 & [= <-]).
    destruct (instance_refines t s1 _ _ _ Hr1 E2) as (s2 & -> & Hr2). cbn. by eapply IH.
  - cbn in E |- *. by eapply IH.
Qed.

(** [ThreadLocalSingleton<T>] behaves as a [ThreadLocal<T>]: the same objects are
    returned, created and deleted, and neither its assertion that the key is
    still unset nor the one that the key holds the pointer ever fails. *)
Theorem thread_local_singleton_refines ops : forall s a a' rs,
  refines s a -> ThreadLocal.run ops a = Ok (a', rs) -> exists s', run ops s = Ok (s', rs) /\ refines s' a'.
Proof.
  induction ops as [|[t|t touch] ops IH]; intros s a a' rs Hr E; cbn [run ThreadLocal.run] in *.
  - injection E as <- <-. by exists s.
  - apply bind_Ok in E as ([a1 o] & E1 & E). apply bind_Ok in E as ([a2 rs'] & E2 & [= <- <-]).
    destruct (instance_refines t s _ _ _ Hr E1) as (s1 & -> & Hr1). cbn. destruct (IH _ _ _ _ Hr1 E2) as (s' & -> & Hr').
    cbn. by exists s'.
  - apply bind_Ok in E as (a1 & E1 & E). destruct (thread_end_refines t _ _ _ _ _ Hr E1) as (s1 & -> & Hr1). cbn. by eapply IH.
Qed.

Lemma thread_local_singleton_example :
  exists s, run [Value 1; Value 2; Value 1; ThreadEnd 1 [true]; Value 2] initial = Ok (s, [(1, 0); (2, 1); (1, 0); (2, 1)])%nat /\
    deleted s = [0; 2]%nat /\ pointer 2 s = Some 1%nat.
Proof.
  destruct (thread_local_singleton_refines [Value 1; Value 2; Value 1; ThreadEnd 1 [true]; Value 2] initial
    ThreadLocal.new_ThreadLocal (ThreadLocal.mkState true (<[2 := 1]> ∅) 3 [0; 2]) [(1, 0); (2, 1); (1, 0); (2, 1)])%nat
    as (s & E & Hv & Ha); [done|vm_compute; reflexivity|]. exists s. split; [done|].
  unfold pointer. rewrite Hv. injection Ha as Hs _ Hd. by rewrite <-Hs.
Qed.
End ThreadLocalSingleton.
