(* ===== verification/Thread.v ===== *)
(** * Threads ([src/base/Thread.h], [Thread.cpp], [Atomic.h])

    One [Thread] object, its owner and the thread it starts, as interleaved
    steps.  [start()] waits on a latch until the new thread has stored its id;
    the new thread holds pointers into the object until then.  A critical section
    of the latch is one step (its own development is [CountDownLatch]). *)

From S2P Require Import Prelude Decimal.

(** ** [AtomicIntegerT], at the width of the type *)
Module Atomic.
Section width.
Context (w : Z).

Definition get (v : Z) : Z := v.
(** The old value, and the cell afterwards. *)
Definition getAndAdd (x v : Z) : Z * Z := (v, wraps w (v + x)).
Definition addAndGet (x v : Z) : Z * Z := let '(old, v) := getAndAdd x v in (wraps w (old + x), v).
Definition incrementAndGet (v : Z) : Z * Z := addAndGet 1 v.
Definition decrementAndGet (v : Z) : Z * Z := addAndGet (-1) v.
Definition add (x v : Z) : Z := (getAndAdd x v).2.
Definition increment (v : Z) : Z := (incrementAndGet v).2.
Definition decrement (v : Z) : Z := (decrementAndGet v).2.
Definition getAndSet (newValue v : Z) : Z * Z := (v, newValue).
End width.
End Atomic.

Module Thread.

(** Where the owner is: between calls, in [latch_.wait()] of [start()], in
    [pthread_join], or past the destructor. *)
Inductive owner_pc := OIdle | OStarting | OJoining | ODestroyed.

(** The new thread in [runInThread]: before each of its steps. *)
Inductive thread_pc := TNone | TStoreTid | TCountDown | TSetName | TRun | TDone.

(** How the thread function ends. *)
Inductive ending := Returns | Throws.

Record Thread := mkThread {
  started_ : bool;
  joined_ : bool;
  tid_ : Z;
  name_ : list byte;
  latch_ : Z;
  owner : owner_pc;
  detached : bool;
  (** the new thread, and [t_threadName] in it *)
  pc : thread_pc;
  t_threadName : list byte;
  (** calls of the thread function *)
  runs : nat }.

(** [numCreated_] counts the objects; an empty name gets the number. *)
Definition setDefaultName (numCreated : Z) (n : list byte) : list byte * Z :=
  let '(num, numCreated) := Atomic.incrementAndGet 32 numCreated in
  (match n with [] => snprintf 32 (bytes "Thread" ++ dec num) | _ => n end, numCreated).

Definition Thread_new (numCreated : Z) (n : list byte) : Thread * Z :=
  let '(name, numCreated) := setDefaultName numCreated n in
  (mkThread false false 0 name 1 OIdle false TNone (bytes "unknown") 0, numCreated).

(** ** Steps *)
Inductive event :=
  | Start (created : bool)
  | Started
  | Join
  | Joined
  | Destroy
  | Child (tid : Z) (how : ending).

Definition set_owner (o : owner_pc) (s : Thread) : Thread :=
  mkThread (started_ s) (joined_ s) (tid_ s) (name_ s) (latch_ s) o (detached s) (pc s) (t_threadName s) (runs s).
Definition set_child (p : thread_pc) (tname : list byte) (n : nat) (s : Thread) : Thread :=
  mkThread (started_ s) (joined_ s) (tid_ s) (name_ s) (latch_ s) (owner s) (detached s) p tname n.

(** [start()]; [created] is whether [pthread_create] succeeded. *)
Definition start (created : bool) (s : Thread) : outcome Thread :=
  assert_ (negb (started_ s));;
  if created then
    Ok (mkThread true (joined_ s) (tid_ s) (name_ s) (latch_ s) OStarting (detached s) TStoreTid (t_threadName s) (runs s))
  else Err Fatal.

(** The end of [start()], when the latch is open. *)
Definition start_returns (s : Thread) : outcome Thread :=
  assert_ (tid_ s >? 0);;
  Ok (set_owner OIdle s).

Definition join (s : Thread) : outcome Thread :=
  assert_ (started_ s);;
  assert_ (negb (joined_ s));;
  Ok (mkThread (started_ s) true (tid_ s) (name_ s) (latch_ s) OJoining (detached s) (pc s) (t_threadName s) (runs s)).

(** [~Thread()] *)
Definition destroy (s : Thread) : Thread :=
  mkThread (started_ s) (joined_ s) (tid_ s) (name_ s) (latch_ s) ODestroyed (detached s || (started_ s && negb (joined_ s)))
    (pc s) (t_threadName s) (runs s).

(** A step of [startThread]/[runInThread] in the thread [gettid]; the first two
    go through pointers into the [Thread] object.  [name_] is the thread's own
    copy.  An exception ends the process. *)
Definition runInThread (gettid : Z) (how : ending) (s : Thread) : outcome Thread :=
  match pc s with
  | TStoreTid =>
      in_bounds (match owner s with ODestroyed => false | _ => true end);;
      Ok (mkThread (started_ s) (joined_ s) gettid (name_ s) (latch_ s) (owner s) (detached s) TCountDown (t_threadName s) (runs s))
  | TCountDown =>
      in_bounds (match owner s with ODestroyed => false | _ => true end);;
      Ok (mkThread (started_ s) (joined_ s) (tid_ s) (name_ s) (latch_ s - 1)%int (owner s) (detached s) TSetName (t_threadName s) (runs s))
  | TSetName => Ok (set_child TRun (match name_ s with [] => bytes "muduoThread" | n => n end) (runs s) s)
  | TRun =>
      match how with
      | Returns => Ok (set_child TDone (bytes "finished") (S (runs s)) s)
      | Throws => Err Fatal
      end
  | TNone | TDone => Ok s
  end.

(** Whether an event can happen: the owner makes one call after the other and
    waits in [start()] and [join()]. *)
Definition enabled (e : event) (s : Thread) : bool :=
  match e, owner s with
  | Start _, OIdle | Join, OIdle | Destroy, OIdle => true
  | Started, OStarting => latch_ s <=? 0
  | Joined, OJoining => match pc s with TDone => true | _ => false end
  | Child _ _, _ => match pc s with TNone | TDone => false | _ => true end
  | _, _ => false
  end.

Definition thread_step (e : event) (s : Thread) : outcome Thread :=
  match e with
  | Start created => start created s
  | Started => start_returns s
  | Join => join s
  | Joined => Ok (set_owner OIdle s)
  | Destroy => Ok (destroy s)
  | Child tid how => runInThread tid how s
  end.

(** An event that cannot happen yet does not. *)
Fixpoint thread_run (es : list event) (s : Thread) : outcome Thread :=
  match es with
  | [] => Ok s
  | e :: es' => if enabled e s then s ← thread_step e s; thread_run es' s else thread_run es' s
  end.

(** ** The protocol of the owner *)

(** The owner starts the thread once and joins it once, after it was started;
    [pthread_create] succeeds; the kernel's id is positive and always the same;
    the function returns. *)
Definition obeys (tid : Z) (e : event) (s : Thread) : Prop :=
  match e with
  | Start created => created = true /\ (owner s = OIdle -> started_ s = false)
  | Join => owner s = OIdle -> started_ s = true /\ joined_ s = false
  | Child t how => t = tid /\ how = Returns
  | _ => True
  end.

Fixpoint obeys_all (tid : Z) (es : list event) (s : Thread) : Prop :=
  match es with
  | [] => True
  | e :: es' => obeys tid e s /\ forall s', (if enabled e s then thread_step e s = Ok s' else s' = s) -> obeys_all tid es' s'
  end.

Definition before_count (p : thread_pc) : bool := match p with TStoreTid | TCountDown => true | _ => false end.
Definition has_tid (p : thread_pc) : bool := match p with TNone | TStoreTid => false | _ => true end.

Record inv (tid : Z) (s : Thread) : Prop := {
  i_started : started_ s = match pc s with TNone => false | _ => true end;
  i_latch : latch_ s = match pc s with TNone | TStoreTid | TCountDown => 1 | _ => 0 end;
  i_tid : has_tid (pc s) = true -> tid_ s = tid;
  i_owner : before_count (pc s) = true -> owner s = OStarting;
  i_starting : owner s = OStarting -> pc s <> TNone;
  i_runs : runs s = match pc s with TDone => 1%nat | _ => 0%nat end;
  i_joined : joined_ s = true -> started_ s = true /\ (owner s = OJoining \/ pc s = TDone);
  i_name : match pc s with TRun => t_threadName s = match name_ s with [] => bytes "muduoThread" | n => n end
                         | TDone => t_threadName s = bytes "finished" | _ => True end }.

Lemma thread_step_inv tid e s : 0 < tid -> inv tid s -> enabled e s = true -> obeys tid e s -> exists s', thread_step e s = Ok s' /\ inv tid s'.
Proof.
  intros Ht [Hs Hl Hi Ho Hst Hr Hj Hn] He Hob.
  destruct e as [created| | | | |t how]; cbn [enabled thread_step obeys] in *; [destruct (owner s) eqn:Eo; try done..|].
  - destruct Hob as [-> Hnew]. specialize (Hnew eq_refl). unfold start. rewrite Hnew in *. cbn. eexists. split; [done|].
    destruct (pc s); try done. split; cbn; try done. intros H. by destruct (Hj H).
  - unfold start_returns. assert (has_tid (pc s) = true) as Hp by (rewrite Hl in He; specialize (Hst eq_refl); by destruct (pc s)).
    rewrite (Hi Hp), assert_true by lia. bind_simpl. eexists. split; [done|]. split; cbn; try done.
    + intros Hb. rewrite Hl in He. by destruct (pc s).
    + intros H. destruct (Hj H) as [? [?|?]]; [done|]. split; [done|by right].
  - destruct (Hob eq_refl) as [H1 H2]. unfold join. rewrite H1, H2. cbn. eexists. split; [done|].
    split; cbn; try done; [by rewrite <- Hs|intros Hb; by specialize (Ho Hb)|]. intros _. split; [done|by left].
  - eexists. split; [done|]. destruct (pc s) eqn:Ep; try done. split; cbn; rewrite ?Ep; try done. intros H. destruct (Hj H). split; [done|by right].
  - eexists. split; [done|]. split; cbn; try done; [intros Hb; by specialize (Ho Hb)|].
    intros H. destruct (Hj H) as [? [?|?]]; [done|]. split; [done|by right].
  - destruct Hob as [-> ->]. unfold runInThread.
    assert (pc s <> TDone -> joined_ s = true -> started_ s = true /\ owner s = OJoining) as Hj' by (intros ? H; destruct (Hj H) as [? [?|?]]; done).
    destruct (pc s) eqn:Ep; try done.
    + pose proof (Ho eq_refl) as Hos. rewrite Hos. cbn. eexists. split; [done|]. split; cbn; try done. intros H. destruct (Hj' ltac:(done) H). split; [congruence|left; congruence].
    + pose proof (Ho eq_refl) as Hos. rewrite Hos. cbn. eexists. split; [done|]. split; cbn; rewrite ?Hl; try done. intros H. destruct (Hj' ltac:(done) H). split; [congruence|left; congruence].
    + eexists. split; [done|]. split; cbn; try done. intros H. destruct (Hj' ltac:(done) H). split; [congruence|left; congruence].
    + eexists. split; [done|]. split; cbn; rewrite ?Hr; try done. intros H. destruct (Hj H). split; [done|by right].
Qed.

Lemma thread_run_inv tid es s : 0 < tid -> inv tid s -> obeys_all tid es s -> exists s', thread_run es s = Ok s' /\ inv tid s'.
Proof.
  intros Ht. revert s. induction es as [|e es IH]; intros s Hi Hob; [by exists s|]. cbn [thread_run obeys_all] in *. destruct Hob as [He Hes].
  destruct (enabled e s) eqn:En; [|by apply IH; [|apply Hes]].
  destruct (thread_step_inv tid e s Ht Hi En He) as (s' & E & Hi'). rewrite E. bind_simpl. apply IH; [done|by apply Hes].
Qed.

(** C40: A [Thread] whose owner starts it once and joins it at most once, in any
    interleaving with the thread it starts: no assertion fails and the new thread
    never touches a destroyed object, though the object may be destroyed right
    after [start()]; when [start()] has returned, [tid()] is the id of the new
    thread; the function runs at most once, and once [join()] has returned it has
    run exactly once and the thread is over. *)
Theorem thread_correct numCreated n tid es :
  0 < tid -> obeys_all tid es (Thread_new numCreated n).1 ->
  exists s, thread_run es (Thread_new numCreated n).1 = Ok s /\
    (started_ s = true -> owner s <> OStarting -> tid_ s = tid) /\
    (runs s <= 1)%nat /\ (runs s = 1%nat <-> pc s = TDone) /\
    (joined_ s = true -> owner s <> OJoining -> pc s = TDone /\ runs s = 1%nat /\ t_threadName s = bytes "finished").
Proof.
  intros Ht Hob. destruct (thread_run_inv tid es (Thread_new numCreated n).1 Ht) as (s & E & Hi); [|done|].
  { unfold Thread_new. destruct (setDefaultName numCreated n) as [name c]. by split. }
  exists s. split; [done|]. destruct Hi as [Hs Hl Hti Ho Hst Hr Hj Hn]. split_and!.
  - intros H1 H2. apply Hti. rewrite Hs in H1. destruct (pc s); try done. by destruct (H2 (Ho eq_refl)).
  - rewrite Hr. destruct (pc s); lia.
  - rewrite Hr. by destruct (pc s).
  - intros H1 H2. destruct (Hj H1) as [_ [?|Ep]]; [done|]. rewrite Ep in Hr, Hn. done.
Qed.

(** The object is destroyed as soon as [start()] has returned, while the thread
    still runs; the thread is detached. *)
Lemma thread_correct_witness : exists s,
  thread_run [Start true; Child 57 Returns; Started; Child 57 Returns; Started; Destroy; Child 57 Returns; Child 57 Returns]
    (Thread_new 0 []).1 = Ok s /\
  tid_ s = 57 /\ runs s = 1%nat /\ detached s = true /\ name_ s = bytes "Thread1".
Proof.
  destruct (thread_correct 0 [] 57
    [Start true; Child 57 Returns; Started; Child 57 Returns; Started; Destroy; Child 57 Returns; Child 57 Returns]) as (s & E & _); [lia| |].
  - cbn. split; [done|]. repeat (intros ? [= <-] || intros ? -> || (split; [done|]) || done).
  - exists s. split; [exact E|]. vm_compute in E. injection E as <-. done.
Defined.
End Thread.
