(* ===== verification/CurrentThread.v ===== *)
(** * The current thread ([src/base/CurrentThread.h], [CurrentThread.cpp],
    [Thread.cpp], [Exception.h], [Exception.cpp])

    The thread-local cache of the thread's id and name, what [fork(2)] does to it,
    sleeping, and stack traces.  [backtrace_symbols] and the demangler are
    parameters. *)

From S2P Require Import Prelude CxxStd Decimal Timestamp.

Module CurrentThread.

Record Locals := mkLocals {
  t_cachedTid : Z;
  t_tidString : list byte;
  t_tidStringLength : Z;
  t_threadName : list byte
}.

(** Thread-local variables of a new thread. *)
Definition new_locals : Locals := mkLocals 0 [] 6 (bytes "unknown").

(** [gettid] is what the system call returns in this thread. *)
Definition cacheTid (gettid : Z) (l : Locals) : Locals :=
  if t_cachedTid l =? 0 then
    let text := decw 5 gettid ++ bytes " " in
    mkLocals gettid (snprintf 32 text) (zlen text) (t_threadName l)
  else l.

Definition tid (gettid : Z) (l : Locals) : Locals * Z :=
  let l := if t_cachedTid l =? 0 then cacheTid gettid l else l in
  (l, t_cachedTid l).

Definition tidString (l : Locals) : list byte := t_tidString l.
Definition tidStringLength (l : Locals) : Z := t_tidStringLength l.
Definition name (l : Locals) : list byte := t_threadName l.

Definition set_name (n : list byte) (l : Locals) : Locals :=
  mkLocals (t_cachedTid l) (t_tidString l) (t_tidStringLength l) n.

Definition isMainThread (gettid getpid : Z) (l : Locals) : Locals * bool :=
  let '(l, t) := tid gettid l in (l, t =? getpid).

(** Runs in the child, whose only thread has the id [gettid]. *)
Definition afterFork (gettid : Z) (l : Locals) : Locals :=
  let l := mkLocals 0 (t_tidString l) (t_tidStringLength l) (t_threadName l) in
  let l := set_name (bytes "main") l in
  (tid gettid l).1.

(** The constructor of [ThreadNameInitializer], in the main thread before
    [main()]; it also registers [afterFork]. *)
Definition ThreadNameInitializer (gettid : Z) (l : Locals) : Locals :=
  (tid gettid (set_name (bytes "main") l)).1.

(** ** Theorems about the cache *)

(** The text for the log, [%5d ] of the id. *)
Definition tid_text (gettid : Z) : list byte := decw 5 gettid ++ bytes " ".

(** The cache is empty or right. *)
Definition cached (gettid : Z) (l : Locals) : Prop :=
  t_cachedTid l = 0 \/
  t_cachedTid l = gettid /\ t_tidString l = tid_text gettid /\ t_tidStringLength l = zlen (tid_text gettid).

(** What a thread and its process can do to the cache: look at the id, be named,
    or fork, after which the child goes on with a copy. *)
Inductive action := AskTid | AskMain | SetName (n : list byte) | Fork (child : Z).

Definition act (a : action) (w : Z * Z * Locals) : Z * Z * Locals :=
  let '(gettid, getpid, l) := w in
  match a with
  | AskTid => (gettid, getpid, (tid gettid l).1)
  | AskMain => (gettid, getpid, (isMainThread gettid getpid l).1)
  | SetName n => (gettid, getpid, set_name n l)
  | Fork child => (child, child, afterFork child l)
  end.

Lemma tid_text_fits t : 0 < t < 2 ^ 31 -> snprintf 32 (tid_text t) = tid_text t.
Proof.
  intros Ht. unfold snprintf, tid_text. apply ztake_all. rewrite zlen_app. change (zlen (bytes " ")) with 1.
  unfold decw, pad_left, dec. destruct (Z.ltb_spec t 0); [lia|].
  pose proof (dec_nat_length t 10 eq_refl ltac:(lia)) as Hl. rewrite zlen_app.
  assert (zlen (replicate (Z.to_nat (5 - zlen (dec_nat t))) Byte.x20) <= 5).
  { unfold zlen. rewrite length_replicate. lia. }
  lia.
Qed.

Lemma tid_cached t l : 0 < t < 2 ^ 31 -> cached t l -> cached t (tid t l).1 /\ (tid t l).2 = t /\ t_cachedTid (tid t l).1 = t.
Proof.
  intros Ht Hc. unfold tid, cacheTid. destruct (Z.eqb_spec (t_cachedTid l) 0) as [E|E].
  - cbn. split_and!; [|done|done]. right. cbn. split_and!; [done| |done]. by apply tid_text_fits.
  - destruct Hc as [?|(Hc & ?)]; [done|]. split_and!; [by right|done|done].
Qed.

(** The cached thread id is always the thread's own, in every process that
    comes about by forking: after any sequence of lookups, names and forks,
    [tid()] returns what the kernel says, the text for the log shows it in full,
    and a child that was just forked is the main thread of its process and called
    [main]. *)
Theorem tid_cache_right acts t p l :
  cached t l -> 0 < t < 2 ^ 31 -> (forall c, Fork c ∈ acts -> 0 < c < 2 ^ 31) ->
  let '(t', p', l') := foldl (fun w a => act a w) (t, p, l) acts in
  cached t' l' /\ (tid t' l').2 = t' /\ tidString (tid t' l').1 = tid_text t' /\
  tidStringLength (tid t' l').1 = zlen (tid_text t') /\
  forall c, 0 < c < 2 ^ 31 ->
    let '(t'', p'', l'') := act (Fork c) (t', p', l') in
    (isMainThread t'' p'' l'').2 = true /\ name l'' = bytes "main" /\ tidString l'' = tid_text c.
Proof.
  intros Hc Ht Hf.
  assert (forall w, (let '(t, _, l) := w in cached t l /\ 0 < t < 2 ^ 31) ->
    let '(t', _, l') := foldl (fun w a => act a w) w acts in cached t' l' /\ 0 < t' < 2 ^ 31) as Hinv.
  { clear Hc Ht. revert Hf. induction acts as [|a acts IH]; intros Hf [[t1 p1] l1] [H1 Ht1]; [done|]. cbn [foldl].
    apply IH; [intros c Hc; apply Hf; by constructor|]. destruct a as [| |n|c]; cbn [act].
    - split; [by apply (tid_cached t1 l1)|done].
    - unfold isMainThread. destruct (tid_cached t1 l1 Ht1 H1) as [H2 _]. by destruct (tid t1 l1).
    - by split.
    - assert (0 < c < 2 ^ 31) as Hcr by (apply Hf; constructor). split; [|done]. unfold afterFork.
      apply (tid_cached c (set_name _ _)); [done|by left]. }
  specialize (Hinv (t, p, l) (conj Hc Ht)). destruct (foldl _ _ _) as [[t' p'] l']. destruct Hinv as [H' Ht'].
  destruct (tid_cached t' l' Ht' H') as (H2 & E2 & E3). split; [done|]. split; [done|].
  destruct H2 as [H2|(_ & Hs & Hl)]; [lia|]. split_and!; try done.
  intros c Hcr. cbn [act]. destruct (tid_cached c (set_name (bytes "main") (mkLocals 0 (t_tidString l') (t_tidStringLength l') (t_threadName l'))))
    as (H3 & E4 & E5); [done|by left|]. unfold afterFork. set (l'' := (tid c _).1) in *. unfold isMainThread.
  destruct (tid_cached c l'' Hcr H3) as (_ & E6 & _). destruct (tid c l'') as [l3 t3]. cbn [snd] in E6 |- *. subst t3.
  rewrite Z.eqb_refl. split; [done|]. destruct H3 as [H3|(_ & Hs3 & _)]; [lia|]. split; [|done].
  unfold l'', tid, cacheTid. done.
Qed.

(** Without the handler the child would keep its parent's id. *)
Lemma without_handler_stale :
  (tid 200 (tid 100 new_locals).1).2 = 100.
Proof. reflexivity. Qed.

(** ** [sleepUsec] *)

(** The [timespec] that is passed to [nanosleep]. *)
Definition sleepUsec (usec : Z) : Z * Z :=
  (Z.quot usec Timestamp.kMicroSecondsPerSecond, i64 (Z.rem usec Timestamp.kMicroSecondsPerSecond * 1000)).

Theorem sleepUsec_exact usec :
  0 <= usec < 2 ^ 63 ->
  let '(sec, nsec) := sleepUsec usec in 0 <= nsec < 1000000000 /\ sec * 1000000000 + nsec = usec * 1000.
Proof.
  intros Hu. unfold sleepUsec, Timestamp.kMicroSecondsPerSecond. pose proof (Z.rem_bound_pos usec 1000000).
  pose proof (Z.quot_rem' usec 1000000). rewrite i64_small by lia. lia.
Qed.
(** ** [stackTrace] *)

Section stack.
(** [abi::__cxa_demangle] of a C string: the text, if the status is 0. *)
Context (cxa_demangle : list byte -> option (list byte)).

(** The loop over the characters of a line: the offsets of the last ['('] and of
    the last ['+'], if any. *)
Fixpoint scan (s : list byte) (p : Z) (left_par plus : option Z) : option Z * option Z :=
  match s with
  | [] => (left_par, plus)
  | c :: s =>
      if byte_eq_dec' c Byte.x28 then scan s (p + 1) (Some p) plus
      else if byte_eq_dec' c Byte.x2b then scan s (p + 1) left_par (Some p)
      else scan s (p + 1) left_par plus
  end.

(** The C string at [left_par + 1] while [*plus] is 0. *)
Definition symbol (s : list byte) (left_par plus : Z) : list byte :=
  if left_par <? plus then zslice (left_par + 1) plus s else zdrop (left_par + 1) s.

(** What is appended for a line. *)
Definition trace_line (demangle : bool) (s : list byte) : list byte :=
  match (if demangle then scan s 0 None None else (None, None)) with
  | (Some left_par, Some plus) =>
      match cxa_demangle (symbol s left_par plus) with
      | Some text => ztake (left_par + 1) s ++ text ++ zdrop plus s ++ [Byte.x0a]
      | None => s ++ [Byte.x0a]
      end
  | _ => s ++ [Byte.x0a]
  end.

(** [strings] is what [backtrace_symbols] returns for the frames, if it returns;
    the first frame is [stackTrace] itself. *)
Definition stackTrace (strings : option (list (list byte))) (demangle : bool) : list byte :=
  match strings with
  | Some strings => tail strings ≫= trace_line demangle
  | None => []
  end.

Definition plain (s : list byte) : Prop := Forall (fun c => c <> Byte.x28 /\ c <> Byte.x2b) s.

Lemma scan_plain s rest p l q : plain s -> scan (s ++ rest) p l q = scan rest (p + zlen s) l q.
Proof.
  intros H. revert p. induction H as [|c s [H1 H2] _ IH]; intros p; [change (zlen []) with 0; by rewrite Z.add_0_r|].
  cbn [app scan]. do 2 (destruct (byte_eq_dec' _ _); [done|]). rewrite IH, zlen_cons. f_equal. lia.
Qed.

(** A line [module(symbol+offset) \[address\]] is printed with the name of the
    function, and every other line as it is; lines stay in order. *)
Theorem trace_demangles module mangled rest text :
  plain module -> plain mangled -> plain rest -> cxa_demangle mangled = Some text ->
  trace_line true (module ++ [Byte.x28] ++ mangled ++ [Byte.x2b] ++ rest) =
    module ++ [Byte.x28] ++ text ++ [Byte.x2b] ++ rest ++ [Byte.x0a].
Proof.
  intros H1 H2 H3 E. unfold trace_line. set (s := module ++ _).
  assert (scan s 0 None None = (Some (zlen module), Some (zlen module + 1 + zlen mangled))) as ->.
  { unfold s. rewrite scan_plain by done. cbn [app scan]. destruct (byte_eq_dec' _ _); [|done].
    rewrite scan_plain by done. cbn [app scan]. destruct (byte_eq_dec' Byte.x2b Byte.x28); [done|].
    destruct (byte_eq_dec' _ _); [|done]. rewrite <-(app_nil_r rest). rewrite scan_plain by done. cbn. repeat f_equal; lia. }
  pose proof (zlen_nonneg module). pose proof (zlen_nonneg mangled).
  assert (symbol s (zlen module) (zlen module + 1 + zlen mangled) = mangled) as ->.
  { unfold symbol. destruct (Z.ltb_spec (zlen module) (zlen module + 1 + zlen mangled)); [|lia]. unfold zslice, s.
    replace (zlen module + 1 + zlen mangled - (zlen module + 1)) with (zlen mangled) by lia.
    rewrite app_assoc, zdrop_app_exact by (rewrite zlen_app; reflexivity). by rewrite ztake_app_exact. }
  rewrite E. unfold s.
  assert (ztake (zlen module + 1) (module ++ [Byte.x28] ++ mangled ++ [Byte.x2b] ++ rest) = module ++ [Byte.x28]) as ->.
  { rewrite app_assoc. apply ztake_app_exact. by rewrite zlen_app. }
  assert (zdrop (zlen module + 1 + zlen mangled) (module ++ [Byte.x28] ++ mangled ++ [Byte.x2b] ++ rest) = [Byte.x2b] ++ rest) as ->.
  { rewrite (app_assoc _ mangled), (app_assoc module). apply zdrop_app_exact. rewrite !zlen_app. change (zlen [Byte.x28]) with 1. lia. }
  by rewrite <-!app_assoc.
Qed.

Lemma trace_falls_back s :
  match scan s 0 None None with
  | (Some l, Some p) => cxa_demangle (symbol s l p) = None
  | _ => True
  end -> trace_line true s = s ++ [Byte.x0a].
Proof. unfold trace_line. destruct (scan s 0 None None) as [[l|] [p|]]; try done. by intros ->. Qed.

End stack.

(** ** [Exception] *)
Record Exception := mkException { message_ : list byte; stack_ : list byte }.

Definition new_exception (strings : option (list (list byte))) (msg : list byte) : Exception :=
  mkException msg (stackTrace (fun _ => None) strings false).
Definition what (e : Exception) : list byte := message_ e.
Definition exception_stackTrace (e : Exception) : list byte := stack_ e.

(** An exception keeps its message and where it was made: the symbols of all
    frames but the first, a line each. *)
Theorem exception_keeps strings msg :
  what (new_exception (Some strings) msg) = msg /\
  exception_stackTrace (new_exception (Some strings) msg) = tail strings ≫= fun s => s ++ [Byte.x0a].
Proof. done. Qed.
End CurrentThread.
