(* ===== verification/SocketsOps.v ===== *)
(** * Socket addresses and system calls ([src/net/SocketsOps.cpp], [InetAddress.h],
      [InetAddress.cpp], [Socket.cpp])

    A [struct sockaddr_in6] is its 28 bytes of memory; [sockaddr_in] is the
    first 16 of them.  Results of system calls are arguments.  The text form of
    addresses is libc's ([inet_ntop] and [inet_pton]): the class [InetText] has
    what is documented of it, and every function that needs it takes it as an
    argument. *)

From S2P Require Import Prelude Endian Decimal.

Module SocketsOps.

Definition AF_INET : Z := 2.
Definition AF_INET6 : Z := 10.
Definition INET_ADDRSTRLEN : Z := 16.
Definition INET6_ADDRSTRLEN : Z := 46.
Definition sizeof_sockaddr_in : Z := 16.
Definition sizeof_sockaddr_in6 : Z := 28.

(** Text forms: [inet_ntop family address] and [inet_pton family text]. *)
Class InetText (inet_ntop : Z -> list byte -> list byte) (inet_pton : Z -> list byte -> option (list byte)) : Prop := {
  ntop4_length a : zlen a = 4 -> zlen (inet_ntop AF_INET a) < INET_ADDRSTRLEN;
  ntop6_length a : zlen a = 16 -> zlen (inet_ntop AF_INET6 a) < INET6_ADDRSTRLEN;
  pton4_ntop4 a : zlen a = 4 -> inet_pton AF_INET (inet_ntop AF_INET a) = Some a;
  pton6_ntop6 a : zlen a = 16 -> inet_pton AF_INET6 (inet_ntop AF_INET6 a) = Some a;
  pton4_length s a : inet_pton AF_INET s = Some a -> zlen a = 4;
  pton6_length s a : inet_pton AF_INET6 s = Some a -> zlen a = 16 }.

(** ** The members of the structs *)

Definition load (off n : Z) (m : list byte) : Z := le_combine (zslice off (off + n) m).
Definition store (off : Z) (v : list byte) (m : list byte) : outcome (list byte) := zstore off v m.

Definition sa_family (addr : list byte) : Z := load 0 2 addr.
Definition sin_port (addr : list byte) : Z := load 2 2 addr.
Definition sin_addr (addr : list byte) : list byte := zslice 4 8 addr.
Definition sin6_addr (addr : list byte) : list byte := zslice 8 24 addr.
Definition sin6_scope_id (addr : list byte) : Z := load 24 4 addr.

Definition set_family (f : Z) : list byte -> outcome (list byte) := store 0 (le_split 2 f).
Definition set_port (p : Z) : list byte -> outcome (list byte) := store 2 (le_split 2 p).

Definition memZero (n : Z) (m : list byte) : outcome (list byte) :=
  store 0 (replicate (Z.to_nat n) Byte.x00) m.

(** ** Addresses as text *)
Section text.
Context (inet_ntop : Z -> list byte -> list byte) (inet_pton : Z -> list byte -> option (list byte)).

(** [buf] is what the array of [size] characters holds as a string. *)
Definition toIp (buf : list byte) (size : Z) (addr : list byte) : outcome (list byte) :=
  if sa_family addr =? AF_INET then
    assert_ (INET_ADDRSTRLEN <=? size);;
    Ok (inet_ntop AF_INET (sin_addr addr))
  else if sa_family addr =? AF_INET6 then
    assert_ (INET6_ADDRSTRLEN <=? size);;
    Ok (inet_ntop AF_INET6 (sin6_addr addr))
  else Ok buf.

Definition toIpPort (buf : list byte) (size : Z) (addr : list byte) : outcome (list byte) :=
  buf' ← toIp buf size addr;
  let end_ := zlen buf' in
  let port := networkToHost16 (sin_port addr) in
  assert_ (end_ <? size);;
  Ok (buf' ++ snprintf (size - end_) (bytes ":" ++ dec_nat port)).

(** When the text is no address an error is logged and the address stays. *)
Definition fromIpPort4 (ip : list byte) (port : Z) (addr : list byte) : outcome (list byte) :=
  addr ← set_family AF_INET addr;
  addr ← set_port (hostToNetwork16 port) addr;
  match inet_pton AF_INET ip with
  | Some a => store 4 a addr
  | None => Ok addr
  end.

Definition fromIpPort6 (ip : list byte) (port : Z) (addr : list byte) : outcome (list byte) :=
  addr ← set_family AF_INET6 addr;
  addr ← set_port (hostToNetwork16 port) addr;
  match inet_pton AF_INET6 ip with
  | Some a => store 8 a addr
  | None => Ok addr
  end.
End text.

(** ** System calls *)

(** A system call that must succeed. *)
Definition or_die (ret : Z) : outcome Z := if ret <? 0 then Err Fatal else Ok ret.
Definition createNonblockingOrDie (ret : Z) : outcome Z := or_die ret.
Definition bindOrDie (ret : Z) : outcome Z := or_die ret.
Definition listenOrDie (ret : Z) : outcome Z := or_die ret.

Definition EPERM : Z := 1.
Definition EINTR : Z := 4.
Definition EBADF : Z := 9.
Definition EAGAIN : Z := 11.
Definition ENOMEM : Z := 12.
Definition EFAULT : Z := 14.
Definition EINVAL : Z := 22.
Definition ENFILE : Z := 23.
Definition EMFILE : Z := 24.
Definition EPROTO : Z := 71.
Definition ENOTSOCK : Z := 88.
Definition EOPNOTSUPP : Z := 95.
Definition ECONNABORTED : Z := 103.
Definition ENOBUFS : Z := 105.

(** [accept4] gives a descriptor and the peer's address, or an error. *)
Inductive accept_result := Accepted (connfd : Z) (peer : list byte) | AcceptError (errno : Z).

(** The returned descriptor, the address and [errno]. *)
Definition accept (r : accept_result) (addr : list byte) : outcome (Z * list byte * Z) :=
  match r with
  | Accepted connfd peer => addr' ← store 0 peer addr; Ok (connfd, addr', 0)
  | AcceptError savedErrno =>
      if bool_decide (savedErrno ∈ [EAGAIN; ECONNABORTED; EINTR; EPROTO; EPERM; EMFILE]) then Ok (-1, addr, savedErrno)
      else if bool_decide (savedErrno ∈ [EBADF; EFAULT; EINVAL; ENFILE; ENOBUFS; ENOMEM; ENOTSOCK; EOPNOTSUPP]) then Err Fatal
      else Err Fatal
  end.

(** [getsockopt(SO_ERROR)] fails with an [errno] or gives the pending error. *)
Definition getSocketError (r : Z + Z) : Z := match r with inl errno => errno | inr optval => optval end.

(** [getsockname] and [getpeername] give an address of at most 28 bytes or fail. *)
Definition getLocalAddr (r : option (list byte)) : outcome (list byte) :=
  let localaddr := replicate (Z.to_nat sizeof_sockaddr_in6) Byte.x00 in
  match r with Some a => store 0 a localaddr | None => Ok localaddr end.
Definition getPeerAddr (r : option (list byte)) : outcome (list byte) :=
  let peeraddr := replicate (Z.to_nat sizeof_sockaddr_in6) Byte.x00 in
  match r with Some a => store 0 a peeraddr | None => Ok peeraddr end.

Definition isSelfConnect (sockname peername : option (list byte)) : outcome bool :=
  localaddr ← getLocalAddr sockname;
  peeraddr ← getPeerAddr peername;
  Ok (if sa_family localaddr =? AF_INET then
        (sin_port localaddr =? sin_port peeraddr) &&
        (le_combine (sin_addr localaddr) =? le_combine (sin_addr peeraddr))
      else if sa_family localaddr =? AF_INET6 then
        (sin_port localaddr =? sin_port peeraddr) &&
        bool_decide (sin6_addr localaddr = sin6_addr peeraddr)
      else false).

(** ** [InetAddress] *)

Definition in6addr_any : list byte := replicate 16 Byte.x00.
Definition in6addr_loopback : list byte := replicate 15 Byte.x00 ++ [Byte.x01].
Definition kInaddrAny : Z := 0.
Definition kInaddrLoopback : Z := 2130706433.

(** The constructors; [raw] is what the memory of the object held before. *)
Definition InetAddress_port (raw : list byte) (port : Z) (loopbackOnly ipv6 : bool) : outcome (list byte) :=
  if ipv6 then
    a ← memZero sizeof_sockaddr_in6 raw;
    a ← set_family AF_INET6 a;
    a ← store 8 (if loopbackOnly then in6addr_loopback else in6addr_any) a;
    set_port (hostToNetwork16 port) a
  else
    a ← memZero sizeof_sockaddr_in raw;
    a ← set_family AF_INET a;
    a ← store 4 (le_split 4 (hostToNetwork32 (if loopbackOnly then kInaddrLoopback else kInaddrAny))) a;
    set_port (hostToNetwork16 port) a.

Section inet_address.
Context (inet_ntop : Z -> list byte -> list byte) (inet_pton : Z -> list byte -> option (list byte)).

Definition InetAddress_ip (raw : list byte) (ip : list byte) (port : Z) (ipv6 : bool) : outcome (list byte) :=
  if ipv6 then a ← memZero sizeof_sockaddr_in6 raw; fromIpPort6 inet_pton ip port a
  else a ← memZero sizeof_sockaddr_in raw; fromIpPort4 inet_pton ip port a.

Definition InetAddress_toIp (a : list byte) : outcome (list byte) := toIp inet_ntop [] 64 a.
Definition InetAddress_toIpPort (a : list byte) : outcome (list byte) := toIpPort inet_ntop [] 64 a.
End inet_address.

Definition family (a : list byte) : Z := sa_family a.
Definition portNetEndian (a : list byte) : Z := sin_port a.
Definition toPort (a : list byte) : Z := networkToHost16 (portNetEndian a).
Definition ipNetEndian (a : list byte) : outcome Z :=
  assert_ (family a =? AF_INET);; Ok (le_combine (sin_addr a)).

(** [gethostbyname_r] found [Some (h_addrtype, address)], nothing, or failed. *)
Definition resolve (r : option (Z * list byte)) (out : list byte) : outcome (bool * list byte) :=
  match r with
  | Some (h_addrtype, h_addr) =>
      assert_ ((h_addrtype =? AF_INET) && (zlen h_addr =? 4));;
      out' ← store 4 h_addr out; Ok (true, out')
  | None => Ok (false, out)
  end.

Definition setScopeId (scope_id : Z) (a : list byte) : outcome (list byte) :=
  if family a =? AF_INET6 then store 24 (le_split 4 scope_id) a else Ok a.

(** [Socket::accept] *)
Definition Socket_accept (r : accept_result) (peeraddr : list byte) : outcome (Z * list byte * Z) :=
  let addr := replicate (Z.to_nat sizeof_sockaddr_in6) Byte.x00 in
  x ← accept r addr;
  let '(connfd, addr', errno) := x in
  Ok (connfd, if 0 <=? connfd then addr' else peeraddr, errno).

(** ** Memory *)

Lemma store_spec off v m :
  0 <= off -> off + zlen v <= zlen m ->
  exists m', store off v m = Ok m' /\ zlen m' = zlen m /\ zslice off (off + zlen v) m' = v /\
    forall a b, 0 <= a <= b -> b <= zlen m -> b <= off \/ off + zlen v <= a -> zslice a b m' = zslice a b m.
Proof.
  intros Hoff Hlen. unfold store. rewrite zstore_Ok by lia. eexists. split; [done|]. split_and!.
  - by rewrite zlen_stored.
  - by rewrite zslice_stored_new.
  - intros a b Hab Hb [?|?]; [by rewrite zslice_stored_below by lia|by rewrite zslice_stored_above by lia].
Qed.

(** Runs the next [store] of the goal. *)
Ltac run_store m Hl Hnew Hold :=
  match goal with
  | |- context [store ?off ?v ?x] =>
      destruct (store_spec off v x) as (m & -> & Hl & Hnew & Hold);
      [lia|rewrite ?zlen_le_split, ?zlen_replicate by lia; cbn; lia|bind_simpl]
  end.

Lemma load_le_split off n x m : zslice off (off + Z.of_nat n) m = le_split n x -> load off (Z.of_nat n) m = x mod 2 ^ (Z.of_nat n * 8).
Proof. intros E. unfold load. rewrite E. apply le_combine_split. Qed.

Lemma toPort_stored m port :
  0 <= port < 65536 -> zslice 2 4 m = le_split 2 (hostToNetwork16 port) -> toPort m = port.
Proof.
  intros Hp E. unfold toPort, portNetEndian, sin_port, load. change (2 + 2) with 4. rewrite E.
  unfold networkToHost16, hostToNetwork16. rewrite le_combine_split.
  change (2 ^ (Z.of_nat 2 * 8)) with 65536. pose proof (bswap_range 2 port) as Hr.
  change (2 ^ (8 * Z.of_nat 2)) with 65536 in Hr. rewrite (Z.mod_small (bswap _ _)) by done.
  rewrite bswap_involutive. by apply Z.mod_small.
Qed.

Lemma family_stored m f : 0 <= f < 65536 -> zslice 0 2 m = le_split 2 f -> family m = f.
Proof.
  intros Hf E. unfold family, sa_family, load. change (0 + 2) with 2. rewrite E, le_combine_split.
  by apply Z.mod_small.
Qed.

(** What the text constructors leave in memory. *)
Lemma InetAddress_ip_memory pton (ipv6 : bool) raw ip port :
  zlen raw = 28 -> (forall f s a, pton f s = Some a -> zlen a = if f =? AF_INET then 4 else 16) ->
  let fam := if ipv6 then AF_INET6 else AF_INET in
  exists m, InetAddress_ip pton raw ip port ipv6 = Ok m /\ zlen m = 28 /\
    zslice 0 2 m = le_split 2 fam /\ zslice 2 4 m = le_split 2 (hostToNetwork16 port) /\
    (if ipv6 then sin6_addr m = default in6addr_any (pton fam ip)
     else sin_addr m = default (replicate 4 Byte.x00) (pton fam ip)).
Proof.
  intros Hraw Hpton fam. unfold InetAddress_ip, fromIpPort4, fromIpPort6, set_family, set_port, memZero.
  subst fam. destruct ipv6.
  - unfold sizeof_sockaddr_in6. run_store m0 Hl0 Hn0 Ho0. run_store m1 Hl1 Hn1 Ho1. run_store m2 Hl2 Hn2 Ho2.
    rewrite zlen_le_split in *. rewrite zlen_replicate in * by lia. cbn in Hn1, Hn2, Ho1, Ho2.
    pose proof (Hpton AF_INET6 ip) as Hp. destruct (pton AF_INET6 ip) as [a|].
    + specialize (Hp a eq_refl). cbn in Hp.
      destruct (store_spec 8 a m2) as (m3 & -> & Hl3 & Hn3 & Ho3); [lia|lia|]. exists m3. rewrite Hp in *.
      split_and!; [done|lia|by rewrite Ho3, Ho2 by lia|by rewrite Ho3 by lia|exact Hn3].
    + exists m2. split_and!; [done|lia|by rewrite Ho2 by lia|done|].
      unfold sin6_addr. rewrite Ho2, Ho1 by lia. cbn [default].
      change (0 + 28) with 28 in Hn0. rewrite <- (zslice_full m0), Hl0, Hraw, Hn0. reflexivity.
  - unfold sizeof_sockaddr_in. run_store m0 Hl0 Hn0 Ho0. run_store m1 Hl1 Hn1 Ho1. run_store m2 Hl2 Hn2 Ho2.
    rewrite zlen_le_split in *. rewrite zlen_replicate in * by lia. cbn in Hn1, Hn2, Ho1, Ho2.
    pose proof (Hpton AF_INET ip) as Hp. destruct (pton AF_INET ip) as [a|].
    + specialize (Hp a eq_refl). cbn in Hp.
      destruct (store_spec 4 a m2) as (m3 & -> & Hl3 & Hn3 & Ho3); [lia|lia|]. exists m3. rewrite Hp in *.
      split_and!; [done|lia|by rewrite Ho3, Ho2 by lia|by rewrite Ho3 by lia|exact Hn3].
    + exists m2. split_and!; [done|lia|by rewrite Ho2 by lia|done|].
      unfold sin_addr. rewrite Ho2, Ho1 by lia. cbn [default].
      change 8 with (4 + 4). rewrite <- (zslice_take 4 16) by lia. change (0 + 16) with 16 in Hn0.
      change 4 with (0 + 4) at 2. rewrite <- (zslice_drop 0 16) by lia. rewrite Hn0. reflexivity.
Qed.

(** ** Text round trip *)
Section roundtrip.
Context (inet_ntop : Z -> list byte -> list byte) (inet_pton : Z -> list byte -> option (list byte)).
Context `{!InetText inet_ntop inet_pton}.

(** The two families that have a text form. *)
Definition pton (f : Z) (s : list byte) : option (list byte) :=
  if (f =? AF_INET) || (f =? AF_INET6) then inet_pton f s else None.

Lemma pton_length f s a : pton f s = Some a -> zlen a = if f =? AF_INET then 4 else 16.
Proof.
  unfold pton. destruct (Z.eqb_spec f AF_INET) as [->|]; cbn; [apply pton4_length|].
  destruct (Z.eqb_spec f AF_INET6) as [->|]; [apply pton6_length|done].
Qed.

Definition address_length (ipv6 : bool) : Z := if ipv6 then 16 else 4.
Definition address_of (ipv6 : bool) (m : list byte) : list byte := if ipv6 then sin6_addr m else sin_addr m.
Definition address_family (ipv6 : bool) : Z := if ipv6 then AF_INET6 else AF_INET.

Lemma ntop_length (ipv6 : bool) a :
  zlen a = address_length ipv6 -> zlen (inet_ntop (address_family ipv6) a) < 46.
Proof.
  destruct ipv6; cbn; intros Ha; [by apply ntop6_length|].
  pose proof (ntop4_length a Ha) as H. unfold INET_ADDRSTRLEN in H. lia.
Qed.

Lemma toIpPort_text (ipv6 : bool) m a port :
  zlen a = address_length ipv6 -> 0 <= port < 65536 ->
  family m = address_family ipv6 -> toPort m = port ->
  address_of ipv6 m = a ->
  InetAddress_toIp inet_ntop m = Ok (inet_ntop (address_family ipv6) a) /\
  InetAddress_toIpPort inet_ntop m = Ok (inet_ntop (address_family ipv6) a ++ bytes ":" ++ dec_nat port).
Proof.
  intros Ha Hp Hf Hport Hm.
  assert (InetAddress_toIp inet_ntop m = Ok (inet_ntop (address_family ipv6) a)) as E.
  { unfold InetAddress_toIp, toIp. unfold family in Hf. rewrite Hf. destruct ipv6; cbn; cbn in Hm; by rewrite Hm. }
  split; [done|]. unfold InetAddress_toIpPort, toIpPort. unfold InetAddress_toIp in E. rewrite E. bind_simpl.
  pose proof (ntop_length ipv6 a Ha) as Hl. rewrite assert_true by lia. bind_simpl.
  unfold toPort, portNetEndian in Hport. rewrite Hport. do 2 f_equal. unfold snprintf. apply ztake_all.
  pose proof (dec_nat_length port 5 ltac:(lia) ltac:(lia)). rewrite zlen_app. change (zlen (bytes ":")) with 1. lia.
Qed.

(** C34: An [InetAddress] made from the text of an IPv4 or IPv6 address and a
    port has that family and that port, and [toIp] and [toIpPort] give the text
    back in full; the bytes that were in its memory before do not matter. *)
Theorem inetaddress_text_roundtrip (ipv6 : bool) raw a port :
  zlen raw = sizeof_sockaddr_in6 -> zlen a = address_length ipv6 -> 0 <= port < 65536 ->
  exists m, InetAddress_ip pton raw (inet_ntop (address_family ipv6) a) port ipv6 = Ok m /\
    family m = address_family ipv6 /\ toPort m = port /\
    InetAddress_toIp inet_ntop m = Ok (inet_ntop (address_family ipv6) a) /\
    InetAddress_toIpPort inet_ntop m = Ok (inet_ntop (address_family ipv6) a ++ bytes ":" ++ dec_nat port).
Proof.
  intros Hraw Ha Hp. destruct (InetAddress_ip_memory pton ipv6 raw (inet_ntop (address_family ipv6) a) port Hraw
    pton_length) as (m & E & _ & Hfam & Hport & Haddr).
  assert (pton (address_family ipv6) (inet_ntop (address_family ipv6) a) = Some a) as Hpton.
  { destruct ipv6; unfold pton; cbn; [by apply pton6_ntop6|by apply pton4_ntop4]. }
  apply family_stored in Hfam; [|by destruct ipv6]. apply toPort_stored in Hport; [|done].
  exists m. split_and!; [done|done|done|apply (toIpPort_text ipv6 m a port)..]; try done.
  all: destruct ipv6; cbn in *; by rewrite Hpton in Haddr.
Qed.

(** Text that is no address gives the any address. *)
Lemma InetAddress_bad_text raw ip port :
  zlen raw = 28 -> pton AF_INET ip = None ->
  exists m, InetAddress_ip pton raw ip port false = Ok m /\ ipNetEndian m = Ok 0.
Proof.
  intros Hraw Hnone.
  destruct (InetAddress_ip_memory pton false raw ip port Hraw pton_length) as (m & E & _ & Hfam & _ & Haddr).
  exists m. split; [done|]. apply family_stored in Hfam; [|done]. unfold ipNetEndian.
  rewrite Hfam. cbn in *. by rewrite Haddr, Hnone.
Qed.
End roundtrip.

(** A connection from an address to itself is recognised, and nothing else is. *)
Lemma isSelfConnect_spec (ipv6 : bool) l p :
  zlen l = sizeof_sockaddr_in6 -> zlen p = sizeof_sockaddr_in6 -> sa_family l = address_family ipv6 ->
  isSelfConnect (Some l) (Some p) =
    Ok (bool_decide (sin_port l = sin_port p /\ address_of ipv6 l = address_of ipv6 p)).
Proof.
  intros Hl Hp Hf. unfold isSelfConnect, getLocalAddr, getPeerAddr, store, zstore. rewrite Hl, Hp.
  rewrite !zlen_replicate by (unfold sizeof_sockaddr_in6; lia). unfold sizeof_sockaddr_in6 in *.
  cbn [Z.leb Z.add]. rewrite (in_bounds_true (_ && _)) by done. bind_simpl.
  rewrite !ztake_0, !zdrop_all, !app_nil_r, !app_nil_l by (rewrite zlen_replicate; lia).
  rewrite Hf. f_equal. destruct ipv6; cbn [address_family Z.eqb AF_INET AF_INET6 Pos.eqb].
  - cbn [address_of]. destruct (Z.eqb_spec (sin_port l) (sin_port p)); repeat case_bool_decide; cbn; tauto.
  - assert (le_combine (sin_addr l) = le_combine (sin_addr p) <-> sin_addr l = sin_addr p) as Hinj.
    { split; [|by intros ->]. intros E. unfold sin_addr in *.
      assert (length (zslice 4 8 l) = length (zslice 4 8 p)) as Hlen.
      { pose proof (zlen_slice 4 8 l ltac:(lia) ltac:(lia)). pose proof (zlen_slice 4 8 p ltac:(lia) ltac:(lia)).
        unfold zlen in *. lia. }
      by rewrite <- (split_le_combine (zslice 4 8 l)), E, Hlen, split_le_combine. }
    cbn [address_of]. destruct (Z.eqb_spec (sin_port l) (sin_port p)), (Z.eqb_spec (le_combine (sin_addr l)) (le_combine (sin_addr p)));
      case_bool_decide; cbn; tauto.
Qed.

(** ** A concrete text form

    Dotted decimal for IPv4 and plain hexadecimal for IPv6. *)

(** The parts of [s] between dots. *)
Definition fields (s : list byte) : list (list byte) :=
  foldr (fun c acc => if Byte.eqb c Byte.x2e then [] :: acc else match acc with f :: r => (c :: f) :: r | [] => [[c]] end)
    [[]] s.
Definition hex_digit (d : Z) : byte := byte.of_Z (if d <? 10 then 48 + d else 87 + d).
Definition hex_value (c : byte) : Z := if byte.unsigned c <? 97 then byte.unsigned c - 48 else byte.unsigned c - 87.
Definition hex_byte (b : byte) : list byte := [hex_digit (byte.unsigned b / 16); hex_digit (byte.unsigned b mod 16)].
Fixpoint unhex (s : list byte) : list byte :=
  match s with
  | h :: l :: s' => byte.of_Z (16 * hex_value h + hex_value l) :: unhex s'
  | _ => []
  end.

Definition sample_ntop (f : Z) (a : list byte) : list byte :=
  if f =? AF_INET then
    match a with
    | [a0; a1; a2; a3] =>
        dec_nat (byte.unsigned a0) ++ bytes "." ++ dec_nat (byte.unsigned a1) ++ bytes "." ++
        dec_nat (byte.unsigned a2) ++ bytes "." ++ dec_nat (byte.unsigned a3)
    | _ => []
    end
  else a ≫= hex_byte.
Definition sample_pton (f : Z) (s : list byte) : option (list byte) :=
  if f =? AF_INET then
    match fields s with
    | [f0; f1; f2; f3] => Some ((fun f => byte.of_Z (dec_value f)) <$> [f0; f1; f2; f3])
    | _ => None
    end
  else if bool_decide (length s = 32%nat) then Some (unhex s) else None.

Lemma fields_dot w s : Forall (fun c => is_digit c = true) w -> fields (w ++ bytes "." ++ s) = w :: fields s.
Proof.
  induction 1 as [|c w Hc _ IH]; [done|]. cbn [app fields foldr]. fold (fields (w ++ bytes "." ++ s)). rewrite IH.
  by destruct c.
Qed.

Lemma fields_last w : Forall (fun c => is_digit c = true) w -> fields w = [w].
Proof.
  induction 1 as [|c w Hc _ IH]; [done|]. cbn [fields foldr]. fold (fields w). rewrite IH. by destruct c.
Qed.

Lemma byte_of_dec b : byte.of_Z (dec_value (dec_nat (byte.unsigned b))) = b.
Proof. rewrite dec_value_dec_nat by (pose proof (byte.unsigned_range b); lia). apply byte.of_Z_unsigned. Qed.

Lemma unhex_hex a : unhex (a ≫= hex_byte) = a.
Proof.
  induction a as [|b a IH]; [done|]. cbn [mbind list_bind hex_byte app unhex]. f_equal; [by destruct b|exact IH].
Qed.

Lemma length_hex a : length (a ≫= hex_byte) = (2 * length a)%nat.
Proof. induction a as [|b a IH]; [done|]. cbn in *. lia. Qed.

Lemma length_unhex s n : length s = (2 * n)%nat -> length (unhex s) = n.
Proof.
  revert s. induction n as [|n IH]; intros [|h [|l s]] Hs; cbn in *; try lia. f_equal. apply IH. lia.
Qed.

Lemma four_bytes (a : list byte) : zlen a = 4 -> exists a0 a1 a2 a3, a = [a0; a1; a2; a3].
Proof. unfold zlen. intros H. destruct a as [|a0 [|a1 [|a2 [|a3 [|]]]]]; cbn in H; try lia. eauto. Qed.

Lemma dec_byte b : Forall (fun c => is_digit c = true) (dec_nat (byte.unsigned b)) /\ zlen (dec_nat (byte.unsigned b)) <= 3.
Proof.
  pose proof (byte.unsigned_range b). split; [apply dec_nat_digits; lia|apply dec_nat_length; lia].
Qed.

#[global] Instance sample_text : InetText sample_ntop sample_pton.
Proof.
  split; unfold sample_ntop, sample_pton; cbn [Z.eqb AF_INET AF_INET6 Pos.eqb].
  - intros a (a0 & a1 & a2 & a3 & ->)%four_bytes. unfold INET_ADDRSTRLEN. rewrite !zlen_app. change (zlen (bytes ".")) with 1.
    pose proof (dec_byte a0). pose proof (dec_byte a1). pose proof (dec_byte a2). pose proof (dec_byte a3). lia.
  - intros a Ha. unfold INET6_ADDRSTRLEN, zlen in *. rewrite length_hex. lia.
  - intros a (a0 & a1 & a2 & a3 & ->)%four_bytes.
    rewrite !fields_dot, fields_last by apply dec_byte. cbn [fmap list_fmap]. by rewrite !byte_of_dec.
  - intros a Ha. rewrite bool_decide_eq_true_2 by (rewrite length_hex; unfold zlen in Ha; lia). by rewrite unhex_hex.
  - intros s a E. by destruct (fields s) as [|f0 [|f1 [|f2 [|f3 [|]]]]]; simplify_eq.
  - intros s a E. case_bool_decide; [|done]. simplify_eq. unfold zlen. by rewrite (length_unhex s 16).
Qed.

(** [127.0.0.1:8080] over memory full of ones *)
Lemma inetaddress_text_roundtrip_witness :
  exists m, InetAddress_ip (pton sample_pton) (replicate 28 Byte.xff) (bytes "127.0.0.1") 8080 false = Ok m /\
    InetAddress_toIpPort sample_ntop m = Ok (bytes "127.0.0.1:8080").
Proof.
  destruct (inetaddress_text_roundtrip sample_ntop sample_pton false (replicate 28 Byte.xff)
    [Byte.x7f; Byte.x00; Byte.x00; Byte.x01] 8080) as (m & E & _ & _ & _ & E'); [reflexivity|reflexivity|lia|].
  exists m. split; [exact E|exact E'].
Defined.
End SocketsOps.
