(* ===== verification/Socket.v ===== *)
(** * Socket objects ([src/net/Socket.h], [Socket.cpp], [SocketsOps.cpp])

    A [Socket] owns a descriptor and delegates to the kernel.  Of the kernel the
    open sockets are modelled with their flags and options, as [fcntl(2)],
    [setsockopt(2)] and [shutdown(2)] document them; whether a call fails is an
    argument. *)

From S2P Require Import Prelude Decimal.

Module Socket.

Definition O_RDWR : Z := 2.
Definition O_NONBLOCK : Z := 2048.
Definition FD_CLOEXEC : Z := 1.
Definition SOCK_STREAM : Z := 1.
Definition SOCK_NONBLOCK : Z := 2048.
Definition SOCK_CLOEXEC : Z := 524288.
Definition SOL_SOCKET : Z := 1.
Definition IPPROTO_TCP : Z := 6.
Definition TCP_NODELAY : Z := 1.
Definition SO_REUSEADDR : Z := 2.
Definition SO_KEEPALIVE : Z := 9.
Definition SO_REUSEPORT : Z := 15.

(** An open socket. *)
Record sock := mkSock {
  fl_flags : Z;                  (* file status flags, [F_GETFL] *)
  fd_flags : Z;                  (* descriptor flags, [F_GETFD] *)
  options : gmap (Z * Z) Z;      (* by level and name *)
  write_shut : bool
}.

Abbreviation kernel := (gmap Z sock).

(** [socket(family, type, IPPROTO_TCP)] with the descriptor [fd]. *)
Definition sys_socket (type_ fd : Z) (k : kernel) : kernel :=
  <[fd := mkSock (if Z.testbit type_ 11 then Z.lor O_RDWR O_NONBLOCK else O_RDWR)
                 (if Z.testbit type_ 19 then FD_CLOEXEC else 0) ∅ false]> k.

Definition sys_fcntl_getfl (fd : Z) (k : kernel) : Z := match k !! fd with Some s => fl_flags s | None => -1 end.
Definition sys_fcntl_getfd (fd : Z) (k : kernel) : Z := match k !! fd with Some s => fd_flags s | None => -1 end.
Definition sys_fcntl_setfl (fd flags : Z) (k : kernel) : kernel :=
  alter (fun s => mkSock flags (fd_flags s) (options s) (write_shut s)) fd k.
Definition sys_fcntl_setfd (fd flags : Z) (k : kernel) : kernel :=
  alter (fun s => mkSock (fl_flags s) flags (options s) (write_shut s)) fd k.

(** Returns 0, or -1 and changes nothing. *)
Definition sys_setsockopt (ok : bool) (fd level name val : Z) (k : kernel) : kernel * Z :=
  match k !! fd with
  | Some s =>
      if ok then (<[fd := mkSock (fl_flags s) (fd_flags s) (<[(level, name) := val]> (options s)) (write_shut s)]> k, 0)
      else (k, -1)
  | None => (k, -1)
  end.
Definition sys_shutdown_wr (ok : bool) (fd : Z) (k : kernel) : kernel * Z :=
  match k !! fd with
  | Some s => if ok then (<[fd := mkSock (fl_flags s) (fd_flags s) (options s) true]> k, 0) else (k, -1)
  | None => (k, -1)
  end.
Definition sys_close (fd : Z) (k : kernel) : kernel * Z :=
  match k !! fd with Some _ => (delete fd k, 0) | None => (k, -1) end.

(** ** [sockets::] *)

Definition setNonBlockAndCloseOnExec (sockfd : Z) (k : kernel) : kernel :=
  let flags := sys_fcntl_getfl sockfd k in
  let flags := Z.lor flags O_NONBLOCK in
  let k := sys_fcntl_setfl sockfd flags k in
  let flags := sys_fcntl_getfd sockfd k in
  let flags := Z.lor flags FD_CLOEXEC in
  sys_fcntl_setfd sockfd flags k.

(** [createNonblockingOrDie] built for valgrind and as usual; [fd] is what
    [socket(2)] returns. *)
Definition createNonblockingOrDie_valgrind (fd : Z) (k : kernel) : outcome (kernel * Z) :=
  if fd <? 0 then Err Fatal
  else Ok (setNonBlockAndCloseOnExec fd (sys_socket SOCK_STREAM fd k), fd).
Definition createNonblockingOrDie (fd : Z) (k : kernel) : outcome (kernel * Z) :=
  if fd <? 0 then Err Fatal
  else Ok (sys_socket (Z.lor (Z.lor SOCK_STREAM SOCK_NONBLOCK) SOCK_CLOEXEC) fd k, fd).

(** The error messages that are logged are returned. *)
Definition close (sockfd : Z) (k : kernel) : kernel * list (list byte) :=
  let '(k, ret) := sys_close sockfd k in
  (k, if ret <? 0 then [bytes "sockets::close"] else []).

Definition shutdownWrite (ok : bool) (sockfd : Z) (k : kernel) : kernel * list (list byte) :=
  let '(k, ret) := sys_shutdown_wr ok sockfd k in
  (k, if ret <? 0 then [bytes "sockets::shutdownWrite"] else []).

(** ** [Socket] *)

Record Socket := mkSocket { sockfd_ : Z }.

Definition fd (s : Socket) : Z := sockfd_ s.

Definition dtor (s : Socket) (k : kernel) : kernel * list (list byte) := close (sockfd_ s) k.

Definition Socket_shutdownWrite (ok : bool) (s : Socket) (k : kernel) : kernel * list (list byte) :=
  shutdownWrite ok (sockfd_ s) k.

Definition setTcpNoDelay (ok on : bool) (s : Socket) (k : kernel) : kernel :=
  let optval := if on then 1 else 0 in
  (sys_setsockopt ok (sockfd_ s) IPPROTO_TCP TCP_NODELAY optval k).1.
Definition setReuseAddr (ok on : bool) (s : Socket) (k : kernel) : kernel :=
  let optval := if on then 1 else 0 in
  (sys_setsockopt ok (sockfd_ s) SOL_SOCKET SO_REUSEADDR optval k).1.
Definition setReusePort (ok on : bool) (s : Socket) (k : kernel) : kernel * list (list byte) :=
  let optval := if on then 1 else 0 in
  let '(k, ret) := sys_setsockopt ok (sockfd_ s) SOL_SOCKET SO_REUSEPORT optval k in
  (k, if (ret <? 0) && on then [bytes "SO_REUSEPORT failed."] else []).
Definition setKeepAlive (ok on : bool) (s : Socket) (k : kernel) : kernel :=
  let optval := if on then 1 else 0 in
  (sys_setsockopt ok (sockfd_ s) SOL_SOCKET SO_KEEPALIVE optval k).1.

(** ** [struct tcp_info], as far as it is printed *)
Record tcp_info := mkTcpInfo {
  tcpi_retransmits : Z; (* 8 bits *)
  tcpi_rto : Z;
  tcpi_ato : Z;
  tcpi_snd_mss : Z;
  tcpi_rcv_mss : Z;
  tcpi_lost : Z;
  tcpi_retrans : Z;
  tcpi_rtt : Z;
  tcpi_rttvar : Z;
  tcpi_snd_ssthresh : Z;
  tcpi_snd_cwnd : Z;
  tcpi_total_retrans : Z
}.

(** [getsockopt] answers with the structure, or fails and leaves zeros. *)
Definition zero_info : tcp_info := mkTcpInfo 0 0 0 0 0 0 0 0 0 0 0 0.
Definition getTcpInfo (answer : option tcp_info) : tcp_info * bool :=
  match answer with Some tcpi => (tcpi, true) | None => (zero_info, false) end.

(** The conversions of the format, with the fields they print. *)
Definition info_items (i : tcp_info) : list (list byte * Z) :=
  [(bytes "unrecovered=", tcpi_retransmits i); (bytes " rto=", tcpi_rto i); (bytes " ato=", tcpi_ato i);
   (bytes " snd_mss=", tcpi_snd_mss i); (bytes " rcv_mss=", tcpi_rcv_mss i); (bytes " lost=", tcpi_lost i);
   (bytes " retrans=", tcpi_retrans i); (bytes " rtt=", tcpi_rtt i); (bytes " rttvar=", tcpi_rttvar i);
   (bytes " sshthresh=", tcpi_snd_ssthresh i); (bytes " cwnd=", tcpi_snd_cwnd i);
   (bytes " total_retrans=", tcpi_total_retrans i)].

Definition format_info (i : tcp_info) : list byte := info_items i ≫= fun x => x.1 ++ dec x.2.

(** The string in [buf] afterwards, given what it held. *)
Definition getTcpInfoString (answer : option tcp_info) (buf : list byte) (len : Z) : list byte * bool :=
  let '(tcpi, ok) := getTcpInfo answer in
  (if ok then snprintf len (format_info tcpi) else buf, ok).

(** [TcpConnection::getTcpInfoString] *)
Definition connection_getTcpInfoString (answer : option tcp_info) : list byte :=
  (getTcpInfoString answer [] 1024).1.

(** ** Theorems *)

Lemma setNonBlock_spec fd s k :
  k !! fd = Some s ->
  setNonBlockAndCloseOnExec fd k =
    <[fd := mkSock (Z.lor (fl_flags s) O_NONBLOCK) (Z.lor (fd_flags s) FD_CLOEXEC) (options s) (write_shut s)]> k.
Proof.
  intros E. unfold setNonBlockAndCloseOnExec, sys_fcntl_getfl, sys_fcntl_getfd, sys_fcntl_setfl, sys_fcntl_setfd.
  cbv zeta. rewrite E, lookup_alter_eq, E. cbn. apply map_eq. intros j. destruct (decide (fd = j)) as [<-|Hne].
  - by rewrite !lookup_alter_eq, E, lookup_insert_eq.
  - by rewrite !lookup_alter_ne, lookup_insert_ne.
Qed.

(** Both builds of [createNonblockingOrDie] make the same socket: non-blocking,
    closed on exec, no options, and no other socket changes. *)
Theorem create_builds_agree fd k :
  createNonblockingOrDie_valgrind fd k = createNonblockingOrDie fd k.
Proof.
  unfold createNonblockingOrDie_valgrind, createNonblockingOrDie. destruct (fd <? 0); [done|]. do 2 f_equal.
  erewrite setNonBlock_spec by apply lookup_insert_eq. unfold sys_socket. by rewrite insert_insert_eq.
Qed.

(** *** Options *)
Inductive option_call := NoDelay | ReuseAddr | ReusePort | KeepAlive.

#[global] Instance option_call_eq_dec : EqDecision option_call.
Proof. solve_decision. Defined.

Definition key_of (o : option_call) : Z * Z :=
  match o with
  | NoDelay => (IPPROTO_TCP, TCP_NODELAY)
  | ReuseAddr => (SOL_SOCKET, SO_REUSEADDR)
  | ReusePort => (SOL_SOCKET, SO_REUSEPORT)
  | KeepAlive => (SOL_SOCKET, SO_KEEPALIVE)
  end.

Definition call_option (o : option_call) (ok on : bool) (s : Socket) (k : kernel) : kernel :=
  match o with
  | NoDelay => setTcpNoDelay ok on s k
  | ReuseAddr => setReuseAddr ok on s k
  | ReusePort => (setReusePort ok on s k).1
  | KeepAlive => setKeepAlive ok on s k
  end.

Definition option_on (o : option_call) (fd : Z) (k : kernel) : bool :=
  match k !! fd with Some s => bool_decide (options s !! key_of o = Some 1) | None => false end.

Lemma key_of_inj o o' : key_of o = key_of o' -> o = o'.
Proof. by destruct o, o'. Qed.

Lemma call_option_spec o ok on s k x :
  k !! sockfd_ s = Some x ->
  call_option o ok on s k =
    if ok then <[sockfd_ s := mkSock (fl_flags x) (fd_flags x) (<[key_of o := if on then 1 else 0]> (options x)) (write_shut x)]> k
    else k.
Proof.
  intros E. unfold call_option, setTcpNoDelay, setReuseAddr, setReusePort, setKeepAlive, sys_setsockopt. rewrite E.
  by destruct o, ok.
Qed.

(** What the options are after calls, a function of the calls that succeeded. *)
Fixpoint expected (calls : list (option_call * bool * bool)) (o : option_call) (v : bool) : bool :=
  match calls with
  | [] => v
  | (o', ok, on) :: calls => expected calls o (if ok && bool_decide (o' = o) then on else v)
  end.

Definition call_options (calls : list (option_call * bool * bool)) (s : Socket) (k : kernel) : kernel :=
  foldl (fun k '(o, ok, on) => call_option o ok on s k) k calls.

(** However options are switched, each is as its last successful call left it,
    and neither the socket's flags nor any other socket changes. *)
Theorem options_last_call calls s : forall k x,
  k !! sockfd_ s = Some x ->
  (forall o, option_on o (sockfd_ s) (call_options calls s k) = expected calls o (option_on o (sockfd_ s) k)) /\
  (forall fd, fd <> sockfd_ s -> call_options calls s k !! fd = k !! fd) /\
  (exists x', call_options calls s k !! sockfd_ s = Some x' /\
     fl_flags x' = fl_flags x /\ fd_flags x' = fd_flags x /\ write_shut x' = write_shut x).
Proof.
  induction calls as [|[[o' ok] on] calls IH]; intros k x E; [split_and!; [done|done|by exists x]|].
  unfold call_options. cbn [foldl]. fold (call_options calls s (call_option o' ok on s k)).
  rewrite (call_option_spec o' ok on s k x E). destruct ok; cbn [andb expected].
  - set (k1 := <[sockfd_ s := _]> k). edestruct (IH k1) as (Ho & Hf & Hx); [apply lookup_insert_eq|]. split_and!.
    + intros o. rewrite Ho. f_equal. unfold option_on, k1. rewrite lookup_insert_eq, E. cbn. case_bool_decide as Hk; case_bool_decide as Ho'.
      * subst. rewrite lookup_insert_eq in Hk. by destruct on.
      * rewrite lookup_insert_ne in Hk by (intros ?%key_of_inj; done). by rewrite bool_decide_eq_true_2.
      * subst. rewrite lookup_insert_eq in Hk. by destruct on.
      * rewrite lookup_insert_ne in Hk by (intros ?%key_of_inj; done). by rewrite bool_decide_eq_false_2.
    + intros fd Hne. rewrite Hf by done. unfold k1. by rewrite lookup_insert_ne.
    + destruct Hx as (x' & E' & ? & ? & ?). by exists x'.
  - by apply IH.
Qed.

(** The destructor closes the socket and no other. *)
Theorem dtor_closes s k x :
  k !! sockfd_ s = Some x ->
  dtor s k = (delete (sockfd_ s) k, []) /\ (forall fd, fd <> sockfd_ s -> (dtor s k).1 !! fd = k !! fd).
Proof.
  intros E. unfold dtor, close, sys_close. rewrite E. split; [done|]. intros fd Hne. cbn. by rewrite lookup_delete_ne.
Qed.

(** *** The text of [tcp_info] *)

Definition info_ok (i : tcp_info) : Prop := Forall (fun x => 0 <= x.2 < 2 ^ 32) (info_items i).

Lemma items_length (l : list (list byte * Z)) :
  Forall (fun x => 0 <= x.2 < 2 ^ 32) l ->
  zlen (l ≫= fun x => x.1 ++ dec x.2) <= zlen (l ≫= fst) + 10 * zlen l.
Proof.
  induction 1 as [|[t v] l Hv _ IH]; [done|]. cbn [mbind list_bind fst snd] in *.
  assert (0 <= v < 10 ^ 10) as Hv' by (change (0 <= v < 2 ^ 32) in Hv; lia).
  assert (dec v = dec_nat v) as -> by (unfold dec; destruct (Z.ltb_spec v 0); [lia|done]).
  rewrite !zlen_app, zlen_cons. pose proof (dec_nat_length v 10 eq_refl Hv'). lia.
Qed.

(** The buffer of [TcpConnection::getTcpInfoString] always has room for the whole
    text, and the string is empty when the kernel does not answer. *)
Theorem tcp_info_fits answer :
  (forall i, answer = Some i -> info_ok i) ->
  connection_getTcpInfoString answer = match answer with Some i => format_info i | None => [] end.
Proof.
  intros Hok. unfold connection_getTcpInfoString, getTcpInfoString, getTcpInfo. destruct answer as [i|]; [|done].
  cbn [fst]. unfold snprintf. apply ztake_all. pose proof (items_length _ (Hok i eq_refl)) as H.
  unfold format_info. etransitivity; [exact H|]. unfold info_items, zlen. cbn. lia.
Qed.

Example tcp_info_text :
  connection_getTcpInfoString (Some (mkTcpInfo 0 204000 40000 1448 536 0 0 1500 700 2147483647 10 4294967295)) =
  bytes "unrecovered=0 rto=204000 ato=40000 snd_mss=1448 rcv_mss=536 lost=0 retrans=0 rtt=1500 rttvar=700 sshthresh=2147483647 cwnd=10 total_retrans=4294967295".
Proof. reflexivity. Qed.
End Socket.
