(* ===== verification/Acceptor.v ===== *)
(** * Accepting connections ([src/net/Acceptor.h], [Acceptor.cpp])

    The acceptor runs against the part of the kernel it depends on: the
    process's descriptor table with its limit, and the queue of connections that
    wait to be accepted.  No other thread opens or closes descriptors while
    [handleRead] runs. *)

From S2P Require Import Prelude Channel SocketsOps.

Module Acceptor.
Import SocketsOps.

(** ** Descriptors and the listen queue *)

Record kernel := mkKernel { fds : gset Z; fd_limit : Z; backlog : list (list byte) }.

(** A new descriptor is the lowest number that is free. *)
Definition free_fds (k : kernel) : list Z := filter (fun n => n ∉ fds k) (seqZ 0 (fd_limit k)).
Definition open_fd (k : kernel) : option (Z * kernel) :=
  match free_fds k with
  | fd :: _ => Some (fd, mkKernel ({[ fd ]} ∪ fds k) (fd_limit k) (backlog k))
  | [] => None
  end.
Definition close_fd (fd : Z) (k : kernel) : kernel := mkKernel (fds k ∖ {[ fd ]}) (fd_limit k) (backlog k).

(** [open("/dev/null")] *)
Definition sys_open (k : kernel) : Z * kernel := default (-1, k) (open_fd k).

(** [accept4]: a descriptor is reserved first, then a connection is taken.
    [fault] is an error the network or a signal causes. *)
Definition sys_accept (fault : option Z) (k : kernel) : accept_result * kernel :=
  match open_fd k with
  | None => (AcceptError EMFILE, k)
  | Some (fd, k') =>
      match fault, backlog k with
      | Some e, _ => (AcceptError e, k)
      | None, [] => (AcceptError EAGAIN, k)
      | None, peer :: rest => (Accepted fd peer, mkKernel (fds k') (fd_limit k) rest)
      end
  end.

(** ** The acceptor *)

Record Acceptor := mkAcceptor {
  acceptSocket_ : Z;
  acceptChannel_ : Channel.Channel;
  newConnectionCallback_ : bool;
  listenning_ : bool;
  idleFd_ : Z }.

(** [sock] is the new socket, [bind_ret] what [bind] returns. *)
Definition new_acceptor (sock bind_ret : Z) (k : kernel) : outcome (Acceptor * kernel) :=
  acceptSocket ← createNonblockingOrDie sock;
  let '(idleFd, k) := sys_open k in
  assert_ (0 <=? idleFd);;
  bindOrDie bind_ret;;
  Ok (mkAcceptor acceptSocket (Channel.new_channel acceptSocket) false false idleFd, k).

Definition update (x : Channel.change) (a : Acceptor) : Acceptor :=
  let ch := acceptChannel_ a in
  mkAcceptor (acceptSocket_ a)
    (Channel.set_added true (Channel.with_events (Channel.apply_change x (Channel.events_ ch)) ch))
    (newConnectionCallback_ a) (listenning_ a) (idleFd_ a).

Definition set_listenning (a : Acceptor) : Acceptor :=
  mkAcceptor (acceptSocket_ a) (acceptChannel_ a) (newConnectionCallback_ a) true (idleFd_ a).
Definition set_idleFd (fd : Z) (a : Acceptor) : Acceptor :=
  mkAcceptor (acceptSocket_ a) (acceptChannel_ a) (newConnectionCallback_ a) (listenning_ a) fd.
Definition setNewConnectionCallback (a : Acceptor) : Acceptor :=
  mkAcceptor (acceptSocket_ a) (acceptChannel_ a) true (listenning_ a) (idleFd_ a).

Definition listen (listen_ret : Z) (a : Acceptor) : outcome Acceptor :=
  let a := set_listenning a in
  listenOrDie listen_ret;;
  Ok (update Channel.enableReading a).

(** The connections handed to the callback: descriptor and peer address. *)
Definition handleRead (fault : option Z) (a : Acceptor) (k : kernel) :
    outcome (Acceptor * kernel * list (Z * list byte)) :=
  let '(r, k) := sys_accept fault k in
  x ← Socket_accept r (replicate 28 Byte.x00);
  let '(connfd, peerAddr, errno) := x in
  if 0 <=? connfd then
    if newConnectionCallback_ a then Ok (a, k, [(connfd, peerAddr)])
    else Ok (a, close_fd connfd k, [])
  else if errno =? EMFILE then
    let k := close_fd (idleFd_ a) k in
    let '(r, k) := sys_accept None k in
    let idleFd := match r with Accepted fd _ => fd | AcceptError _ => -1 end in
    let k := close_fd idleFd k in
    let '(idleFd, k) := sys_open k in
    Ok (set_idleFd idleFd a, k, [])
  else Ok (a, k, []).

(** [~Acceptor] *)
Definition destroy (a : Acceptor) (k : kernel) : outcome (Acceptor * kernel) :=
  let a := update Channel.disableAll a in
  assert_ (Channel.isNoneEvent (acceptChannel_ a));;
  Ok (a, close_fd (acceptSocket_ a) (close_fd (idleFd_ a) k)).

(** ** Lemmas *)

Lemma free_fds_elem fd k : fd ∈ free_fds k <-> fd ∉ fds k /\ 0 <= fd < fd_limit k.
Proof. unfold free_fds. rewrite list_elem_of_filter, elem_of_seqZ, Z.add_0_l. tauto. Qed.

Lemma free_fds_none k : free_fds k = [] <-> forall fd, 0 <= fd < fd_limit k -> fd ∈ fds k.
Proof.
  split.
  - intros E fd Hfd. destruct (decide (fd ∈ fds k)) as [|Hn]; [done|].
    assert (fd ∈ free_fds k) as H by by apply free_fds_elem. by rewrite E, elem_of_nil in H.
  - intros Hall. destruct (free_fds k) as [|fd l] eqn:E; [done|]. exfalso.
    assert (fd ∈ free_fds k) as [Hn Hr]%free_fds_elem by (rewrite E; left). by apply Hn, Hall.
Qed.

(** When one descriptor of a full table is closed, it is the one that is used next. *)
Lemma reuse_closed fd k :
  free_fds k = [] -> fd ∈ fds k -> 0 <= fd < fd_limit k -> exists l, free_fds (close_fd fd k) = fd :: l.
Proof.
  intros Hf Hin Hr. rewrite free_fds_none in Hf.
  destruct (free_fds (close_fd fd k)) as [|x l] eqn:E.
  - exfalso. pose proof (proj1 (free_fds_none _) E fd Hr) as Hx. cbn in Hx. set_solver.
  - exists l. f_equal. assert (x ∈ free_fds (close_fd fd k)) as [Hx Hxr]%free_fds_elem by (rewrite E; left).
    cbn in Hx, Hxr. specialize (Hf x Hxr). destruct (decide (x = fd)); [done|set_solver].
Qed.

(** The acceptor keeps a descriptor in reserve. *)
Definition reserve (a : Acceptor) (k : kernel) : Prop := idleFd_ a ∈ fds k /\ 0 <= idleFd_ a < fd_limit k.

(** The address object [peerAddr] after [accept]. *)
Definition peer_memory (peer : list byte) : list byte := peer ++ zdrop (zlen peer) (replicate 28 Byte.x00).

Lemma Socket_accept_ok fd peer old :
  0 <= fd -> zlen peer <= 28 -> Socket_accept (Accepted fd peer) old = Ok (fd, peer_memory peer, 0).
Proof.
  intros Hfd Hp. unfold Socket_accept, accept, store. rewrite zstore_Ok; [|lia|by rewrite zlen_replicate].
  bind_simpl. rewrite ztake_0. cbn [app]. by rewrite (proj2 (Z.leb_le 0 fd)).
Qed.

(** Whenever a connection waits, [handleRead] takes exactly one off the
    queue, so a level-triggered loop does not spin.  If a descriptor is free the
    connection is handed to the callback with a descriptor that was not in use,
    or closed when there is no callback.  If the process is out of descriptors
    the connection is dropped through the reserve.  Either way no descriptor
    leaks and the reserve is kept, so this holds again for the next event. *)
Theorem handleRead_takes_one a k peer rest :
  reserve a k -> backlog k = peer :: rest -> zlen peer <= sizeof_sockaddr_in6 ->
  exists a' k' conns, handleRead None a k = Ok (a', k', conns) /\
    backlog k' = rest /\ reserve a' k' /\ newConnectionCallback_ a' = newConnectionCallback_ a /\
    acceptChannel_ a' = acceptChannel_ a /\
    match free_fds k with
    | fd :: _ => fd ∉ fds k /\ 0 <= fd < fd_limit k /\
        if newConnectionCallback_ a then conns = [(fd, peer_memory peer)] /\ fds k' = {[ fd ]} ∪ fds k
        else conns = [] /\ fds k' = fds k
    | [] => conns = [] /\ fds k' = fds k
    end.
Proof.
  intros [Hin Hr] Hb Hp. unfold handleRead, sys_accept, open_fd. destruct (free_fds k) as [|fd l] eqn:Ef.
  - cbn. destruct (reuse_closed (idleFd_ a) k Ef Hin Hr) as [l1 E1]. rewrite E1, Hb. cbn.
    assert (free_fds (close_fd (idleFd_ a) (mkKernel ({[idleFd_ a]} ∪ fds k ∖ {[idleFd_ a]}) (fd_limit k) rest)) =
            idleFd_ a :: l1) as E2.
    { rewrite <- E1. unfold free_fds, close_fd. cbn. f_equal. apply list_filter_iff. intros x. set_solver. }
    unfold sys_open, open_fd. rewrite E2. cbn. eexists _, _, _. split; [done|]. cbn.
    assert ({[idleFd_ a]} ∪ ({[idleFd_ a]} ∪ fds k ∖ {[idleFd_ a]}) ∖ {[idleFd_ a]} = fds k) as ->.
    { apply leibniz_equiv. intros x. destruct (decide (x = idleFd_ a)); set_solver. }
    by split_and!.
  - assert (fd ∈ free_fds k) as [Hn Hfr]%free_fds_elem by (rewrite Ef; left).
    rewrite Hb. cbv beta iota zeta. rewrite Socket_accept_ok by (unfold sizeof_sockaddr_in6 in Hp; lia). bind_simpl.
    rewrite (proj2 (Z.leb_le 0 fd)) by lia. destruct (newConnectionCallback_ a) eqn:Ec.
    + eexists _, _, _. split; [done|]. unfold reserve. cbn. split_and!; try done; [set_solver|lia..].
    + eexists _, _, _. split; [done|]. unfold reserve. cbn.
      assert (({[fd]} ∪ fds k) ∖ {[fd]} = fds k) as -> by (apply leibniz_equiv; set_solver).
      split_and!; try done; lia.
Qed.

(** Errors that are expected of [accept] change nothing. *)
Lemma handleRead_fault e a k :
  free_fds k <> [] -> e ∈ [EAGAIN; ECONNABORTED; EINTR; EPROTO; EPERM] -> handleRead (Some e) a k = Ok (a, k, []).
Proof.
  intros Hf He. unfold handleRead, sys_accept, open_fd. destruct (free_fds k); [done|].
  by repeat (apply elem_of_cons in He as [->|He]; [done|]); apply elem_of_nil in He.
Qed.

(** ** Witness: a process that may have four descriptors and has them all *)
Definition full_kernel : kernel := mkKernel {[ 0; 1; 2; 3 ]} 4 [[Byte.x02; Byte.x00]; [Byte.x0a; Byte.x00]].
Definition full_acceptor : Acceptor := mkAcceptor 2 (Channel.new_channel 2) true true 3.

Lemma handleRead_takes_one_witness :
  exists a' k' conns, handleRead None full_acceptor full_kernel = Ok (a', k', conns) /\
    backlog k' = [[Byte.x0a; Byte.x00]] /\ conns = [] /\ fds k' = fds full_kernel.
Proof.
  destruct (handleRead_takes_one full_acceptor full_kernel [Byte.x02; Byte.x00] [[Byte.x0a; Byte.x00]])
    as (a' & k' & conns & E & Hb & _ & _ & _ & H).
  - split; [by apply (bool_decide_unpack (3 ∈ fds full_kernel)); vm_compute|cbn; lia].
  - reflexivity.
  - vm_compute. discriminate.
  - exists a', k', conns. split; [exact E|]. split; [exact Hb|]. exact H.
Defined.
End Acceptor.
