(* ===== verification/Connector.v ===== *)
(** * Connecting with back-off ([src/net/Connector.h], [Connector.cpp])

    The connector with the parts of its event loop that it uses: the functors it
    queues, its retry timers, and the operations its channels tell the poller.
    Sockets are numbered in the order in which they are created.  Calls from
    other threads are their two halves, writing [connect_] and queueing. *)

From S2P Require Import Prelude Channel SocketsOps.

Module Connector.
Import SocketsOps.

Inductive States := kDisconnected | kConnecting | kConnected.
#[global] Instance States_eq_dec : EqDecision States.
Proof. solve_decision. Defined.

Definition kMaxRetryDelayMs : Z := (30 * 1000)%int.
Definition kInitRetryDelayMs : Z := 500.

(** [std::bind(&Connector::startInLoop, this)] and so on *)
Inductive functor := FStartInLoop | FStopInLoop | FResetChannel.
#[global] Instance functor_eq_dec : EqDecision functor.
Proof. solve_decision. Defined.

Record Connector := mkConnector {
  connect_ : bool;
  state_ : States;
  (** the channel and the number of its socket *)
  channel_ : option (Channel.Channel * nat);
  retryDelayMs_ : Z;
  functors : list functor;
  (** delays of the retry timers that have not fired *)
  timers : list Z;
  (** history: sockets created, closed, handed to the callback; delays of the
      retries since the last [restart]; calls of [stop] between their halves *)
  created : nat;
  closed : list nat;
  delivered : list nat;
  delays : list Z;
  stopping : nat }.

Definition new_connector : Connector := mkConnector false kDisconnected None kInitRetryDelayMs [] [] 0 [] [] [] 0.

Definition setState (s : States) (c : Connector) : Connector :=
  mkConnector (connect_ c) s (channel_ c) (retryDelayMs_ c) (functors c) (timers c) (created c) (closed c) (delivered c) (delays c) (stopping c).
Definition set_connect (b : bool) (c : Connector) : Connector :=
  mkConnector b (state_ c) (channel_ c) (retryDelayMs_ c) (functors c) (timers c) (created c) (closed c) (delivered c) (delays c) (stopping c).
Definition set_channel (ch : option (Channel.Channel * nat)) (c : Connector) : Connector :=
  mkConnector (connect_ c) (state_ c) ch (retryDelayMs_ c) (functors c) (timers c) (created c) (closed c) (delivered c) (delays c) (stopping c).
Definition set_retry (ms : Z) (ds : list Z) (c : Connector) : Connector :=
  mkConnector (connect_ c) (state_ c) (channel_ c) ms (functors c) (timers c) (created c) (closed c) (delivered c) ds (stopping c).
Definition set_functors (fs : list functor) (c : Connector) : Connector :=
  mkConnector (connect_ c) (state_ c) (channel_ c) (retryDelayMs_ c) fs (timers c) (created c) (closed c) (delivered c) (delays c) (stopping c).
Definition set_timers (ts : list Z) (c : Connector) : Connector :=
  mkConnector (connect_ c) (state_ c) (channel_ c) (retryDelayMs_ c) (functors c) ts (created c) (closed c) (delivered c) (delays c) (stopping c).
Definition set_sockets (n : nat) (cl dl : list nat) (c : Connector) : Connector :=
  mkConnector (connect_ c) (state_ c) (channel_ c) (retryDelayMs_ c) (functors c) (timers c) n cl dl (delays c) (stopping c).
Definition set_stopping (n : nat) (c : Connector) : Connector :=
  mkConnector (connect_ c) (state_ c) (channel_ c) (retryDelayMs_ c) (functors c) (timers c) (created c) (closed c) (delivered c) (delays c) n.

Definition queueInLoop (f : functor) (c : Connector) : Connector := set_functors (functors c ++ [f]) c.
Definition sockets_close (sock : nat) (c : Connector) : Connector :=
  set_sockets (created c) (closed c ++ [sock]) (delivered c) c.
Definition newConnectionCallback_ (sock : nat) (c : Connector) : Connector :=
  set_sockets (created c) (closed c) (delivered c ++ [sock]) c.

(** ** Operations *)

Definition retry (sock : nat) (c : Connector) : Connector :=
  let c := setState kDisconnected (sockets_close sock c) in
  if connect_ c then
    let c := set_timers (timers c ++ [retryDelayMs_ c]) c in
    set_retry (Z.min (retryDelayMs_ c * 2)%int kMaxRetryDelayMs) (delays c ++ [retryDelayMs_ c]) c
  else c.

(** [channel_->enableWriting()] and the like *)
Definition update (x : Channel.change) (ch : Channel.Channel) : Channel.Channel :=
  Channel.set_added true (Channel.with_events (Channel.apply_change x (Channel.events_ ch)) ch).

Definition connecting (fd : Z) (sock : nat) (c : Connector) : outcome Connector :=
  let c := setState kConnecting c in
  assert_ (bool_decide (channel_ c = None));;
  Ok (set_channel (Some (update Channel.enableWriting (Channel.new_channel fd), sock)) c).

Definition EACCES : Z := 13.
Definition EAFNOSUPPORT : Z := 97.
Definition EADDRINUSE : Z := 98.
Definition EADDRNOTAVAIL : Z := 99.
Definition ENETUNREACH : Z := 101.
Definition EISCONN : Z := 106.
Definition ECONNREFUSED : Z := 111.
Definition EALREADY : Z := 114.
Definition EINPROGRESS : Z := 115.

(** What the kernel says to [socket] and to [connect] ([0] or the error). *)
Record attempt := mkAttempt { socket_ret : Z; connect_errno : Z }.

Definition connect (a : attempt) (c : Connector) : outcome Connector :=
  sockfd ← createNonblockingOrDie (socket_ret a);
  let sock := created c in
  let c := set_sockets (S sock) (closed c) (delivered c) c in
  let savedErrno := connect_errno a in
  if bool_decide (savedErrno ∈ [0; EINPROGRESS; EINTR; EISCONN]) then connecting sockfd sock c
  else if bool_decide (savedErrno ∈ [EAGAIN; EADDRINUSE; EADDRNOTAVAIL; ECONNREFUSED; ENETUNREACH]) then Ok (retry sock c)
  else if bool_decide (savedErrno ∈ [EACCES; EPERM; EAFNOSUPPORT; EALREADY; EBADF; EFAULT; ENOTSOCK]) then Ok (sockets_close sock c)
  else Ok (sockets_close sock c).

Definition startInLoop (a : attempt) (c : Connector) : outcome Connector :=
  assert_ (bool_decide (state_ c = kDisconnected));;
  if connect_ c then connect a c else Ok c.

(** [start] in the loop's thread, and its second half in another thread. *)
Definition start_here (a : attempt) (c : Connector) : outcome Connector := startInLoop a (set_connect true c).
Definition start_there (c : Connector) : Connector := queueInLoop FStartInLoop c.

Definition stop_first (c : Connector) : Connector := set_stopping (S (stopping c)) (set_connect false c).
Definition stop_second (c : Connector) : Connector := queueInLoop FStopInLoop (set_stopping (pred (stopping c)) c).

(** [channel_->remove()] asserts that nothing is watched. *)
Definition removeAndResetChannel (c : Connector) : outcome (nat * Connector) :=
  match channel_ c with
  | Some (ch, sock) =>
      let ch := update Channel.disableAll ch in
      assert_ (Channel.isNoneEvent ch);;
      let ch := Channel.set_added false ch in
      Ok (sock, queueInLoop FResetChannel (set_channel (Some (ch, sock)) c))
  | None => Err OutOfBounds
  end.

Definition resetChannel (c : Connector) : Connector := set_channel None c.

Definition stopInLoop (c : Connector) : outcome Connector :=
  if bool_decide (state_ c = kConnecting) then
    x ← removeAndResetChannel (setState kDisconnected c);
    let '(sock, c) := x in Ok (retry sock c)
  else Ok c.

Definition restart (a : attempt) (c : Connector) : outcome Connector :=
  let c := setState kDisconnected c in
  let c := set_retry kInitRetryDelayMs [] c in
  startInLoop a (set_connect true c).

(** What the kernel says to [getsockopt(SO_ERROR)], [getsockname], [getpeername]. *)
Record socket_info := mkInfo { so_error : Z + Z; sockname : option (list byte); peername : option (list byte) }.

Definition handleWrite (i : socket_info) (c : Connector) : outcome Connector :=
  if bool_decide (state_ c = kConnecting) then
    x ← removeAndResetChannel c;
    let '(sock, c) := x in
    let err := getSocketError (so_error i) in
    if negb (err =? 0) then Ok (retry sock c)
    else
      self ← isSelfConnect (sockname i) (peername i);
      if (self : bool) then Ok (retry sock c)
      else
        let c := setState kConnected c in
        Ok (if connect_ c then newConnectionCallback_ sock c else sockets_close sock c)
  else assert_ (bool_decide (state_ c = kDisconnected));; Ok c.

Definition handleError (i : socket_info) (c : Connector) : outcome Connector :=
  if bool_decide (state_ c = kConnecting) then
    x ← removeAndResetChannel c;
    let '(sock, c) := x in Ok (retry sock c)
  else Ok c.

(** [~Connector] *)
Definition destroy (c : Connector) : outcome unit := assert_ (bool_decide (channel_ c = None)).

(** ** Histories *)

Definition connector_callbacks : Channel.installed := Channel.mkInstalled false true false true.

Fixpoint dispatch (cbs : list Channel.callback) (i : socket_info) (c : Connector) : outcome Connector :=
  match cbs with
  | [] => Ok c
  | Channel.ErrorCallback :: cbs' => c ← handleError i c; dispatch cbs' i c
  | Channel.WriteCallback :: cbs' => c ← handleWrite i c; dispatch cbs' i c
  | _ :: cbs' => dispatch cbs' i c
  end.

Inductive event :=
  | StartHere (a : attempt)
  | SetConnect              (** [start] from another thread, first half *)
  | StartThere              (** and second half *)
  | StopFirst
  | StopSecond
  | Restart (a : attempt)
  | RunFunctor (a : attempt) (** the loop runs the functor that is first in the queue *)
  | TimerFires (a : attempt)
  | Io (revents : Z) (i : socket_info).

Definition run_functor (f : functor) (a : attempt) (c : Connector) : outcome Connector :=
  match f with
  | FStartInLoop => startInLoop a c
  | FStopInLoop => stopInLoop c
  | FResetChannel => Ok (resetChannel c)
  end.

Definition connector_step (e : event) (c : Connector) : outcome Connector :=
  match e with
  | StartHere a => start_here a c
  | SetConnect => Ok (set_connect true c)
  | StartThere => Ok (start_there c)
  | StopFirst => Ok (stop_first c)
  | StopSecond => Ok (stop_second c)
  | Restart a => restart a c
  | RunFunctor a =>
      match functors c with
      | f :: fs => run_functor f a (set_functors fs c)
      | [] => Ok c
      end
  | TimerFires a =>
      match timers c with
      | _ :: ts => startInLoop a (set_timers ts c)
      | [] => Ok c
      end
  | Io revents i =>
      match channel_ c with
      | Some (ch, _) => dispatch (Channel.handleEventWithGuard connector_callbacks (Channel.set_revents revents ch)) i c
      | None => Ok c
      end
  end.

Fixpoint connector_run (es : list event) (c : Connector) : outcome Connector :=
  match es with
  | [] => Ok c
  | e :: es' => c ← connector_step e c; connector_run es' c
  end.

(** ** The protocol

    [start] is called when the connector is idle and [restart] when it has
    handed a connection over.  A retry timer is at least half a second away, and
    the loop runs the functors of a round before the next: it does not fire
    before [resetChannel] has run.  The poller reports only channels that are
    registered. *)

Definition queued (f : functor) (c : Connector) : nat := length (filter (fun x => x = f) (functors c)).

Definition idle (c : Connector) : Prop :=
  state_ c = kDisconnected /\ channel_ c = None /\ queued FStartInLoop c = 0%nat /\ timers c = [].

Definition address_ok (a : option (list byte)) : Prop := forall l, a = Some l -> zlen l <= sizeof_sockaddr_in6.

Definition valid_event (e : event) (c : Connector) : Prop :=
  match e with
  | StartHere a => idle c /\ 0 <= socket_ret a
  | SetConnect | StopFirst => True
  | StartThere => idle c
  | StopSecond => (0 < stopping c)%nat
  | Restart a => state_ c = kConnected /\ channel_ c = None /\ 0 <= socket_ret a
  | RunFunctor a => 0 <= socket_ret a
  | TimerFires a => queued FResetChannel c = 0%nat /\ 0 <= socket_ret a
  | Io _ i => state_ c = kConnecting /\ address_ok (sockname i) /\ address_ok (peername i)
  end.

Fixpoint valid_events (es : list event) (c : Connector) : Prop :=
  match es with
  | [] => True
  | e :: es' => valid_event e c /\ forall c', connector_step e c = Ok c' -> valid_events es' c'
  end.

(** ** The invariant *)

Definition backoff (k : nat) : Z := Z.min (500 * 2 ^ Z.of_nat k) 30000.

(** The channel when no connection is being made: gone, or about to go. *)
Definition released (c : Connector) : Prop :=
  channel_ c = None /\ queued FResetChannel c = 0%nat \/
  (exists ch sock, channel_ c = Some (ch, sock) /\ Channel.events_ ch = 0) /\
    queued FResetChannel c = 1%nat /\ queued FStartInLoop c = 0%nat.

Definition starts (c : Connector) : nat := (queued FStartInLoop c + length (timers c))%nat.

Definition shape (c : Connector) : Prop :=
  match state_ c with
  | kConnecting =>
      (exists ch sock, channel_ c = Some (ch, sock) /\ Channel.events_ ch = Channel.kWriteEvent) /\
      queued FResetChannel c = 0%nat /\ starts c = 0%nat
  | kDisconnected => released c /\ (starts c <= 1)%nat
  | kConnected => released c /\ starts c = 0%nat
  end.

(** The socket of the attempt in progress. *)
Definition current (c : Connector) : list nat :=
  match state_ c, channel_ c with kConnecting, Some (_, sock) => [sock] | _, _ => [] end.

Definition sockets (c : Connector) (rest : list nat) : Prop :=
  seq 0 (created c) ≡ₚ closed c ++ delivered c ++ rest.

Definition delays_ok (c : Connector) : Prop :=
  delays c = backoff <$> seq 0 (length (delays c)) /\ retryDelayMs_ c = backoff (length (delays c)).

Definition core (c : Connector) : Prop := shape c /\ sockets c (current c) /\ delays_ok c.

Record inv (c : Connector) : Prop := {
  i_core : core c;
  i_stop : connect_ c = false -> state_ c = kConnecting -> (0 < queued FStopInLoop c \/ 0 < stopping c)%nat }.

(** In the middle of an operation that has [sock] in its hands. *)
Record midway (sock : nat) (c : Connector) : Prop := {
  m_released : released c;
  m_starts : starts c = 0%nat;
  m_sockets : sockets c [sock];
  m_delays : delays_ok c }.

Lemma backoff_next k : Z.min (backoff k * 2)%int kMaxRetryDelayMs = backoff (S k).
Proof.
  unfold backoff, kMaxRetryDelayMs. change (30 * 1000)%int with 30000.
  assert (1 <= 2 ^ Z.of_nat k) by (apply (Z.pow_le_mono_r 2 0); lia).
  rewrite i32_small by lia. rewrite Nat2Z.inj_succ, Z.pow_succ_r by lia. lia.
Qed.

Lemma sockets_move sock c cl dl :
  sockets c [sock] -> cl ++ dl ≡ₚ sock :: closed c ++ delivered c -> sockets (set_sockets (created c) cl dl c) [].
Proof.
  unfold sockets. cbn. intros Hs E. rewrite app_nil_r, E, Hs. solve_Permutation.
Qed.

Lemma retry_inv sock c : midway sock c -> inv (retry sock c).
Proof.
  intros [Hr Hs Hk [Hd Hms]]. assert (sockets (sockets_close sock c) []) as Hk'.
  { apply (sockets_move sock c _ _ Hk). solve_Permutation. }
  unfold retry, sockets_close. cbn. destruct (connect_ c) eqn:Ec; (split; [split_and!|]; cbn; try done).
  - split; [exact Hr|]. unfold starts in *. cbn. rewrite length_app. cbn. unfold queued in *. cbn. lia.
  - unfold delays_ok. cbn. rewrite Hms, length_app. cbn [length]. rewrite Nat.add_1_r, seq_S, fmap_app, <- Hd.
    split; [done|apply backoff_next].
  - split; [exact Hr|]. unfold starts, queued in *. cbn. lia.
Qed.

Lemma close_inv sock c :
  midway sock c -> state_ c <> kConnecting -> inv (sockets_close sock c).
Proof.
  intros [Hr Hs Hk Hd] Hst. assert (sockets (sockets_close sock c) []) as Hk'.
  { apply (sockets_move sock c _ _ Hk). solve_Permutation. }
  split; [split_and!; [|unfold current; cbn; by destruct (state_ c)|done]|by intros _ ?].
  unfold shape. cbn. destruct (state_ c); [|done|done]. split; [exact Hr|]. unfold starts, queued in *. cbn. lia.
Qed.

Lemma deliver_inv sock c :
  midway sock c -> state_ c = kConnected -> inv (newConnectionCallback_ sock c).
Proof.
  intros [Hr Hs Hk Hd] Hst. assert (sockets (newConnectionCallback_ sock c) []) as Hk'.
  { apply (sockets_move sock c _ _ Hk). solve_Permutation. }
  split; [split_and!; [|unfold current; cbn; by rewrite Hst|done]|intros _; cbn; by rewrite Hst].
  unfold shape. cbn. by rewrite Hst.
Qed.

Lemma connecting_inv fd sock c :
  midway sock c -> channel_ c = None -> connect_ c = true -> exists c', connecting fd sock c = Ok c' /\ inv c'.
Proof.
  intros [Hr Hs Hk Hd] Hch Hc. unfold connecting. rewrite assert_true by by apply bool_decide_eq_true_2. bind_simpl.
  eexists. split; [done|]. split; [split_and!; try done|].
  - unfold shape. cbn. split_and!; [by eexists _, _|..].
    + destruct Hr as [[_ Hr]|[(ch & s & E & _) _]]; [exact Hr|congruence].
    + exact Hs.
  - intros E. cbn in E. congruence.
Qed.

(** A new socket in hand. *)
Lemma socket_midway c :
  inv c -> state_ c <> kConnecting -> starts c = 0%nat ->
  midway (created c) (set_sockets (S (created c)) (closed c) (delivered c) c).
Proof.
  intros [(Hsh & Hk & Hd) _] Hst Hs. split.
  - unfold shape in Hsh. by destruct (state_ c), Hsh.
  - exact Hs.
  - unfold sockets in *. cbn [created closed delivered set_sockets]. assert (current c = []) as E by (unfold current; by destruct (state_ c)).
    rewrite E in Hk. rewrite seq_S, Hk. cbn. solve_Permutation.
  - exact Hd.
Qed.

Lemma connect_inv a c :
  inv c -> state_ c = kDisconnected -> channel_ c = None -> starts c = 0%nat -> connect_ c = true -> 0 <= socket_ret a ->
  exists c', connect a c = Ok c' /\ inv c'.
Proof.
  intros Hi Hst Hch Hs Hc Ha. unfold connect, createNonblockingOrDie, or_die.
  rewrite (proj2 (Z.ltb_ge _ 0)) by done. bind_simpl.
  assert (state_ c <> kConnecting) as Hne by congruence. pose proof (socket_midway c Hi Hne Hs) as Hm.
  repeat case_bool_decide.
  - by apply connecting_inv.
  - eexists. split; [done|]. by apply retry_inv.
  - eexists. split; [done|]. by apply close_inv.
  - eexists. split; [done|]. by apply close_inv.
Qed.

Lemma startInLoop_inv a c :
  inv c -> state_ c = kDisconnected -> channel_ c = None -> starts c = 0%nat -> 0 <= socket_ret a ->
  exists c', startInLoop a c = Ok c' /\ inv c'.
Proof.
  intros Hi Hst Hch Hs Ha. unfold startInLoop. rewrite assert_true by by apply bool_decide_eq_true_2. bind_simpl.
  destruct (connect_ c) eqn:Ec; [by apply connect_inv|by eexists].
Qed.

Lemma queued_snoc (f g : functor) fs : length (filter (fun x => x = f) (fs ++ [g])) = (length (filter (fun x => x = f) fs) + if decide (g = f) then 1 else 0)%nat.
Proof.
  rewrite filter_app, length_app. f_equal. case_decide; [by rewrite filter_cons_True|by rewrite filter_cons_False].
Qed.

Lemma removeAndReset_midway c st :
  core c -> state_ c = kConnecting ->
  exists sock c', removeAndResetChannel (setState st c) = Ok (sock, c') /\ midway sock c' /\ state_ c' = st /\
    connect_ c' = connect_ c.
Proof.
  intros (Hsh & Hk & Hd) Hst. unfold shape in Hsh. rewrite Hst in Hsh. destruct Hsh as ((ch & sock & Hch & He) & Hr & Hs).
  unfold removeAndResetChannel. cbn. rewrite Hch. eexists sock, _. split; [done|].
  split; [|done]. split.
  - right. cbn. split_and!; [by eexists _, _|..].
    + unfold queued in *. cbn. rewrite queued_snoc, Hr. by rewrite decide_True.
    + unfold starts, queued in *. cbn. rewrite queued_snoc. rewrite decide_False by done. lia.
  - unfold starts, queued in *. cbn. rewrite queued_snoc. rewrite decide_False by done. lia.
  - unfold sockets, current in *. by rewrite Hst, Hch in Hk.
  - exact Hd.
Qed.

Lemma stopInLoop_inv c : core c -> exists c', stopInLoop c = Ok c' /\ inv c'.
Proof.
  intros Hi. unfold stopInLoop. case_bool_decide as Hst; [|eexists; split; [done|]; by split].
  destruct (removeAndReset_midway c kDisconnected Hi Hst) as (sock & c' & -> & Hm & Hs & _). bind_simpl.
  eexists. split; [done|]. by apply retry_inv.
Qed.

Lemma setState_same c : setState (state_ c) c = c.
Proof. by destruct c. Qed.

Lemma handleError_inv i c : inv c -> exists c', handleError i c = Ok c' /\ inv c' /\ state_ c' <> kConnecting /\
  (state_ c <> kConnected -> state_ c' = kDisconnected).
Proof.
  intros Hi. unfold handleError. case_bool_decide as Hst.
  - destruct (removeAndReset_midway c (state_ c) (i_core _ Hi) Hst) as (sock & c' & E & Hm & _). rewrite setState_same in E.
    rewrite E. bind_simpl. eexists. split; [done|]. split; [by apply retry_inv|]. unfold retry. cbn.
    by destruct (connect_ c').
  - eexists. split_and!; [done..|]. by destruct (state_ c).
Qed.

Lemma isSelfConnect_total l p : address_ok l -> address_ok p -> exists b, isSelfConnect l p = Ok b.
Proof.
  assert (forall a, address_ok a -> exists m, match a with
    | Some a => store 0 a (replicate (Z.to_nat sizeof_sockaddr_in6) Byte.x00)
    | None => Ok (replicate (Z.to_nat sizeof_sockaddr_in6) Byte.x00) end = Ok m) as H.
  { intros [a|] Ha; [|by eexists]. unfold store. rewrite zstore_Ok; [by eexists|lia|].
    rewrite zlen_replicate by done. rewrite Z.add_0_l. by apply Ha. }
  intros [m1 E1]%H [m2 E2]%H. unfold isSelfConnect, getLocalAddr, getPeerAddr. rewrite E1, E2. by eexists.
Qed.

Lemma handleWrite_inv i c :
  inv c -> state_ c <> kConnected -> address_ok (sockname i) -> address_ok (peername i) ->
  exists c', handleWrite i c = Ok c' /\ inv c'.
Proof.
  intros Hi Hne Hl Hp. unfold handleWrite. case_bool_decide as Hst.
  - destruct (removeAndReset_midway c (state_ c) (i_core _ Hi) Hst) as (sock & c' & E & Hm & _). rewrite setState_same in E.
    rewrite E. bind_simpl. destruct (negb _); [eexists; split; [done|by apply retry_inv]|].
    destruct (isSelfConnect_total _ _ Hl Hp) as [[] ->]; bind_simpl; [eexists; split; [done|by apply retry_inv]|].
    assert (midway sock (setState kConnected c')) as Hm' by by destruct Hm.
    eexists. split; [done|]. cbn. destruct (connect_ c'); [by apply deliver_inv|by apply close_inv].
  - rewrite assert_true; [by eexists|]. apply bool_decide_eq_true_2. by destruct (state_ c).
Qed.

Lemma dispatch_inv revents ch i c :
  inv c -> state_ c <> kConnected -> address_ok (sockname i) -> address_ok (peername i) ->
  exists c', dispatch (Channel.handleEventWithGuard connector_callbacks (Channel.set_revents revents ch)) i c = Ok c' /\ inv c'.
Proof.
  intros Hi Hne Hl Hp. unfold Channel.handleEventWithGuard. cbn [Channel.has_close Channel.has_error Channel.has_read
    Channel.has_write connector_callbacks]. rewrite !andb_false_r, !andb_true_r. cbn [app].
  assert (forall b c, inv c -> state_ c <> kConnected ->
    exists c', dispatch (if (b : bool) then [Channel.WriteCallback] else []) i c = Ok c' /\ inv c') as Hw.
  { intros [] c1 H1 H2; cbn; [|by eexists].
    destruct (handleWrite_inv i c1 H1 H2 Hl Hp) as (c2 & -> & H3). by eexists. }
  destruct (Channel.has_flag _ (Z.lor Channel.POLLERR _)); cbn [app]; [|by apply Hw].
  cbn [dispatch]. destruct (handleError_inv i c Hi) as (c1 & -> & H1 & H2 & H3). bind_simpl. apply Hw; [done|].
  by rewrite H3.
Qed.

(** Taking the first functor off the queue. *)
Lemma queued_cons (f g : functor) fs : length (filter (fun x => x = f) (g :: fs)) = ((if decide (g = f) then 1 else 0) + length (filter (fun x => x = f) fs))%nat.
Proof. case_decide; [by rewrite filter_cons_True|by rewrite filter_cons_False]. Qed.

Lemma run_functor_inv a f fs c :
  inv c -> functors c = f :: fs -> 0 <= socket_ret a -> exists c', run_functor f a (set_functors fs c) = Ok c' /\ inv c'.
Proof.
  intros Hi Ef Ha.
  assert (forall g, queued g c = ((if decide (f = g) then 1 else 0) + queued g (set_functors fs c))%nat) as Hq.
  { intros g. unfold queued. rewrite Ef. apply queued_cons. }
  pose proof (Hq FStartInLoop) as Q1. pose proof (Hq FResetChannel) as Q2. pose proof (Hq FStopInLoop) as Q3.
  destruct Hi as [(Hsh & Hk & Hd) Hst].
  destruct f; repeat (rewrite decide_True in * by done); repeat (rewrite decide_False in * by done); cbn [run_functor].
  - assert (state_ c = kDisconnected) as Es by (unfold shape, starts in Hsh; destruct (state_ c); [done|destruct Hsh as (_ & _ & ?); lia|destruct Hsh; lia]).
    unfold shape in Hsh. rewrite Es in Hsh. destruct Hsh as [[[Hn Hz]|(_ & _ & ?)] Hle]; [|lia]. unfold starts in Hle.
    apply startInLoop_inv; [split; [split_and!|]|done..| |done].
    + unfold shape. cbn [state_ set_functors]. rewrite Es. split; [left; split; [done|lia]|]. unfold starts. cbn [timers set_functors]. lia.
    + unfold sockets, current in *. cbn. by rewrite Es in *.
    + exact Hd.
    + cbn. by rewrite Es.
    + unfold starts. cbn [timers set_functors]. lia.
  - apply stopInLoop_inv. split_and!; [|done|done]. unfold shape, released, starts in *.
    cbn [state_ channel_ timers set_functors]. rewrite Nat.add_0_l in Q1, Q2. by rewrite <- Q1, <- Q2.
  - eexists. split; [done|]. assert (state_ c <> kConnecting) as Hne by (intros E; unfold shape in Hsh; rewrite E in Hsh; destruct Hsh as (_ & ? & _); lia).
    split; [split_and!|by intros _ ?].
    + assert (released (resetChannel (set_functors fs c))) as Hrel.
      { left. split; [done|]. unfold shape, released in Hsh. unfold queued in *. cbn in *.
        destruct (state_ c); [|done|]; destruct Hsh as [[[_ ?]|(_ & ? & _)] _]; lia. }
      unfold shape, starts in *. rewrite Nat.add_0_l in Q1. rewrite Q1 in Hsh. cbn [state_ resetChannel set_channel set_functors].
      destruct (state_ c); [|done|]; by split; [|apply Hsh].
    + unfold sockets, current in *. cbn. by destruct (state_ c).
    + exact Hd.
Qed.

(** States that differ in what the invariant does not look at. *)
Lemma core_change c c' :
  core c -> state_ c' = state_ c -> channel_ c' = channel_ c -> released c' \/ state_ c = kConnecting ->
  queued FResetChannel c' = queued FResetChannel c -> (starts c' <= starts c \/ state_ c = kDisconnected /\ starts c' <= 1)%nat ->
  created c' = created c -> closed c' = closed c -> delivered c' = delivered c -> delays c' = delays c ->
  retryDelayMs_ c' = retryDelayMs_ c -> core c'.
Proof.
  intros (Hsh & Hk & Hd) E1 E2 Hrel Eq Hst E3 E4 E5 E6 E7. split_and!.
  - unfold shape in *. rewrite E1, E2, Eq. destruct (state_ c).
    + destruct Hrel as [?|?]; [|done]. split; [done|]. destruct Hsh. lia.
    + destruct Hsh as (H1 & H2 & H3). split_and!; [done..|]. destruct Hst as [?|[? _]]; [lia|done].
    + destruct Hrel as [?|?]; [|done]. split; [done|]. destruct Hsh. destruct Hst as [?|[? _]]; [lia|done].
  - unfold sockets, current in *. by rewrite E1, E2, E3, E4, E5.
  - unfold delays_ok in *. by rewrite E6, E7.
Qed.

Lemma core_released c : core c -> released c \/ state_ c = kConnecting.
Proof. intros (Hsh & _). unfold shape in Hsh. destruct (state_ c); [left; apply Hsh|by right|left; apply Hsh]. Qed.

Lemma set_connect_core b c : core c -> core (set_connect b c).
Proof. intros Hc. apply (core_change c); try done; [exact (core_released c Hc)|by left]. Qed.

Lemma idle_starts c : idle c -> starts c = 0%nat.
Proof. intros (_ & _ & Hq & Ht). unfold starts. by rewrite Hq, Ht. Qed.

Lemma start_here_inv a c : inv c -> idle c -> 0 <= socket_ret a -> exists c', start_here a c = Ok c' /\ inv c'.
Proof.
  intros [Hc _] Hi Ha. pose proof (idle_starts c Hi). destruct Hi as (Hs & Hch & _).
  by apply startInLoop_inv.
Qed.

Lemma queue_core f c :
  core c -> (f = FStopInLoop \/ f = FStartInLoop /\ idle c) -> core (queueInLoop f c).
Proof.
  intros Hc Hf. assert (forall g, queued g (queueInLoop f c) = (queued g c + if decide (f = g) then 1 else 0)%nat) as Hq.
  { intros g. apply queued_snoc. }
  apply (core_change c); try done; [| |].
  - destruct (core_released c Hc) as [Hr|?]; [left|by right]. unfold released in *. rewrite !Hq. cbn [channel_ queueInLoop set_functors].
    destruct Hf as [->|[-> (_ & Hn & _)]]; [by rewrite !decide_False, !Nat.add_0_r by done|].
    left. rewrite decide_False, Nat.add_0_r by done. split; [done|]. destruct Hr as [[_ ?]|[(? & ? & E & _) _]]; [done|congruence].
  - rewrite Hq. destruct Hf as [->|[-> _]]; rewrite decide_False by done; lia.
  - destruct Hf as [->|[-> Hi]]; unfold starts; rewrite Hq; cbn [timers queueInLoop set_functors].
    + left. rewrite decide_False by done. lia.
    + right. pose proof (idle_starts c Hi) as Hz. unfold starts in Hz. destruct Hi as (? & _). split; [done|].
      rewrite decide_True by done. lia.
Qed.

Lemma stop_second_inv c : inv c -> inv (stop_second c).
Proof.
  intros [Hc _]. split.
  - apply queue_core; [|by left]. apply (core_change c); try done; [exact (core_released c Hc)|by left].
  - intros _ _. left. unfold stop_second, queued. cbn [functors queueInLoop set_functors set_stopping].
    rewrite queued_snoc, decide_True by done. lia.
Qed.

Lemma restart_inv a c :
  inv c -> state_ c = kConnected -> channel_ c = None -> 0 <= socket_ret a -> exists c', restart a c = Ok c' /\ inv c'.
Proof.
  intros [(Hsh & Hk & Hd) _] Hst Hch Ha. unfold shape in Hsh. rewrite Hst in Hsh. destruct Hsh as [Hr Hs].
  apply startInLoop_inv; try done. split; [split_and!|done].
  - split; [exact Hr|]. unfold starts, queued in *. cbn. lia.
  - unfold sockets, current in *. by rewrite Hst in Hk.
  - done.
Qed.

Lemma timer_inv a d ts c :
  inv c -> timers c = d :: ts -> queued FResetChannel c = 0%nat -> 0 <= socket_ret a ->
  exists c', startInLoop a (set_timers ts c) = Ok c' /\ inv c'.
Proof.
  intros [Hc _] Et Hq Ha. pose proof Hc as (Hsh & _ & _). unfold shape, starts in Hsh. rewrite Et in Hsh. cbn [length] in Hsh.
  destruct (state_ c) eqn:Es; [|destruct Hsh as (_ & _ & ?); lia|destruct Hsh; lia].
  destruct Hsh as [[[Hn _]|(_ & ? & _)] Hle]; [|lia].
  assert (starts (set_timers ts c) = 0)%nat as Hz by (unfold starts, queued in *; cbn; lia).
  apply startInLoop_inv; try done. split; [|by cbn; rewrite Es].
  apply (core_change c); try done; [by left; left|]. left. rewrite Hz. lia.
Qed.

Lemma connector_step_inv e c : inv c -> valid_event e c -> exists c', connector_step e c = Ok c' /\ inv c'.
Proof.
  intros Hi Hv. destruct e as [a| | | | |a|a|a|revents i]; cbn [valid_event] in Hv; cbn [connector_step].
  - destruct Hv. by apply start_here_inv.
  - eexists. split; [done|]. split; [by apply set_connect_core, Hi|done].
  - eexists. split; [done|]. split; [by apply queue_core; [apply Hi|right]|]. intros _ E. destruct Hv as (Es & _).
    cbn in E. congruence.
  - eexists. split; [done|]. split; [|right; cbn; lia].
    apply (core_change c); try done; [apply Hi|exact (core_released c (i_core _ Hi))|by left].
  - eexists. split; [done|]. by apply stop_second_inv.
  - destruct Hv as (? & ? & ?). by apply restart_inv.
  - destruct (functors c) as [|f fs] eqn:Ef; [by eexists|]. by apply run_functor_inv.
  - destruct (timers c) as [|d ts] eqn:Et; [by eexists|]. destruct Hv. by eapply timer_inv.
  - destruct Hv as (Es & Hl & Hp). destruct (channel_ c) as [[ch sock]|]; [|by eexists].
    apply dispatch_inv; try done. congruence.
Qed.

Lemma connector_run_inv es c : inv c -> valid_events es c -> exists c', connector_run es c = Ok c' /\ inv c'.
Proof.
  revert c. induction es as [|e es IH]; intros c Hi Hv; [by eexists|]. destruct Hv as [He Hes].
  destruct (connector_step_inv e c Hi He) as (c1 & E & H1). cbn [connector_run]. rewrite E. bind_simpl.
  apply IH; [done|]. by apply Hes.
Qed.

Lemma new_connector_inv : inv new_connector.
Proof. split; [|done]. split_and!; [split; [by left|unfold starts; cbn; lia]|constructor|by split]. Qed.

(** ** After [stop] *)

(** Steps that leave [connect_] as it is and hand out no connection. *)
Record quiet (c c' : Connector) : Prop := {
  q_connect : connect_ c' = connect_ c;
  q_delivered : delivered c' = delivered c;
  q_created : created c' = created c }.

#[local] Instance quiet_refl : Reflexive quiet.
Proof. by split. Qed.
#[local] Instance quiet_trans : Transitive quiet.
Proof. intros a b c [A1 A2 A3] [B1 B2 B3]. split; congruence. Qed.

Lemma retry_quiet sock c : quiet c (retry sock c).
Proof. unfold retry. cbn. by destruct (connect_ c). Qed.

Lemma removeAndReset_quiet c sock c' : removeAndResetChannel c = Ok (sock, c') -> quiet c c'.
Proof. unfold removeAndResetChannel. destruct (channel_ c) as [[ch s]|]; [|done]. cbn. intros [= _ <-]. done. Qed.

Lemma startInLoop_quiet a c c' : connect_ c = false -> startInLoop a c = Ok c' -> quiet c c'.
Proof. intros Hc. unfold startInLoop. rewrite Hc. intros E. by outcome_inv E. Qed.

Lemma stopInLoop_quiet c c' : stopInLoop c = Ok c' -> quiet c c'.
Proof.
  unfold stopInLoop. case_bool_decide; [|by intros [= <-]]. intros E. outcome_inv E. destruct a as [sock c1].
  injection E as <-. etrans; [|apply retry_quiet]. by apply removeAndReset_quiet in Ha as [].
Qed.

Lemma handleError_quiet i c c' : handleError i c = Ok c' -> quiet c c'.
Proof.
  unfold handleError. case_bool_decide; [|by intros [= <-]]. intros E. outcome_inv E. destruct a as [sock c1].
  injection E as <-. etrans; [by eapply removeAndReset_quiet|apply retry_quiet].
Qed.

Lemma handleWrite_quiet i c c' : connect_ c = false -> handleWrite i c = Ok c' -> quiet c c'.
Proof.
  intros Hc. unfold handleWrite. case_bool_decide; [|intros E; by outcome_inv E]. intros E.
  apply bind_Ok in E as ([sock c1] & E1 & E). apply removeAndReset_quiet in E1. etrans; [done|].
  destruct (negb _); [injection E as <-; apply retry_quiet|]. apply bind_Ok in E as ([] & _ & E);
    injection E as <-; [apply retry_quiet|]. destruct E1 as [E1 _ _]. cbn. by rewrite E1, Hc.
Qed.

Lemma dispatch_quiet cbs i c c' : connect_ c = false -> dispatch cbs i c = Ok c' -> quiet c c'.
Proof.
  revert c. induction cbs as [|x cbs IH]; intros c Hc E; [by injection E as <-|].
  destruct x; cbn in E; [by apply IH| |by apply IH|]; apply bind_Ok in E as (c1 & E1 & E).
  - apply handleError_quiet in E1. etrans; [done|]. apply IH; [|done]. destruct E1. congruence.
  - apply handleWrite_quiet in E1; [|done]. etrans; [done|]. apply IH; [|done]. destruct E1. congruence.
Qed.

Definition is_start (e : event) : bool := match e with StartHere _ | SetConnect | Restart _ => true | _ => false end.

Lemma stopped_step e c c' :
  connect_ c = false -> is_start e = false -> connector_step e c = Ok c' -> quiet c c'.
Proof.
  intros Hc He E. destruct e as [a| | | | |a|a|a|revents i]; try done; cbn [connector_step] in E.
  - by injection E as <-.
  - injection E as <-. by split.
  - by injection E as <-.
  - destruct (functors c) as [|f fs]; [by injection E as <-|]. destruct f; cbn [run_functor] in E.
    + by apply startInLoop_quiet in E as [].
    + by apply stopInLoop_quiet in E as [].
    + injection E as <-. by split.
  - destruct (timers c) as [|d ts]; [by injection E as <-|]. by apply startInLoop_quiet in E as [].
  - destruct (channel_ c) as [[ch sock]|]; [by eapply dispatch_quiet|by injection E as <-].
Qed.

Lemma stopped_run es c c' :
  connect_ c = false -> Forall (fun e => is_start e = false) es -> connector_run es c = Ok c' -> quiet c c'.
Proof.
  intros Hc Hes. revert c Hc. induction Hes as [|e es He _ IH]; intros c Hc E; [by injection E as <-|].
  apply bind_Ok in E as (c1 & E1 & E). apply stopped_step in E1; [|done..]. etrans; [done|]. apply IH; [|done].
  destruct E1. congruence.
Qed.

(** C35: For every history that keeps to the protocol the connector runs without
    a failed assertion.  Every socket it created is closed, handed over or the
    one being connected, exactly one of these, and at most one is being
    connected and at most one start is pending.  The k-th retry since the last
    [restart] waits [min(500 * 2^k, 30000)] milliseconds.  Once [stop] has gone
    through the queue no attempt and no channel is left; and from then on no
    socket is created and no connection handed over until it is started again. *)
Theorem connector_correct es :
  valid_events es new_connector ->
  exists c, connector_run es new_connector = Ok c /\
    seq 0 (created c) ≡ₚ closed c ++ delivered c ++ current c /\
    (length (current c) <= 1)%nat /\ (starts c <= 1)%nat /\
    (forall k, (k < length (delays c))%nat -> delays c !! k = Some (Z.min (500 * 2 ^ Z.of_nat k) 30000)) /\
    (connect_ c = false -> stopping c = 0%nat -> functors c = [] -> current c = [] /\ destroy c = Ok tt) /\
    (connect_ c = false -> forall es' c', Forall (fun e => is_start e = false) es' -> connector_run es' c = Ok c' ->
       created c' = created c /\ delivered c' = delivered c).
Proof.
  intros Hv. destruct (connector_run_inv es _ new_connector_inv Hv) as (c & E & [(Hsh & Hk & [Hd _]) Hst]).
  exists c. split_and!; [done|done| | | | |].
  - unfold current. destruct (state_ c), (channel_ c) as [[]|]; cbn; lia.
  - unfold shape in Hsh. destruct (state_ c); [apply Hsh|destruct Hsh as (_ & _ & ->); lia|destruct Hsh as [_ ->]; lia].
  - intros k Hlt. rewrite Hd, list_lookup_fmap. rewrite lookup_seq_lt by done. done.
  - intros Hc Hz Hf. assert (state_ c <> kConnecting) as Hne.
    { intros Es. unfold queued in Hst. rewrite Hf in Hst. cbn in Hst. specialize (Hst Hc Es). lia. }
    assert (released c) as Hr by (unfold shape in Hsh; by destruct (state_ c), Hsh).
    unfold current, destroy. split; [by destruct (state_ c)|]. rewrite assert_true; [done|]. apply bool_decide_eq_true_2.
    destruct Hr as [[? _]|(_ & Hx & _)]; [done|]. unfold queued in Hx. by rewrite Hf in Hx.
  - intros Hc es' c' Hes Er. by destruct (stopped_run es' c c' Hc Hes Er).
Qed.

(** ** Witness and the protocol's limits *)

Definition refused : attempt := mkAttempt 3 ECONNREFUSED.
Definition in_progress : attempt := mkAttempt 3 EINPROGRESS.
Definition connected_info : socket_info := mkInfo (inr 0) None None.

Definition sample_history : list event :=
  [StartHere refused; TimerFires refused; TimerFires in_progress; Io Channel.POLLOUT connected_info; RunFunctor refused].

Lemma connector_correct_witness :
  exists c, connector_run sample_history new_connector = Ok c /\ delays c = [500; 1000] /\
    seq 0 (created c) ≡ₚ closed c ++ delivered c ++ current c /\ delivered c = [2%nat].
Proof.
  destruct (connector_correct sample_history) as (c & E & Hk & _).
  - cbn [valid_events sample_history].
    repeat (split; [vm_compute; repeat split; congruence|let E := fresh in intros ? E; vm_compute in E; injection E as <-]).
    exact I.
  - exists c. split; [exact E|]. vm_compute in E. injection E as <-. split; [reflexivity|]. split; [exact Hk|reflexivity].
Defined.

(** [stop] leaves the retry timer of a refused connection behind.  If the
    connector is started again before it fires, the timer finds a connection
    being made and [startInLoop]'s assertion fails. *)
Theorem stale_timer_asserts :
  connector_run [StartHere refused; StopFirst; StopSecond; RunFunctor refused; StartHere in_progress; TimerFires in_progress]
    new_connector = Err AssertFail.
Proof. reflexivity. Qed.

(** [stop] directly followed by [start] while connecting: the old channel is
    still waiting for [resetChannel] and the assertion in [connecting] fails. *)
Theorem stop_start_asserts :
  connector_run [StartHere in_progress; StopFirst; StopSecond; SetConnect; StartThere; RunFunctor in_progress; RunFunctor in_progress]
    new_connector = Err AssertFail.
Proof. reflexivity. Qed.
End Connector.
