(* ===== verification/EventLoopThread.v ===== *)
(** * Threads that run a loop ([src/net/EventLoopThread.h], [EventLoopThread.cpp],
      [EventLoopThreadPool.h], [EventLoopThreadPool.cpp])

    The thread that owns an [EventLoopThread] and the thread it starts share
    [loop_] under a mutex.  Both are program counters, the object is small, and
    what is reachable is found by exploring it.  The pool is plain code on top. *)

From S2P Require Import Prelude Decimal.

Module EventLoopThread.

(** The owner: in [startLoop], then in the destructor. *)
Inductive owner_pc :=
  | OStart                  (** before [thread_.start()] *)
  | OLock                   (** at the lock of [startLoop] *)
  | OTest                   (** holding it, at the test of [loop_] *)
  | OWaiting                (** in [cond_.wait()] *)
  | OReturned (loop : bool) (** [startLoop] returned a loop, or null *)
  | OQuit                   (** in the destructor, [loop_] was not null *)
  | OJoin
  | ODone.

(** The thread: in [threadFunc]. *)
Inductive thread_pc := TNotStarted | TCallback | TLock | TSet | TLoop | TLock2 | TClear | TExited.

Inductive holder := Nobody | Owner | Thread.

#[global] Instance owner_pc_eq_dec : EqDecision owner_pc.
Proof. solve_decision. Defined.
#[global] Instance thread_pc_eq_dec : EqDecision thread_pc.
Proof. solve_decision. Defined.
#[global] Instance holder_eq_dec : EqDecision holder.
Proof. solve_decision. Defined.

Record EventLoopThread := mkThread {
  loop_ : bool;      (** not null *)
  exiting_ : bool;
  mutex_ : holder;
  quit_ : bool;      (** [loop_->quit()] was called *)
  owner : owner_pc;
  thread : thread_pc }.

#[global] Instance EventLoopThread_eq_dec : EqDecision EventLoopThread.
Proof. solve_decision. Defined.

Definition new_thread : EventLoopThread := mkThread false false Nobody false OStart TNotStarted.

(** [startLoop], and the destructor after it. *)
Definition owner_steps (s : EventLoopThread) : list EventLoopThread :=
  match owner s with
  | OStart =>
      if decide (thread s = TNotStarted) then [mkThread (loop_ s) (exiting_ s) (mutex_ s) (quit_ s) OLock TCallback]
      else []
  | OLock => if decide (mutex_ s = Nobody) then [mkThread (loop_ s) (exiting_ s) Owner (quit_ s) OTest (thread s)] else []
  | OTest =>
      if loop_ s then [mkThread (loop_ s) (exiting_ s) Nobody (quit_ s) (OReturned (loop_ s)) (thread s)]
      else [mkThread (loop_ s) (exiting_ s) Nobody (quit_ s) OWaiting (thread s)]
  | OWaiting => [mkThread (loop_ s) (exiting_ s) (mutex_ s) (quit_ s) OLock (thread s)]
  | OReturned _ =>
      if loop_ s then [mkThread (loop_ s) true (mutex_ s) (quit_ s) OQuit (thread s)]
      else [mkThread (loop_ s) true (mutex_ s) (quit_ s) ODone (thread s)]
  | OQuit => [mkThread (loop_ s) (exiting_ s) (mutex_ s) true OJoin (thread s)]
  | OJoin => if decide (thread s = TExited) then [mkThread (loop_ s) (exiting_ s) (mutex_ s) (quit_ s) ODone (thread s)] else []
  | ODone => []
  end.

(** [threadFunc]; [ends] tells whether the loop can also end by itself. *)
Definition threadFunc (ends : bool) (s : EventLoopThread) : list EventLoopThread :=
  match thread s with
  | TNotStarted | TExited => []
  | TCallback => [mkThread (loop_ s) (exiting_ s) (mutex_ s) (quit_ s) (owner s) TLock]
  | TLock => if decide (mutex_ s = Nobody) then [mkThread (loop_ s) (exiting_ s) Thread (quit_ s) (owner s) TSet] else []
  | TSet =>
      (* cond_.notify() *)
      let owner' := if decide (owner s = OWaiting) then OLock else owner s in
      [mkThread true (exiting_ s) Nobody (quit_ s) owner' TLoop]
  | TLoop => if quit_ s || ends then [mkThread (loop_ s) (exiting_ s) (mutex_ s) (quit_ s) (owner s) TLock2] else []
  | TLock2 => if decide (mutex_ s = Nobody) then [mkThread (loop_ s) (exiting_ s) Thread (quit_ s) (owner s) TClear] else []
  | TClear => [mkThread false (exiting_ s) Nobody (quit_ s) (owner s) TExited]
  end.

(** A wakeup of the waiting owner that nobody asked for. *)
Definition is_spurious (s : EventLoopThread) : bool := bool_decide (owner s = OWaiting).
Definition progress (ends : bool) (s : EventLoopThread) : list EventLoopThread :=
  (if is_spurious s then [] else owner_steps s) ++ threadFunc ends s.
Definition steps (ends : bool) (s : EventLoopThread) : list EventLoopThread := owner_steps s ++ threadFunc ends s.
Definition step (ends : bool) (s s' : EventLoopThread) : Prop := s' ∈ steps ends s.

(** Exploring: [todo] are states to expand, [seen] those that were. *)
Fixpoint explore (ends : bool) (fuel : nat) (todo seen : list EventLoopThread) : list EventLoopThread :=
  match fuel with
  | O => seen
  | S f =>
      match todo with
      | [] => seen
      | s :: todo' =>
          if decide (s ∈ seen) then explore ends f todo' seen
          else explore ends f (steps ends s ++ todo') (s :: seen)
      end
  end.

Definition closed (ends : bool) (l : list EventLoopThread) : bool :=
  forallb (fun s => forallb (fun s' => bool_decide (s' ∈ l)) (steps ends s)) l.

Lemma closed_reachable ends l s s' :
  closed ends l = true -> s ∈ l -> rtc (step ends) s s' -> s' ∈ l.
Proof.
  intros Hc Hs Hr. induction Hr as [|s s1 s2 H1 _ IH]; [done|]. apply IH.
  unfold closed in Hc. rewrite forallb_forall in Hc. apply list_elem_of_In, Hc in Hs. rewrite forallb_forall in Hs.
  apply list_elem_of_In, Hs in H1. by apply bool_decide_eq_true_1 in H1.
Qed.

Definition reachable_states (ends : bool) : list EventLoopThread := explore ends 500 [new_thread] [].

(** What holds of a state when the loop ends only by [quit]. *)
Definition state_ok (s : EventLoopThread) : bool :=
  match owner s with
  | OReturned loop => loop && bool_decide (loop_ s = true) && bool_decide (thread s = TLoop)
  | ODone => bool_decide (thread s = TExited) && negb (loop_ s)
  | _ => true
  end &&
  match progress false s with [] => bool_decide (owner s = ODone) | _ => true end.

(** The handshake of [startLoop] and the shutdown of the destructor: [startLoop]
    returns the loop, which is then running; nothing ever hangs; and when the
    destructor is done the thread has left its loop and exited. *)
Theorem startLoop_handshake s :
  rtc (step false) new_thread s ->
  (forall loop, owner s = OReturned loop -> loop = true /\ thread s = TLoop) /\
  (owner s = ODone -> thread s = TExited /\ loop_ s = false) /\
  (progress false s = [] -> owner s = ODone).
Proof.
  intros Hr. assert (s ∈ reachable_states false) as Hin.
  { eapply closed_reachable; [| |exact Hr]; [vm_compute; reflexivity|].
    apply (bool_decide_eq_true_1 (new_thread ∈ reachable_states false)). vm_compute. reflexivity. }
  assert (forallb state_ok (reachable_states false) = true) as Hall by (vm_compute; reflexivity).
  rewrite forallb_forall in Hall. apply list_elem_of_In, Hall in Hin. unfold state_ok in Hin.
  apply andb_true_iff in Hin as [H1 H2]. split_and!.
  - intros loop E. rewrite E in H1. rewrite !andb_true_iff, !bool_decide_eq_true in H1. tauto.
  - intros E. rewrite E in H1. rewrite andb_true_iff, bool_decide_eq_true, negb_true_iff in H1. tauto.
  - intros E. rewrite E in H2. by apply bool_decide_eq_true in H2.
Qed.

(** If the loop can end by itself, it may do so before [startLoop] looks:
    [loop_] is null again, and [startLoop] waits for a notification that was
    given already. *)
Theorem startLoop_may_hang :
  exists s, rtc (step true) new_thread s /\ owner s = OWaiting /\ progress true s = [].
Proof.
  exists (mkThread false false Nobody false OWaiting TExited). split_and!; [|done|reflexivity].
  eapply (rtc_l _ _ (mkThread false false Nobody false OLock TCallback)); [by left|].
  eapply (rtc_l _ _ (mkThread false false Nobody false OLock TLock)); [by vm_compute; right; left|].
  eapply (rtc_l _ _ (mkThread false false Thread false OLock TSet)); [by vm_compute; right; left|].
  eapply (rtc_l _ _ (mkThread true false Nobody false OLock TLoop)); [by vm_compute; left|].
  eapply (rtc_l _ _ (mkThread true false Nobody false OLock TLock2)); [by vm_compute; right; left|].
  eapply (rtc_l _ _ (mkThread true false Thread false OLock TClear)); [by vm_compute; right; left|].
  eapply (rtc_l _ _ (mkThread false false Nobody false OLock TExited)); [by vm_compute; left|].
  eapply (rtc_l _ _ (mkThread false false Owner false OTest TExited)); [by vm_compute; left|].
  eapply (rtc_l _ _ (mkThread false false Nobody false OWaiting TExited)); [by vm_compute; left|].
  reflexivity.
Qed.
End EventLoopThread.

Module EventLoopThreadPool.

(** Loops are pointers. *)
Record EventLoopThreadPool := mkPool {
  baseLoop_ : Z;
  name_ : list byte;
  started_ : bool;
  numThreads_ : Z;
  next_ : Z;
  thread_names : list (list byte);
  loops_ : list Z;
  (** the loops the init callback was called with by [start] itself *)
  called_back : list Z }.

Definition new_pool (baseLoop : Z) (name : list byte) : EventLoopThreadPool := mkPool baseLoop name false 0 0 [] [] [].

Definition setThreadNum (n : Z) (p : EventLoopThreadPool) : EventLoopThreadPool :=
  mkPool (baseLoop_ p) (name_ p) (started_ p) n (next_ p) (thread_names p) (loops_ p) (called_back p).

(** [baseLoop_->assertInLoopThread()] *)
Definition assertInLoopThread (in_base : bool) : outcome unit := if in_base then Ok tt else Err Fatal.

Definition thread_name (name : list byte) (i : Z) : list byte := snprintf (zlen name + 32) (name ++ dec i).

(** The loop of [start]; [startLoop i] is the pointer the [i]-th thread gives. *)
Fixpoint start_threads (n : nat) (i : Z) (startLoop : Z -> Z) (p : EventLoopThreadPool) : EventLoopThreadPool :=
  match n with
  | O => p
  | S n' =>
      start_threads n' (i + 1) startLoop
        (mkPool (baseLoop_ p) (name_ p) (started_ p) (numThreads_ p) (next_ p)
           (thread_names p ++ [thread_name (name_ p) i]) (loops_ p ++ [startLoop i]) (called_back p))
  end.

Definition start (in_base cb : bool) (startLoop : Z -> Z) (p : EventLoopThreadPool) : outcome EventLoopThreadPool :=
  assert_ (negb (started_ p));;
  assertInLoopThread in_base;;
  let p := mkPool (baseLoop_ p) (name_ p) true (numThreads_ p) (next_ p) (thread_names p) (loops_ p) (called_back p) in
  let p := start_threads (Z.to_nat (numThreads_ p)) 0 startLoop p in
  Ok (if (numThreads_ p =? 0) && cb then
        mkPool (baseLoop_ p) (name_ p) (started_ p) (numThreads_ p) (next_ p) (thread_names p) (loops_ p) (called_back p ++ [baseLoop_ p])
      else p).

Definition set_next (n : Z) (p : EventLoopThreadPool) : EventLoopThreadPool :=
  mkPool (baseLoop_ p) (name_ p) (started_ p) (numThreads_ p) n (thread_names p) (loops_ p) (called_back p).

(** [loops_[i]] *)
Definition nth_loop (i : Z) (p : EventLoopThreadPool) : outcome Z :=
  match loops_ p !! Z.to_nat i with Some l => in_bounds (0 <=? i);; Ok l | None => Err OutOfBounds end.

Definition getNextLoop (in_base : bool) (p : EventLoopThreadPool) : outcome (Z * EventLoopThreadPool) :=
  assertInLoopThread in_base;;
  assert_ (started_ p);;
  match loops_ p with
  | [] => Ok (baseLoop_ p, p)
  | _ =>
      loop ← nth_loop (next_ p) p;
      let p := set_next (next_ p + 1)%int p in
      Ok (loop, if zlen (loops_ p) <=? u64 (next_ p) then set_next 0 p else p)
  end.

Definition getLoopForHash (in_base : bool) (hashCode : Z) (p : EventLoopThreadPool) : outcome Z :=
  assertInLoopThread in_base;;
  match loops_ p with
  | [] => Ok (baseLoop_ p)
  | _ => nth_loop (hashCode mod zlen (loops_ p)) p
  end.

Definition getAllLoops (in_base : bool) (p : EventLoopThreadPool) : outcome (list Z) :=
  assertInLoopThread in_base;;
  assert_ (started_ p);;
  Ok (match loops_ p with [] => [baseLoop_ p] | ls => ls end).

(** ** What the pool promises *)

Lemma start_threads_spec n i startLoop p :
  let p' := start_threads n i startLoop p in
  loops_ p' = loops_ p ++ (startLoop <$> seqZ i (Z.of_nat n)) /\
  thread_names p' = thread_names p ++ (thread_name (name_ p) <$> seqZ i (Z.of_nat n)) /\
  baseLoop_ p' = baseLoop_ p /\ started_ p' = started_ p /\ next_ p' = next_ p /\ numThreads_ p' = numThreads_ p.
Proof.
  revert i p. induction n as [|n IH]; intros i p; cbn [start_threads].
  - by rewrite !app_nil_r.
  - destruct (IH (i + 1) (mkPool (baseLoop_ p) (name_ p) (started_ p) (numThreads_ p) (next_ p)
      (thread_names p ++ [thread_name (name_ p) i]) (loops_ p ++ [startLoop i]) (called_back p)))
      as (E1 & E2 & E3 & E4 & E5 & E6). cbn in *.
    rewrite E1, E2. rewrite (seqZ_cons i (Z.of_nat (S n))) by lia.
    replace (Z.pred (Z.of_nat (S n))) with (Z.of_nat n) by lia. change (Z.succ i) with (i + 1).
    rewrite !fmap_cons, <- !app_assoc. by split_and!.
Qed.

(** The [k]-th loop in turn. *)
Definition turn (p : EventLoopThreadPool) (k : Z) : Z :=
  match loops_ p with [] => baseLoop_ p | ls => default 0 (ls !! Z.to_nat (k mod zlen ls)) end.

(** Between calls [next_] is the number of calls modulo the number of loops. *)
Definition after_calls (k : Z) (p p' : EventLoopThreadPool) : Prop :=
  loops_ p' = loops_ p /\ baseLoop_ p' = baseLoop_ p /\ started_ p' = true /\
  (loops_ p <> [] -> next_ p' = k mod zlen (loops_ p)).

Lemma getNextLoop_spec k p p' :
  0 <= k -> zlen (loops_ p) < 2 ^ 31 -> after_calls k p p' ->
  exists p'', getNextLoop true p' = Ok (turn p k, p'') /\ after_calls (k + 1) p p''.
Proof.
  intros Hk Hlen (El & Eb & Es & En). unfold getNextLoop, assertInLoopThread, turn. bind_simpl.
  rewrite Es. cbn [assert_]. bind_simpl. rewrite El.
  destruct (loops_ p) as [|l ls] eqn:Ep.
  - exists p'. rewrite Eb. split; [done|]. split_and!; [by rewrite El, Ep|done..].
  - specialize (En ltac:(done)). set (n := zlen (l :: ls)) in *.
    assert (0 < n) as Hn by (unfold n; zlia). pose proof (Z.mod_pos_bound k n Hn) as Hm.
    unfold nth_loop. rewrite El, En.
    destruct (lookup_lt_is_Some_2 (l :: ls) (Z.to_nat (k mod n))) as [x Hx].
    { unfold n, zlen in *. lia. }
    rewrite Hx. bind_simpl. rewrite in_bounds_true by lia. bind_simpl. cbn [next_ set_next loops_ default].
    rewrite i32_small by lia. rewrite u64_small by lia. rewrite El. fold n.
    eexists. split; [done|]. unfold after_calls. rewrite Ep. fold n. rewrite (Z.add_mod k 1 n) by lia.
    destruct (Z.leb_spec n (k mod n + 1)); (split_and!; [done..|intros _]); cbn [next_ set_next].
    + destruct (decide (n = 1)) as [->|]; [by rewrite Z.mod_1_r|]. rewrite (Z.mod_small 1) by lia.
      replace (k mod n + 1) with n by lia. by rewrite Z.mod_same.
    + destruct (decide (n = 1)) as [->|]; [lia|]. rewrite (Z.mod_small 1) by lia. symmetry. apply Z.mod_small. lia.
Qed.

(** [k] calls of [getNextLoop] *)
Fixpoint next_loops (k : nat) (p : EventLoopThreadPool) : outcome (list Z * EventLoopThreadPool) :=
  match k with
  | O => Ok ([], p)
  | S k' =>
      x ← getNextLoop true p;
      y ← next_loops k' x.2;
      Ok (x.1 :: y.1, y.2)
  end.

Lemma next_loops_spec k i p p' :
  0 <= i -> zlen (loops_ p) < 2 ^ 31 -> after_calls i p p' ->
  exists p'', next_loops k p' = Ok (turn p <$> seqZ i (Z.of_nat k), p'').
Proof.
  intros Hi Hlen. revert i p' Hi. induction k as [|k IH]; intros i p' Hi Ha; [by exists p'|].
  destruct (getNextLoop_spec i p p' Hi Hlen Ha) as (p1 & E1 & Ha1). cbn [next_loops]. rewrite E1. bind_simpl.
  destruct (IH (i + 1) p1 ltac:(lia) Ha1) as (p2 & E2). cbn [fst snd]. rewrite E2. bind_simpl.
  exists p2. rewrite (seqZ_cons i (Z.of_nat (S k))) by lia.
  by replace (Z.pred (Z.of_nat (S k))) with (Z.of_nat k) by lia.
Qed.

(** A pool that was started. *)
Lemma start_spec base name n startLoop cb :
  0 <= n < 2 ^ 31 ->
  exists p, start true cb startLoop (setThreadNum n (new_pool base name)) = Ok p /\
    loops_ p = startLoop <$> seqZ 0 n /\ thread_names p = (fun i => name ++ dec i) <$> seqZ 0 n /\
    baseLoop_ p = base /\ started_ p = true /\ next_ p = 0 /\ zlen (loops_ p) = n /\
    (forall i, turn p i = if n =? 0 then base else startLoop (i mod n)).
Proof.
  intros Hn. unfold start, assertInLoopThread. cbn [started_ setThreadNum new_pool negb assert_]. bind_simpl.
  destruct (start_threads_spec (Z.to_nat n) 0 startLoop (mkPool base name true n 0 [] [] [])) as (E1 & E2 & E3 & E4 & E5 & E6).
  cbn [numThreads_ baseLoop_ name_ next_ thread_names loops_ called_back setThreadNum new_pool].
  set (p1 := start_threads _ _ _ _) in *. rewrite Z2Nat.id in E1, E2 by lia. cbn in E1, E2, E3, E4, E5.
  set (p2 := if (numThreads_ p1 =? 0) && cb then _ else p1).
  assert (loops_ p2 = loops_ p1 /\ thread_names p2 = thread_names p1 /\ baseLoop_ p2 = baseLoop_ p1 /\
          started_ p2 = started_ p1 /\ next_ p2 = next_ p1) as (F1 & F2 & F3 & F4 & F5).
  { unfold p2. by destruct (_ && _). }
  rewrite E1 in F1. rewrite E2 in F2. rewrite E3 in F3. rewrite E4 in F4. rewrite E5 in F5.
  exists p2. split_and!; [done|done| |done|done|done| |].
  - rewrite F2. apply list_fmap_ext. intros j i Hi. apply lookup_seqZ in Hi. unfold thread_name, snprintf.
    apply ztake_all. rewrite zlen_app. unfold dec. rewrite (proj2 (Z.ltb_ge i 0)) by lia.
    pose proof (dec_nat_length i 10 ltac:(lia) ltac:(lia)). lia.
  - rewrite F1. unfold zlen. rewrite length_fmap, length_seqZ. lia.
  - intros i. unfold turn. rewrite F1, F3. destruct (Z.eqb_spec n 0) as [->|Hne]; [done|].
    destruct (startLoop <$> seqZ 0 n) as [|l ls] eqn:El.
    { apply (f_equal length) in El. rewrite length_fmap, length_seqZ in El. cbn in El. lia. }
    rewrite <- El. unfold zlen. rewrite length_fmap, length_seqZ, Z2Nat.id by lia.
    pose proof (Z.mod_pos_bound i n ltac:(lia)). rewrite list_lookup_fmap, lookup_seqZ_lt by lia. cbn. f_equal. lia.
Qed.

Lemma started_after_calls p : started_ p = true -> next_ p = 0 -> after_calls 0 p p.
Proof.
  intros Hs Hn. split_and!; [done..|]. intros Hne. rewrite Hn. symmetry. apply Z.mod_0_l. destruct (loops_ p); [done|zlia].
Qed.

(** A pool started with [n] threads hands out the loops of its threads in
    turn, the k-th call getting the loop of thread [k mod n], and the base loop
    when there are none; [next_] never leaves the range.  [getLoopForHash] stays
    in range and depends only on the hash; the threads are named after the pool. *)
Theorem loops_round_robin base name n startLoop cb k :
  0 <= n < 2 ^ 31 ->
  exists p, start true cb startLoop (setThreadNum n (new_pool base name)) = Ok p /\
    loops_ p = startLoop <$> seqZ 0 n /\ thread_names p = (fun i => name ++ dec i) <$> seqZ 0 n /\
    (exists p', next_loops k p =
       Ok ((fun i => if n =? 0 then base else startLoop (i mod n)) <$> seqZ 0 (Z.of_nat k), p')) /\
    (forall h, 0 <= h -> getLoopForHash true h p = Ok (if n =? 0 then base else startLoop (h mod n))).
Proof.
  intros Hn. destruct (start_spec base name n startLoop cb Hn) as (p2 & E0 & F1 & F2 & F3 & F4 & F5 & F6 & Ht).
  exists p2. split_and!; [done..| |].
  - destruct (next_loops_spec k 0 p2 p2) as (p3 & E); [lia|lia|by apply started_after_calls|].
    exists p3. rewrite E. do 2 f_equal. apply list_fmap_ext. intros _ i _. apply Ht.
  - intros h Hh. rewrite <- Ht. unfold getLoopForHash, assertInLoopThread, turn. bind_simpl.
    destruct (loops_ p2) as [|l ls] eqn:El; [done|]. unfold nth_loop. rewrite El.
    pose proof (Z.mod_pos_bound h (zlen (l :: ls)) ltac:(zlia)) as Hm.
    destruct (lookup_lt_is_Some_2 (l :: ls) (Z.to_nat (h mod zlen (l :: ls)))) as [x ->]; [unfold zlen in *; lia|].
    by rewrite in_bounds_true by lia.
Qed.

Lemma loops_round_robin_witness :
  exists p, start true false (fun i => 100 + i) (setThreadNum 3 (new_pool 7 (bytes "io"))) = Ok p /\
    exists p', next_loops 5 p = Ok ([100; 101; 102; 100; 101], p').
Proof.
  destruct (loops_round_robin 7 (bytes "io") 3 (fun i => 100 + i) false 5) as (p & E & _ & _ & [p' E'] & _); [lia|].
  exists p. split; [exact E|]. exists p'. exact E'.
Defined.
End EventLoopThreadPool.
