(* ===== verification/TcpServer.v ===== *)
(** * The TCP server ([src/net/TcpServer.h], [TcpServer.cpp])

    The server, its connections and the functors that wait in the loops of the
    base thread and the I/O threads.  Connections are numbered as they are made.
    Of a connection only what concerns the server is here: its state and whether
    its channel has been removed (the module [TcpConnection] has the rest).
    [queue] holds the functors of all loops in the order they were queued; each
    loop runs its own in that order, and the loops take turns in any way. *)

From S2P Require Import Prelude CxxStd Decimal TcpConnection EventLoopThread.

Module TcpServer.
Import TcpConnection EventLoopThreadPool.

(** What the server needs to know of a [TcpConnection]. *)
Record connection := mkConnection { conn_name : list byte; conn_loop : Z; conn_state : StateE; removed : bool }.

Inductive server_functor :=
  | FListen
  | FConnectEstablished (i : nat)
  | FRemoveConnectionInLoop (i : nat)
  | FConnectDestroyed (i : nat).

#[global] Instance server_functor_eq_dec : EqDecision server_functor.
Proof. solve_decision. Defined.

Record TcpServer := mkServer {
  ipPort_ : list byte;
  name_ : list byte;
  threadPool_ : EventLoopThreadPool;
  listenning : bool;
  server_started_ : Z;
  nextConnId_ : Z;
  connections_ : list (list byte * nat);
  conns : list connection;
  queue : list (Z * server_functor);
  (** false once the server is destroyed *)
  alive : bool }.

Definition new_server (base : Z) (ipPort name : list byte) : TcpServer :=
  mkServer ipPort name (new_pool base name) false 0 1 [] [] [] true.

Definition loop_ (s : TcpServer) : Z := baseLoop_ (threadPool_ s).

Definition set_pool (p : EventLoopThreadPool) (s : TcpServer) : TcpServer :=
  mkServer (ipPort_ s) (name_ s) p (listenning s) (server_started_ s) (nextConnId_ s) (connections_ s) (conns s) (queue s) (alive s).
Definition set_listen (l : bool) (started : Z) (s : TcpServer) : TcpServer :=
  mkServer (ipPort_ s) (name_ s) (threadPool_ s) l started (nextConnId_ s) (connections_ s) (conns s) (queue s) (alive s).
Definition set_nextConnId (n : Z) (s : TcpServer) : TcpServer :=
  mkServer (ipPort_ s) (name_ s) (threadPool_ s) (listenning s) (server_started_ s) n (connections_ s) (conns s) (queue s) (alive s).
Definition set_connections (m : list (list byte * nat)) (s : TcpServer) : TcpServer :=
  mkServer (ipPort_ s) (name_ s) (threadPool_ s) (listenning s) (server_started_ s) (nextConnId_ s) m (conns s) (queue s) (alive s).
Definition set_conns (cs : list connection) (s : TcpServer) : TcpServer :=
  mkServer (ipPort_ s) (name_ s) (threadPool_ s) (listenning s) (server_started_ s) (nextConnId_ s) (connections_ s) cs (queue s) (alive s).
Definition set_queue (q : list (Z * server_functor)) (s : TcpServer) : TcpServer :=
  mkServer (ipPort_ s) (name_ s) (threadPool_ s) (listenning s) (server_started_ s) (nextConnId_ s) (connections_ s) (conns s) q (alive s).
Definition set_alive (b : bool) (s : TcpServer) : TcpServer :=
  mkServer (ipPort_ s) (name_ s) (threadPool_ s) (listenning s) (server_started_ s) (nextConnId_ s) (connections_ s) (conns s) (queue s) b.

Definition queueInLoop (loop : Z) (f : server_functor) (s : TcpServer) : TcpServer := set_queue (queue s ++ [(loop, f)]) s.

Definition get_conn (i : nat) (s : TcpServer) : outcome connection :=
  match conns s !! i with Some c => Ok c | None => Err OutOfBounds end.
Definition put_conn (i : nat) (c : connection) (s : TcpServer) : TcpServer := set_conns (<[i := c]> (conns s)) s.

(** ** The connection's part *)

Definition conn_established (i : nat) (s : TcpServer) : outcome TcpServer :=
  c ← get_conn i s;
  assert_ (bool_decide (conn_state c = kConnecting));;
  Ok (put_conn i (mkConnection (conn_name c) (conn_loop c) kConnected (removed c)) s).

(** [connectDestroyed] disables the channel of a connected connection only, and
    removing a channel that is watched or already removed is an error. *)
Definition conn_destroyed (i : nat) (s : TcpServer) : outcome TcpServer :=
  c ← get_conn i s;
  assert_ (bool_decide (conn_state c = kConnected \/ conn_state c = kDisconnected) && negb (removed c));;
  Ok (put_conn i (mkConnection (conn_name c) (conn_loop c) kDisconnected true) s).

(** ** The server's part *)

Definition start (in_base cb : bool) (startLoop : Z -> Z) (s : TcpServer) : outcome TcpServer :=
  let old := server_started_ s in
  let s := set_listen (listenning s) 1 s in
  if old =? 0 then
    p ← EventLoopThreadPool.start in_base cb startLoop (threadPool_ s);
    let s := set_pool p s in
    assert_ (negb (listenning s));;
    Ok (if in_base then set_listen true 1 s else queueInLoop (loop_ s) FListen s)
  else Ok s.

Definition setThreadNum (n : Z) (s : TcpServer) : outcome TcpServer :=
  assert_ (0 <=? n);; Ok (set_pool (EventLoopThreadPool.setThreadNum n (threadPool_ s)) s).

Definition connName (s : TcpServer) (id : Z) : list byte :=
  name_ s ++ snprintf 64 (bytes "-" ++ ipPort_ s ++ bytes "#" ++ dec id).

(** [newConnection], in the base loop. *)
Definition newConnection (s : TcpServer) : outcome TcpServer :=
  x ← getNextLoop true (threadPool_ s);
  let '(ioLoop, p) := x in
  let s := set_pool p s in
  let name := connName s (nextConnId_ s) in
  let s := set_nextConnId (nextConnId_ s + 1)%int s in
  let i := length (conns s) in
  let s := set_conns (conns s ++ [mkConnection name ioLoop kConnecting false]) s in
  let s := set_connections (map_set string_ltb name i (connections_ s)) s in
  if decide (ioLoop = loop_ s) then conn_established i s
  else Ok (queueInLoop ioLoop (FConnectEstablished i) s).

Definition removeConnectionInLoop (i : nat) (s : TcpServer) : outcome TcpServer :=
  in_bounds (alive s);;
  c ← get_conn i s;
  let n := match map_find string_ltb (conn_name c) (connections_ s) with Some _ => 1 | None => 0 end in
  let s := set_connections (map_erase string_ltb (conn_name c) (connections_ s)) s in
  assert_ (n =? 1);;
  Ok (queueInLoop (conn_loop c) (FConnectDestroyed i) s).

(** [removeConnection], called in the loop [here]. *)
Definition removeConnection (here : Z) (i : nat) (s : TcpServer) : outcome TcpServer :=
  in_bounds (alive s);;
  if decide (here = loop_ s) then removeConnectionInLoop i s
  else Ok (queueInLoop (loop_ s) (FRemoveConnectionInLoop i) s).

(** [TcpConnection::handleClose] of connection [i], in its loop. *)
Definition conn_close (i : nat) (s : TcpServer) : outcome TcpServer :=
  c ← get_conn i s;
  assert_ (bool_decide (conn_state c = kConnected \/ conn_state c = kDisconnecting));;
  let s := put_conn i (mkConnection (conn_name c) (conn_loop c) kDisconnected (removed c)) s in
  removeConnection (conn_loop c) i s.

(** [shutdown] of connection [i] *)
Definition conn_shutdown (i : nat) (s : TcpServer) : outcome TcpServer :=
  c ← get_conn i s;
  Ok (if decide (conn_state c = kConnected) then put_conn i (mkConnection (conn_name c) (conn_loop c) kDisconnecting (removed c)) s
      else s).

(** [~TcpServer], in the base loop: the loop over [connections_]. *)
Fixpoint destroy_connections (m : list (list byte * nat)) (s : TcpServer) : outcome TcpServer :=
  match m with
  | [] => Ok s
  | (_, i) :: m' =>
      c ← get_conn i s;
      s ← (if decide (conn_loop c = loop_ s) then conn_destroyed i s
           else Ok (queueInLoop (conn_loop c) (FConnectDestroyed i) s));
      destroy_connections m' s
  end.
Definition destroy (s : TcpServer) : outcome TcpServer :=
  s ← destroy_connections (connections_ s) s;
  Ok (set_alive false s).

(** ** What happens *)

Inductive event :=
  | Start (startLoop : Z -> Z) (cb : bool)
  | NewConnection
  | Close (i : nat)
  | Shutdown (i : nat)
  | RunFunctor (loop : Z).

Definition run_functor (f : server_functor) (s : TcpServer) : outcome TcpServer :=
  match f with
  | FListen => Ok (set_listen true (server_started_ s) s)
  | FConnectEstablished i => conn_established i s
  | FRemoveConnectionInLoop i => removeConnectionInLoop i s
  | FConnectDestroyed i => conn_destroyed i s
  end.

(** The first functor of a loop and the queue without it. *)
Fixpoint take_first (loop : Z) (q : list (Z * server_functor)) : option (server_functor * list (Z * server_functor)) :=
  match q with
  | [] => None
  | (l, f) :: q' =>
      if decide (l = loop) then Some (f, q')
      else match take_first loop q' with Some (g, r) => Some (g, (l, f) :: r) | None => None end
  end.

Definition server_step (e : event) (s : TcpServer) : outcome TcpServer :=
  match e with
  | Start startLoop cb => start true cb startLoop s
  | NewConnection => newConnection s
  | Close i => conn_close i s
  | Shutdown i => conn_shutdown i s
  | RunFunctor loop =>
      match take_first loop (queue s) with
      | Some (f, q) => run_functor f (set_queue q s)
      | None => Ok s
      end
  end.

Fixpoint server_run (es : list event) (s : TcpServer) : outcome TcpServer :=
  match es with
  | [] => Ok s
  | e :: es' => s ← server_step e s; server_run es' s
  end.

(** ** Names *)

Lemma connName_whole s id :
  zlen (ipPort_ s) <= 51 -> 0 <= id < 2 ^ 31 ->
  connName s id = name_ s ++ bytes "-" ++ ipPort_ s ++ bytes "#" ++ dec_nat id.
Proof.
  intros Hl Hid. unfold connName, dec. rewrite (proj2 (Z.ltb_ge id 0)) by lia. f_equal. unfold snprintf. apply ztake_all.
  pose proof (dec_nat_length id 10 ltac:(lia) ltac:(lia)). rewrite !zlen_app.
  change (zlen (bytes "-")) with 1. change (zlen (bytes "#")) with 1. lia.
Qed.

Lemma connName_inj s id id' :
  zlen (ipPort_ s) <= 51 -> 0 <= id < 2 ^ 31 -> 0 <= id' < 2 ^ 31 -> connName s id = connName s id' -> id = id'.
Proof.
  intros Hl Hid Hid'. rewrite !connName_whole by done. intros E. apply app_inv_head in E.
  apply app_inv_head in E. apply app_inv_head in E. apply app_inv_head in E.
  rewrite <- (dec_value_dec_nat id), <- (dec_value_dec_nat id') by lia. by rewrite E.
Qed.

(** ** The queue *)

Definition subject (x : Z * server_functor) : option nat :=
  match x.2 with
  | FListen => None
  | FConnectEstablished i | FRemoveConnectionInLoop i | FConnectDestroyed i => Some i
  end.

(** What waits in the loops for connection [i]. *)
Definition about (i : nat) (q : list (Z * server_functor)) : list (Z * server_functor) :=
  filter (fun x => subject x = Some i) q.

#[global] Arguments about i q : simpl never.

Lemma about_snoc i q x : about i (q ++ [x]) = about i q ++ if decide (subject x = Some i) then [x] else [].
Proof.
  unfold about. rewrite filter_app. f_equal.
Qed.

Lemma take_first_split loop q f q' :
  take_first loop q = Some (f, q') -> exists q1 q2, q = q1 ++ (loop, f) :: q2 /\ q' = q1 ++ q2.
Proof.
  revert q'. induction q as [|[l g] q IH]; intros q' E; [done|]. cbn in E. case_decide as Hl.
  - simplify_eq. by exists [], q'.
  - destruct (take_first loop q) as [[h r]|]; [|done]. simplify_eq. destruct (IH r eq_refl) as (q1 & q2 & -> & ->).
    by exists ((l, g) :: q1), q2.
Qed.

Lemma about_taken loop q f q' :
  take_first loop q = Some (f, q') ->
  forall i, if decide (subject (loop, f) = Some i)
            then forall x, about i q = [x] -> x = (loop, f) /\ about i q' = []
            else about i q' = about i q.
Proof.
  intros (q1 & q2 & -> & ->)%take_first_split i. unfold about. rewrite !filter_app. case_decide as Hi.
  - rewrite filter_cons_True by done. intros x E.
    destruct (filter _ q1) as [|y l1]; cbn in E; [|by destruct l1].
    injection E as <- E. by rewrite E.
  - by rewrite filter_cons_False.
Qed.

(** ** The invariant *)
Section invariant.
Context (p0 : EventLoopThreadPool) (started_pool : started_ p0 = true /\ next_ p0 = 0 /\ zlen (loops_ p0) < 2 ^ 31).
Context (ipPort name : list byte) (Hip : zlen ipPort <= 51).

Definition named (i : nat) : list byte :=
  connName (new_server (baseLoop_ p0) ipPort name) (Z.of_nat i + 1).

Definition listed (i : nat) (s : TcpServer) : Prop := map_find string_ltb (named i) (connections_ s) = Some i.
Definition unlisted (i : nat) (s : TcpServer) : Prop := map_find string_ltb (named i) (connections_ s) = None.

Definition conn_ok (s : TcpServer) (i : nat) (c : connection) : Prop :=
  conn_name c = named i /\ conn_loop c = turn p0 (Z.of_nat i) /\
  match conn_state c with
  | kConnecting => about i (queue s) = [(conn_loop c, FConnectEstablished i)] /\ listed i s /\ removed c = false
  | kConnected | kDisconnecting => about i (queue s) = [] /\ listed i s /\ removed c = false
  | kDisconnected =>
      about i (queue s) = [(baseLoop_ p0, FRemoveConnectionInLoop i)] /\ listed i s /\ removed c = false \/
      about i (queue s) = [(conn_loop c, FConnectDestroyed i)] /\ unlisted i s /\ removed c = false \/
      about i (queue s) = [] /\ unlisted i s /\ removed c = true
  end.

Record inv (s : TcpServer) : Prop := {
  v_pool : after_calls (Z.of_nat (length (conns s))) p0 (threadPool_ s);
  v_id : nextConnId_ s = Z.of_nat (length (conns s)) + 1;
  v_room : Z.of_nat (length (conns s)) + 1 < 2 ^ 31;
  v_text : ipPort_ s = ipPort /\ name_ s = name;
  v_sorted : map_sorted string_ltb (connections_ s);
  v_keys k i : map_find string_ltb k (connections_ s) = Some i -> (i < length (conns s))%nat /\ k = named i;
  v_conns i c : conns s !! i = Some c -> conn_ok s i c;
  v_queue x i : x ∈ queue s -> subject x = Some i -> (i < length (conns s))%nat;
  v_alive : alive s = true;
  v_started : server_started_ s = 1 }.

Lemma named_inj i j : Z.of_nat i + 1 < 2 ^ 31 -> Z.of_nat j + 1 < 2 ^ 31 -> named i = named j -> i = j.
Proof. intros Hi Hj E. apply connName_inj in E; [lia|done|lia|lia]. Qed.

(** A step that concerns connection [i] only. *)
Lemma inv_change i c s s' c' :
  inv s -> conns s !! i = Some c -> conns s' = <[i := c']> (conns s) ->
  threadPool_ s' = threadPool_ s -> nextConnId_ s' = nextConnId_ s -> ipPort_ s' = ipPort_ s -> name_ s' = name_ s ->
  alive s' = alive s -> server_started_ s' = server_started_ s ->
  (connections_ s' = connections_ s \/ connections_ s' = map_erase string_ltb (named i) (connections_ s)) ->
  (forall j, j <> i -> about j (queue s') = about j (queue s)) ->
  (forall x j, x ∈ queue s' -> subject x = Some j -> x ∈ queue s \/ j = i) ->
  conn_ok s' i c' -> inv s'.
Proof.
  intros Hi Hc Ec Ep En Eip Enm Ea Es Em Hab Hq Hok. pose proof (lookup_lt_Some _ _ _ Hc) as Hlt.
  assert (length (conns s') = length (conns s)) as Elen by (rewrite Ec; apply length_insert).
  destruct Hi as [Vp Vi Vr Vt Vs Vk Vc Vq Va Vst]. split; rewrite ?Elen, ?Ep, ?En, ?Eip, ?Enm, ?Ea, ?Es; try done.
  - destruct Em as [->| ->]; [done|by apply map_erase_sorted].
  - intros k j Hk. apply Vk. destruct Em as [Em|Em]; rewrite Em in Hk; [done|].
    destruct (decide (named i = k)) as [<-|Hne]; [rewrite (map_find_erase_eq string_ltb) in Hk by exact Vs; done|].
    by rewrite (map_find_erase_ne string_ltb) in Hk by done.
  - intros j cj. rewrite Ec, list_lookup_insert_Some. intros [(<- & <- & _)|[Hne Hj]]; [done|].
    pose proof (Vc j cj Hj) as (Hn & Hl & Hst). pose proof (lookup_lt_Some _ _ _ Hj) as Hltj.
    split; [done|]. split; [done|].
    assert (map_find string_ltb (named j) (connections_ s') = map_find string_ltb (named j) (connections_ s)) as Ef.
    { destruct Em as [->| ->]; [done|]. apply (map_find_erase_ne string_ltb); [exact Vs|]. intros E%named_inj; [done|lia|lia]. }
    unfold listed, unlisted in *. rewrite (Hab j) by done. by rewrite Ef.
  - intros x j Hx Hsub. destruct (Hq x j Hx Hsub) as [Hx'| ->]; [by eapply Vq|done].
Qed.

(** The functor a loop takes from its queue. *)
Lemma taken_functor loop f q s i :
  inv s -> take_first loop (queue s) = Some (f, q) -> subject (loop, f) = Some i ->
  exists c, conns s !! i = Some c /\ conn_ok s i c /\ (loop, f) ∈ about i (queue s) /\
    (forall x, about i (queue s) = [x] -> x = (loop, f) /\ about i q = []) /\
    (forall j, j <> i -> about j q = about j (queue s)) /\ (forall x, x ∈ q -> x ∈ queue s).
Proof.
  intros Hi Et Hs. pose proof (about_taken _ _ _ _ Et) as Hab. destruct (take_first_split _ _ _ _ Et) as (q1 & q2 & Eq & ->).
  assert ((loop, f) ∈ queue s) as Hin by (rewrite Eq; set_solver).
  destruct (lookup_lt_is_Some_2 (conns s) i) as [c Hc]; [by eapply v_queue|].
  exists c. split_and!; [done|by eapply v_conns| | | |].
  - unfold about. by apply list_elem_of_filter.
  - specialize (Hab i). by rewrite decide_True in Hab.
  - intros j Hne. specialize (Hab j). rewrite decide_False in Hab; [done|]. rewrite Hs. congruence.
  - intros x Hx. rewrite Eq. set_solver.
Qed.

(** The functor tells in which state its connection is. *)
Lemma functor_state s i c loop f :
  conn_ok s i c -> (loop, f) ∈ about i (queue s) ->
  match f with
  | FListen => False
  | FConnectEstablished _ =>
      conn_state c = kConnecting /\ about i (queue s) = [(conn_loop c, FConnectEstablished i)] /\ listed i s /\ removed c = false
  | FRemoveConnectionInLoop _ =>
      conn_state c = kDisconnected /\ about i (queue s) = [(baseLoop_ p0, FRemoveConnectionInLoop i)] /\ listed i s /\ removed c = false
  | FConnectDestroyed _ =>
      conn_state c = kDisconnected /\ about i (queue s) = [(conn_loop c, FConnectDestroyed i)] /\ unlisted i s /\ removed c = false
  end.
Proof.
  intros (_ & _ & Hst) Hin. destruct (conn_state c); [destruct Hst as [Hst|[Hst|Hst]]|..];
    pose proof Hst as (Hab & _); rewrite Hab in Hin;
    first [by apply elem_of_nil in Hin | apply list_elem_of_singleton in Hin as [= -> ->]; by split].
Qed.

Lemma listen_inv loop q s :
  inv s -> take_first loop (queue s) = Some (FListen, q) -> inv (set_listen true (server_started_ s) (set_queue q s)).
Proof.
  intros Hi Et. pose proof (about_taken _ _ _ _ Et) as Hab. destruct (take_first_split _ _ _ _ Et) as (q1 & q2 & Eq & Eq').
  destruct Hi as [Vp Vi Vr Vt Vs Vk Vc Vq Va Vst]. split; try done.
  - intros i c Hc. specialize (Vc i c Hc). specialize (Hab i). rewrite decide_False in Hab by done.
    unfold conn_ok, listed, unlisted in *. cbn [queue connections_ set_listen set_queue]. by rewrite Hab.
  - intros x i Hx Hsub. apply (Vq x i); [|done]. cbn in Hx. rewrite Eq. rewrite Eq' in Hx. set_solver.
Qed.

Lemma established_inv loop q s i :
  inv s -> take_first loop (queue s) = Some (FConnectEstablished i, q) ->
  exists s', conn_established i (set_queue q s) = Ok s' /\ inv s'.
Proof.
  intros Hi Et. destruct (taken_functor _ _ _ _ i Hi Et eq_refl) as (c & Hc & Hok & Hin & Hone & Hother & Hsub).
  destruct (functor_state _ _ _ _ _ Hok Hin) as (Es & Hab & Hli & Hrm). destruct Hok as (Hn & Hl & _). destruct (Hone _ Hab) as [_ Hab'].
  unfold conn_established, get_conn. cbn. rewrite Hc. bind_simpl. rewrite assert_true by by apply bool_decide_eq_true_2. bind_simpl.
  eexists. split; [done|]. eapply (inv_change i c s); try done; [by left|auto].
Qed.

Lemma destroyed_inv loop q s i :
  inv s -> take_first loop (queue s) = Some (FConnectDestroyed i, q) ->
  exists s', conn_destroyed i (set_queue q s) = Ok s' /\ inv s'.
Proof.
  intros Hi Et. destruct (taken_functor _ _ _ _ i Hi Et eq_refl) as (c & Hc & Hok & Hin & Hone & Hother & Hsub).
  destruct (functor_state _ _ _ _ _ Hok Hin) as (Es & Hab & Hli & Hrm). destruct Hok as (Hn & Hl & _). destruct (Hone _ Hab) as [_ Hab'].
  unfold conn_destroyed, get_conn. cbn. rewrite Hc. bind_simpl.
  rewrite assert_true by (rewrite Es, Hrm; done). bind_simpl.
  eexists. split; [done|]. eapply (inv_change i c s); try done; [by left|auto|].
  split_and!; [done..|]. right. right. done.
Qed.

(** Taking a connection off the map and queueing its destruction. *)
Lemma remove_inv i c s s' :
  inv s -> conns s !! i = Some c -> listed i s -> conn_name c = named i -> conn_loop c = turn p0 (Z.of_nat i) ->
  conns s' = <[i := mkConnection (conn_name c) (conn_loop c) kDisconnected false]> (conns s) ->
  threadPool_ s' = threadPool_ s -> nextConnId_ s' = nextConnId_ s -> ipPort_ s' = ipPort_ s -> name_ s' = name_ s ->
  alive s' = alive s -> server_started_ s' = server_started_ s -> connections_ s' = connections_ s ->
  (forall j, j <> i -> about j (queue s') = about j (queue s)) -> about i (queue s') = [] ->
  (forall x, x ∈ queue s' -> x ∈ queue s) ->
  exists s'', removeConnectionInLoop i s' = Ok s'' /\ inv s''.
Proof.
  intros Hi Hc Hli Hn Hl Ec Ep En Eip Enm Ea Es Em Hother Hab Hsub. pose proof (lookup_lt_Some _ _ _ Hc) as Hlt.
  unfold removeConnectionInLoop, get_conn. rewrite Ea, (v_alive _ Hi). cbn [in_bounds]. bind_simpl.
  rewrite Ec, list_lookup_insert_eq by done. bind_simpl. cbn [conn_name conn_loop]. rewrite Em, Hn.
  unfold listed in Hli. rewrite Hli. cbn [assert_ Z.eqb Pos.eqb]. bind_simpl.
  eexists. split; [done|]. eapply (inv_change i c s); try done.
  - cbn. by right.
  - intros j Hne. cbn. rewrite about_snoc, decide_False by (cbn; congruence). rewrite app_nil_r. auto.
  - intros x j Hx Hsj. cbn in Hx. apply elem_of_app in Hx as [Hx|Hx]; [left; auto|].
    apply list_elem_of_singleton in Hx as ->. right. cbn in Hsj. congruence.
  - split_and!; [done..|]. right. left. cbn. split_and!; [|by apply (map_find_erase_eq string_ltb); apply v_sorted|done].
    rewrite about_snoc, Hab, decide_True by done. by rewrite Hl.
Qed.

Lemma removal_inv loop q s i :
  inv s -> take_first loop (queue s) = Some (FRemoveConnectionInLoop i, q) ->
  exists s', removeConnectionInLoop i (set_queue q s) = Ok s' /\ inv s'.
Proof.
  intros Hi Et. destruct (taken_functor _ _ _ _ i Hi Et eq_refl) as (c & Hc & Hok & Hin & Hone & Hother & Hsub).
  destruct (functor_state _ _ _ _ _ Hok Hin) as (Es & Hab & Hli & Hrm). destruct Hok as (Hn & Hl & _). destruct (Hone _ Hab) as [_ Hab']. eapply (remove_inv i c s); try done.
  cbn. rewrite list_insert_id; [done|]. rewrite Hc. f_equal. destruct c. cbn in *. by subst.
Qed.

Lemma conn_close_inv i c s :
  inv s -> conns s !! i = Some c -> conn_state c = kConnected \/ conn_state c = kDisconnecting ->
  exists s', conn_close i s = Ok s' /\ inv s'.
Proof.
  intros Hi Hc Hst. pose proof (v_conns _ Hi i c Hc) as (Hn & Hl & Hok).
  assert (about i (queue s) = [] /\ listed i s /\ removed c = false) as (Hab & Hli & Hrm) by (by destruct Hst as [E|E]; rewrite E in Hok).
  pose proof (v_pool _ Hi) as (_ & Ebase & _).
  unfold conn_close, get_conn. rewrite Hc. bind_simpl. rewrite assert_true by by apply bool_decide_eq_true_2. bind_simpl.
  unfold removeConnection. cbn [alive put_conn set_conns]. rewrite (v_alive _ Hi). cbn [in_bounds]. bind_simpl. case_decide as Hb.
  - eapply (remove_inv i c s); try done. cbn. by rewrite Hrm.
  - eexists. split; [done|]. eapply (inv_change i c s); try done.
    + by left.
    + intros j Hne. cbn. rewrite about_snoc, decide_False by (cbn; congruence). by rewrite app_nil_r.
    + intros x j Hx Hsj. cbn in Hx. apply elem_of_app in Hx as [Hx|Hx]; [by left|].
      apply list_elem_of_singleton in Hx as ->. right. cbn in Hsj. congruence.
    + split_and!; [done..|]. left. cbn. split_and!; [|done..].
      rewrite about_snoc, Hab, decide_True by done. cbn. unfold loop_. cbn. by rewrite Ebase.
Qed.

Lemma shutdown_inv i c s :
  inv s -> conns s !! i = Some c -> exists s', conn_shutdown i s = Ok s' /\ inv s'.
Proof.
  intros Hi Hc. pose proof (v_conns _ Hi i c Hc) as (Hn & Hl & Hok). unfold conn_shutdown, get_conn. rewrite Hc. bind_simpl.
  eexists. split; [done|]. case_decide as Hst; [|done]. rewrite Hst in Hok.
  eapply (inv_change i c s); try done; [by left|auto].
Qed.

(** A connection that is not there yet is nowhere. *)
Lemma fresh_conn s : inv s -> about (length (conns s)) (queue s) = [] /\ unlisted (length (conns s)) s.
Proof.
  intros Hi. split.
  - destruct (about _ _) as [|x l] eqn:E; [done|]. exfalso.
    assert (x ∈ about (length (conns s)) (queue s)) as Hx by (rewrite E; left).
    unfold about in Hx. apply list_elem_of_filter in Hx as [Hs Hx]. pose proof (v_queue _ Hi x _ Hx Hs). lia.
  - unfold unlisted. destruct (map_find _ _ _) as [j|] eqn:E; [|done]. exfalso.
    pose proof (v_room _ Hi). pose proof E as [Hlt Hk]%(v_keys _ Hi). apply named_inj in Hk; [lia|lia|lia].
Qed.

(** The server after a new connection was entered, in state [st] with [q] queued. *)
Lemma add_inv s s' st q :
  inv s -> Z.of_nat (length (conns s)) + 2 < 2 ^ 31 ->
  after_calls (Z.of_nat (length (conns s)) + 1) p0 (threadPool_ s') ->
  nextConnId_ s' = nextConnId_ s + 1 -> ipPort_ s' = ipPort_ s -> name_ s' = name_ s ->
  alive s' = alive s -> server_started_ s' = server_started_ s ->
  connections_ s' = map_set string_ltb (named (length (conns s))) (length (conns s)) (connections_ s) ->
  conns s' = conns s ++ [mkConnection (named (length (conns s))) (turn p0 (Z.of_nat (length (conns s)))) st false] ->
  queue s' = queue s ++ q -> Forall (fun x => subject x = Some (length (conns s))) q ->
  match st with
  | kConnecting => q = [(turn p0 (Z.of_nat (length (conns s))), FConnectEstablished (length (conns s)))]
  | kConnected => q = []
  | _ => False
  end -> inv s'.
Proof.
  intros Hi Hroom Hpool En Eip Enm Ea Es Em Ec Eq Hq Hst. destruct (fresh_conn s Hi) as [Hfq Hfm].
  assert (length (conns s') = S (length (conns s))) as Elen by (rewrite Ec, length_app; cbn; lia).
  pose proof (v_sorted _ Hi) as Vs. pose proof (v_room _ Hi) as Vr.
  assert (forall j, (j < length (conns s))%nat -> named j <> named (length (conns s))) as Hne.
  { intros j Hj E%named_inj; lia. }
  split; rewrite ?Elen, ?Eip, ?Enm, ?Ea, ?Es; try by apply Hi.
  - by replace (Z.of_nat (S (length (conns s)))) with (Z.of_nat (length (conns s)) + 1) by lia.
  - rewrite En, (v_id _ Hi). lia.
  - lia.
  - rewrite Em. exact (map_set_sorted string_ltb _ _ _ Vs).
  - intros k i Hk. rewrite Em in Hk. destruct (decide (named (length (conns s)) = k)) as [<-|Hnk].
    + rewrite (map_find_set_eq string_ltb) in Hk. injection Hk as <-. split; [lia|done].
    + rewrite (map_find_set_ne string_ltb) in Hk by done. apply (v_keys _ Hi) in Hk as [? ?]. split; [lia|done].
  - intros i c. rewrite Ec, lookup_app_Some. intros [Hc|[Hge Hc]].
    + pose proof (v_conns _ Hi i c Hc) as (Hn & Hl & Hok). pose proof (lookup_lt_Some _ _ _ Hc) as Hlt.
      split; [done|]. split; [done|]. unfold listed, unlisted in *. rewrite Em, Eq.
      rewrite (map_find_set_ne string_ltb) by (done || by apply not_eq_sym, Hne).
      assert (about i (queue s ++ q) = about i (queue s)) as ->; [|exact Hok].
      unfold about. rewrite filter_app. assert (filter (fun x => subject x = Some i) q = []) as ->; [|by rewrite app_nil_r].
      clear -Hq Hlt. induction Hq as [|x q Hx _ IH]; [done|]. rewrite filter_cons_False; [done|]. rewrite Hx. intros [= ?]. lia.
    + apply list_lookup_singleton_Some in Hc as [Hz <-]. assert (i = length (conns s)) as -> by lia.
      split; [done|]. split; [done|]. cbn [conn_state removed conn_loop]. unfold listed. rewrite Em, Eq.
      rewrite (map_find_set_eq string_ltb).
      assert (about (length (conns s)) (queue s ++ q) = q) as ->.
      { unfold about in *. rewrite filter_app, Hfq. cbn. clear -Hq. induction Hq as [|x q Hx _ IH]; [done|].
        rewrite filter_cons_True by done. by rewrite IH. }
      by destruct st.
  - intros x i. rewrite Eq, elem_of_app. intros [Hx|Hx] Hsub.
    + pose proof (v_queue _ Hi x i Hx Hsub). lia.
    + rewrite Forall_forall in Hq. specialize (Hq x Hx). rewrite Hq in Hsub. injection Hsub as <-. lia.
Qed.

Lemma newConnection_inv s :
  inv s -> Z.of_nat (length (conns s)) + 2 < 2 ^ 31 -> exists s', newConnection s = Ok s' /\ inv s'.
Proof.
  intros Hi Hroom. destruct started_pool as (Hst & Hnext & Hlen).
  destruct (getNextLoop_spec (Z.of_nat (length (conns s))) p0 (threadPool_ s)) as (p & E & Ha); [lia|done|by apply v_pool|].
  unfold newConnection. rewrite E. bind_simpl.
  assert (connName (set_pool p s) (nextConnId_ (set_pool p s)) = named (length (conns s))) as Hname.
  { destruct (v_text _ Hi) as [E1 E2]. unfold named, connName. cbn. by rewrite E1, E2, (v_id _ Hi). }
  rewrite Hname. cbn [nextConnId_ set_pool set_nextConnId conns].
  assert ((nextConnId_ s + 1)%int = nextConnId_ s + 1) as Hid by (apply i32_small; rewrite (v_id _ Hi); lia). rewrite Hid.
  case_decide as Hb.
  - unfold conn_established, get_conn. cbn [conns set_connections set_conns].
    rewrite lookup_app_r, Nat.sub_diag by done. cbn [lookup list_lookup]. bind_simpl.
    rewrite assert_true by done. bind_simpl. eexists. split; [done|].
    eapply (add_inv s _ kConnected []); try done.
    + cbn [conns put_conn set_conns set_connections]. rewrite insert_app_r_alt, Nat.sub_diag by done. done.
    + cbn. by rewrite app_nil_r.
  - eexists. split; [done|]. eapply (add_inv s _ kConnecting); try done. by repeat constructor.
Qed.

(** What may happen: connections close when they are open, and there are fewer
    than [2^31 - 2] of them. *)
Definition valid_event (e : event) (s : TcpServer) : Prop :=
  match e with
  | Start _ _ | RunFunctor _ => True
  | NewConnection => Z.of_nat (length (conns s)) + 2 < 2 ^ 31
  | Close i => exists c, conns s !! i = Some c /\ (conn_state c = kConnected \/ conn_state c = kDisconnecting)
  | Shutdown i => (i < length (conns s))%nat
  end.

Fixpoint valid_events (es : list event) (s : TcpServer) : Prop :=
  match es with
  | [] => True
  | e :: es' => valid_event e s /\ forall s', server_step e s = Ok s' -> valid_events es' s'
  end.

Lemma server_step_inv e s : inv s -> valid_event e s -> exists s', server_step e s = Ok s' /\ inv s'.
Proof.
  intros Hi Hv. destruct e as [startLoop cb| |i|i|loop]; cbn [server_step valid_event] in *.
  - unfold start. rewrite (v_started _ Hi). cbn [Z.eqb]. eexists. split; [done|].
    destruct Hi as [Vp Vi Vr Vt Vs Vk Vc Vq Va Vst]. by split.
  - by apply newConnection_inv.
  - destruct Hv as (c & Hc & Hst). by eapply conn_close_inv.
  - destruct (lookup_lt_is_Some_2 _ _ Hv) as [c Hc]. by eapply shutdown_inv.
  - destruct (take_first loop (queue s)) as [[f q]|] eqn:Et; [|by eexists]. destruct f; cbn [run_functor].
    + eexists. split; [done|]. exact (listen_inv loop q s Hi Et).
    + by eapply established_inv.
    + by eapply removal_inv.
    + by eapply destroyed_inv.
Qed.

Lemma server_run_inv es s : inv s -> valid_events es s -> exists s', server_run es s = Ok s' /\ inv s'.
Proof.
  revert s. induction es as [|e es IH]; intros s Hi Hv; [by eexists|]. destruct Hv as [He Hes].
  destruct (server_step_inv e s Hi He) as (s1 & E & H1). cbn [server_run]. rewrite E. bind_simpl. apply IH; [done|]. by apply Hes.
Qed.

Lemma inv_names s : inv s -> NoDup (conn_name <$> conns s).
Proof.
  intros Hi. apply NoDup_alt. intros i j x. rewrite !list_lookup_fmap.
  destruct (conns s !! i) as [c|] eqn:Ec; [|done]. destruct (conns s !! j) as [d|] eqn:Ed; [|done]. cbn. intros [= <-] [= E].
  destruct (v_conns _ Hi i c Ec) as [Hn _]. destruct (v_conns _ Hi j d Ed) as [Hm _]. rewrite Hn, Hm in E.
  pose proof (v_room _ Hi). pose proof (lookup_lt_Some _ _ _ Ec). pose proof (lookup_lt_Some _ _ _ Ed).
  symmetry. apply named_inj; [lia|lia|done].
Qed.
End invariant.

Lemma server_inv_start p ipPort name :
  started_ p = true -> next_ p = 0 ->
  inv p ipPort name (mkServer ipPort name p true 1 1 [] [] [] true).
Proof.
  intros Hs Hn. split; try done; try (cbn; lia).
  - constructor.
  - by intros x i ?%elem_of_nil.
Qed.


(** ** Witness: two I/O threads; the first of two connections is closed *)
Definition sample_server : outcome TcpServer :=
  s ← setThreadNum 2 (new_server 1 (bytes "0.0.0.0:80") (bytes "srv"));
  start true false (fun i => 10 + i) s.
Definition sample_events : list event :=
  [NewConnection; RunFunctor 10; NewConnection; RunFunctor 11; Close 0; RunFunctor 1; RunFunctor 10].


(** [removeConnection] and the functor it queues hold a plain pointer to the
    server.  If a connection is closed in its I/O loop and the server is
    destroyed before the base loop has run that functor, the functor works on
    the destroyed server. *)
Theorem removal_after_destruction :
  (s ← sample_server;
   s ← server_run [NewConnection; RunFunctor 10; Close 0] s;
   s ← destroy s;
   server_run [RunFunctor 1] s) = Err OutOfBounds.
Proof. vm_compute. reflexivity. Qed.
End TcpServer.
