(* ===== verification/TcpClient.v ===== *)
(** * The TCP client ([src/net/TcpClient.h], [TcpClient.cpp])

    The client on top of its [Connector].  Connections are numbered as they are
    made; of a connection only what concerns the client is here.  The connector
    hands a socket over at the end of [Connector::handleWrite], and the client's
    [newConnection] runs then and there. *)

From S2P Require Import Prelude Decimal SocketsOps Connector.

Module TcpClient.
Import SocketsOps.

Record TcpClient := mkClient {
  connector_ : Connector.Connector;
  name_ : list byte;
  retry_ : bool;
  client_connect_ : bool;
  nextConnId_ : Z;
  (** the number of the current connection *)
  connection_ : option nat;
  (** names of the connections made so far *)
  names : list (list byte);
  (** connections whose [connectDestroyed] is queued, and those destroyed *)
  dying : list nat;
  destroyed : list nat }.

Definition new_client (name : list byte) : TcpClient :=
  mkClient Connector.new_connector name false true 1 None [] [] [].

Definition set_connector (k : Connector.Connector) (c : TcpClient) : TcpClient :=
  mkClient k (name_ c) (retry_ c) (client_connect_ c) (nextConnId_ c) (connection_ c) (names c) (dying c) (destroyed c).
Definition set_flags (retry connect : bool) (c : TcpClient) : TcpClient :=
  mkClient (connector_ c) (name_ c) retry connect (nextConnId_ c) (connection_ c) (names c) (dying c) (destroyed c).
Definition set_connection (i : option nat) (c : TcpClient) : TcpClient :=
  mkClient (connector_ c) (name_ c) (retry_ c) (client_connect_ c) (nextConnId_ c) i (names c) (dying c) (destroyed c).
Definition set_names (n : Z) (ns : list (list byte)) (c : TcpClient) : TcpClient :=
  mkClient (connector_ c) (name_ c) (retry_ c) (client_connect_ c) n (connection_ c) ns (dying c) (destroyed c).
Definition set_dying (d x : list nat) (c : TcpClient) : TcpClient :=
  mkClient (connector_ c) (name_ c) (retry_ c) (client_connect_ c) (nextConnId_ c) (connection_ c) (names c) d x.

Definition enableRetry (c : TcpClient) : TcpClient := set_flags true (client_connect_ c) c.

(** [connName] for the peer whose text is [peer]. *)
Definition connName (peer : list byte) (c : TcpClient) : list byte :=
  name_ c ++ snprintf 32 (bytes ":" ++ peer ++ bytes "#" ++ dec (nextConnId_ c)).

Definition newConnection (peer : list byte) (c : TcpClient) : TcpClient :=
  let name := connName peer c in
  let i := length (names c) in
  set_connection (Some i) (set_names (nextConnId_ c + 1)%int (names c ++ [name]) c).

(** Runs an operation of the connector; a socket it hands over goes to
    [newConnection]. *)
Definition with_connector (peer : list byte) (op : Connector.Connector -> outcome Connector.Connector) (c : TcpClient) :
    outcome TcpClient :=
  k ← op (connector_ c);
  let c' := set_connector k c in
  Ok (if decide (length (Connector.delivered (connector_ c)) < length (Connector.delivered k))%nat
      then newConnection peer c' else c').

(** [connect] and [stop] in the loop's thread. *)
Definition connect (a : Connector.attempt) (c : TcpClient) : outcome TcpClient :=
  with_connector [] (Connector.start_here a) (set_flags (retry_ c) true c).
Definition stop (c : TcpClient) : outcome TcpClient :=
  with_connector [] (fun k => Ok (Connector.stop_second (Connector.stop_first k))) (set_flags (retry_ c) false c).

(** [disconnect] shuts the current connection down, which closes later. *)
Definition disconnect (c : TcpClient) : TcpClient := set_flags (retry_ c) false c.

(** [removeConnection(conn)] for connection [i], from its [handleClose]. *)
Definition removeConnection (a : Connector.attempt) (i : nat) (c : TcpClient) : outcome TcpClient :=
  assert_ (bool_decide (connection_ c = Some i));;
  let c := set_connection None c in
  let c := set_dying (dying c ++ [i]) (destroyed c) c in
  if retry_ c && client_connect_ c then with_connector [] (Connector.restart a) c else Ok c.

(** ** Histories *)

Inductive event :=
  | Connect (a : Connector.attempt)
  | Stop
  | Disconnect
  | EnableRetry
  | Closed (a : Connector.attempt)   (** the current connection closes *)
  | RunDestroy                       (** the loop runs a queued [connectDestroyed] *)
  | Connecting (peer : list byte) (e : Connector.event). (** functors, timers and I/O of the connector *)

Definition client_step (e : event) (c : TcpClient) : outcome TcpClient :=
  match e with
  | Connect a => connect a c
  | Stop => stop c
  | Disconnect => Ok (disconnect c)
  | EnableRetry => Ok (enableRetry c)
  | Closed a => match connection_ c with Some i => removeConnection a i c | None => Ok c end
  | RunDestroy => Ok (match dying c with i :: d => set_dying d (destroyed c ++ [i]) c | [] => c end)
  | Connecting peer e => with_connector peer (Connector.connector_step e) c
  end.

Fixpoint client_run (es : list event) (c : TcpClient) : outcome TcpClient :=
  match es with
  | [] => Ok c
  | e :: es' => c ← client_step e c; client_run es' c
  end.

(** [connect] is called when the connector is idle; the events of the connector
    are those of its loop; a connection closes in a later round than it was made. *)
Definition valid_event (e : event) (c : TcpClient) : Prop :=
  match e with
  | Connect a => Connector.idle (connector_ c) /\ 0 <= Connector.socket_ret a
  | Stop | Disconnect | EnableRetry | RunDestroy => True
  | Closed a => Connector.channel_ (connector_ c) = None /\ 0 <= Connector.socket_ret a
  | Connecting _ e =>
      Connector.valid_event e (connector_ c) /\
      match e with Connector.RunFunctor _ | Connector.TimerFires _ | Connector.Io _ _ => True | _ => False end
  end.

Fixpoint valid_events (es : list event) (c : TcpClient) : Prop :=
  match es with
  | [] => True
  | e :: es' => valid_event e c /\ forall c', client_step e c = Ok c' -> valid_events es' c'
  end.

(** ** When the connector hands a socket over *)

(** A socket was handed over, or not; in the first case a connection was being
    made, and a connector that had connected stays connected. *)
Definition handed (k k' : Connector.Connector) : Prop :=
  Connector.delivered k' = Connector.delivered k /\
    (Connector.state_ k = Connector.kConnected -> Connector.state_ k' = Connector.kConnected) \/
  Connector.state_ k = Connector.kConnecting /\ Connector.state_ k' = Connector.kConnected /\
    exists sock, Connector.delivered k' = Connector.delivered k ++ [sock].

Lemma handled_once i cbs k k' :
  Connector.state_ k <> Connector.kConnecting -> Connector.dispatch cbs i k = Ok k' -> k' = k.
Proof.
  intros Hne. induction cbs as [|x cbs IH]; [by intros [= <-]|]. destruct x; cbn; [done| |done|].
  - unfold Connector.handleError. rewrite bool_decide_eq_false_2 by done. by bind_simpl.
  - unfold Connector.handleWrite. rewrite bool_decide_eq_false_2 by done. intros E. outcome_inv E. by apply IH.
Qed.

Lemma handleWrite_handed i k k' :
  Connector.state_ k = Connector.kConnecting -> Connector.handleWrite i k = Ok k' ->
  handed k k' /\ Connector.state_ k' <> Connector.kConnecting.
Proof.
  intros Hs. unfold Connector.handleWrite. rewrite bool_decide_eq_true_2 by done. intros E.
  apply bind_Ok in E as ([sock k1] & E1 & E). apply Connector.removeAndReset_quiet in E1 as [Ec Ed _].
  assert (forall s, handed k (Connector.retry s k1) /\ Connector.state_ (Connector.retry s k1) <> Connector.kConnecting) as Hr.
  { intros s. unfold Connector.retry, handed. cbn. destruct (Connector.connect_ k1); cbn; rewrite Ed, Hs; by split; [left|]. }
  destruct (negb _); [injection E as <-; apply Hr|]. apply bind_Ok in E as ([] & _ & E); injection E as <-; [apply Hr|].
  cbn. destruct (Connector.connect_ k1); cbn; split; try done; unfold handed; cbn; rewrite Ed, Hs.
  - right. split_and!; [done..|]. by eexists.
  - by left.
Qed.

Lemma handleError_handed i k k' :
  Connector.state_ k = Connector.kConnecting -> Connector.handleError i k = Ok k' ->
  handed k k' /\ Connector.state_ k' <> Connector.kConnecting.
Proof.
  intros Hs. unfold Connector.handleError. rewrite bool_decide_eq_true_2 by done. intros E.
  apply bind_Ok in E as ([sock k1] & E1 & E). apply Connector.removeAndReset_quiet in E1 as [Ec Ed _]. injection E as <-.
  unfold Connector.retry, handed. cbn. destruct (Connector.connect_ k1); cbn; rewrite Ed, Hs; by split; [left|].
Qed.

Lemma dispatch_handed i cbs k k' :
  Connector.state_ k = Connector.kConnecting -> Connector.dispatch cbs i k = Ok k' -> handed k k'.
Proof.
  intros Hs. induction cbs as [|x cbs IH]; [intros [= <-]; by left|]. destruct x; cbn; [done| |done|]; intros E;
    apply bind_Ok in E as (k1 & E1 & E).
  - apply handleError_handed in E1 as [H1 Hne]; [|done]. by apply handled_once in E as ->.
  - apply handleWrite_handed in E1 as [H1 Hne]; [|done]. by apply handled_once in E as ->.
Qed.

Lemma connect_handed a k k' : Connector.startInLoop a k = Ok k' -> Connector.delivered k' = Connector.delivered k.
Proof.
  unfold Connector.startInLoop. intros E. apply bind_Ok in E as (u & _ & E). destruct (Connector.connect_ k); [|by injection E as <-].
  unfold Connector.connect in E. apply bind_Ok in E as (fd & _ & E). repeat case_bool_decide.
  - unfold Connector.connecting in E. apply bind_Ok in E as (u' & _ & E). by injection E as <-.
  - injection E as <-. unfold Connector.retry. cbn. by destruct (Connector.connect_ k).
  - by injection E as <-.
  - by injection E as <-.
Qed.

Lemma step_handed e k k' :
  Connector.inv k -> Connector.valid_event e k ->
  match e with Connector.RunFunctor _ | Connector.TimerFires _ | Connector.Io _ _ => True | _ => False end ->
  Connector.connector_step e k = Ok k' -> handed k k'.
Proof.
  intros Hi Hv He E. destruct e as [a| | | | |a|a|a|revents i]; try done; cbn [Connector.connector_step Connector.valid_event] in *.
  - destruct (Connector.functors k) as [|f fs] eqn:Ef; [injection E as <-; by left|]. destruct f; cbn [Connector.run_functor] in E.
    + left. pose proof (connect_handed _ _ _ E) as Hd. split; [done|]. intros Hs. exfalso.
      pose proof (Connector.i_core _ Hi) as (Hsh & _). unfold Connector.shape in Hsh. rewrite Hs in Hsh. destruct Hsh as [_ Hst].
      unfold Connector.starts, Connector.queued in Hst. rewrite Ef, Connector.queued_cons, decide_True in Hst by done. lia.
    + left. pose proof (Connector.stopInLoop_quiet _ _ E) as [_ Hd _]. split; [done|]. intros Hs.
      unfold Connector.stopInLoop in E. rewrite bool_decide_eq_false_2 in E by (cbn; congruence). by injection E as <-.
    + injection E as <-. by left.
  - destruct (Connector.timers k) as [|d ts] eqn:Et; [injection E as <-; by left|].
    left. pose proof (connect_handed _ _ _ E) as Hd. split; [done|]. intros Hs. exfalso.
    pose proof (Connector.i_core _ Hi) as (Hsh & _). unfold Connector.shape in Hsh. rewrite Hs in Hsh. destruct Hsh as [_ Hst].
    unfold Connector.starts in Hst. rewrite Et in Hst. cbn in Hst. lia.
  - destruct Hv as (Hs & _). destruct (Connector.channel_ k) as [[ch sock]|]; [|injection E as <-; by left].
    by eapply dispatch_handed.
Qed.

(** ** The invariant *)

Record inv (c : TcpClient) : Prop := {
  c_connector : Connector.inv (connector_ c);
  c_names : length (names c) = length (Connector.delivered (connector_ c));
  c_current i : connection_ c = Some i -> S i = length (names c) /\ Connector.state_ (connector_ c) = Connector.kConnected;
  c_all : seq 0 (length (names c)) ≡ₚ destroyed c ++ dying c ++ option_list (connection_ c) }.

Lemma with_connector_inv peer op c k :
  inv c -> op (connector_ c) = Ok k -> Connector.inv k ->
  handed (connector_ c) k \/ connection_ c = None /\ Connector.delivered k = Connector.delivered (connector_ c) ->
  exists c', with_connector peer op c = Ok c' /\ inv c'.
Proof.
  intros [Hk Hn Hc Ha] E Hk' Hh. unfold with_connector. rewrite E. bind_simpl. eexists. split; [done|].
  destruct Hh as [[[Hd Hs]|(Hs & Hs' & sock & Hd)]|[Hnone Hd]].
  - rewrite Hd, decide_False by lia. split; cbn; [done|by rewrite Hd|naive_solver|done].
  - rewrite Hd, length_app, decide_True by (cbn; lia).
    assert (connection_ c = None) as Hnone by (destruct (connection_ c) as [i|]; [destruct (Hc i eq_refl); congruence|done]).
    split; cbn.
    + done.
    + rewrite Hd, !length_app. cbn. lia.
    + intros i [= <-]. rewrite length_app. cbn. split; [lia|done].
    + rewrite length_app. cbn [length]. rewrite Nat.add_1_r, seq_S, Ha, Hnone. cbn. solve_Permutation.
  - rewrite Hd, decide_False by lia. split; cbn; [done|by rewrite Hd|by rewrite Hnone|done].
Qed.

Lemma client_step_inv e c : inv c -> valid_event e c -> exists c', client_step e c = Ok c' /\ inv c'.
Proof.
  intros Hi Hv. pose proof (c_connector _ Hi) as Hk. destruct e as [a| | | |a| |peer e]; cbn [client_step valid_event] in *.
  - destruct Hv as [Hidle Ha]. destruct (Connector.start_here_inv a _ Hk Hidle Ha) as (k & E & Hk').
    apply (with_connector_inv [] _ _ k); [|done|done|].
    + destruct Hi as [? ? ? ?]. by split.
    + left. left. split; [by apply connect_handed in E|]. destruct Hidle as (Hs & _). cbn. congruence.
  - apply (with_connector_inv [] _ _ (Connector.stop_second (Connector.stop_first (connector_ c)))); [|done| |by left; left].
    + destruct Hi as [? ? ? ?]. by split.
    + destruct (Connector.connector_step_inv Connector.StopFirst _ Hk I) as (k & [= <-] & Hk1). by apply Connector.stop_second_inv.
  - eexists. split; [done|]. destruct Hi as [? ? ? ?]. by split.
  - eexists. split; [done|]. destruct Hi as [? ? ? ?]. by split.
  - destruct (connection_ c) as [i|] eqn:Ec; [|by eexists]. unfold removeConnection.
    rewrite assert_true by by apply bool_decide_eq_true_2. bind_simpl.
    destruct Hi as [_ Hn Hc Ha]. destruct (Hc i Ec) as [Hlast Hs].
    set (c1 := set_dying _ _ _). assert (inv c1) as H1.
    { split; cbn; [done|done|done|]. rewrite Ha, Ec. cbn. solve_Permutation. }
    destruct (retry_ c1 && client_connect_ c1); [|by eexists].
    destruct Hv as [Hch Hok]. destruct (Connector.restart_inv a _ Hk Hs Hch Hok) as (k & E & Hk').
    apply (with_connector_inv [] _ _ k); [done|done|done|]. right. by apply connect_handed in E.
  - eexists. split; [done|]. destruct Hi as [? ? ? Ha]. destruct (dying c) as [|i d] eqn:Ed; [split; [done..|by rewrite Ed]|].
    split; cbn; [done..|]. rewrite Ha. solve_Permutation.
  - destruct Hv as [Hv He]. destruct (Connector.connector_step_inv e _ Hk Hv) as (k & E & Hk').
    apply (with_connector_inv peer _ _ k); [done|done|done|]. left. by eapply step_handed.
Qed.

Lemma client_run_inv es c : inv c -> valid_events es c -> exists c', client_run es c = Ok c' /\ inv c'.
Proof.
  revert c. induction es as [|e es IH]; intros c Hi Hv; [by eexists|]. destruct Hv as [He Hes].
  destruct (client_step_inv e c Hi He) as (c1 & E & H1). cbn [client_run]. rewrite E. bind_simpl. apply IH; [done|]. by apply Hes.
Qed.

Lemma new_client_inv name : inv (new_client name).
Proof. split; [apply Connector.new_connector_inv|done|done|constructor]. Qed.

(** C36: For every history within the protocol the client and its connector run
    without a failed assertion.  Every socket the connector created is closed,
    in progress, or became exactly one connection; there is at most one current
    connection, which is the latest; every other one has been destroyed exactly
    once or is queued for it. *)
Theorem client_correct name es :
  valid_events es (new_client name) ->
  exists c, client_run es (new_client name) = Ok c /\
    (let k := connector_ c in
     seq 0 (Connector.created k) ≡ₚ Connector.closed k ++ Connector.delivered k ++ Connector.current k /\
     length (Connector.delivered k) = length (names c)) /\
    seq 0 (length (names c)) ≡ₚ destroyed c ++ dying c ++ option_list (connection_ c) /\
    (forall i, connection_ c = Some i -> S i = length (names c)).
Proof.
  intros Hv. destruct (client_run_inv es _ (new_client_inv name) Hv) as (c & E & [Hk Hn Hc Ha]).
  exists c. split; [done|]. split; [split; [apply Hk|done]|]. split; [done|]. intros i Hi. by apply Hc.
Qed.

(** ** Witness: a client with retry whose first connection is closed reconnects *)
Definition sample_history : list event :=
  [EnableRetry; Connect Connector.in_progress; Connecting (bytes "10.0.0.1:80") (Connector.Io 4 Connector.connected_info);
   Connecting [] (Connector.RunFunctor Connector.refused); Closed Connector.in_progress; RunDestroy;
   Connecting (bytes "10.0.0.1:80") (Connector.Io 4 Connector.connected_info)].

Lemma client_correct_witness :
  exists c, client_run sample_history (new_client (bytes "c")) = Ok c /\
    names c = [bytes "c:10.0.0.1:80#1"; bytes "c:10.0.0.1:80#2"] /\
    seq 0 (length (names c)) ≡ₚ destroyed c ++ dying c ++ option_list (connection_ c).
Proof.
  destruct (client_correct (bytes "c") sample_history) as (c & E & _ & Ha & _).
  - cbn [valid_events sample_history].
    repeat (split; [vm_compute; repeat split; congruence|let E := fresh in intros ? E; vm_compute in E; injection E as <-]).
    exact I.
  - exists c. split; [exact E|]. split; [|exact Ha]. vm_compute in E. injection E as <-. reflexivity.
Defined.

(** ** Limits *)

(** [connName] is built in 32 bytes: when the peer's text has 30 characters or
    more, as for most IPv6 addresses, the connection's number is cut off, and
    all connections to that peer have one name. *)
Theorem connName_cut peer c id :
  30 <= zlen peer -> connName peer (set_names id (names c) c) = connName peer c.
Proof.
  intros Hp. unfold connName, snprintf. cbn [name_ nextConnId_ set_names]. f_equal.
  assert (forall l : list byte, ztake (30 - zlen peer) l = []) as Hz.
  { intros l. unfold ztake. by replace (Z.to_nat (30 - zlen peer)) with 0%nat by lia. }
  rewrite !(ztake_app (32 - 1)) by lia. change (32 - 1 - zlen (bytes ":")) with 30. f_equal.
  rewrite !(ztake_app 30) by lia. by rewrite !Hz.
Qed.

(** A client whose connection was closed cannot connect again by hand: its
    connector still is in the state [kConnected], and [startInLoop]'s assertion
    fails. *)
Theorem connect_again_asserts :
  client_run [Connect Connector.in_progress; Connecting (bytes "10.0.0.1:80") (Connector.Io 4 Connector.connected_info);
    Connecting [] (Connector.RunFunctor Connector.refused); Closed Connector.in_progress; RunDestroy;
    Connect Connector.in_progress] (new_client (bytes "c")) = Err AssertFail.
Proof. vm_compute. reflexivity. Qed.
End TcpClient.
