(* ===== verification/ConnectionLifetime.v ===== *)
(** * Who keeps a connection alive
    ([src/net/TcpClient.cpp] destructor, [src/net/TcpConnection.cpp],
    [src/base/WeakCallback.h])

    A [TcpConnection] lives as long as somebody owns it: its client's
    [connection_], references of users, calls of users that are in progress, and
    functors of the loop that hold a [shared_ptr].  Other functors hold a plain
    [this], timers hold a [WeakCallback], and the channel is tied weakly.  This
    file follows one connection of a [TcpClient] through the end of either of
    them: the state and the interest of its channel, its owners, and the functors
    that are queued, running, or run but not yet destroyed.  The bytes it
    carries are followed in [TcpConnection].

    A callback that runs holds a reference like a user does ([UserTakes],
    [UserDrops]).  The epoll poller is followed; the poll poller reports less. *)

From S2P Require Import Prelude TcpConnection.

Module ConnectionLifetime.
Import TcpConnection(StateE(..), StateE_eq_dec).

(** [closeCallback_]: the client's [removeConnection], bound to the client, or
    [detail::removeConnection], bound to the loop. *)
Inductive CloseCallback := ClientRemove | DetailRemove.

(** Functors of the loop.  [FUserCallback] is a [writeCompleteCallback_] or a
    [highWaterMarkCallback_].  The last four are bound to a plain [this]; the others
    own the connection. *)
Inductive functor :=
  | FSetCloseCallback
  | FForceCloseInLoop
  | FConnectDestroyed
  | FUserCallback
  | FSendInLoop
  | FShutdownInLoop
  | FStartReadInLoop
  | FStopReadInLoop.

#[global] Instance functor_dec : EqDecision functor.
Proof. solve_decision. Defined.

Definition owning (f : functor) : bool :=
  match f with FSetCloseCallback | FForceCloseInLoop | FConnectDestroyed | FUserCallback => true | _ => false end.

(** Calls of users. *)
Inductive call := Send | Shutdown | ForceClose | ForceCloseWithDelay | StartRead | StopRead.

(** What the socket does with the data of a [sendInLoop]. *)
Inductive written := All | Part | Fault.

(** The channel: [watched] if its descriptor is in the epoll set (index [kAdded]). *)
Record Channel := mkChannel { addedToLoop_ : bool; watched : bool; isReading : bool; isWriting : bool }.

Record world := mkWorld {
  state_ : StateE;
  reading_ : bool;
  channel_ : Channel;
  closeCallback_ : CloseCallback;
  alive : bool;                (* the connection has not been deleted *)
  in_handleClose : bool;       (* [handleClose] is in the user's callback; [guardThis] *)
  client : bool;               (* the client has not been deleted *)
  connection_ : bool;          (* the client owns the connection *)
  users : nat;                 (* references of users *)
  calls : list call;           (* calls of other threads that have passed their test *)
  queue : list functor;        (* [pendingFunctors_] *)
  batch : option (list functor * list functor);
                               (* in [doPendingFunctors]: what it has still to run, and has run *)
  timers : nat;                (* weak callbacks of [forceCloseWithDelay] *)
  destroys : nat;              (* calls of [connectDestroyed] *)
  stopped : bool               (* the connector has been stopped, and a timer keeps it for a second *)
}.

(** The connection is up and its client has it. *)
Definition established : world :=
  mkWorld kConnected true (mkChannel true true true false) ClientRemove true false true true 0 [] [] None 0 0 false.

Definition set_state (x : StateE) (w : world) : world :=
  mkWorld x (reading_ w) (channel_ w) (closeCallback_ w) (alive w) (in_handleClose w) (client w) (connection_ w) (users w)
    (calls w) (queue w) (batch w) (timers w) (destroys w) (stopped w).
Definition set_reading (x : bool) (w : world) : world :=
  mkWorld (state_ w) x (channel_ w) (closeCallback_ w) (alive w) (in_handleClose w) (client w) (connection_ w) (users w)
    (calls w) (queue w) (batch w) (timers w) (destroys w) (stopped w).
Definition set_channel (x : Channel) (w : world) : world :=
  mkWorld (state_ w) (reading_ w) x (closeCallback_ w) (alive w) (in_handleClose w) (client w) (connection_ w) (users w)
    (calls w) (queue w) (batch w) (timers w) (destroys w) (stopped w).
Definition setCloseCallback (x : CloseCallback) (w : world) : world :=
  mkWorld (state_ w) (reading_ w) (channel_ w) x (alive w) (in_handleClose w) (client w) (connection_ w) (users w)
    (calls w) (queue w) (batch w) (timers w) (destroys w) (stopped w).
Definition deleted (w : world) : world :=
  mkWorld (state_ w) (reading_ w) (channel_ w) (closeCallback_ w) false (in_handleClose w) (client w) (connection_ w) (users w)
    (calls w) (queue w) (batch w) (timers w) (destroys w) (stopped w).
Definition set_guard (x : bool) (w : world) : world :=
  mkWorld (state_ w) (reading_ w) (channel_ w) (closeCallback_ w) (alive w) x (client w) (connection_ w) (users w)
    (calls w) (queue w) (batch w) (timers w) (destroys w) (stopped w).
Definition set_client (c o : bool) (w : world) : world :=
  mkWorld (state_ w) (reading_ w) (channel_ w) (closeCallback_ w) (alive w) (in_handleClose w) c o (users w)
    (calls w) (queue w) (batch w) (timers w) (destroys w) (stopped w).
Definition set_users (x : nat) (w : world) : world :=
  mkWorld (state_ w) (reading_ w) (channel_ w) (closeCallback_ w) (alive w) (in_handleClose w) (client w) (connection_ w) x
    (calls w) (queue w) (batch w) (timers w) (destroys w) (stopped w).
Definition set_calls (x : list call) (w : world) : world :=
  mkWorld (state_ w) (reading_ w) (channel_ w) (closeCallback_ w) (alive w) (in_handleClose w) (client w) (connection_ w) (users w)
    x (queue w) (batch w) (timers w) (destroys w) (stopped w).
Definition set_functors (q : list functor) (b : option (list functor * list functor)) (w : world) : world :=
  mkWorld (state_ w) (reading_ w) (channel_ w) (closeCallback_ w) (alive w) (in_handleClose w) (client w) (connection_ w) (users w)
    (calls w) q b (timers w) (destroys w) (stopped w).
Definition set_timers (x : nat) (w : world) : world :=
  mkWorld (state_ w) (reading_ w) (channel_ w) (closeCallback_ w) (alive w) (in_handleClose w) (client w) (connection_ w) (users w)
    (calls w) (queue w) (batch w) x (destroys w) (stopped w).
Definition destroyed_once_more (w : world) : world :=
  mkWorld (state_ w) (reading_ w) (channel_ w) (closeCallback_ w) (alive w) (in_handleClose w) (client w) (connection_ w) (users w)
    (calls w) (queue w) (batch w) (timers w) (S (destroys w)) (stopped w).

(** [connector_->stop()] and the timer that keeps the connector. *)
Definition stop_connector (w : world) : world :=
  mkWorld (state_ w) (reading_ w) (channel_ w) (closeCallback_ w) (alive w) (in_handleClose w) (client w) (connection_ w) (users w)
    (calls w) (queue w) (batch w) (timers w) (destroys w) true.

Definition queueInLoop (f : functor) (w : world) : world :=
  set_functors (queue w ++ [f]) (batch w) w.

Definition todo (w : world) : list functor := from_option fst [] (batch w).
Definition ran (w : world) : list functor := from_option snd [] (batch w).

(** The functors that are still to run, in order. *)
Definition pending (w : world) : list functor := todo w ++ queue w.

(** [use_count()] *)
Definition owners (w : world) : nat :=
  ((if connection_ w then 1 else 0) + (if in_handleClose w then 1 else 0) + users w + length (calls w) +
   length (filter (fun f => owning f = true) (ran w ++ pending w)))%nat.

(** A reference has gone: without owners the connection is deleted.
    [~TcpConnection] asserts that it is disconnected, [~Channel] that it is not
    in the loop any more. *)
Definition release (w : world) : outcome world :=
  if alive w && (owners w =? 0)%nat then
    assert_ (bool_decide (state_ w = kDisconnected));;
    assert_ (negb (addedToLoop_ (channel_ w)));;
    Ok (deleted w)
  else Ok w.

(** An access to the connection, or to the client. *)
Definition touch (w : world) : outcome unit := in_bounds (alive w).
Definition touch_client (w : world) : outcome unit := in_bounds (client w).

(** ** The channel *)

Definition isNoneEvent (c : Channel) : bool := negb (isReading c) && negb (isWriting c).

(** [Channel::update] with [EPollPoller::updateChannel]: a channel that is not in
    the epoll set is added, with whatever interest it has; one that is in it is
    taken out when it has no interest. *)
Definition update (c : Channel) : Channel :=
  mkChannel true (negb (watched c && isNoneEvent c)) (isReading c) (isWriting c).

Definition enableReading (c : Channel) : Channel := update (mkChannel (addedToLoop_ c) (watched c) true (isWriting c)).
Definition disableReading (c : Channel) : Channel := update (mkChannel (addedToLoop_ c) (watched c) false (isWriting c)).
Definition enableWriting (c : Channel) : Channel := update (mkChannel (addedToLoop_ c) (watched c) (isReading c) true).
Definition disableWriting (c : Channel) : Channel := update (mkChannel (addedToLoop_ c) (watched c) (isReading c) false).
Definition disableAll (c : Channel) : Channel := update (mkChannel (addedToLoop_ c) (watched c) false false).

(** [Channel::remove] with [EPollPoller::removeChannel], which asserts that it has
    the channel. *)
Definition remove (c : Channel) : outcome Channel :=
  assert_ (isNoneEvent c);;
  assert_ (addedToLoop_ c);;
  Ok (mkChannel false false false false).

(** ** The connection *)

Definition up_state (w : world) : bool := bool_decide (state_ w = kConnected \/ state_ w = kDisconnecting).

(** [sendInLoop]: the output buffer holds data exactly while the channel is
    writing ([TcpConnection]); [cb] if a callback is set that has to be queued. *)
Definition sendInLoop (k : written) (cb : bool) (w : world) : outcome world :=
  touch w;;
  if decide (state_ w = kDisconnected) then Ok w else
  let callback w := if cb then queueInLoop FUserCallback w else w in
  match (if isWriting (channel_ w) then Part else k) with
  | All => Ok (callback w)
  | Fault => Ok w
  | Part => Ok (if isWriting (channel_ w) then callback w else set_channel (enableWriting (channel_ w)) (callback w))
  end.

(** Shuts down the socket's write side or not: nothing that is followed here. *)
Definition shutdownInLoop (w : world) : outcome world := touch w;; Ok w.

Definition startReadInLoop (w : world) : outcome world :=
  touch w;;
  Ok (if negb (reading_ w) || negb (isReading (channel_ w))
      then set_reading true (set_channel (enableReading (channel_ w)) w) else w).

Definition stopReadInLoop (w : world) : outcome world :=
  touch w;;
  Ok (if reading_ w || isReading (channel_ w)
      then set_reading false (set_channel (disableReading (channel_ w)) w) else w).

(** A call of a user tests [state_], and goes on if the test holds; [here] if it
    is made in the loop's thread. *)
Definition test (c : call) (w : world) : bool :=
  match c with
  | Send | Shutdown => bool_decide (state_ w = kConnected)
  | ForceClose | ForceCloseWithDelay => up_state w
  | StartRead | StopRead => true
  end.

Definition runInLoop (here : bool) (f : functor) (body : world -> outcome world) (w : world) : outcome world :=
  if here then body w else Ok (queueInLoop f w).

Definition send (here : bool) (k : written) (cb : bool) : world -> outcome world :=
  runInLoop here FSendInLoop (sendInLoop k cb).

Definition shutdown (here : bool) (w : world) : outcome world :=
  runInLoop here FShutdownInLoop shutdownInLoop (set_state kDisconnecting w).

Definition startRead (here : bool) : world -> outcome world := runInLoop here FStartReadInLoop startReadInLoop.
Definition stopRead (here : bool) : world -> outcome world := runInLoop here FStopReadInLoop stopReadInLoop.

Definition act (here : bool) (c : call) (k : written) (cb : bool) (w : world) : outcome world :=
  touch w;;
  match c with
  | Send => send here k cb w
  | Shutdown => shutdown here w
  | ForceClose => Ok (queueInLoop FForceCloseInLoop (set_state kDisconnecting w))
  | ForceCloseWithDelay => Ok (set_timers (S (timers w)) (set_state kDisconnecting w))
  | StartRead => startRead here w
  | StopRead => stopRead here w
  end.

Definition forceClose (w : world) : outcome world :=
  touch w;;
  if test ForceClose w then act true ForceClose All false w else Ok w.

(** [WeakCallback::operator()] of a timer: locks the weak pointer, and calls if
    there is still an object. *)
Definition weak_call (w : world) : outcome world :=
  if alive w then w ← forceClose w; release w else Ok w.

(** [TcpClient::removeConnection] and [detail::removeConnection] *)
Definition removeConnection (w : world) : outcome world :=
  match closeCallback_ w with
  | ClientRemove =>
      touch_client w;;
      assert_ (connection_ w);;
      Ok (queueInLoop FConnectDestroyed (set_client (client w) false w))
  | DetailRemove => Ok (queueInLoop FConnectDestroyed w)
  end.

(** [handleClose] up to the call of [connectionCallback_], and from its return;
    [guardThis] owns the connection in between. *)
Definition handleClose (w : world) : outcome world :=
  touch w;;
  assert_ (up_state w);;
  Ok (set_guard true (set_channel (disableAll (channel_ w)) (set_state kDisconnected w))).

Definition handleClose_returns (w : world) : outcome world :=
  touch w;;
  w ← removeConnection w;
  release (set_guard false w).

Definition connectDestroyed (w : world) : outcome world :=
  touch w;;
  let w := if decide (state_ w = kConnected)
           then set_channel (disableAll (channel_ w)) (set_state kDisconnected w) else w in
  c ← remove (channel_ w);
  Ok (destroyed_once_more (set_channel c w)).

(** [handleWrite]; [all] if the socket takes the whole output buffer. *)
Definition handleWrite (all cb : bool) (w : world) : outcome world :=
  touch w;;
  Ok (if isWriting (channel_ w) && all
      then let w := set_channel (disableWriting (channel_ w)) w in
           if cb then queueInLoop FUserCallback w else w
      else w).

(** ** The loop and the client *)

Definition run_functor (f : functor) (k : written) (cb : bool) (w : world) : outcome world :=
  match f with
  | FSetCloseCallback => touch w;; Ok (setCloseCallback DetailRemove w)
  | FForceCloseInLoop => touch w;; if up_state w then handleClose w else Ok w
  | FConnectDestroyed => connectDestroyed w
  | FUserCallback => touch w;; Ok w
  | FSendInLoop => sendInLoop k cb w
  | FShutdownInLoop => shutdownInLoop w
  | FStartReadInLoop => startReadInLoop w
  | FStopReadInLoop => stopReadInLoop w
  end.

(** [~TcpClient] in the loop's thread: the functor that replaces the callback
    runs at once. *)
Definition client_dtor (w : world) : outcome world :=
  touch_client w;;
  let unique := connection_ w && (owners w =? 1)%nat in
  w ← (if connection_ w
       then (if unique then forceClose (setCloseCallback DetailRemove w) else Ok (setCloseCallback DetailRemove w))
       else Ok (stop_connector w));
  release (set_client false false w).

(** The same in another thread, up to the end of the client: the functor is
    queued. *)
Definition client_dtor_other (w : world) : outcome world :=
  touch_client w;;
  let unique := connection_ w && (owners w =? 1)%nat in
  w ← (if connection_ w
       then (let w := queueInLoop FSetCloseCallback w in if unique then forceClose w else Ok w)
       else Ok (stop_connector w));
  release (set_client false false w).

Inductive event :=
  | PeerCloses                              (* the poller reports it *)
  | Writable (all cb : bool)
  | CloseReturns                            (* [connectionCallback_] returns to [handleClose] *)
  | StartBatch                              (* [doPendingFunctors] takes the queue *)
  | RunFunctor (k : written) (cb : bool)
  | EndBatch                                (* [doPendingFunctors] destroys what it has run *)
  | TimerFires
  | UserTakes                               (* a user keeps a reference *)
  | UserDrops
  | UserCalls (c : call) (k : written) (cb : bool)   (* in the loop's thread *)
  | UserTests (c : call)                    (* in another thread *)
  | UserActs (i : nat)                      (* such a call goes on *)
  | ClientDtor
  | ClientDtorOther.

(** The loop's thread is with its poller. *)
Definition polling (w : world) : bool := bool_decide (batch w = None) && negb (in_handleClose w).

(** The report of a close may date from before the channel was disabled. *)
Definition lifetime_step (e : event) (w : world) : outcome world :=
  match e with
  | PeerCloses =>
      if polling w && alive w && addedToLoop_ (channel_ w) && (watched (channel_ w) || up_state w)
      then handleClose w else Ok w
  | Writable all cb =>
      if polling w && alive w && watched (channel_ w) && isWriting (channel_ w) then handleWrite all cb w else Ok w
  | CloseReturns => if in_handleClose w then handleClose_returns w else Ok w
  | StartBatch => Ok (if polling w then set_functors [] (Some (queue w, [])) w else w)
  | RunFunctor k cb =>
      match batch w with
      | Some (f :: t, r) =>
          if in_handleClose w then Ok w else run_functor f k cb (set_functors (queue w) (Some (t, r ++ [f])) w)
      | _ => Ok w
      end
  | EndBatch =>
      match batch w with
      | Some ([], _) => if in_handleClose w then Ok w else release (set_functors (queue w) None w)
      | _ => Ok w
      end
  | TimerFires =>
      match timers w with
      | O => Ok w
      | S n => if polling w then weak_call (set_timers n w) else Ok w
      end
  | UserTakes => Ok (if alive w && (0 <? owners w)%nat then set_users (S (users w)) w else w)
  | UserDrops => match users w with O => Ok w | S n => release (set_users n w) end
  | UserCalls c k cb => match users w with O => Ok w | S _ => touch w;; if test c w then act true c k cb w else Ok w end
  | UserTests c => match users w with O => Ok w | S _ => touch w;; Ok (if test c w then set_calls (calls w ++ [c]) w else w) end
  | UserActs i =>
      match calls w !! i with
      | None => Ok w
      | Some c => w ← act false c All false w; release (set_calls (delete i (calls w)) w)
      end
  | ClientDtor => if client w then client_dtor w else Ok w
  | ClientDtorOther => if client w then client_dtor_other w else Ok w
  end.

Fixpoint lifetime_run (es : list event) (w : world) : outcome world :=
  match es with
  | [] => Ok w
  | e :: es => w ← lifetime_step e w; lifetime_run es w
  end.

(** ** What users owe

    Every condition is needed: the theorems at the end of this file break them
    one by one. *)

Definition rereads (f : functor) : bool :=
  match f with FStartReadInLoop | FStopReadInLoop => true | _ => false end.

(** A close finds the channel enabled, and no [startRead] or [stopRead] of another
    thread on its way. *)
Definition may_close (w : world) : Prop :=
  state_ w <> kDisconnected -> isNoneEvent (channel_ w) = false /\ Forall (fun f => rereads f = false) (pending w).

(** [PeerCloses], [RunFunctor]: a close comes when it may.  [UserDrops]: a user
    that has the last reference after the client has gone closes the connection
    before it drops it.  [UserCalls]: reading is not started or stopped on a
    closed connection.  [UserActs]: the connection is not closed between the test
    of a call in another thread and its effect.  [ClientDtor]: the client shares
    the connection with users, or not at all, or it is closed or about to be.
    [ClientDtorOther]: the client is destroyed in its loop's thread. *)
Definition valid_event (e : event) (w : world) : Prop :=
  match e with
  | PeerCloses => may_close w
  | RunFunctor _ _ => head (todo w) = Some FForceCloseInLoop -> may_close w
  | UserDrops => client w = true \/ (1 < users w)%nat \/ state_ w = kDisconnected \/ FForceCloseInLoop ∈ pending w
  | UserCalls StartRead _ _ | UserCalls StopRead _ _ | UserActs _ => state_ w <> kDisconnected
  | ClientDtor => owners w = 1%nat \/ (0 < users w)%nat \/ state_ w = kDisconnected \/ FForceCloseInLoop ∈ pending w
  | ClientDtorOther => False
  | _ => True
  end.

Fixpoint valid_events (es : list event) (w : world) : Prop :=
  match es with
  | [] => True
  | e :: es => valid_event e w /\ forall w', lifetime_step e w = Ok w' -> valid_events es w'
  end.

(** ** The phases of a connection *)

Definition ordinary (f : functor) : Prop := f <> FSetCloseCallback /\ f <> FConnectDestroyed.
Definition quiet (f : functor) : Prop := ordinary f /\ rereads f = false.

(** The client and the close callback belong together. *)
Definition bound (w : world) : Prop :=
  if client w then connection_ w = true /\ closeCallback_ w = ClientRemove
  else connection_ w = false /\ closeCallback_ w = DetailRemove.

Definition open (w : world) : Prop :=
  alive w = true /\ up_state w = true /\ addedToLoop_ (channel_ w) = true /\
  (isNoneEvent (channel_ w) = false -> watched (channel_ w) = true) /\ destroys w = 0%nat /\ in_handleClose w = false /\
  Forall ordinary (pending w) /\ bound w.

(** Open, and somebody keeps it alive. *)
Definition kept (w : world) : Prop :=
  client w = false -> (0 < users w)%nat \/ FForceCloseInLoop ∈ pending w.

(** Closed, and still in the loop. *)
Definition closed_channel : Channel := mkChannel true false false false.

(** In the user's callback of [handleClose]. *)
Definition called_back (w : world) : Prop :=
  alive w = true /\ state_ w = kDisconnected /\ channel_ w = closed_channel /\ destroys w = 0%nat /\
  in_handleClose w = true /\ Forall quiet (pending w) /\ bound w.

(** Waiting for [connectDestroyed]. *)
Definition closing (w : world) : Prop :=
  alive w = true /\ state_ w = kDisconnected /\ channel_ w = closed_channel /\ destroys w = 0%nat /\
  in_handleClose w = false /\ connection_ w = false /\
  exists q, pending w = q ++ [FConnectDestroyed] /\ Forall quiet q.

(** Removed from the loop; the object exists while somebody has it. *)
Definition removed (w : world) : Prop :=
  alive w = bool_decide (owners w <> 0%nat) /\ state_ w = kDisconnected /\
  channel_ w = mkChannel false false false false /\ destroys w = 1%nat /\
  in_handleClose w = false /\ connection_ w = false /\ pending w = [].

Definition inv (w : world) : Prop := (open w /\ kept w) \/ called_back w \/ closing w \/ removed w.

Lemma release_owned w : (0 < owners w)%nat -> release w = Ok w.
Proof. intros H. unfold release. destruct (Nat.eqb_spec (owners w) 0); [lia|]. by rewrite andb_false_r. Qed.

Lemma owners_functor f w : f ∈ ran w ++ pending w -> owning f = true -> (0 < owners w)%nat.
Proof.
  intros Hin Hf. unfold owners. assert (f ∈ filter (fun f => owning f = true) (ran w ++ pending w)) as H
    by by apply list_elem_of_filter.
  destruct (filter _ (ran w ++ pending w)); [by apply elem_of_nil in H|cbn; lia].
Qed.

Lemma owners_pending f w : f ∈ pending w -> owning f = true -> (0 < owners w)%nat.
Proof. intros. apply (owners_functor f); [|done]. apply elem_of_app. by right. Qed.

Lemma open_owned w : open w -> kept w -> (0 < owners w)%nat.
Proof.
  intros (_ & _ & _ & _ & _ & _ & _ & H) Hk. unfold bound in H. unfold kept in Hk.
  destruct (client w); [destruct H as [H _]; unfold owners; rewrite H; lia|].
  destruct (Hk eq_refl) as [?|?]; [unfold owners; lia|by eapply owners_pending].
Qed.

Lemma called_back_owned w : called_back w -> (0 < owners w)%nat.
Proof. intros (_ & _ & _ & _ & H & _). unfold owners. rewrite H. lia. Qed.

Lemma closing_owned w : closing w -> (0 < owners w)%nat.
Proof.
  intros (_ & _ & _ & _ & _ & _ & q & E & _). eapply (owners_pending FConnectDestroyed); [|done].
  rewrite E, elem_of_app. right. by constructor.
Qed.

Lemma pending_queue f w : pending (queueInLoop f w) = pending w ++ [f].
Proof. unfold pending. cbn. apply app_assoc. Qed.

(** ** Steps of an open connection *)

(** What keeps the connection alive is not touched. *)
Definition keeps (w w' : world) : Prop :=
  client w' = client w /\ users w' = users w /\ (FForceCloseInLoop ∈ pending w -> FForceCloseInLoop ∈ pending w').

Lemma kept_keeps w w' : keeps w w' -> kept w -> kept w'.
Proof. intros (Hc & Hu & Hf) Hk. unfold kept. rewrite Hc, Hu. intros E. destruct (Hk E); auto. Qed.

Lemma keeps_trans w1 w2 w3 : keeps w1 w2 -> keeps w2 w3 -> keeps w1 w3.
Proof. intros (? & ? & ?) (? & ? & ?). split_and!; [congruence..|auto]. Qed.

Lemma open_queue f w : open w -> ordinary f -> open (queueInLoop f w) /\ keeps w (queueInLoop f w).
Proof.
  intros (? & ? & ? & ? & ? & ? & Hp & ?) Hf. split.
  - unfold open. rewrite pending_queue. split_and!; try done. apply Forall_app_2; [done|by apply Forall_singleton].
  - split_and!; [done..|]. rewrite pending_queue. intros. apply elem_of_app. by left.
Qed.

Lemma open_update c w : open w -> open (set_channel (update c) w) /\ keeps w (set_channel (update c) w).
Proof.
  intros (? & ? & ? & ? & ? & ? & ? & ?). split; [|done]. unfold open. cbn. split_and!; try done.
  unfold isNoneEvent. cbn. intros ->. by rewrite andb_false_r.
Qed.

Lemma open_disconnecting w : open w -> open (set_state kDisconnecting w) /\ keeps w (set_state kDisconnecting w).
Proof. intros (? & ? & ? & ? & ? & ? & ? & ?). split; [|done]. by unfold open. Qed.

Lemma open_touch w : open w -> touch w = Ok tt.
Proof. intros (Ha & _). unfold touch. by rewrite in_bounds_true. Qed.

Lemma open_connected w : open w -> state_ w <> kDisconnected.
Proof. intros (_ & Hs & _). apply bool_decide_eq_true in Hs. destruct Hs; congruence. Qed.

(** The routines of the connection, but for closing it. *)
Definition stays_open (r : outcome world) (w : world) : Prop := exists w', r = Ok w' /\ open w' /\ keeps w w'.

Lemma stays_self w : open w -> stays_open (Ok w) w.
Proof. intros H. exists w. by split_and!. Qed.

Lemma sendInLoop_open k cb w : open w -> stays_open (sendInLoop k cb w) w.
Proof.
  intros Ho. unfold sendInLoop. rewrite open_touch by done. bind_simpl. rewrite decide_False by by apply open_connected.
  set (w1 := if cb then queueInLoop FUserCallback w else w).
  assert (open w1 /\ keeps w w1) as [Ho1 Hk1] by (unfold w1; destruct cb; [by apply open_queue|done]).
  assert (stays_open (Ok w1) w) as H1 by by exists w1.
  destruct (isWriting (channel_ w)); [done|]. destruct k; [done| |by apply stays_self].
  eexists. split; [done|]. destruct (open_update (mkChannel (addedToLoop_ (channel_ w)) (watched (channel_ w)) (isReading (channel_ w)) true) w1 Ho1).
  split; [done|]. by eapply keeps_trans.
Qed.

Lemma shutdownInLoop_open w : open w -> stays_open (shutdownInLoop w) w.
Proof. intros Ho. unfold shutdownInLoop. rewrite open_touch by done. by apply stays_self. Qed.

Lemma startReadInLoop_open w : open w -> stays_open (startReadInLoop w) w.
Proof.
  intros Ho. unfold startReadInLoop. rewrite open_touch by done. bind_simpl. destruct (_ || _); [|by apply stays_self].
  eexists. split; [done|]. by apply open_update.
Qed.

Lemma stopReadInLoop_open w : open w -> stays_open (stopReadInLoop w) w.
Proof.
  intros Ho. unfold stopReadInLoop. rewrite open_touch by done. bind_simpl. destruct (_ || _); [|by apply stays_self].
  eexists. split; [done|]. by apply open_update.
Qed.

Lemma handleWrite_open all cb w : open w -> stays_open (handleWrite all cb w) w.
Proof.
  intros Ho. unfold handleWrite. rewrite open_touch by done. bind_simpl. destruct (_ && all); [|by apply stays_self].
  set (w1 := set_channel _ w). assert (open w1 /\ keeps w w1) as [Ho1 Hk1] by by apply open_update.
  destruct cb; [|by exists w1]. destruct (open_queue FUserCallback w1 Ho1) as [? ?]; [done|].
  eexists. split; [done|]. split; [done|]. by eapply keeps_trans.
Qed.

Lemma act_open here c k cb w : open w -> stays_open (act here c k cb w) w.
Proof.
  intros Ho. unfold act. rewrite open_touch by done. bind_simpl. destruct (open_disconnecting w Ho) as [Hd Hkd].
  assert (forall f, ordinary f -> stays_open (Ok (queueInLoop f w)) w) as Hq.
  { intros f Hf. eexists. split; [done|]. by apply open_queue. }
  assert (forall f, ordinary f -> stays_open (Ok (queueInLoop f (set_state kDisconnecting w))) w) as Hqd.
  { intros f Hf. eexists. split; [done|]. destruct (open_queue f _ Hd Hf). split; [done|]. by eapply keeps_trans. }
  unfold send, shutdown, startRead, stopRead, runInLoop.
  destruct c; try destruct here; auto using sendInLoop_open, startReadInLoop_open, stopReadInLoop_open;
    try first [by apply Hq|by apply Hqd].
  1: unfold shutdownInLoop; rewrite open_touch by done; bind_simpl.
  all: by eexists.
Qed.

Lemma forceClose_open w : open w ->
  exists w', forceClose w = Ok w' /\ open w' /\ keeps w w' /\ FForceCloseInLoop ∈ pending w' /\ connection_ w' = connection_ w.
Proof.
  intros Ho. unfold forceClose. rewrite open_touch by done. bind_simpl. pose proof Ho as (_ & Hs & _). cbn [test]. rewrite Hs.
  destruct (act_open true ForceClose All false w Ho) as (w' & E & Ho' & Hk'). exists w'. split_and!; try done.
  all: unfold act in E; rewrite open_touch in E by done; injection E as <-; try done.
  rewrite pending_queue. apply elem_of_app. right. by constructor.
Qed.

(** Closing. *)
Lemma handleClose_open w : open w -> may_close w -> exists w', handleClose w = Ok w' /\ called_back w'.
Proof.
  intros Ho Hm. destruct (Hm (open_connected w Ho)) as [Hn Hr]. unfold handleClose. rewrite open_touch by done. bind_simpl.
  destruct Ho as (Ha & Hs & Had & Hw & Hd & Hg & Hp & Hb). rewrite Hs, assert_true by done. bind_simpl. eexists. split; [done|].
  unfold called_back, closed_channel, disableAll, update, isNoneEvent. cbn. rewrite Hw by done. split_and!; try done.
  by apply Forall_and.
Qed.

(** ** Every step keeps to the phases *)

(** An outcome of a step that is all right. *)
Definition fine (r : outcome world) : Prop := exists w, r = Ok w /\ inv w.

Lemma fine_open w : open w -> kept w -> fine (Ok w).
Proof. intros. exists w. split; [done|]. by left. Qed.

Lemma fine_called_back w : called_back w -> fine (Ok w).
Proof. intros. exists w. split; [done|]. by right; left. Qed.

Lemma fine_closing w : closing w -> fine (Ok w).
Proof. intros. exists w. split; [done|]. by right; right; left. Qed.

Lemma fine_removed w : removed w -> fine (Ok w).
Proof. intros. exists w. split; [done|]. by right; right; right. Qed.

Lemma fine_stays r w : stays_open r w -> kept w -> fine r.
Proof. intros (w' & -> & Ho & Hk) Hw. apply fine_open; [done|]. by eapply kept_keeps. Qed.

Lemma run_functor_open f k cb w : open w -> ordinary f -> f <> FForceCloseInLoop -> stays_open (run_functor f k cb w) w.
Proof.
  intros Ho Hf Hnf. assert (touch w = Ok tt) as Ht by by apply open_touch.
  destruct f; cbn [run_functor]; rewrite ?Ht; bind_simpl;
    auto using stays_self, sendInLoop_open, shutdownInLoop_open, startReadInLoop_open, stopReadInLoop_open.
  - by destruct Hf.
  - done.
  - by destruct Hf.
Qed.

(** The next functor of the batch. *)
Lemma run_functor_step f t r k cb w : batch w = Some (f :: t, r) -> open w -> kept w ->
  (f = FForceCloseInLoop -> may_close w) -> fine (run_functor f k cb (set_functors (queue w) (Some (t, r ++ [f])) w)).
Proof.
  intros Et Ho Hk Hm. set (w1 := set_functors _ _ w). assert (pending w = f :: pending w1) as Ep by by (unfold pending, todo; rewrite Et).
  pose proof Ho as (Ha & Hs & Had & Hw & Hd & Hg & Hp & Hb). rewrite Ep in Hp. apply Forall_cons in Hp as [Hf Hp].
  assert (open w1) as Ho1 by (unfold open; by split_and!). destruct (decide (f = FForceCloseInLoop)) as [->|Hnf].
  - cbn [run_functor]. rewrite open_touch by done. bind_simpl. change (up_state w1) with (up_state w). rewrite Hs.
    destruct (handleClose_open w1 Ho1) as (w' & -> & H'); [|by apply fine_called_back].
    intros Hne. destruct (Hm eq_refl Hne) as [Hn Hr]. rewrite Ep in Hr. split; [done|]. by apply Forall_cons in Hr as [_ ?].
  - apply (fine_stays _ w1); [by apply run_functor_open|]. intros Hc. destruct (Hk Hc) as [?|Hin]; [by left|right].
    rewrite Ep in Hin. apply elem_of_cons in Hin as [?|?]; [congruence|done].
Qed.

Lemma set_batch_open q b w : open w -> kept w -> from_option fst [] b ++ q = pending w ->
  open (set_functors q b w) /\ kept (set_functors q b w).
Proof.
  intros (? & ? & ? & ? & ? & ? & ? & ?) Hk E. split.
  - unfold open, pending, todo. cbn. rewrite E. by split_and!.
  - unfold kept, pending, todo. cbn. by rewrite E.
Qed.

Lemma client_dtor_open w : open w -> kept w -> client w = true -> valid_event ClientDtor w -> fine (client_dtor w).
Proof.
  intros Ho Hk Hc Hv. pose proof Ho as (Ha & Hs & Had & Hw & Hd & Hg & Hp & Hb). unfold bound in Hb. rewrite Hc in Hb.
  destruct Hb as [Hcn Hcb]. unfold client_dtor, touch_client. rewrite Hc, Hcn. cbn [in_bounds andb]. bind_simpl.
  assert (forall w', open w' -> connection_ w' = true -> closeCallback_ w' = ClientRemove -> 
    (0 < users w')%nat \/ FForceCloseInLoop ∈ pending w' ->
    fine (release (set_client false false (setCloseCallback DetailRemove w')))) as Hend.
  { intros w' (? & ? & ? & ? & ? & ? & ? & ?) ? ? Hk'. set (w2 := set_client _ _ _).
    assert (open w2) by by (unfold open; split_and!). assert (kept w2) by by intros _.
    rewrite release_owned by by apply open_owned. by apply fine_open. }
  destruct (Nat.eqb_spec (owners w) 1) as [E1|E1].
  - change (forceClose (setCloseCallback DetailRemove w)) with
      (touch w;; if up_state w then act true ForceClose All false (setCloseCallback DetailRemove w) else Ok (setCloseCallback DetailRemove w)).
    rewrite open_touch, Hs by done. bind_simpl. unfold act, touch. cbn [alive setCloseCallback]. rewrite Ha. cbn [in_bounds]. bind_simpl.
    change (queueInLoop FForceCloseInLoop (set_state kDisconnecting (setCloseCallback DetailRemove w))) with
      (setCloseCallback DetailRemove (queueInLoop FForceCloseInLoop (set_state kDisconnecting w))).
    apply Hend; try done.
    + apply open_queue; [by apply open_disconnecting|done].
    + right. rewrite pending_queue. apply elem_of_app. right. by constructor.
  - bind_simpl. apply Hend; try done. pose proof (open_connected w Ho). cbn in Hv. naive_solver.
Qed.

Lemma polling_batch w : polling w = true -> batch w = None.
Proof. intros [H _]%andb_prop. by apply bool_decide_eq_true in H. Qed.

Lemma open_step e w : open w -> kept w -> valid_event e w -> fine (lifetime_step e w).
Proof.
  intros Ho Hk Hv. pose proof Ho as (Ha & Hs & Had & Hw & Hd & Hg & Hp & Hb).
  assert (fine (Ok w)) as Hok by by apply fine_open.
  assert (forall w', open w' -> kept w' -> fine (release w')) as Hrel.
  { intros w' H1 H2. rewrite release_owned by by apply open_owned. by apply fine_open. }
  assert (touch w = Ok tt) as Ht by by apply open_touch.
  destruct e as [|all cb| | |k cb| | | | |c k cb|c|i| |]; cbn [lifetime_step].
  - destruct (_ && _); [|done]. destruct (handleClose_open w Ho Hv) as (w' & -> & H'). by apply fine_called_back.
  - destruct (_ && _); [|done]. eapply fine_stays; [by apply handleWrite_open|done].
  - by rewrite Hg.
  - destruct (polling w) eqn:Epl; [|done]. apply polling_batch in Epl.
    apply fine_open; apply set_batch_open; try done; unfold pending, todo; by rewrite Epl, ?app_nil_r.
  - destruct (batch w) as [[[|f t] r]|] eqn:Et; [done| |done]. rewrite Hg. apply run_functor_step; try done.
    intros ->. apply Hv. by unfold todo; rewrite Et.
  - destruct (batch w) as [[[|f t] r]|] eqn:Et; [|done..]. rewrite Hg.
    apply Hrel; apply set_batch_open; try done; by unfold pending, todo; rewrite Et.
  - destruct (timers w) as [|n]; [done|]. destruct (polling w); [|done]. unfold weak_call. cbn [alive set_timers]. rewrite Ha.
    destruct (forceClose_open (set_timers n w) Ho) as (w' & -> & Ho' & Hk' & _). bind_simpl.
    apply Hrel; [done|]. by apply (kept_keeps (set_timers n w)).
  - destruct (_ && _); [|done]. apply fine_open; [done|]. intros _. left. cbn. lia.
  - destruct (users w) as [|n] eqn:Eu; [done|]. apply Hrel; [done|]. intros Hc. cbn in Hv, Hc |- *.
    pose proof (open_connected w Ho). destruct Hv as [Hv|[Hv|[Hv|Hv]]]; [congruence|left; lia|done|by right].
  - destruct (users w) as [|n] eqn:Eu; [done|]. rewrite Ht. bind_simpl. destruct (test c w); [|done].
    eapply fine_stays; [by apply act_open|done].
  - destruct (users w) as [|n] eqn:Eu; [done|]. rewrite Ht. bind_simpl. destruct (test c w); by apply fine_open.
  - destruct (calls w !! i) as [c|]; [|done]. destruct (act_open false c All false w Ho) as (w' & -> & Ho' & Hk'). bind_simpl.
    apply Hrel; [done|]. by apply (kept_keeps w).
  - destruct (client w) eqn:Ec; [|done]. by apply client_dtor_open.
  - done.
Qed.

(** ** After the close *)

Lemma down_state w : state_ w = kDisconnected -> up_state w = false.
Proof. intros Hs. unfold up_state. rewrite Hs. by vm_compute. Qed.

Lemma forceClose_down w : alive w = true -> state_ w = kDisconnected -> forceClose w = Ok w.
Proof.
  intros Ha Hs. unfold forceClose, touch. rewrite in_bounds_true by done. bind_simpl. cbn [test]. by rewrite down_state.
Qed.

(** A call that finds the connection closed does nothing, if it is allowed. *)
Lemma UserCalls_down c k cb w : (users w <> 0%nat -> alive w = true) -> state_ w = kDisconnected ->
  valid_event (UserCalls c k cb) w -> lifetime_step (UserCalls c k cb) w = Ok w.
Proof.
  intros Ha Hs Hv. cbn [lifetime_step]. destruct (users w) eqn:Eu; [done|]. unfold touch. rewrite in_bounds_true by by apply Ha.
  bind_simpl. assert (test c w = false) as ->; [|done].
  destruct c; cbn in *; try done; rewrite ?down_state by done; try done; by rewrite bool_decide_eq_false_2 by congruence.
Qed.

Lemma UserTests_down c w : (users w <> 0%nat -> alive w = true) ->
  lifetime_step (UserTests c) w = Ok w \/
  users w <> 0%nat /\ lifetime_step (UserTests c) w = Ok (set_calls (calls w ++ [c]) w).
Proof.
  intros Ha. cbn [lifetime_step]. destruct (users w) eqn:Eu; [by left|]. unfold touch. rewrite in_bounds_true by by apply Ha.
  bind_simpl. destruct (test c w); auto.
Qed.

Lemma run_functor_quiet f k cb w : alive w = true -> state_ w = kDisconnected -> quiet f -> run_functor f k cb w = Ok w.
Proof.
  intros Ha Hs [[H1 H2] H3]. assert (touch w = Ok tt) as Ht by (unfold touch; by rewrite in_bounds_true).
  destruct f; try done; cbn [run_functor]; unfold sendInLoop, shutdownInLoop; rewrite ?Ht; bind_simpl; try done.
  - by rewrite down_state.
  - by rewrite decide_True.
Qed.

Lemma handleClose_returns_closing w : called_back w -> exists w', handleClose_returns w = Ok w' /\ closing w' /\
  batch w' = batch w /\ queue w' = queue w ++ [FConnectDestroyed] /\ users w' = users w /\ calls w' = calls w.
Proof.
  intros (Ha & Hs & Hc & Hd & Hg & Hp & Hb). unfold handleClose_returns, removeConnection, touch, touch_client.
  rewrite (in_bounds_true (alive w)) by done. bind_simpl.
  assert (forall c, let w1 := set_client c false w in
    release (set_guard false (queueInLoop FConnectDestroyed w1)) = Ok (set_guard false (queueInLoop FConnectDestroyed w1)) /\
    closing (set_guard false (queueInLoop FConnectDestroyed w1))) as Hend.
  { intros c w1. set (w2 := set_guard _ _). assert (closing w2) as Hcl.
    { unfold closing. split_and!; try done. exists (pending w). split; [|done]. apply (pending_queue FConnectDestroyed w1). }
    split; [|done]. by apply release_owned, closing_owned. }
  unfold bound in Hb. destruct (client w) eqn:Ec; destruct Hb as [Hcn ->].
  - rewrite Hcn. cbn [in_bounds assert_]. bind_simpl. destruct (Hend true) as [E Hcl]. eexists. split; [exact E|]. by split_and!.
  - assert (set_client false false w = w) as Ew by (destruct w; cbn in *; by rewrite Ec, Hcn).
    destruct (Hend false) as [E Hcl]. rewrite Ew in *. bind_simpl. eexists. split; [exact E|]. by split_and!.
Qed.

Lemma called_back_step e w : called_back w -> valid_event e w -> fine (lifetime_step e w).
Proof.
  intros Hcb Hv. pose proof Hcb as (Ha & Hs & Hc & Hd & Hg & Hp & Hb).
  assert (fine (Ok w)) as Hok by by apply fine_called_back.
  assert (forall w', called_back w' -> fine (release w')) as Hrel.
  { intros w' H. rewrite release_owned by by apply called_back_owned. by apply fine_called_back. }
  assert (polling w = false) as Hpl by (unfold polling; by rewrite Hg, andb_false_r).
  destruct e as [|all cb| | |k cb| | | | |c k cb|c|i| |]; try (exfalso; by apply Hv);
    try (rewrite UserCalls_down; done); cbn [lifetime_step].
  - by rewrite Hpl.
  - by rewrite Hpl.
  - rewrite Hg. destruct (handleClose_returns_closing w Hcb) as (w' & -> & H' & _). by apply fine_closing.
  - by rewrite Hpl.
  - rewrite Hg. by destruct (batch w) as [[[|f t] r]|].
  - rewrite Hg. by destruct (batch w) as [[[|f t] r]|].
  - rewrite Hpl. by destruct (timers w).
  - destruct (_ && _); [|done]. by apply fine_called_back.
  - destruct (users w) as [|n]; [done|]. by apply Hrel.
  - destruct (UserTests_down c w) as [E|[_ E]]; [done| |]; cbn [lifetime_step] in E; rewrite E; [done|].
    by apply fine_called_back.
  - destruct (client w) eqn:Ec; [|done]. unfold bound in Hb. rewrite Ec in Hb. destruct Hb as [Hcn _].
    unfold client_dtor, touch_client. rewrite Ec, Hcn. cbn [in_bounds andb]. bind_simpl.
    destruct (Nat.eqb_spec (owners w) 1) as [E1|_]; [unfold owners in E1; rewrite Hcn, Hg in E1; lia|]. bind_simpl.
    apply Hrel. unfold called_back, bound. by split_and!.
Qed.

Lemma connectDestroyed_removes w : alive w = true -> state_ w = kDisconnected -> channel_ w = closed_channel ->
  destroys w = 0%nat -> in_handleClose w = false -> connection_ w = false -> pending w = [] -> (0 < owners w)%nat ->
  fine (connectDestroyed w).
Proof.
  intros Ha Hs Hc Hd Hg Hcn Hp Ho. unfold connectDestroyed, touch. rewrite in_bounds_true by done. bind_simpl.
  rewrite decide_False by congruence. rewrite Hc. cbn [remove closed_channel]. bind_simpl. apply fine_removed.
  unfold removed. change (owners (destroyed_once_more _)) with (owners w). cbn [alive destroyed_once_more set_channel].
  rewrite Ha, bool_decide_eq_true_2 by lia. split_and!; try done. cbn. by rewrite Hd.
Qed.

Lemma closing_step e w : closing w -> valid_event e w -> fine (lifetime_step e w).
Proof.
  intros Hcl Hv. pose proof Hcl as (Ha & Hs & Hc & Hd & Hg & Hcn & q & Eq & Hq).
  assert (fine (Ok w)) as Hok by by apply fine_closing.
  assert (forall w', closing w' -> fine (release w')) as Hrel.
  { intros w' H. rewrite release_owned by by apply closing_owned. by apply fine_closing. }
  assert (forall w', alive w' = true -> state_ w' = kDisconnected -> channel_ w' = closed_channel -> destroys w' = 0%nat ->
    in_handleClose w' = false -> connection_ w' = false -> pending w' = pending w -> closing w') as Hsame.
  { intros w' ? ? ? ? ? ? E. unfold closing. rewrite E. split_and!; try done. by exists q. }
  destruct e as [|all cb| | |k cb| | | | |c k cb|c|i| |]; try (exfalso; by apply Hv);
    try (rewrite UserCalls_down; done); cbn [lifetime_step].
  - rewrite Hc, down_state by done. cbn. by rewrite andb_false_r.
  - rewrite Hc. cbn. by rewrite !andb_false_r.
  - by rewrite Hg.
  - destruct (polling w) eqn:Epl; [|done]. apply polling_batch in Epl. apply fine_closing, Hsame; try done.
    unfold pending, todo. by rewrite Epl, app_nil_r.
  - destruct (batch w) as [[[|f t] r]|] eqn:Et; [done| |done]. rewrite Hg. set (w1 := set_functors _ _ w).
    assert (pending w = f :: pending w1) as Ep by by (unfold pending, todo; rewrite Et). rewrite Eq in Ep.
    destruct q as [|f' q]; injection Ep as <- Ep.
    + apply connectDestroyed_removes; try done. apply (owners_functor FConnectDestroyed); [|done]. unfold ran. cbn. rewrite !elem_of_app. left; right. by constructor.
    + apply Forall_cons in Hq as [Hf Hq]. rewrite run_functor_quiet by done. apply fine_closing. unfold closing.
      split_and!; try done. by exists q.
  - destruct (batch w) as [[[|f t] r]|] eqn:Et; [|done..]. rewrite Hg. apply Hrel, Hsame; try done.
    unfold pending, todo. by rewrite Et.
  - destruct (timers w) as [|n]; [done|]. destruct (polling w); [|done]. unfold weak_call. cbn [alive set_timers]. rewrite Ha.
    rewrite forceClose_down by done. bind_simpl. by apply Hrel, Hsame.
  - destruct (_ && _); [|done]. by apply fine_closing, Hsame.
  - destruct (users w) as [|n]; [done|]. by apply Hrel, Hsame.
  - destruct (UserTests_down c w) as [E|[_ E]]; [done| |]; cbn [lifetime_step] in E; rewrite E; [done|].
    by apply fine_closing, Hsame.
  - destruct (client w) eqn:Ec; [|done]. unfold client_dtor, touch_client. rewrite Ec, Hcn. cbn [in_bounds andb]. bind_simpl.
    by apply Hrel, Hsame.
Qed.

Lemma removed_release w : state_ w = kDisconnected -> channel_ w = mkChannel false false false false -> destroys w = 1%nat ->
  in_handleClose w = false -> connection_ w = false -> pending w = [] ->
  (owners w <> 0%nat -> alive w = true) -> fine (release w).
Proof.
  intros Hs Hc Hd Hg Hcn Hp Ha. unfold release. destruct (Nat.eqb_spec (owners w) 0) as [E|E].
  - destruct (alive w) eqn:Eal; cbn [andb].
    + rewrite Hs, Hc. cbn. apply fine_removed. unfold removed. change (owners (deleted w)) with (owners w). rewrite E. by split_and!.
    + apply fine_removed. unfold removed. rewrite E, Eal. by split_and!.
  - rewrite andb_false_r. apply fine_removed. unfold removed. rewrite Ha, bool_decide_eq_true_2 by done. by split_and!.
Qed.

Lemma removed_step e w : removed w -> valid_event e w -> fine (lifetime_step e w).
Proof.
  intros Hr Hv. pose proof Hr as (Ha & Hs & Hc & Hd & Hg & Hcn & Hp).
  assert (fine (Ok w)) as Hok by by apply fine_removed.
  assert (owners w <> 0%nat -> alive w = true) as Hal by (intros; rewrite Ha; by apply bool_decide_eq_true_2).
  assert (users w <> 0%nat -> alive w = true) as Hau by (intros; apply Hal; unfold owners; lia).
  destruct e as [|all cb| | |k cb| | | | |c k cb|c|i| |]; try (exfalso; by apply Hv);
    try (rewrite UserCalls_down; done); cbn [lifetime_step].
  - rewrite Hc. cbn. by rewrite andb_false_r.
  - rewrite Hc. cbn. by rewrite !andb_false_r.
  - by rewrite Hg.
  - destruct (polling w) eqn:Epl; [|done]. apply polling_batch in Epl. apply fine_removed. unfold removed.
    assert (queue w = []) as Eq by (unfold pending, todo in Hp; by rewrite Epl in Hp).
    assert (owners (set_functors [] (Some (queue w, [])) w) = owners w) as E0.
    { unfold owners, ran, pending, todo. cbn. by rewrite Epl, Eq. }
    rewrite E0. split_and!; try done. unfold pending, todo. cbn. by rewrite Eq.
  - destruct (batch w) as [[[|f t] r]|] eqn:Et; [done| |done]. unfold pending, todo in Hp. by rewrite Et in Hp.
  - destruct (batch w) as [[[|f t] r]|] eqn:Et; [|done..]. rewrite Hg.
    apply removed_release; try done; [unfold pending, todo in *; by rewrite Et in Hp|].
    intros Hne. apply Hal. intros E0. apply Hne. unfold owners, ran, pending, todo in *. cbn. rewrite Et in *. cbn in *.
    rewrite filter_app, length_app in E0. lia.
  - destruct (timers w) as [|n]; [done|]. destruct (polling w); [|done]. unfold weak_call. cbn [alive set_timers].
    destruct (alive w) eqn:Eal; [|by apply fine_removed; unfold removed; cbn; rewrite Eal].
    rewrite forceClose_down by done. bind_simpl. by apply removed_release.
  - destruct (alive w && _) eqn:E; [|done]. apply andb_prop in E as [E _]. apply fine_removed. unfold removed.
    cbn [alive set_users]. rewrite E, bool_decide_eq_true_2 by (unfold owners; cbn; lia). by split_and!.
  - destruct (users w) as [|n] eqn:Eu; [done|]. apply removed_release; try done. intros _. cbn. by apply Hau.
  - destruct (UserTests_down c w) as [E|[Hu E]]; [done| |]; cbn [lifetime_step] in E; rewrite E; [done|].
    apply fine_removed. unfold removed. cbn [alive set_calls]. rewrite Hau, bool_decide_eq_true_2 by (done || unfold owners; cbn; lia).
    by split_and!.
  - destruct (client w) eqn:Ec; [|done]. unfold client_dtor, touch_client. rewrite Ec, Hcn. cbn [in_bounds andb]. bind_simpl.
    apply removed_release; try done. intros Hne. apply Hal. intros E0. apply Hne. unfold owners in *. cbn. rewrite Hcn in E0. done.
Qed.

Lemma step_fine e w : inv w -> valid_event e w -> fine (lifetime_step e w).
Proof. intros [[? ?]|[?|[?|?]]]; auto using open_step, called_back_step, closing_step, removed_step. Qed.

Lemma lifetime_run_inv es : forall w, inv w -> valid_events es w -> fine (lifetime_run es w).
Proof.
  induction es as [|e es IH]; intros w Hi Hv; cbn [lifetime_run]; [by exists w|]. destruct Hv as [Hv Hvs].
  destruct (step_fine e w Hi Hv) as (w1 & E & H1). rewrite E. bind_simpl. apply IH; auto.
Qed.

Lemma established_open : inv established.
Proof. left. split; [|by intros]. unfold open, bound. by split_and!; vm_compute. Qed.

(** ** The loop brings a close to its end *)

Definition after_close (w : world) : Prop := closing w \/ removed w.

Lemma inv_after_close w : inv w -> state_ w = kDisconnected -> in_handleClose w = false -> after_close w.
Proof.
  intros [[(_ & Hup & _) _]|[(_ & _ & _ & _ & H & _)|H]] Hs Hg; [|congruence|done]. by rewrite down_state in Hup.
Qed.

Lemma after_close_inv w : after_close w -> inv w /\ state_ w = kDisconnected /\ in_handleClose w = false.
Proof. intros H. split; [by right; right|]. destruct H as [H|H]; unfold closing, removed in H; tauto. Qed.

(** Steps of the loop's thread alone: [handleClose] goes on, the batch is run to
    its end, and then the next one. *)
Definition runs (n : nat) : list event := replicate n (RunFunctor All false).

Definition loop_turns (w : world) : list event :=
  CloseReturns :: runs (length (todo w)) ++ [EndBatch; StartBatch] ++ runs (S (length (queue w))) ++ [EndBatch].

Lemma lifetime_run_app es1 es2 w w1 : lifetime_run es1 w = Ok w1 -> lifetime_run (es1 ++ es2) w = lifetime_run es2 w1.
Proof.
  revert w. induction es1 as [|e es1 IH]; intros w E; cbn in *; [by injection E as ->|].
  apply bind_Ok in E as (w2 & -> & E). bind_simpl. by apply IH.
Qed.

Lemma run_after_close f t r w : after_close w -> batch w = Some (f :: t, r) ->
  exists w', lifetime_step (RunFunctor All false) w = Ok w' /\ after_close w' /\
    batch w' = Some (t, r ++ [f]) /\ queue w' = queue w /\ users w' = users w /\ calls w' = calls w.
Proof.
  intros [Hc|Hr] Et; cbn [lifetime_step]; rewrite Et.
  2:{ destruct Hr as (_ & _ & _ & _ & _ & _ & Hp). unfold pending, todo in Hp. by rewrite Et in Hp. }
  assert (fine (lifetime_step (RunFunctor All false) w)) as (w' & E & Hi).
  { apply closing_step; [done|]. intros Hh. unfold may_close. by destruct Hc as (_ & Hs & _). }
  cbn [lifetime_step] in E. rewrite Et in E. pose proof Hc as (Ha & Hs & Hch & Hd & Hg & Hcn & q & Eq & Hq). rewrite Hg in *.
  exists w'. split; [done|]. unfold pending, todo in Eq. rewrite Et in Eq. set (w1 := set_functors _ _ w) in E.
  destruct q as [|f' q]; injection Eq as -> Eq.
  - unfold run_functor, connectDestroyed, touch in E. change (alive w1) with (alive w) in E. rewrite Ha in E. cbn [in_bounds] in E.
    change (state_ w1) with (state_ w) in E. bind_simpl. rewrite decide_False in E by congruence.
    change (channel_ w1) with (channel_ w) in E. rewrite Hch in E. injection E as <-. split; [|done].
    by apply inv_after_close.
  - apply Forall_cons in Hq as [Hf Hq]. rewrite run_functor_quiet in E by done. injection E as <-. split; [|done].
    left. unfold closing. split_and!; try done. by exists q.
Qed.

Lemma runs_after_close n : forall w t r, after_close w -> batch w = Some (t, r) -> (length t <= n)%nat ->
  exists w' r', lifetime_run (runs n) w = Ok w' /\ after_close w' /\ batch w' = Some ([], r') /\ queue w' = queue w /\
    users w' = users w /\ calls w' = calls w.
Proof.
  induction n as [|n IH]; intros w [|f t] r Ha Et Hn; cbn [length] in Hn; try lia.
  - exists w, r. done.
  - assert (lifetime_step (RunFunctor All false) w = Ok w) as E by (cbn; by rewrite Et).
    unfold runs. cbn [replicate lifetime_run]. rewrite E. bind_simpl. apply (IH w [] r); [done..|cbn; lia].
  - destruct (run_after_close f t r w Ha Et) as (w1 & E & Ha1 & Et1 & Hq1 & Hu1 & Hc1).
    unfold runs. cbn [replicate lifetime_run]. rewrite E. bind_simpl.
    destruct (IH w1 t (r ++ [f]) Ha1 Et1) as (w' & r' & E' & H' & ? & ? & ? & ?); [lia|]. exists w', r'. split_and!; done || congruence.
Qed.

Lemma end_after_close r w : after_close w -> batch w = Some ([], r) ->
  exists w', lifetime_step EndBatch w = Ok w' /\ after_close w' /\ batch w' = None /\ queue w' = queue w /\
    users w' = users w /\ calls w' = calls w.
Proof.
  intros Ha Et. destruct (after_close_inv w Ha) as (Hi & Hs & Hg).
  destruct (step_fine EndBatch w Hi I) as (w' & E & Hi'). exists w'. split; [done|].
  cbn [lifetime_step] in E. rewrite Et, Hg in E. unfold release in E. set (w1 := set_functors _ _ w) in E.
  assert (batch w' = None /\ queue w' = queue w /\ users w' = users w /\ calls w' = calls w /\
    state_ w' = kDisconnected /\ in_handleClose w' = false) as (? & ? & ? & ? & Hs' & Hg').
  { destruct (_ && _) in E; [|by injection E as <-]. apply bind_Ok in E as (? & _ & E). apply bind_Ok in E as (? & _ & E). by injection E as <-. }
  split; [by apply inv_after_close|done].
Qed.

Lemma loop_turns_remove w : inv w -> state_ w = kDisconnected ->
  exists w', lifetime_run (loop_turns w) w = Ok w' /\ destroys w' = 1%nat /\ pending w' = [] /\ ran w' = [] /\
    (users w = 0%nat -> calls w = [] -> alive w' = false).
Proof.
  intros Hi Hs. assert (exists w1, lifetime_step CloseReturns w = Ok w1 /\ after_close w1 /\ batch w1 = batch w /\
    (length (queue w1) <= S (length (queue w)))%nat /\ users w1 = users w /\ calls w1 = calls w) as (w1 & E1 & H1 & Hb1 & Hq1 & Hu1 & Hc1).
  { cbn [lifetime_step]. destruct Hi as [[(_ & Hup & _) _]|[H|H]].
    - by rewrite down_state in Hup.
    - pose proof H as (_ & _ & _ & _ & Hg & _). rewrite Hg. destruct (handleClose_returns_closing w H) as (w' & E & Hcl & Hb & Hq & Hu & Hc).
      exists w'. rewrite Hq, length_app. cbn. split_and!; try done; [by left|lia].
    - exists w. destruct (after_close_inv w H) as (_ & _ & ->).
      split_and!; try done; lia. }
  assert (exists w2, lifetime_run (runs (length (todo w)) ++ [EndBatch]) w1 = Ok w2 /\ after_close w2 /\ batch w2 = None /\
    (length (queue w2) <= S (length (queue w)))%nat /\ users w2 = users w /\ calls w2 = calls w) as (w2 & E2 & H2 & Hb2 & Hq2 & Hu2 & Hc2).
  { destruct (batch w1) as [[t r]|] eqn:Eb.
    - destruct (runs_after_close (length (todo w)) w1 t r H1 Eb) as (w2 & r' & E2 & H2 & Hb2 & ? & ? & ?).
      { unfold todo. by rewrite <-Hb1. }
      destruct (end_after_close r' w2 H2 Hb2) as (w3 & E3 & ? & ? & ? & ? & ?). exists w3.
      rewrite (lifetime_run_app _ _ _ _ E2). cbn [lifetime_run]. rewrite E3. split_and!; try done; congruence || lia.
    - exists w1. unfold todo. rewrite <-Hb1. cbn. by rewrite Eb. }
  assert (exists w3, lifetime_step StartBatch w2 = Ok w3 /\ after_close w3 /\ batch w3 = Some (queue w2, []) /\ queue w3 = [] /\
    users w3 = users w /\ calls w3 = calls w) as (w3 & E3 & H3 & Hb3 & Hq3 & Hu3 & Hc3).
  { destruct (after_close_inv w2 H2) as (Hi2 & Hs2 & Hg). destruct (step_fine StartBatch w2 Hi2 I) as (w3 & E3 & Hi3).
    cbn [lifetime_step] in *. unfold polling in E3. rewrite Hb2, Hg in E3. injection E3 as <-. eexists. split.
    { unfold polling. rewrite Hb2, Hg. done. }
    split_and!; try done. by apply inv_after_close. }
  destruct (runs_after_close (S (length (queue w))) w3 _ _ H3 Hb3) as (w4 & r4 & E4 & H4 & Hb4 & Hq4 & Hu4 & Hc4); [done|].
  destruct (end_after_close r4 w4 H4 Hb4) as (w5 & E5 & H5 & Hb5 & Hq5 & Hu5 & Hc5).
  exists w5. split.
  { unfold loop_turns. cbn [lifetime_run]. rewrite E1. bind_simpl.
    change ([EndBatch; StartBatch] ++ ?l) with ([EndBatch] ++ StartBatch :: l).
    rewrite app_assoc, (lifetime_run_app _ _ _ _ E2). cbn [lifetime_run]. rewrite E3. bind_simpl.
    rewrite (lifetime_run_app _ _ _ _ E4). cbn [lifetime_run]. by rewrite E5. }
  assert (pending w5 = []) as Hp5 by (unfold pending, todo; rewrite Hb5; cbn; congruence).
  assert (ran w5 = []) as Hr5 by (unfold ran; by rewrite Hb5).
  destruct H5 as [(_ & _ & _ & _ & _ & _ & q & Eq & _)|(Ha & _ & _ & Hd & Hg & Hcn & _)]; [rewrite Hp5 in Eq; by destruct q|].
  split_and!; try done. intros Hu Hc. rewrite Ha. unfold owners. rewrite Hcn, Hg, Hp5, Hr5, Hu5, Hu4, Hu3, Hu, Hc5, Hc4, Hc3, Hc. done.
Qed.

(** C8: a connection of a client outlives every use of it.  The poller, the loop
    with its batches of functors and its timers, users in any threads and the
    end of the client act in any order that meets the conditions of
    [valid_event]: the client is destroyed in its loop's thread, while it shares
    the connection with users or with nobody; the last user closes the connection
    before dropping it; and when the connection closes, its channel is enabled
    and no [startRead] or [stopRead], nor any half-done call, of another thread is under way.
    Then no method runs on a deleted connection and no callback on a
    deleted client, no assertion fails, [connectDestroyed] runs exactly once
    before the connection is deleted, a connection that exists has an owner, it
    is deleted once the client and all references have gone, and once it is
    closed the loop by itself removes it, and deletes it if no user has it. *)
Theorem connection_lifetime es :
  valid_events es established ->
  exists w, lifetime_run es established = Ok w /\ (destroys w <= 1)%nat /\
    (alive w = false -> state_ w = kDisconnected /\ addedToLoop_ (channel_ w) = false /\ destroys w = 1%nat /\
       owners w = 0%nat /\ pending w = []) /\
    (alive w = true -> (0 < owners w)%nat) /\
    (client w = false -> in_handleClose w = false -> users w = 0%nat -> calls w = [] -> ran w ++ pending w = [] -> alive w = false) /\
    (state_ w = kDisconnected -> exists w', lifetime_run (loop_turns w) w = Ok w' /\
       destroys w' = 1%nat /\ pending w' = [] /\ ran w' = [] /\ (users w = 0%nat -> calls w = [] -> alive w' = false)).
Proof.
  intros Hv. destruct (lifetime_run_inv es established established_open Hv) as (w & E & Hi). exists w. split; [done|].
  pose proof (loop_turns_remove w Hi) as Hl.
  assert ((alive w = true -> (0 < owners w)%nat) /\ (client w = false -> connection_ w = false)) as [Ho Hc].
  { destruct Hi as [[H Hk]|[H|[H|H]]].
    - split; [intros _; by apply open_owned|]. destruct H as (_ & _ & _ & _ & _ & _ & _ & H). intros Ec. unfold bound in H.
      rewrite Ec in H. by destruct H.
    - split; [intros _; by apply called_back_owned|]. destruct H as (_ & _ & _ & _ & _ & _ & H). intros Ec. unfold bound in H.
      rewrite Ec in H. by destruct H.
    - split; [intros _; by apply closing_owned|]. by destruct H as (_ & _ & _ & _ & _ & H & _).
    - destruct H as (Ha & _ & _ & _ & _ & H & _). split; [|done]. rewrite Ha. intros Hne%bool_decide_eq_true. lia. }
  split_and!; [| |done| |done].
  - destruct Hi as [[H _]|[H|[H|H]]]; unfold open, called_back, closing, removed in H; lia.
  - intros Ea. destruct Hi as [[(H & _) _]|[(H & _)|[(H & _)|H]]]; [congruence..|].
    destruct H as (Ha & Hs & Hch & Hd & _ & _ & Hp). rewrite Ea in Ha. symmetry in Ha. apply bool_decide_eq_false in Ha.
    rewrite Hch. split_and!; try done. lia.
  - intros Ecl Eg Eu Eca Ef. destruct (alive w); [|done]. specialize (Ho eq_refl). unfold owners in Ho.
    rewrite (Hc Ecl), Eg, Eu, Eca, Ef in Ho. cbn in Ho. lia.
Qed.

(** A session: data is sent from another thread and does not fit into the socket,
    the client is destroyed while a user has the connection, the user closes it
    and drops it, and the loop ends it. *)
Definition demo : list event :=
  [UserTakes; UserTests Send; UserActs 0; StartBatch; RunFunctor Part true; EndBatch; Writable true true;
   UserCalls ForceCloseWithDelay All false; ClientDtor; UserTests ForceClose; UserActs 0; TimerFires; UserDrops;
   StartBatch; RunFunctor All false; RunFunctor All false; RunFunctor All false; CloseReturns].

Lemma connection_lifetime_witness :
  exists w, lifetime_run demo established = Ok w /\ (destroys w <= 1)%nat /\
    (alive w = false -> state_ w = kDisconnected /\ addedToLoop_ (channel_ w) = false /\ destroys w = 1%nat /\
       owners w = 0%nat /\ pending w = []) /\
    (alive w = true -> (0 < owners w)%nat) /\
    (client w = false -> in_handleClose w = false -> users w = 0%nat -> calls w = [] -> ran w ++ pending w = [] -> alive w = false) /\
    (state_ w = kDisconnected -> exists w', lifetime_run (loop_turns w) w = Ok w' /\
       destroys w' = 1%nat /\ pending w' = [] /\ ran w' = [] /\ (users w = 0%nat -> calls w = [] -> alive w' = false)).
Proof.
  apply (connection_lifetime demo).
  repeat (split; [first [exact I | by vm_compute
                        | right; right; right; apply list_elem_of_In; vm_compute; tauto
                        | right; left; vm_compute; lia
                        | intros _ _; split; [done|]; repeat constructor]
                 |intros ? E; vm_compute in E; injection E as <-]). exact I.
Defined.

(** The session ends with the connection closed and unowned but by the loop. *)
Example demo_ends : exists w, lifetime_run demo established = Ok w /\ state_ w = kDisconnected /\ client w = false /\
  users w = 0%nat /\ calls w = [].
Proof. eexists. split; [vm_compute; reflexivity|done]. Qed.

(** ** Where the code relies on its users *)

(** The client is deleted while a user still has the connection: nobody closes it,
    and the user's last reference deletes a connected connection. *)
Theorem late_drop_asserts : lifetime_run [UserTakes; ClientDtor; UserDrops] established = Err AssertFail.
Proof. reflexivity. Qed.

(** The client is deleted while a write-complete callback is in the queue, which
    shares the connection: the client takes it for a user's, does not close the
    connection, and the end of the batch deletes it. *)
Theorem dtor_beside_callback_asserts :
  lifetime_run [UserTakes; UserCalls Send All true; UserDrops; ClientDtor; StartBatch; RunFunctor All false; EndBatch] established
  = Err AssertFail.
Proof. reflexivity. Qed.

(** The client is deleted in another thread than the loop's and the peer closes
    before the loop has replaced the callback: the callback runs on the deleted
    client. *)
Theorem dtor_in_other_thread_dangles :
  lifetime_run [ClientDtorOther; PeerCloses; CloseReturns] established = Err OutOfBounds.
Proof. reflexivity. Qed.

(** [stopRead] of another thread is queued with a plain [this]: the connection can
    be deleted before the functor runs. *)
Theorem stopRead_dangles :
  lifetime_run [UserTakes; PeerCloses; CloseReturns; StartBatch; RunFunctor All false; EndBatch;
                UserTests StopRead; UserActs 0; UserDrops; StartBatch; RunFunctor All false] established = Err OutOfBounds.
Proof. reflexivity. Qed.

(** [startRead] of another thread is under way when the peer closes: it enables the
    channel of a closed connection, and [Channel::remove] asserts that it is
    disabled. *)
Theorem startRead_race_asserts :
  lifetime_run [UserTakes; UserCalls StopRead All false; UserCalls Send Part false; UserTests StartRead; UserActs 0;
                PeerCloses; CloseReturns; StartBatch; RunFunctor All false; RunFunctor All false] established = Err AssertFail.
Proof. reflexivity. Qed.

(** [stopRead] of another thread is under way when the connection is closed: it
    puts the descriptor back into the epoll set, and a hang-up is reported before
    [connectDestroyed] runs. *)
Theorem stopRead_race_asserts :
  lifetime_run [UserTakes; UserCalls ForceClose All false; UserTests StopRead; UserActs 0; StartBatch; RunFunctor All false;
                CloseReturns; RunFunctor All false; EndBatch; PeerCloses] established = Err AssertFail.
Proof. reflexivity. Qed.

(** The user's callback starts, or stops, reading on the closed connection. *)
Theorem reread_when_closed_asserts :
  lifetime_run [UserTakes; PeerCloses; UserCalls StartRead All false; CloseReturns; StartBatch; RunFunctor All false] established
    = Err AssertFail /\
  lifetime_run [UserTakes; PeerCloses; UserCalls StopRead All false; CloseReturns; PeerCloses] established = Err AssertFail.
Proof. by split. Qed.

(** The connection is closed while its reading is stopped: [disableAll] puts the
    descriptor back into the epoll set, a hang-up is reported before
    [connectDestroyed] runs, and [handleClose] asserts that the connection is up. *)
Theorem close_while_stopped_asserts :
  lifetime_run [UserTakes; UserCalls StopRead All false; UserCalls ForceClose All false; StartBatch; RunFunctor All false;
                CloseReturns; EndBatch; PeerCloses] established = Err AssertFail.
Proof. reflexivity. Qed.

(** The test and the change of [state_] in [forceClose] are not one step: when the
    peer closes in between, the connection is closed twice. *)
Theorem forceClose_race_asserts :
  lifetime_run [UserTakes; UserTests ForceClose; PeerCloses; UserActs 0; CloseReturns; StartBatch; RunFunctor All false;
                CloseReturns] established = Err AssertFail.
Proof. reflexivity. Qed.
End ConnectionLifetime.
