(* ===== verification/StringPiece.v ===== *)
(** * String pieces ([src/base/StringPiece.h])

    A piece is a pointer into memory that others own and a length: here the
    memory, the offset and the length.  A piece whose range is not inside its
    memory may be made, but reading it is out of bounds. *)

From S2P Require Import Prelude CxxStd.

Module StringPiece.

(** [ptr_] is [None] for [NULL]. *)
Record StringPiece := mkPiece { memory : list byte; ptr_ : option Z; length_ : Z }.

Definition null_piece : StringPiece := mkPiece [] None 0.

(** The bytes before the terminator. *)
Definition strlen (s : list byte) : Z := std_find Byte.x00 s.

(** From a C string, which ends at its first zero byte. *)
Definition piece_cstr (str : list byte) : StringPiece := mkPiece str (Some 0) (i32 (strlen str)).
Definition piece_string (str : list byte) : StringPiece := mkPiece str (Some 0) (i32 (zlen str)).
Definition piece_range (mem : list byte) (offset len : Z) : StringPiece := mkPiece mem (Some offset) len.

Definition data (p : StringPiece) : option Z := ptr_ p.
Definition size (p : StringPiece) : Z := length_ p.
Definition empty (p : StringPiece) : bool := length_ p =? 0.
Definition begin (p : StringPiece) : option Z := ptr_ p.
Definition end_ (p : StringPiece) : option Z := match ptr_ p with Some o => Some (o + length_ p) | None => None end.
Definition clear (p : StringPiece) : StringPiece := mkPiece (memory p) None 0.
Definition set_range (buffer : list byte) (len : Z) (p : StringPiece) : StringPiece := mkPiece buffer (Some 0) len.
Definition set_cstr (str : list byte) (p : StringPiece) : StringPiece := mkPiece str (Some 0) (i32 (strlen str)).

Definition remove_prefix (n : Z) (p : StringPiece) : StringPiece :=
  mkPiece (memory p) (match ptr_ p with Some o => Some (o + n) | None => None end) (length_ p - n)%int.
Definition remove_suffix (n : Z) (p : StringPiece) : StringPiece := mkPiece (memory p) (ptr_ p) (length_ p - n)%int.

(** Reading [n] bytes from the pointer. *)
Definition load (p : StringPiece) (n : Z) : outcome (list byte) :=
  match ptr_ p with
  | Some o => in_bounds ((0 <=? o) && (0 <=? n) && (o + n <=? zlen (memory p)));; Ok (zslice o (o + n) (memory p))
  | None => in_bounds (n =? 0);; Ok []
  end.

(** [operator[]] *)
Definition at_index (i : Z) (p : StringPiece) : outcome byte :=
  match ptr_ p with
  | Some o => match memory p !! Z.to_nat (o + i) with Some c => in_bounds (0 <=? o + i);; Ok c | None => Err OutOfBounds end
  | None => Err OutOfBounds
  end.

(** [memcmp] of equally long ranges; only the sign of the result is defined. *)
Fixpoint memcmp (a b : list byte) : Z :=
  match a, b with
  | x :: a', y :: b' => if Byte.eqb x y then memcmp a' b' else byte.unsigned x - byte.unsigned y
  | _, _ => 0
  end.

Definition memcmp_pieces (p x : StringPiece) (n : Z) : outcome Z :=
  a ← load p n;
  b ← load x n;
  Ok (memcmp a b).

Definition piece_eq (p x : StringPiece) : outcome bool :=
  if length_ p =? length_ x then r ← memcmp_pieces p x (length_ p); Ok (r =? 0) else Ok false.
Definition piece_ne (p x : StringPiece) : outcome bool := b ← piece_eq p x; Ok (negb b).

(** [STRINGPIECE_BINARY_PREDICATE(cmp, auxcmp)] *)
Definition binary_predicate (cmp auxcmp : Z -> Z -> bool) (p x : StringPiece) : outcome bool :=
  r ← memcmp_pieces p x (if length_ p <? length_ x then length_ p else length_ x);
  Ok (auxcmp r 0 || ((r =? 0) && cmp (length_ p) (length_ x))).

Definition piece_lt : StringPiece -> StringPiece -> outcome bool := binary_predicate Z.ltb Z.ltb.
Definition piece_le : StringPiece -> StringPiece -> outcome bool := binary_predicate Z.leb Z.ltb.
Definition piece_ge : StringPiece -> StringPiece -> outcome bool := binary_predicate Z.geb Z.gtb.
Definition piece_gt : StringPiece -> StringPiece -> outcome bool := binary_predicate Z.gtb Z.gtb.

Definition compare (p x : StringPiece) : outcome Z :=
  r ← memcmp_pieces p x (if length_ p <? length_ x then length_ p else length_ x);
  Ok (if r =? 0 then if length_ p <? length_ x then -1 else if length_ p >? length_ x then 1 else r else r).

Definition as_string (p : StringPiece) : outcome (list byte) := load p (length_ p).
Definition CopyToString (target : list byte) (p : StringPiece) : outcome (list byte) := load p (length_ p).

Definition starts_with (x p : StringPiece) : outcome bool :=
  if length_ p >=? length_ x then r ← memcmp_pieces p x (length_ x); Ok (r =? 0) else Ok false.

(** ** The text of a piece *)

(** [p] lies in its memory and shows [s]. *)
Definition shows (p : StringPiece) (s : list byte) : Prop :=
  length_ p = zlen s /\ zlen s < 2 ^ 31 /\
  match ptr_ p with
  | Some o => 0 <= o /\ o + zlen s <= zlen (memory p) /\ zslice o (o + zlen s) (memory p) = s
  | None => s = []
  end.

Lemma load_spec p s n : shows p s -> 0 <= n <= zlen s -> load p n = Ok (ztake n s).
Proof.
  intros (Hl & _ & Hp) Hn. unfold load. destruct (ptr_ p) as [o|].
  - destruct Hp as (Ho & Hm & E). rewrite in_bounds_true by lia. bind_simpl. f_equal. rewrite <- E at 1.
    unfold zslice. rewrite ztake_ztake by lia. f_equal. lia.
  - subst s. replace n with 0 by (unfold zlen in Hn; cbn in Hn; lia). done.
Qed.

Lemma memcmp_take k a b : (length a <= k \/ length b <= k)%nat -> memcmp (take k a) (take k b) = memcmp a b.
Proof.
  revert k b. induction a as [|x a IH]; intros k b Hk; [by rewrite take_nil|].
  destruct b as [|y b]; [by rewrite take_nil; destruct k|]. destruct k as [|k]; [cbn in Hk; lia|].
  cbn in *. by rewrite IH by lia.
Qed.

(** [memcmp] and the lengths decide the order of [std::string]. *)
Lemma memcmp_order a b :
  string_ltb a b = (memcmp a b <? 0) || ((memcmp a b =? 0) && (zlen a <? zlen b)) /\
  (memcmp a b = 0 -> zlen a = zlen b -> a = b) /\ (a = b -> memcmp a b = 0) /\ memcmp b a = - memcmp a b.
Proof.
  revert b. induction a as [|x a IH]; intros [|y b]; try done.
  cbn [string_ltb memcmp]. rewrite !zlen_cons. destruct (IH b) as (H1 & H2 & H3 & H4). destruct (Byte.eqb x y) eqn:E.
  - apply byte_eqb_true in E as ->. rewrite ltb_irrefl, byte_eqb_refl, H1. split_and!.
    + do 2 f_equal. destruct (Z.ltb_spec (zlen a) (zlen b)), (Z.ltb_spec (1 + zlen a) (1 + zlen b)); lia || done.
    + intros Hm Hl. f_equal. apply H2; [done|lia].
    + intros [= ->]. by apply H3.
    + done.
  - apply byte_eqb_false in E. rewrite (proj2 (byte_eqb_false y x)) by congruence. unfold byte_ltb.
    assert (byte.unsigned x <> byte.unsigned y) by (intros Hu; by apply byte.unsigned_inj in Hu).
    split_and!; [|lia|by intros [= -> ->]|lia].
    destruct (Z.ltb_spec (byte.unsigned x) (byte.unsigned y)), (Z.ltb_spec (byte.unsigned y) (byte.unsigned x)),
      (Z.ltb_spec (byte.unsigned x - byte.unsigned y) 0), (Z.eqb_spec (byte.unsigned x - byte.unsigned y) 0); done || lia.
Qed.

Lemma memcmp_pieces_spec p x s t n :
  shows p s -> shows x t -> n = Z.min (zlen s) (zlen t) -> memcmp_pieces p x n = Ok (memcmp s t).
Proof.
  intros Hp Hx ->. zlen_pos. unfold memcmp_pieces. rewrite (load_spec p s), (load_spec x t) by (done || lia). bind_simpl.
  f_equal. apply memcmp_take. unfold zlen. lia.
Qed.

(** The comparison operators and [compare] order pieces as [std::string] orders
    their texts, whatever memory they point into. *)
Theorem pieces_ordered p x s t :
  shows p s -> shows x t ->
  piece_lt p x = Ok (string_ltb s t) /\ piece_gt p x = Ok (string_ltb t s) /\
  piece_le p x = Ok (negb (string_ltb t s)) /\ piece_ge p x = Ok (negb (string_ltb s t)) /\
  piece_eq p x = Ok (bool_decide (s = t)) /\ piece_ne p x = Ok (bool_decide (s <> t)) /\
  exists r, compare p x = Ok r /\ (r < 0 <-> string_ltb s t = true) /\ (r > 0 <-> string_ltb t s = true) /\ (r = 0 <-> s = t).
Proof.
  intros Hp Hx. pose proof (proj1 Hp) as Lp. pose proof (proj1 Hx) as Lx.
  destruct (memcmp_order s t) as (H1 & H2 & H3 & H4), (memcmp_order t s) as (H5 & _).
  assert (memcmp_pieces p x (if length_ p <? length_ x then length_ p else length_ x) = Ok (memcmp s t)) as E.
  { apply memcmp_pieces_spec; [done|done|]. rewrite Lp, Lx. destruct (Z.ltb_spec (zlen s) (zlen t)); lia. }
  assert (piece_eq p x = Ok (bool_decide (s = t))) as Eq.
  { unfold piece_eq. rewrite Lp, Lx. destruct (Z.eqb_spec (zlen s) (zlen t)) as [El|El].
    - rewrite (memcmp_pieces_spec p x s t) by (done || lia). bind_simpl. f_equal.
      destruct (Z.eqb_spec (memcmp s t) 0); symmetry; [apply bool_decide_eq_true; by apply H2|apply bool_decide_eq_false; by intros ?%H3].
    - f_equal. symmetry. apply bool_decide_eq_false. by intros ->. }
  unfold piece_lt, piece_gt, piece_le, piece_ge, binary_predicate, compare, piece_ne. rewrite !E, Eq, Lp, Lx. bind_simpl.
  rewrite H1, H5, H4. rewrite !Z.gtb_ltb, Z.geb_leb.
  destruct (Z.ltb_spec (memcmp s t) 0), (Z.ltb_spec 0 (memcmp s t)), (Z.eqb_spec (memcmp s t) 0), (Z.ltb_spec (- memcmp s t) 0),
    (Z.eqb_spec (- memcmp s t) 0), (Z.ltb_spec (zlen s) (zlen t)), (Z.ltb_spec (zlen t) (zlen s)), (Z.leb_spec (zlen s) (zlen t)),
    (Z.leb_spec (zlen t) (zlen s)); try lia; cbn; split_and!; try done.
  all: try (by rewrite bool_decide_not).
  all: eexists; split; [done|]; split_and!; split; intros; done || lia || (try subst; exfalso; lia) || naive_solver lia.
Qed.

(** [starts_with] decides the prefix order of the texts. *)
Theorem starts_with_prefix p x s t : shows p s -> shows x t -> starts_with x p = Ok (bool_decide (t `prefix_of` s)).
Proof.
  intros Hp Hx. pose proof (proj1 Hp) as Lp. pose proof (proj1 Hx) as Lx. unfold starts_with. rewrite Lp, Lx, Z.geb_leb.
  destruct (Z.leb_spec (zlen t) (zlen s)) as [Hle|Hlt].
  - rewrite (memcmp_pieces_spec p x s t) by (done || lia). bind_simpl. f_equal.
    rewrite <- (memcmp_take (length t) s t) by lia. rewrite (take_ge t) by lia.
    destruct (memcmp_order (take (length t) s) t) as (_ & H2 & H3 & _).
    destruct (Z.eqb_spec (memcmp (take (length t) s) t) 0) as [E|E]; symmetry.
    + apply bool_decide_eq_true. exists (drop (length t) s). rewrite <- (take_drop (length t) s) at 1. f_equal. apply H2; [done|].
      unfold zlen in *. rewrite length_take. lia.
    + apply bool_decide_eq_false. intros [k ->]. apply E, H3. by rewrite take_app_length.
  - f_equal. symmetry. apply bool_decide_eq_false. intros [k ->]. rewrite zlen_app in Hlt. pose proof (zlen_nonneg k). lia.
Qed.
(** Cutting a prefix or a suffix off a piece cuts it off its text, without reading
    outside it, and copying the piece out gives the text, whatever the target held. *)
Theorem pieces_show p s n :
  shows p s -> 0 <= n <= zlen s ->
  shows (remove_prefix n p) (zdrop n s) /\ shows (remove_suffix n p) (ztake (zlen s - n) s) /\
  as_string p = Ok s /\ forall target, CopyToString target p = Ok s.
Proof.
  intros Hp Hn. assert (as_string p = Ok s) as Has.
  { unfold as_string. rewrite (proj1 Hp), (load_spec p s) by (done || (zlen_pos; lia)). by rewrite ztake_all. }
  destruct Hp as (Hl & Hs & Hp). split_and!; [..|done|done].
  - split; [|split]; cbn [length_ remove_prefix ptr_ memory]; rewrite ?zlen_drop by done; [rewrite Hl; apply i32_small; lia|lia|].
    destruct (ptr_ p) as [o|]; [|subst s; unfold zdrop; by rewrite drop_nil].
    destruct Hp as (Ho & Hm & E). split_and!; [lia|lia|]. rewrite <- E at 2. rewrite zslice_drop by lia. f_equal. lia.
  - split; [|split]; cbn [length_ remove_suffix ptr_ memory]; rewrite ?zlen_take by lia; [rewrite Hl; apply i32_small; lia|lia|].
    destruct (ptr_ p) as [o|]; [|subst s; unfold ztake; by rewrite take_nil].
    destruct Hp as (Ho & Hm & E). split_and!; [lia|lia|]. rewrite <- E at 3. by rewrite zslice_take by lia.
Qed.
End StringPiece.
