(* ===== verification/FileUtil.v ===== *)
(** * Reading small files ([src/base/FileUtil.h], [FileUtil.cpp])

    [ReadSmallFile] over an open file: what [read] returns is chosen by the
    kernel within its contract, here a function of the number of the call, the
    bytes left and the room. *)

From S2P Require Import Prelude.

Module FileUtil.

Definition kBufferSize : Z := 64 * 1024.
Definition EISDIR : Z := 21.

(** What a call of [read] or [pread] returns: a number of bytes, or [errno]. *)
Inductive read_result := Bytes (n : Z) | Failed (err : Z).

Inductive file_mode := Regular | Directory | Other.

Record stat := mkStat { st_mode : file_mode; st_size : Z; st_mtime : Z; st_ctime : Z }.

(** The file behind a descriptor: its bytes, its answer to [fstat] ([inr] is
    [errno]) and the kernel's choices; [offset] and [reads] change. *)
Record open_file := mkOpen {
  bytes_of : list byte;
  fstat_of : stat + Z;
  kernel : Z -> Z -> Z -> read_result }.

(** [fd_] is [None] when [open] failed, with [errno] in [err_]. *)
Record ReadSmallFile := mkSmall {
  fd_ : option open_file;
  offset : Z;
  reads : Z;
  err_ : Z }.

Definition ReadSmallFile_new (opened : open_file + Z) : ReadSmallFile :=
  match opened with
  | inl f => mkSmall (Some f) 0 0 0
  | inr err => mkSmall None 0 0 err
  end.

Definition read (f : open_file) (toRead : Z) (s : ReadSmallFile) : (list byte + Z) * ReadSmallFile :=
  let s' k := mkSmall (fd_ s) (offset s + k) (reads s + 1) (err_ s) in
  match kernel f (reads s) (zlen (bytes_of f) - offset s) toRead with
  | Bytes n => (inl (ztake n (zdrop (offset s) (bytes_of f))), s' n)
  | Failed err => (inr err, s' 0)
  end.

(** The loop of [readToString]; each round but the last adds something. *)
Fixpoint read_loop (fuel : nat) (f : open_file) (maxSize : Z) (content : list byte) (err : Z) (s : ReadSmallFile) :
    option (Z * list byte * ReadSmallFile) :=
  match fuel with
  | O => None
  | S fuel' =>
      if zlen content <? u64 maxSize then
        let toRead := Z.min (u64 (u64 maxSize - zlen content)) kBufferSize in
        match read f toRead s with
        | (inl [], s) => Some (err, content, s)
        | (inl got, s) => read_loop fuel' f maxSize (content ++ got) err s
        | (inr e, s) => Some (e, content, s)
        end
      else Some (err, content, s)
  end.

(** What [fileSize], [modifyTime] and [createTime] point to afterwards; the
    last two are looked at only when the first is given. *)
Record sizes := mkSizes { fileSize : option Z; modifyTime : option Z; createTime : option Z }.

Definition assign (p : option Z) (v : Z) : option Z := match p with Some _ => Some v | None => None end.

(** [readToString(maxSize, content, fileSize, modifyTime, createTime)]: the
    pointers are [None] when null. *)
Definition readToString (maxSize : Z) (content : list byte) (p : sizes) (s : ReadSmallFile) :
    outcome (Z * list byte * sizes * ReadSmallFile) :=
  match fd_ s with
  | None => Ok (err_ s, content, p, s)
  | Some f =>
      let '(err, p) :=
        match fileSize p with
        | None => (err_ s, p)
        | Some _ =>
            match fstat_of f with
            | inl st =>
                let p := match st_mode st with Regular => mkSizes (Some (st_size st)) (modifyTime p) (createTime p) | _ => p end in
                (match st_mode st with Directory => EISDIR | _ => err_ s end,
                 mkSizes (fileSize p) (assign (modifyTime p) (st_mtime st)) (assign (createTime p) (st_ctime st)))
            | inr e => (e, p)
            end
        end in
      match read_loop (S (length (bytes_of f))) f maxSize [] err s with
      | Some (err, content, s) => Ok (err, content, p, s)
      | None => Err Fatal
      end
  end.

(** [readFile(filename, maxSize, content, ...)] *)
Definition readFile (opened : open_file + Z) (maxSize : Z) (content : list byte) (p : sizes) : outcome (Z * list byte * sizes) :=
  '(err, content, p, _) ← readToString maxSize content p (ReadSmallFile_new opened);
  Ok (err, content, p).

(** [readToBuffer(size)]: [pread] from the start; the buffer is the C string. *)
Definition readToBuffer (wants_size : bool) (buf : list byte) (size : option Z) (s : ReadSmallFile) :
    outcome (Z * list byte * option Z * ReadSmallFile) :=
  match fd_ s with
  | None => Ok (err_ s, buf, size, s)
  | Some f =>
      let s' := mkSmall (fd_ s) (offset s) (reads s + 1) (err_ s) in
      match kernel f (reads s) (zlen (bytes_of f)) (kBufferSize - 1) with
      | Bytes n =>
          in_bounds ((0 <=? n) && (n <? kBufferSize));;
          Ok (err_ s, ztake n (bytes_of f), (if wants_size then Some (i32 n) else size), s')
      | Failed e => Ok (e, buf, size, s')
      end
  end.

(** ** The contract of [read] *)

(** It returns at most what is asked for and there, and nothing only at the end. *)
Definition reads_ok (f : open_file) : Prop :=
  forall i left room n, 0 <= left -> 0 < room -> kernel f i left room = Bytes n -> 0 <= n <= Z.min left room /\ (n = 0 -> left = 0).

(** A failing [read] ends the loop with its [errno]. *)
Lemma read_loop_spec f maxSize fuel content err s :
  reads_ok f -> 0 <= maxSize < 2 ^ 31 -> 0 <= offset s <= zlen (bytes_of f) ->
  content = ztake (offset s) (bytes_of f) -> offset s <= maxSize -> zlen (bytes_of f) - offset s < Z.of_nat fuel ->
  exists k err' s', read_loop fuel f maxSize content err s = Some (err', ztake k (bytes_of f), s') /\ 0 <= k <= maxSize /\
    ((err' = err /\ ztake k (bytes_of f) = ztake maxSize (bytes_of f)) \/ exists i left room, kernel f i left room = Failed err').
Proof.
  intros Hok Hmax. revert content s. induction fuel as [|fuel IH]; intros content s Ho -> Hm Hf; [lia|]. cbn [read_loop].
  rewrite zlen_take, !(u64_small maxSize) by lia. destruct (Z.ltb_spec (offset s) maxSize) as [Hlt|].
  2:{ exists (offset s), err, s. split; [done|]. split; [lia|]. left. by replace maxSize with (offset s) by lia. }
  rewrite u64_small by lia. unfold read.
  destruct (kernel f (reads s) (zlen (bytes_of f) - offset s) (Z.min (maxSize - offset s) kBufferSize)) as [n|e] eqn:E.
  2:{ eexists (offset s), e, _. split; [done|]. split; [lia|]. right. by eexists _, _, _. }
  apply Hok in E as [Hn H0]; [|lia|unfold kBufferSize; lia].
  assert (zlen (ztake n (zdrop (offset s) (bytes_of f))) = n) as Hl by (rewrite zlen_take; [done|rewrite zlen_drop; lia]).
  destruct (ztake n (zdrop (offset s) (bytes_of f))) as [|c got] eqn:Eg.
  - rewrite zlen_nil in Hl. eexists (offset s), err, _. split; [done|]. split; [lia|]. left. split; [done|]. by rewrite !ztake_all by lia.
  - rewrite zlen_cons in Hl. pose proof (zlen_nonneg got). rewrite <- Eg. apply IH; cbn [offset]; [lia| |lia|lia].
    symmetry. by apply ztake_zdrop_succ; lia.
Qed.

(** [readFile] of at most [maxSize] bytes, for any way the kernel splits the
    reads: a file that does not open gives the [errno] of [open] and leaves the
    content alone; otherwise the content is a prefix of the file, and unless a
    [read] failed, whose [errno] is then returned, exactly its first [maxSize]
    bytes.  The code is then 0, or what [fstat] made of it when the size is asked
    for; a regular file tells its size. *)
Theorem readFile_reads opened maxSize content p :
  0 <= maxSize < 2 ^ 31 -> (forall f, opened = inl f -> reads_ok f) ->
  exists err text p', readFile opened maxSize content p = Ok (err, text, p') /\
    match opened with
    | inr e => err = e /\ text = content /\ p' = p
    | inl f =>
        (exists k, 0 <= k <= maxSize /\ text = ztake k (bytes_of f)) /\
        ((text = ztake maxSize (bytes_of f) /\
          err = match fileSize p, fstat_of f with
                | None, _ => 0
                | Some _, inl st => match st_mode st with Directory => EISDIR | _ => 0 end
                | Some _, inr e => e
                end) \/
         exists i left room, kernel f i left room = Failed err) /\
        (forall st, fstat_of f = inl st -> st_mode st = Regular -> is_Some (fileSize p) -> fileSize p' = Some (st_size st))
    end.
Proof.
  intros Hmax Hok. unfold readFile, readToString. destruct opened as [f|e]; cbn [ReadSmallFile_new fd_ err_].
  2:{ bind_simpl. by exists e, content, p. }
  match goal with |- context [let '(_, _) := ?x in _] => destruct x as [err p'] eqn:Ep end.
  destruct (read_loop_spec f maxSize (S (length (bytes_of f))) [] err (mkSmall (Some f) 0 0 0)) as (k & err' & s' & E & Hk & Hr);
    cbn [offset]; [by apply Hok|done|pose proof (zlen_nonneg (bytes_of f)); lia|by rewrite ztake_0|lia|unfold zlen; lia|].
  rewrite E. bind_simpl. exists err', (ztake k (bytes_of f)), p'. split; [done|]. split; [by exists k|]. split.
  - destruct Hr as [[-> ?]|?]; [left|by right]. split; [done|].
    destruct (fileSize p); [destruct (fstat_of f) as [[[] ? ? ?]|]|]; by injection Ep as <- <-.
  - intros st Est Hreg [z Hz]. rewrite Hz, Est, Hreg in Ep. injection Ep as _ <-. done.
Qed.

(** A file of ten bytes read three at a time, at most eight wanted. *)
Definition sample_file : open_file :=
  mkOpen (bytes "0123456789") (inl (mkStat Regular 10 5 6)) (fun _ left room => Bytes (Z.min 3 (Z.min left room))).

Lemma readFile_reads_witness :
  readFile (inl sample_file) 8 (bytes "old") (mkSizes (Some 0) (Some 0) None) =
  Ok (0, bytes "01234567", mkSizes (Some 10) (Some 5) None).
Proof.
  destruct (readFile_reads (inl sample_file) 8 (bytes "old") (mkSizes (Some 0) (Some 0) None)) as (err & text & p' & E & _).
  - lia.
  - intros f [= <-] i left room n Hl Hr [= <-]. lia.
  - rewrite E. vm_compute in E. by injection E as <- <- <-.
Defined.
End FileUtil.
