(* ===== verification/Inspector.v ===== *)
(** * The inspector ([src/net/inspect/Inspector.h], [Inspector.cpp])

    An HTTP server inside the process: commands are registered under a module
    and a name, the request path picks one and its callback makes the page. *)

From S2P Require Import Prelude CxxStd Endian Http.

Module Inspector.
Import Http.

(** ** [split]: the parts of a path between slashes *)

(** [str.find('/', start)] *)
Definition find_slash (str : list byte) (start : Z) : option Z :=
  match memchr Byte.x2f (zdrop start str) with Some i => Some (start + i) | None => None end.

(** One round a slash. *)
Fixpoint split_loop (fuel : nat) (str : list byte) (start : Z) (pos : option Z) (result : list (list byte)) :
    option (Z * list (list byte)) :=
  match fuel with
  | O => None
  | S fuel' =>
      match pos with
      | None => Some (start, result)
      | Some pos =>
          let result := if pos >? start then result ++ [zslice start pos str] else result in
          let start := pos + 1 in
          split_loop fuel' str start (find_slash str start) result
      end
  end.

Definition split (str : list byte) : outcome (list (list byte)) :=
  match split_loop (S (length str)) str 0 (find_slash str 0) [] with
  | None => Err Fatal
  | Some (start, result) =>
      Ok (if start <? zlen str then result ++ [zslice start (zlen str) str] else result)
  end.

(** ** The registry *)

(** A callback may fail an assertion of its own. *)
Definition Callback : Type := Method -> list (list byte) -> outcome (list byte).

(** An empty [std::function] is [None]. *)
Record Inspector := mkInspector {
  modules_ : list (list byte * list (list byte * option Callback));
  helps_ : list (list byte * list (list byte * list byte)) }.

Definition new_inspector : Inspector := mkInspector [] [].

(** [m[key]], which makes an empty value for a new key. *)
Definition at_key {V} (key : list byte) (m : list (list byte * list V)) : list V := default [] (map_find string_ltb key m).

Definition add (module command : list byte) (cb : option Callback) (help : list byte) (i : Inspector) : Inspector :=
  mkInspector
    (map_set string_ltb module (map_set string_ltb command cb (at_key module (modules_ i))) (modules_ i))
    (map_set string_ltb module (map_set string_ltb command help (at_key module (helps_ i))) (helps_ i)).

Definition remove (module command : list byte) (i : Inspector) : Inspector :=
  match map_find string_ltb module (modules_ i) with
  | Some commands =>
      mkInspector
        (map_set string_ltb module (map_erase string_ltb command commands) (modules_ i))
        (map_set string_ltb module (map_erase string_ltb command (at_key module (helps_ i))) (helps_ i))
  | None => i
  end.

(** ** Requests *)

Definition favicon : list byte :=
  [
   Byte.x89; Byte.x50; Byte.x4e; Byte.x47; Byte.x0d; Byte.x0a; Byte.x1a; Byte.x0a; Byte.x00; Byte.x00; Byte.x00; Byte.x0d; Byte.x49; Byte.x48; Byte.x44; Byte.x52; Byte.x00; Byte.x00;
   Byte.x00; Byte.x10; Byte.x00; Byte.x00; Byte.x00; Byte.x10; Byte.x08; Byte.x06; Byte.x00; Byte.x00; Byte.x00; Byte.x1f; Byte.xf3; Byte.xff; Byte.x61; Byte.x00; Byte.x00; Byte.x00;
   Byte.x04; Byte.x73; Byte.x42; Byte.x49; Byte.x54; Byte.x08; Byte.x08; Byte.x08; Byte.x08; Byte.x7c; Byte.x08; Byte.x64; Byte.x88; Byte.x00; Byte.x00; Byte.x00; Byte.x09; Byte.x70;
   Byte.x48; Byte.x59; Byte.x73; Byte.x00; Byte.x00; Byte.x0b; Byte.x12; Byte.x00; Byte.x00; Byte.x0b; Byte.x12; Byte.x01; Byte.xd2; Byte.xdd; Byte.x7e; Byte.xfc; Byte.x00; Byte.x00;
   Byte.x00; Byte.x1c; Byte.x74; Byte.x45; Byte.x58; Byte.x74; Byte.x53; Byte.x6f; Byte.x66; Byte.x74; Byte.x77; Byte.x61; Byte.x72; Byte.x65; Byte.x00; Byte.x41; Byte.x64; Byte.x6f;
   Byte.x62; Byte.x65; Byte.x20; Byte.x46; Byte.x69; Byte.x72; Byte.x65; Byte.x77; Byte.x6f; Byte.x72; Byte.x6b; Byte.x73; Byte.x20; Byte.x43; Byte.x53; Byte.x33; Byte.x98; Byte.xd6;
   Byte.x46; Byte.x03; Byte.x00; Byte.x00; Byte.x00; Byte.x15; Byte.x74; Byte.x45; Byte.x58; Byte.x74; Byte.x43; Byte.x72; Byte.x65; Byte.x61; Byte.x74; Byte.x69; Byte.x6f; Byte.x6e;
   Byte.x20; Byte.x54; Byte.x69; Byte.x6d; Byte.x65; Byte.x00; Byte.x32; Byte.x2f; Byte.x31; Byte.x37; Byte.x2f; Byte.x30; Byte.x38; Byte.x20; Byte.x9c; Byte.xaa; Byte.x58; Byte.x00;
   Byte.x00; Byte.x04; Byte.x11; Byte.x74; Byte.x45; Byte.x58; Byte.x74; Byte.x58; Byte.x4d; Byte.x4c; Byte.x3a; Byte.x63; Byte.x6f; Byte.x6d; Byte.x2e; Byte.x61; Byte.x64; Byte.x6f;
   Byte.x62; Byte.x65; Byte.x2e; Byte.x78; Byte.x6d; Byte.x70; Byte.x00; Byte.x3c; Byte.x3f; Byte.x78; Byte.x70; Byte.x61; Byte.x63; Byte.x6b; Byte.x65; Byte.x74; Byte.x20; Byte.x62;
   Byte.x65; Byte.x67; Byte.x69; Byte.x6e; Byte.x3d; Byte.x22; Byte.x20; Byte.x20; Byte.x20; Byte.x22; Byte.x20; Byte.x69; Byte.x64; Byte.x3d; Byte.x22; Byte.x57; Byte.x35; Byte.x4d;
   Byte.x30; Byte.x4d; Byte.x70; Byte.x43; Byte.x65; Byte.x68; Byte.x69; Byte.x48; Byte.x7a; Byte.x72; Byte.x65; Byte.x53; Byte.x7a; Byte.x4e; Byte.x54; Byte.x63; Byte.x7a; Byte.x6b;
   Byte.x63; Byte.x39; Byte.x64; Byte.x22; Byte.x3f; Byte.x3e; Byte.x0a; Byte.x3c; Byte.x78; Byte.x3a; Byte.x78; Byte.x6d; Byte.x70; Byte.x6d; Byte.x65; Byte.x74; Byte.x61; Byte.x20;
   Byte.x78; Byte.x6d; Byte.x6c; Byte.x6e; Byte.x73; Byte.x3a; Byte.x78; Byte.x3d; Byte.x22; Byte.x61; Byte.x64; Byte.x6f; Byte.x62; Byte.x65; Byte.x3a; Byte.x6e; Byte.x73; Byte.x3a;
   Byte.x6d; Byte.x65; Byte.x74; Byte.x61; Byte.x2f; Byte.x22; Byte.x20; Byte.x78; Byte.x3a; Byte.x78; Byte.x6d; Byte.x70; Byte.x74; Byte.x6b; Byte.x3d; Byte.x22; Byte.x41; Byte.x64;
   Byte.x6f; Byte.x62; Byte.x65; Byte.x20; Byte.x58; Byte.x4d; Byte.x50; Byte.x20; Byte.x43; Byte.x6f; Byte.x72; Byte.x65; Byte.x20; Byte.x34; Byte.x2e; Byte.x31; Byte.x2d; Byte.x63;
   Byte.x30; Byte.x33; Byte.x34; Byte.x20; Byte.x34; Byte.x36; Byte.x2e; Byte.x32; Byte.x37; Byte.x32; Byte.x39; Byte.x37; Byte.x36; Byte.x2c; Byte.x20; Byte.x53; Byte.x61; Byte.x74;
   Byte.x20; Byte.x4a; Byte.x61; Byte.x6e; Byte.x20; Byte.x32; Byte.x37; Byte.x20; Byte.x32; Byte.x30; Byte.x30; Byte.x37; Byte.x20; Byte.x32; Byte.x32; Byte.x3a; Byte.x31; Byte.x31;
   Byte.x3a; Byte.x34; Byte.x31; Byte.x20; Byte.x20; Byte.x20; Byte.x20; Byte.x20; Byte.x20; Byte.x20; Byte.x20; Byte.x22; Byte.x3e; Byte.x0a; Byte.x20; Byte.x20; Byte.x20; Byte.x3c;
   Byte.x72; Byte.x64; Byte.x66; Byte.x3a; Byte.x52; Byte.x44; Byte.x46; Byte.x20; Byte.x78; Byte.x6d; Byte.x6c; Byte.x6e; Byte.x73; Byte.x3a; Byte.x72; Byte.x64; Byte.x66; Byte.x3d;
   Byte.x22; Byte.x68; Byte.x74; Byte.x74; Byte.x70; Byte.x3a; Byte.x2f; Byte.x2f; Byte.x77; Byte.x77; Byte.x77; Byte.x2e; Byte.x77; Byte.x33; Byte.x2e; Byte.x6f; Byte.x72; Byte.x67;
   Byte.x2f; Byte.x31; Byte.x39; Byte.x39; Byte.x39; Byte.x2f; Byte.x30; Byte.x32; Byte.x2f; Byte.x32; Byte.x32; Byte.x2d; Byte.x72; Byte.x64; Byte.x66; Byte.x2d; Byte.x73; Byte.x79;
   Byte.x6e; Byte.x74; Byte.x61; Byte.x78; Byte.x2d; Byte.x6e; Byte.x73; Byte.x23; Byte.x22; Byte.x3e; Byte.x0a; Byte.x20; Byte.x20; Byte.x20; Byte.x20; Byte.x20; Byte.x20; Byte.x3c;
   Byte.x72; Byte.x64; Byte.x66; Byte.x3a; Byte.x44; Byte.x65; Byte.x73; Byte.x63; Byte.x72; Byte.x69; Byte.x70; Byte.x74; Byte.x69; Byte.x6f; Byte.x6e; Byte.x20; Byte.x72; Byte.x64;
   Byte.x66; Byte.x3a; Byte.x61; Byte.x62; Byte.x6f; Byte.x75; Byte.x74; Byte.x3d; Byte.x22; Byte.x22; Byte.x0a; Byte.x20; Byte.x20; Byte.x20; Byte.x20; Byte.x20; Byte.x20; Byte.x20;
   Byte.x20; Byte.x20; Byte.x20; Byte.x20; Byte.x20; Byte.x78; Byte.x6d; Byte.x6c; Byte.x6e; Byte.x73; Byte.x3a; Byte.x78; Byte.x61; Byte.x70; Byte.x3d; Byte.x22; Byte.x68; Byte.x74;
   Byte.x74; Byte.x70; Byte.x3a; Byte.x2f; Byte.x2f; Byte.x6e; Byte.x73; Byte.x2e; Byte.x61; Byte.x64; Byte.x6f; Byte.x62; Byte.x65; Byte.x2e; Byte.x63; Byte.x6f; Byte.x6d; Byte.x2f;
   Byte.x78; Byte.x61; Byte.x70; Byte.x2f; Byte.x31; Byte.x2e; Byte.x30; Byte.x2f; Byte.x22; Byte.x3e; Byte.x0a; Byte.x20; Byte.x20; Byte.x20; Byte.x20; Byte.x20; Byte.x20; Byte.x20;
   Byte.x20; Byte.x20; Byte.x3c; Byte.x78; Byte.x61; Byte.x70; Byte.x3a; Byte.x43; Byte.x72; Byte.x65; Byte.x61; Byte.x74; Byte.x6f; Byte.x72; Byte.x54; Byte.x6f; Byte.x6f; Byte.x6c;
   Byte.x3e; Byte.x41; Byte.x64; Byte.x6f; Byte.x62; Byte.x65; Byte.x20; Byte.x46; Byte.x69; Byte.x72; Byte.x65; Byte.x77; Byte.x6f; Byte.x72; Byte.x6b; Byte.x73; Byte.x20; Byte.x43;
   Byte.x53; Byte.x33; Byte.x3c; Byte.x2f; Byte.x78; Byte.x61; Byte.x70; Byte.x3a; Byte.x43; Byte.x72; Byte.x65; Byte.x61; Byte.x74; Byte.x6f; Byte.x72; Byte.x54; Byte.x6f; Byte.x6f;
   Byte.x6c; Byte.x3e; Byte.x0a; Byte.x20; Byte.x20; Byte.x20; Byte.x20; Byte.x20; Byte.x20; Byte.x20; Byte.x20; Byte.x20; Byte.x3c; Byte.x78; Byte.x61; Byte.x70; Byte.x3a; Byte.x43;
   Byte.x72; Byte.x65; Byte.x61; Byte.x74; Byte.x65; Byte.x44; Byte.x61; Byte.x74; Byte.x65; Byte.x3e; Byte.x32; Byte.x30; Byte.x30; Byte.x38; Byte.x2d; Byte.x30; Byte.x32; Byte.x2d;
   Byte.x31; Byte.x37; Byte.x54; Byte.x30; Byte.x32; Byte.x3a; Byte.x33; Byte.x36; Byte.x3a; Byte.x34; Byte.x35; Byte.x5a; Byte.x3c; Byte.x2f; Byte.x78; Byte.x61; Byte.x70; Byte.x3a;
   Byte.x43; Byte.x72; Byte.x65; Byte.x61; Byte.x74; Byte.x65; Byte.x44; Byte.x61; Byte.x74; Byte.x65; Byte.x3e; Byte.x0a; Byte.x20; Byte.x20; Byte.x20; Byte.x20; Byte.x20; Byte.x20;
   Byte.x20; Byte.x20; Byte.x20; Byte.x3c; Byte.x78; Byte.x61; Byte.x70; Byte.x3a; Byte.x4d; Byte.x6f; Byte.x64; Byte.x69; Byte.x66; Byte.x79; Byte.x44; Byte.x61; Byte.x74; Byte.x65;
   Byte.x3e; Byte.x32; Byte.x30; Byte.x30; Byte.x38; Byte.x2d; Byte.x30; Byte.x33; Byte.x2d; Byte.x32; Byte.x34; Byte.x54; Byte.x31; Byte.x39; Byte.x3a; Byte.x30; Byte.x30; Byte.x3a;
   Byte.x34; Byte.x32; Byte.x5a; Byte.x3c; Byte.x2f; Byte.x78; Byte.x61; Byte.x70; Byte.x3a; Byte.x4d; Byte.x6f; Byte.x64; Byte.x69; Byte.x66; Byte.x79; Byte.x44; Byte.x61; Byte.x74;
   Byte.x65; Byte.x3e; Byte.x0a; Byte.x20; Byte.x20; Byte.x20; Byte.x20; Byte.x20; Byte.x20; Byte.x3c; Byte.x2f; Byte.x72; Byte.x64; Byte.x66; Byte.x3a; Byte.x44; Byte.x65; Byte.x73;
   Byte.x63; Byte.x72; Byte.x69; Byte.x70; Byte.x74; Byte.x69; Byte.x6f; Byte.x6e; Byte.x3e; Byte.x0a; Byte.x20; Byte.x20; Byte.x20; Byte.x20; Byte.x20; Byte.x20; Byte.x3c; Byte.x72;
   Byte.x64; Byte.x66; Byte.x3a; Byte.x44; Byte.x65; Byte.x73; Byte.x63; Byte.x72; Byte.x69; Byte.x70; Byte.x74; Byte.x69; Byte.x6f; Byte.x6e; Byte.x20; Byte.x72; Byte.x64; Byte.x66;
   Byte.x3a; Byte.x61; Byte.x62; Byte.x6f; Byte.x75; Byte.x74; Byte.x3d; Byte.x22; Byte.x22; Byte.x0a; Byte.x20; Byte.x20; Byte.x20; Byte.x20; Byte.x20; Byte.x20; Byte.x20; Byte.x20;
   Byte.x20; Byte.x20; Byte.x20; Byte.x20; Byte.x78; Byte.x6d; Byte.x6c; Byte.x6e; Byte.x73; Byte.x3a; Byte.x64; Byte.x63; Byte.x3d; Byte.x22; Byte.x68; Byte.x74; Byte.x74; Byte.x70;
   Byte.x3a; Byte.x2f; Byte.x2f; Byte.x70; Byte.x75; Byte.x72; Byte.x6c; Byte.x2e; Byte.x6f; Byte.x72; Byte.x67; Byte.x2f; Byte.x64; Byte.x63; Byte.x2f; Byte.x65; Byte.x6c; Byte.x65;
   Byte.x6d; Byte.x65; Byte.x6e; Byte.x74; Byte.x73; Byte.x2f; Byte.x31; Byte.x2e; Byte.x31; Byte.x2f; Byte.x22; Byte.x3e; Byte.x0a; Byte.x20; Byte.x20; Byte.x20; Byte.x20; Byte.x20;
   Byte.x20; Byte.x20; Byte.x20; Byte.x20; Byte.x3c; Byte.x64; Byte.x63; Byte.x3a; Byte.x66; Byte.x6f; Byte.x72; Byte.x6d; Byte.x61; Byte.x74; Byte.x3e; Byte.x69; Byte.x6d; Byte.x61;
   Byte.x67; Byte.x65; Byte.x2f; Byte.x70; Byte.x6e; Byte.x67; Byte.x3c; Byte.x2f; Byte.x64; Byte.x63; Byte.x3a; Byte.x66; Byte.x6f; Byte.x72; Byte.x6d; Byte.x61; Byte.x74; Byte.x3e;
   Byte.x0a; Byte.x20; Byte.x20; Byte.x20; Byte.x20; Byte.x20; Byte.x20; Byte.x3c; Byte.x2f; Byte.x72; Byte.x64; Byte.x66; Byte.x3a; Byte.x44; Byte.x65; Byte.x73; Byte.x63; Byte.x72;
   Byte.x69; Byte.x70; Byte.x74; Byte.x69; Byte.x6f; Byte.x6e; Byte.x3e; Byte.x0a; Byte.x20; Byte.x20; Byte.x20; Byte.x3c; Byte.x2f; Byte.x72; Byte.x64; Byte.x66; Byte.x3a; Byte.x52;
   Byte.x44; Byte.x46; Byte.x3e; Byte.x0a; Byte.x3c; Byte.x2f; Byte.x78; Byte.x3a; Byte.x78; Byte.x6d; Byte.x70; Byte.x6d; Byte.x65; Byte.x74; Byte.x61; Byte.x3e; Byte.x0a; Byte.x20;
   Byte.x20; Byte.x20; Byte.x20; Byte.x20; Byte.x20; Byte.x20; Byte.x20; Byte.x20; Byte.x20; Byte.x20; Byte.x20; Byte.x20; Byte.x20; Byte.x20; Byte.x20; Byte.x20; Byte.x20; Byte.x20;
   Byte.x20; Byte.x20; Byte.x20; Byte.x20; Byte.x20; Byte.x20; Byte.x20; Byte.x20; Byte.x20; Byte.x20; Byte.x20; Byte.x20; Byte.x20; Byte.x20; Byte.x20; Byte.x20; Byte.x20; Byte.x20;
   Byte.x20; Byte.x20; Byte.x20; Byte.x20; Byte.x20; Byte.x20; Byte.x20; Byte.x20; Byte.x20; Byte.x20; Byte.x20; Byte.x20; Byte.x20; Byte.x20; Byte.x20; Byte.x20; Byte.x20; Byte.x20;
   Byte.x20; Byte.x20; Byte.x20; Byte.x20; Byte.x20; Byte.x20; Byte.x20; Byte.x20; Byte.x20; Byte.x20; Byte.x20; Byte.x20; Byte.x20; Byte.x20; Byte.x20; Byte.x20; Byte.x20; Byte.x20;
   Byte.x20; Byte.x20; Byte.x20; Byte.x20; Byte.x20; Byte.x20; Byte.x20; Byte.x20; Byte.x20; Byte.x20; Byte.x20; Byte.x20; Byte.x20; Byte.x20; Byte.x20; Byte.x20; Byte.x20; Byte.x20;
   Byte.x20; Byte.x20; Byte.x20; Byte.x20; Byte.x20; Byte.x20; Byte.x20; Byte.x20; Byte.x20; Byte.x0a; Byte.x20; Byte.x20; Byte.x20; Byte.x20; Byte.x20; Byte.x20; Byte.x20; Byte.x20;
   Byte.x20; Byte.x20; Byte.x20; Byte.x20; Byte.x20; Byte.x20; Byte.x20; Byte.x20; Byte.x20; Byte.x20; Byte.x20; Byte.x20; Byte.x20; Byte.x20; Byte.x20; Byte.x20; Byte.x20; Byte.x20;
   Byte.x20; Byte.x20; Byte.x20; Byte.x20; Byte.x20; Byte.x20; Byte.x20; Byte.x20; Byte.x20; Byte.x20; Byte.x20; Byte.x20; Byte.x20; Byte.x20; Byte.x20; Byte.x20; Byte.x20; Byte.x20;
   Byte.x20; Byte.x20; Byte.x20; Byte.x20; Byte.x20; Byte.x20; Byte.x20; Byte.x20; Byte.x20; Byte.x20; Byte.x20; Byte.x20; Byte.x20; Byte.x20; Byte.x20; Byte.x20; Byte.x20; Byte.x20;
   Byte.x20; Byte.x20; Byte.x20; Byte.x20; Byte.x20; Byte.x20; Byte.x20; Byte.x20; Byte.x20; Byte.x20; Byte.x20; Byte.x20; Byte.x20; Byte.x20; Byte.x20; Byte.x20; Byte.x20; Byte.x20;
   Byte.x20; Byte.x20; Byte.x20; Byte.x20; Byte.x20; Byte.x20; Byte.x20; Byte.x20; Byte.x20; Byte.x20; Byte.x20; Byte.x20; Byte.x20; Byte.x20; Byte.x20; Byte.x20; Byte.x20; Byte.x20;
   Byte.x20; Byte.x20; Byte.x0a; Byte.x20; Byte.x20; Byte.x20; Byte.x20; Byte.x20; Byte.x20; Byte.x20; Byte.x20; Byte.x20; Byte.x20; Byte.x20; Byte.x20; Byte.x20; Byte.x20; Byte.x20;
   Byte.x20; Byte.x20; Byte.x20; Byte.x20; Byte.x20; Byte.x20; Byte.x20; Byte.x20; Byte.x20; Byte.x20; Byte.x20; Byte.x20; Byte.x20; Byte.x20; Byte.x20; Byte.x20; Byte.x20; Byte.x20;
   Byte.x20; Byte.x20; Byte.x20; Byte.x20; Byte.x20; Byte.x20; Byte.x20; Byte.x20; Byte.x20; Byte.x20; Byte.x20; Byte.x20; Byte.x20; Byte.x20; Byte.x20; Byte.x20; Byte.x20; Byte.x20;
   Byte.x20; Byte.x20; Byte.x20; Byte.x20; Byte.x20; Byte.x20; Byte.x20; Byte.x20; Byte.x20; Byte.x20; Byte.x20; Byte.x20; Byte.x20; Byte.x20; Byte.x20; Byte.x20; Byte.x20; Byte.x20;
   Byte.x20; Byte.x20; Byte.x20; Byte.x20; Byte.x20; Byte.x20; Byte.x20; Byte.x20; Byte.x20; Byte.x20; Byte.x20; Byte.x20; Byte.x20; Byte.x20; Byte.x20; Byte.x20; Byte.x20; Byte.x20;
   Byte.x20; Byte.x20; Byte.x20; Byte.x20; Byte.x35; Byte.x1d; Byte.x52; Byte.x64; Byte.x00; Byte.x00; Byte.x02; Byte.x0b; Byte.x49; Byte.x44; Byte.x41; Byte.x54; Byte.x38; Byte.x8d;
   Byte.xa5; Byte.x93; Byte.x41; Byte.x6b; Byte.x1a; Byte.x41; Byte.x18; Byte.x86; Byte.x9f; Byte.x89; Byte.x06; Byte.x23; Byte.x2e; Byte.x74; Byte.xf5; Byte.x20; Byte.x4a; Byte.x0e;
   Byte.x6b; Byte.x20; Byte.xe4; Byte.xe2; Byte.xa5; Byte.x78; Byte.xc8; Byte.xa1; Byte.x78; Byte.x89; Byte.x82; Byte.x17; Byte.x85; Byte.x82; Byte.x82; Byte.x3d; Byte.x26; Byte.x62;
   Byte.x58; Byte.x72; Byte.xcd; Byte.x4f; Byte.xf1; Byte.x18; Byte.x4b; Byte.x1b; Byte.x2f; Byte.xa5; Byte.x32; Byte.xe0; Byte.xb5; Byte.x9e; Byte.x35; Byte.x1a; Byte.x58; Byte.x2f;
   Byte.xe9; Byte.x0f; Byte.xe8; Byte.x65; Byte.x6d; Byte.x84; Byte.xa2; Byte.x84; Byte.x2c; Byte.x0a; Byte.x6b; Byte.x58; Byte.x62; Byte.xa7; Byte.x87; Byte.x68; Byte.x68; Byte.x13;
   Byte.xa1; Byte.xa5; Byte.x79; Byte.xe1; Byte.x3b; Byte.x0c; Byte.xc3; Byte.xfb; Byte.xcc; Byte.x37; Byte.xef; Byte.x7c; Byte.x23; Byte.x94; Byte.x52; Byte.xbc; Byte.x44; Byte.x7e;
   Byte.x00; Byte.x21; Byte.x04; Byte.x00; Byte.xad; Byte.x56; Byte.xcb; Byte.x18; Byte.x8f; Byte.xc7; Byte.x0d; Byte.xdb; Byte.xb6; Byte.xd3; Byte.x8e; Byte.xe3; Byte.xf8; Byte.x83;
   Byte.xc1; Byte.xa0; Byte.x8a; Byte.xc7; Byte.xe3; Byte.x3f; Byte.x12; Byte.x89; Byte.x44; Byte.xb9; Byte.x5c; Byte.x2e; Byte.xf7; Byte.x56; Byte.xa6; Byte.xdf; Byte.x0f; Byte.x15;
   Byte.x4a; Byte.x29; Byte.x84; Byte.x10; Byte.x34; Byte.x9b; Byte.xcd; Byte.x77; Byte.x96; Byte.x65; Byte.x7d; Byte.x36; Byte.x0c; Byte.x43; Byte.xe4; Byte.x72; Byte.x39; Byte.xe2;
   Byte.xf1; Byte.x38; Byte.xb7; Byte.xb7; Byte.xb7; Byte.xf4; Byte.xfb; Byte.x7d; Byte.x06; Byte.x83; Byte.x01; Byte.xa9; Byte.x54; Byte.xea; Byte.x43; Byte.xa5; Byte.x52; Byte.x39;
   Byte.x7e; Byte.x0a; Byte.x40; Byte.x29; Byte.x45; Byte.xab; Byte.xd5; Byte.x32; Byte.x4e; Byte.x4f; Byte.x4f; Byte.x7f; Byte.x4a; Byte.x29; Byte.xd5; Byte.xdd; Byte.xdd; Byte.xdd;
   Byte.xb3; Byte.xea; Byte.xf5; Byte.x7a; Byte.xea; Byte.xe4; Byte.xe4; Byte.x44; Byte.x49; Byte.x29; Byte.xd3; Byte.x2b; Byte.xcf; Byte.xaa; Byte.x36; Byte.x00; Byte.xc6; Byte.xe3;
   Byte.x71; Byte.x63; Byte.x67; Byte.x67; Byte.x47; Byte.xe4; Byte.xf3; Byte.x79; Byte.x00; Byte.x3c; Byte.xcf; Byte.xa3; Byte.x50; Byte.x28; Byte.xe0; Byte.xba; Byte.x2e; Byte.x9e;
   Byte.xe7; Byte.x91; Byte.x4a; Byte.xa5; Byte.xd8; Byte.xdb; Byte.xdb; Byte.x63; Byte.x34; Byte.x1a; Byte.x7d; Byte.x7c; Byte.x9a; Byte.xc1; Byte.x06; Byte.x80; Byte.x6d; Byte.xdb;
   Byte.xe9; Byte.x6c; Byte.x36; Byte.x8b; Byte.xcf; Byte.xe7; Byte.xc3; Byte.xf3; Byte.x3c; Byte.x5c; Byte.xd7; Byte.x05; Byte.x60; Byte.x36; Byte.x9b; Byte.xe1; Byte.xba; Byte.x2e;
   Byte.x8b; Byte.xc5; Byte.x82; Byte.x4c; Byte.x26; Byte.x83; Byte.x6d; Byte.xdb; Byte.xbb; Byte.x6b; Byte.x43; Byte.x74; Byte.x1c; Byte.xc7; Byte.x1f; Byte.x8b; Byte.xc5; Byte.x00;
   Byte.x28; Byte.x16; Byte.x8b; Byte.x8f; Byte.x9b; Byte.xd5; Byte.x6a; Byte.x15; Byte.x00; Byte.x29; Byte.x25; Byte.x9a; Byte.xa6; Byte.x31; Byte.x9f; Byte.xcf; Byte.xc5; Byte.x5a;
   Byte.xc0; Byte.xd6; Byte.xd6; Byte.x96; Byte.x9a; Byte.x4c; Byte.x26; Byte.x22; Byte.x14; Byte.x0a; Byte.x21; Byte.xa5; Byte.x64; Byte.x36; Byte.x9b; Byte.x51; Byte.xad; Byte.x56;
   Byte.xa9; Byte.xd5; Byte.x6a; Byte.x68; Byte.x9a; Byte.x06; Byte.xc0; Byte.xf5; Byte.xf5; Byte.x35; Byte.xba; Byte.xae; Byte.xdf; Byte.xaf; Byte.xbd; Byte.x82; Byte.x61; Byte.x18;
   Byte.xdf; Byte.x2c; Byte.xcb; Byte.x7a; Byte.x20; Byte.xfa; Byte.xfd; Byte.x04; Byte.x02; Byte.x01; Byte.x00; Byte.x34; Byte.x4d; Byte.x23; Byte.x10; Byte.x08; Byte.xb0; Byte.x58;
   Byte.x2c; Byte.xe8; Byte.x76; Byte.xbb; Byte.x24; Byte.x12; Byte.x89; Byte.x8b; Byte.xb5; Byte.x1d; Byte.x6c; Byte.x6f; Byte.x6f; Byte.x1f; Byte.x75; Byte.x3a; Byte.x9d; Byte.x7e;
   Byte.x38; Byte.x1c; Byte.x26; Byte.x97; Byte.xcb; Byte.x21; Byte.x84; Byte.x40; Byte.x4a; Byte.x09; Byte.xc0; Byte.xe6; Byte.xe6; Byte.x26; Byte.xed; Byte.x76; Byte.x9b; Byte.xc9;
   Byte.x64; Byte.xa2; Byte.xa6; Byte.xd3; Byte.xe9; Byte.x27; Byte.x78; Byte.x98; Byte.x9b; Byte.xd5; Byte.x53; Byte.x3e; Byte.xce; Byte.xc1; Byte.xf9; Byte.xf9; Byte.xf9; Byte.xfb;
   Byte.xc1; Byte.x60; Byte.x70; Byte.x9c; Byte.x4c; Byte.x26; Byte.xd9; Byte.xdf; Byte.xdf; Byte.x27; Byte.x12; Byte.x89; Byte.x30; Byte.x1c; Byte.x0e; Byte.xb9; Byte.xbc; Byte.xbc;
   Byte.xe4; Byte.xe6; Byte.xe6; Byte.x46; Byte.xf9; Byte.x7c; Byte.xbe; Byte.x2f; Byte.xd3; Byte.xe9; Byte.x34; Byte.x0f; Byte.x34; Byte.xea; Byte.xf5; Byte.x7a; Byte.xe5; Byte.x19;
   Byte.x60; Byte.x19; Byte.xd6; Byte.x9b; Byte.xd1; Byte.x68; Byte.xd4; Byte.x18; Byte.x0e; Byte.x87; Byte.xbb; Byte.xf3; Byte.xf9; Byte.x5c; Byte.xe8; Byte.xba; Byte.x7e; Byte.x6f;
   Byte.x18; Byte.xc6; Byte.x45; Byte.x34; Byte.x1a; Byte.x3d; Byte.x2c; Byte.x95; Byte.x4a; Byte.xdf; Byte.x4d; Byte.xd3; Byte.xbc; Byte.x02; Byte.x5e; Byte.x03; Byte.x5f; Byte.x81;
   Byte.x83; Byte.xb3; Byte.xb3; Byte.x33; Byte.xe7; Byte.x0f; Byte.xc0; Byte.xdf; Byte.x64; Byte.x9a; Byte.xa6; Byte.xb1; Byte.x34; Byte.xeb; Byte.x80; Byte.x03; Byte.x1c; Byte.x6c;
   Byte.xfc; Byte.x93; Byte.x73; Byte.xa9; Byte.x7a; Byte.xbd; Byte.x6e; Byte.x03; Byte.x47; Byte.xcb; Byte.xa5; Byte.x0e; Byte.xbc; Byte.xe2; Byte.x7f; Byte.x7e; Byte.xa3; Byte.x69;
   Byte.x9a; Byte.x87; Byte.xa6; Byte.x69; Byte.xbe; Byte.x55; Byte.x4a; Byte.x3d; Byte.x64; Byte.xf0; Byte.x12; Byte.xfd; Byte.x02; Byte.x0d; Byte.x53; Byte.x06; Byte.x24; Byte.x88;
   Byte.x3f; Byte.xe1; Byte.x69; Byte.x00; Byte.x00; Byte.x00; Byte.x00; Byte.x49; Byte.x45; Byte.x4e; Byte.x44; Byte.xae; Byte.x42; Byte.x60; Byte.x82].

(** A line of the list of commands; the help text starts in a column of its own
    when the names leave room. *)
Definition help_line (module command help : list byte) : list byte :=
  let len := zlen module + zlen command in
  bytes "/" ++ module ++ bytes "/" ++ command ++
  replicate (Z.to_nat (if len >=? 25 then 1 else 25 - len)) Byte.x20 ++ help ++ [Byte.x0a].

Definition help_page (i : Inspector) : list byte :=
  concat ((fun m => concat ((fun c => help_line m.1 c.1 c.2) <$> m.2)) <$> helps_ i).

Definition ok_response (content_type body : list byte) (resp : HttpResponse) : HttpResponse :=
  setBody body (setContentType content_type (setStatusMessage (bytes "OK") (setStatusCode k200Ok resp))).

Definition onRequest (i : Inspector) (req : HttpRequest) (resp : HttpResponse) : outcome HttpResponse :=
  if decide (path_ req = bytes "/") then Ok (ok_response (bytes "text/plain") (help_page i) resp)
  else
    result ← split (path_ req);
    found ←
      match result with
      | [] => Ok None
      | [module] =>
          Ok (if decide (module = bytes "favicon.ico") then Some (ok_response (bytes "image/png") favicon resp) else None)
      | module :: command :: args =>
          match map_find string_ltb module (modules_ i) with
          | Some commList =>
              match map_find string_ltb command commList with
              | Some (Some cb) => body ← cb (method_ req) args; Ok (Some (ok_response (bytes "text/plain") body resp))
              | _ => Ok None
              end
          | None => Ok None
          end
      end;
    Ok (match found with
        | Some r => r
        | None => setStatusMessage (bytes "Not Found") (setStatusCode k404NotFound resp)
        end).

(** ** [split] gives the non-empty parts *)

Fixpoint fields (s : list byte) : list (list byte) :=
  match s with
  | [] => [[]]
  | c :: s' =>
      match fields s' with
      | f :: fs => if Byte.eqb c Byte.x2f then [] :: f :: fs else (c :: f) :: fs
      | [] => []
      end
  end.
Definition path_parts (s : list byte) : list (list byte) := filter (fun f => f <> []) (fields s).

Lemma fields_none a : Byte.x2f ∉ a -> fields a = [a].
Proof.
  induction a as [|c a IH]; intros H; [done|]. apply not_elem_of_cons in H as [Hc Ha]. cbn [fields]. rewrite IH by done.
  by rewrite (proj2 (byte_eqb_false c Byte.x2f)) by done.
Qed.

Lemma fields_cons s : exists f fs, fields s = f :: fs.
Proof. induction s as [|c s (f & fs & E)]; [by exists [], []|]. cbn. rewrite E. case_match; by eexists _, _. Qed.

Lemma fields_slash a b : Byte.x2f ∉ a -> fields (a ++ Byte.x2f :: b) = a :: fields b.
Proof.
  induction a as [|c a IH]; intros H.
  - cbn. by destruct (fields_cons b) as (f & fs & ->).
  - apply not_elem_of_cons in H as [Hc Ha]. cbn [app fields]. rewrite IH by done.
    by rewrite (proj2 (byte_eqb_false c Byte.x2f)) by done.
Qed.

Fixpoint join (fs : list (list byte)) : list byte :=
  match fs with
  | [] => []
  | [f] => f
  | f :: fs' => f ++ Byte.x2f :: join fs'
  end.

(** The fields are the text cut at its slashes. *)
Lemma fields_join s : Forall (fun f => Byte.x2f ∉ f) (fields s) /\ join (fields s) = s.
Proof.
  induction s as [|c s [IH1 IH2]]; [split; [by repeat constructor; apply not_elem_of_nil|done]|]. cbn [fields].
  destruct (fields_cons s) as (f & fs & E). rewrite E in *. destruct (Byte.eqb c Byte.x2f) eqn:Ec.
  - apply byte_eqb_true in Ec as ->. split; [constructor; [apply not_elem_of_nil|done]|]. by rewrite <- IH2.
  - apply byte_eqb_false in Ec. apply Forall_cons in IH1 as [Hf Hfs]. split.
    + constructor; [|done]. by apply not_elem_of_cons.
    + rewrite <- IH2. by destruct fs.
Qed.

Lemma path_parts_none a : Byte.x2f ∉ a -> path_parts a = if 0 <? zlen a then [a] else [].
Proof. intros H. unfold path_parts. rewrite fields_none by done. destruct a as [|c a]; [done|]. rewrite zlen_cons. zlen_pos.
  by rewrite (proj2 (Z.ltb_lt _ _)) by lia. Qed.

Lemma path_parts_slash a b :
  Byte.x2f ∉ a -> path_parts (a ++ Byte.x2f :: b) = (if 0 <? zlen a then [a] else []) ++ path_parts b.
Proof.
  intros H. unfold path_parts. rewrite fields_slash by done. destruct a as [|c a]; [done|]. rewrite zlen_cons. zlen_pos.
  by rewrite (proj2 (Z.ltb_lt _ _)) by lia.
Qed.

Lemma split_loop_spec fuel str start result :
  0 <= start <= zlen str -> (length (zdrop start str) < fuel)%nat ->
  exists start' r, split_loop fuel str start (find_slash str start) result = Some (start', r) /\
    (if start' <? zlen str then r ++ [zslice start' (zlen str) str] else r) = result ++ path_parts (zdrop start str).
Proof.
  revert start result. induction fuel as [|fuel IH]; intros start result Hs Hf; [lia|]. cbn [split_loop].
  unfold find_slash at 1. pose proof (memchr_spec Byte.x2f (zdrop start str)) as Hm.
  destruct (memchr Byte.x2f (zdrop start str)) as [i|].
  - destruct Hm as (a & b & E & -> & Ha). pose proof (zlen_nonneg a). pose proof (zlen_nonneg b).
    assert (zlen str = start + zlen a + 1 + zlen b) as Hl.
    { pose proof (zlen_drop start str Hs) as Hd. rewrite E, zlen_app, zlen_cons in Hd. lia. }
    assert (zdrop (start + zlen a + 1) str = b) as Eb.
    { replace (start + zlen a + 1) with (start + (zlen a + 1)) by lia. rewrite <- zdrop_zdrop, E by lia.
      change (Byte.x2f :: b) with ([Byte.x2f] ++ b). rewrite app_assoc. apply zdrop_app_exact. by rewrite zlen_app. }
    assert (zslice start (start + zlen a) str = a) as Ea.
    { unfold zslice. rewrite E. replace (start + zlen a - start) with (zlen a) by lia. by apply ztake_app_exact. }
    destruct (IH (start + zlen a + 1) (if start + zlen a >? start then result ++ [a] else result)) as (s' & r & E1 & E2).
    { lia. } { rewrite Eb. rewrite E, length_app in Hf. cbn in Hf. lia. }
    exists s', r. rewrite Ea. split; [exact E1|]. rewrite E2, Eb, E, path_parts_slash by done.
    rewrite Z.gtb_ltb. replace (start <? start + zlen a) with (0 <? zlen a) by (destruct (Z.ltb_spec 0 (zlen a)), (Z.ltb_spec start (start + zlen a)); lia).
    destruct (0 <? zlen a); [by rewrite <- app_assoc|done].
  - exists start, result. split; [done|]. rewrite path_parts_none by done. rewrite zlen_drop by done.
    replace (0 <? zlen str - start) with (start <? zlen str) by (destruct (Z.ltb_spec start (zlen str)), (Z.ltb_spec 0 (zlen str - start)); lia).
    destruct (start <? zlen str); [|by rewrite app_nil_r]. do 2 f_equal. unfold zslice. apply ztake_all. rewrite zlen_drop; lia.
Qed.

Lemma split_spec str : split str = Ok (path_parts str).
Proof.
  unfold split. zlen_pos. destruct (split_loop_spec (S (length str)) str 0 []) as (s' & r & -> & E); [lia|rewrite zdrop_0; lia|].
  by rewrite E, zdrop_0.
Qed.

(** ** The registry as a table *)

Inductive event := Add (module command : list byte) (cb : option Callback) (help : list byte) | Remove (module command : list byte).

Definition registry_step (i : Inspector) (e : event) : Inspector :=
  match e with Add m c cb h => add m c cb h i | Remove m c => remove m c i end.
Definition registry_run (es : list event) : Inspector := foldl registry_step new_inspector es.

(** What is registered under a module and a command. *)
Definition table : Type := list byte -> list byte -> option (option Callback * list byte).
Definition table_step (t : table) (e : event) : table :=
  match e with
  | Add m c cb h => fun m' c' => if decide (m' = m /\ c' = c) then Some (cb, h) else t m' c'
  | Remove m c => fun m' c' => if decide (m' = m /\ c' = c) then None else t m' c'
  end.
Definition registered (es : list event) : table := foldl table_step (fun _ _ => None) es.

Definition find2 {V} (mm : list (list byte * list (list byte * V))) (m c : list byte) : option V :=
  match map_find string_ltb m mm with Some l => map_find string_ltb c l | None => None end.
Definition sorted2 {V} (mm : list (list byte * list (list byte * V))) : Prop :=
  map_sorted string_ltb mm /\ Forall (fun m => map_sorted string_ltb m.2) mm.

Lemma at_key_sorted {V} m (mm : list (list byte * list (list byte * V))) : sorted2 mm -> map_sorted string_ltb (at_key m mm).
Proof.
  intros [Hs Hf]. unfold at_key. destruct (map_find string_ltb m mm) as [l|] eqn:E; [|constructor].
  apply (map_find_elem string_ltb) in E; [|done]. rewrite Forall_forall in Hf. apply (Hf _ E).
Qed.

Lemma find2_at {V} m c (mm : list (list byte * list (list byte * V))) : find2 mm m c = map_find string_ltb c (at_key m mm).
Proof. unfold find2, at_key. by destruct (map_find string_ltb m mm). Qed.

(** Replacing the commands of a module. *)
Lemma set2_spec {V} m l (mm : list (list byte * list (list byte * V))) :
  sorted2 mm -> map_sorted string_ltb l ->
  sorted2 (map_set string_ltb m l mm) /\
  forall m' c', find2 (map_set string_ltb m l mm) m' c' = if decide (m' = m) then map_find string_ltb c' l else find2 mm m' c'.
Proof.
  intros [Hs Hf] Hl. split.
  - split; [by apply (map_set_sorted string_ltb)|]. by apply (map_set_Forall string_ltb).
  - intros m' c'. unfold find2. destruct (decide (m' = m)) as [->|Hne].
    + by rewrite (map_find_set_eq string_ltb).
    + by rewrite (map_find_set_ne string_ltb) by done.
Qed.

Record inv (t : table) (i : Inspector) : Prop := {
  i_modules : sorted2 (modules_ i);
  i_helps : sorted2 (helps_ i);
  i_cb : forall m c, find2 (modules_ i) m c = fst <$> t m c;
  i_help : forall m c, find2 (helps_ i) m c = snd <$> t m c }.

Lemma set_command {V} m c v (mm : list (list byte * list (list byte * V))) (f : list byte -> list byte -> option V) :
  sorted2 mm -> (forall m c, find2 mm m c = f m c) ->
  sorted2 (map_set string_ltb m (map_set string_ltb c v (at_key m mm)) mm) /\
  forall m' c', find2 (map_set string_ltb m (map_set string_ltb c v (at_key m mm)) mm) m' c' =
    if decide (m' = m /\ c' = c) then Some v else f m' c'.
Proof.
  intros Hs Hf. pose proof (at_key_sorted m mm Hs) as Hk.
  destruct (set2_spec m (map_set string_ltb c v (at_key m mm)) mm Hs) as [H1 H2]; [by apply (map_set_sorted string_ltb)|].
  split; [done|]. intros m' c'. rewrite H2. destruct (decide (m' = m)) as [->|]; [|by rewrite decide_False by tauto; apply Hf].
  destruct (decide (c' = c)) as [->|].
  - rewrite decide_True by done. by rewrite (map_find_set_eq string_ltb).
  - rewrite decide_False by tauto. rewrite (map_find_set_ne string_ltb) by done. by rewrite <- find2_at.
Qed.

Lemma erase_command {V} m c (mm : list (list byte * list (list byte * V))) (f : list byte -> list byte -> option V) :
  sorted2 mm -> (forall m c, find2 mm m c = f m c) ->
  sorted2 (map_set string_ltb m (map_erase string_ltb c (at_key m mm)) mm) /\
  forall m' c', find2 (map_set string_ltb m (map_erase string_ltb c (at_key m mm)) mm) m' c' =
    if decide (m' = m /\ c' = c) then None else f m' c'.
Proof.
  intros Hs Hf. pose proof (at_key_sorted m mm Hs) as Hk.
  destruct (set2_spec m (map_erase string_ltb c (at_key m mm)) mm Hs) as [H1 H2]; [by apply (map_erase_sorted string_ltb)|].
  split; [done|]. intros m' c'. rewrite H2. destruct (decide (m' = m)) as [->|]; [|by rewrite decide_False by tauto; apply Hf].
  destruct (decide (c' = c)) as [->|].
  - rewrite decide_True by done. by apply (map_find_erase_eq string_ltb).
  - rewrite decide_False by tauto. rewrite (map_find_erase_ne string_ltb) by done. by rewrite <- find2_at.
Qed.

Lemma registry_inv es : inv (registered es) (registry_run es).
Proof.
  unfold registered, registry_run.
  assert (inv (fun _ _ => None) new_inspector) as H by (split; [split; constructor|split; constructor|done|done]).
  revert H. generalize (fun _ _ : list byte => @None (option Callback * list byte)) as t, new_inspector as i.
  induction es as [|e es IH]; intros t i Hi; [done|]. apply IH. destruct Hi as [Hm Hh Hc Hp], e as [m c cb h|m c]; cbn.
  - destruct (set_command m c cb _ _ Hm Hc) as [H1 H2], (set_command m c h _ _ Hh Hp) as [H3 H4].
    split; cbn; [done|done|intros m' c'; rewrite H2; by case_decide|intros m' c'; rewrite H4; by case_decide].
  - unfold remove. destruct (map_find string_ltb m (modules_ i)) as [l|] eqn:E.
    + assert (l = at_key m (modules_ i)) as -> by (unfold at_key; by rewrite E).
      destruct (erase_command m c _ _ Hm Hc) as [H1 H2], (erase_command m c _ _ Hh Hp) as [H3 H4].
      split; cbn; [done|done|intros m' c'; rewrite H2; by case_decide|intros m' c'; rewrite H4; by case_decide].
    + assert (forall c', t m c' = None) as Hn.
      { intros c'. specialize (Hc m c'). unfold find2 in Hc. rewrite E in Hc. by destruct (t m c'). }
      split; [done|done| |]; intros m' c'; (case_decide as Hd; [destruct Hd as [-> ->]; rewrite ?Hc, ?Hp, Hn; done|done]).
Qed.

(** ** The list of commands *)

Definition entries (i : Inspector) : list (list byte * list byte * list byte) :=
  helps_ i ≫= (fun m => (fun c => (m.1, c.1, c.2)) <$> m.2).

Lemma help_page_entries i : help_page i = concat ((fun e => help_line e.1.1 e.1.2 e.2) <$> entries i).
Proof.
  unfold help_page, entries. induction (helps_ i) as [|[m l] hs IH]; [done|].
  cbn [fmap list_fmap mbind list_bind concat]. rewrite IH, fmap_app, concat_app. f_equal. by rewrite <- list_fmap_compose.
Qed.

Definition entry_lt (a b : list byte * list byte * list byte) : Prop := pair_ltb string_ltb string_ltb a.1 b.1 = true.

Lemma entries_sorted i : sorted2 (helps_ i) -> StronglySorted entry_lt (entries i).
Proof.
  intros [Hs Hf]. unfold entries. induction Hs as [|[m l] hs Hs IH Hm]; [constructor|]. apply Forall_cons in Hf as [Hl Hf].
  cbn [mbind list_bind]. cbn [fst snd] in *. specialize (IH Hf).
  change (Forall (fun q => string_ltb m q.1 = true) hs) in Hm. clear Hs Hf. induction Hl as [|[c h] l Hl IHl Hc]; [exact IH|].
  cbn [fmap list_fmap app fst snd]. constructor; [done|]. apply Forall_app. split.
  - apply Forall_fmap. eapply Forall_impl; [exact Hc|]. intros [c' h'] Hlt. unfold entry_lt, pair_ltb, key_lt in *. cbn in *.
    rewrite ltb_irrefl. by rewrite Hlt.
  - apply Forall_bind. eapply Forall_impl; [exact Hm|]. intros [m' l'] Hlt. apply Forall_fmap, Forall_true.
    intros [c' h']. unfold entry_lt, pair_ltb, key_lt in *. cbn in *. by rewrite Hlt.
Qed.

Lemma entries_elem t i m c h : inv t i -> (m, c, h) ∈ entries i <-> snd <$> t m c = Some h.
Proof.
  intros Hi. rewrite <- (i_help _ _ Hi). destruct (i_helps _ _ Hi) as [Hs Hf]. unfold entries, find2.
  rewrite list_elem_of_bind. split.
  - intros ([m' l] & Hin & Hel). cbn in Hin. apply list_elem_of_fmap in Hin as ([c' h'] & [= -> -> ->] & Hin). cbn in *.
    rewrite (proj2 (map_find_elem string_ltb _ _ _ Hs) Hel). rewrite Forall_forall in Hf. apply (map_find_elem string_ltb); [apply (Hf _ Hel)|done].
  - destruct (map_find string_ltb m (helps_ i)) as [l|] eqn:E; [|done]. intros Hh. exists (m, l).
    apply (map_find_elem string_ltb) in E; [|done]. split; [|done]. rewrite Forall_forall in Hf.
    apply (map_find_elem string_ltb) in Hh; [|apply (Hf _ E)]. apply list_elem_of_fmap. by exists (c, h).
Qed.

(** The content type and the page, in terms of the table. *)
Definition answer_found (t : table) (req : HttpRequest) : option (list byte * outcome (list byte)) :=
  match path_parts (path_ req) with
  | [module] => if decide (module = bytes "favicon.ico") then Some (bytes "image/png", Ok favicon) else None
  | module :: command :: args =>
      match t module command with Some (Some cb, _) => Some (bytes "text/plain", cb (method_ req) args) | _ => None end
  | [] => None
  end.

(** C39: The inspector after any additions and removals answers every request:
    the root page lists exactly the registered commands, sorted by module and
    command; any other path is cut at its slashes into its non-empty parts: a
    registered module and command run the callback last registered for them, with
    the remaining parts as arguments, and a single [favicon.ico] gets the icon;
    everything else, an empty callback included, is not found. *)
Theorem inspector_correct es req resp :
  exists regs,
    StronglySorted entry_lt regs /\
    (forall m c h, (m, c, h) ∈ regs <-> exists cb, registered es m c = Some (cb, h)) /\
    onRequest (registry_run es) req resp =
      if decide (path_ req = bytes "/")
      then Ok (ok_response (bytes "text/plain") (concat ((fun e => help_line e.1.1 e.1.2 e.2) <$> regs)) resp)
      else match answer_found (registered es) req with
           | Some (ctype, page) => body ← page; Ok (ok_response ctype body resp)
           | None => Ok (setStatusMessage (bytes "Not Found") (setStatusCode k404NotFound resp))
           end.
Proof.
  pose proof (registry_inv es) as Hi. exists (entries (registry_run es)). split; [by apply entries_sorted, Hi|]. split.
  - intros m c h. rewrite (entries_elem _ _ _ _ _ Hi). destruct (registered es m c) as [[cb h']|]; cbn; [|split; [done|by intros (? & ?)]].
    split; [intros [= ->]; by exists cb|by intros (cb' & [= -> ->])].
  - unfold onRequest. destruct (decide (path_ req = bytes "/")); [by rewrite help_page_entries|].
    rewrite split_spec. bind_simpl. unfold answer_found. destruct (path_parts (path_ req)) as [|m [|c args]]; [done|by case_decide|].
    pose proof (i_cb _ _ Hi m c) as Hc. unfold find2 in Hc.
    destruct (map_find string_ltb m _) as [l|]; [|by destruct (registered es m c)].
    rewrite Hc. destruct (registered es m c) as [[[cb|] h]|]; [|done..]. cbn [fmap option_fmap option_map fst].
    by destruct (cb (method_ req) args).
Qed.

(** ** The icon is a well-formed image *)

Definition crc32_bit (x : Z) : Z := if Z.odd x then Z.lxor (Z.shiftr x 1) 3988292384 else Z.shiftr x 1.
Definition crc32 (s : list byte) : Z :=
  Z.lxor (foldl (fun x c => Nat.iter 8 crc32_bit (Z.lxor x (byte.unsigned c))) 4294967295 s) 4294967295.

Definition be_number (s : list byte) : Z := foldl (fun x c => 256 * x + byte.unsigned c) 0 s.

(** The chunks of a PNG file: length, type, data and checksum; [IEND] is last. *)
Fixpoint png_chunks (fuel : nat) (s : list byte) : bool :=
  match fuel with
  | O => false
  | S fuel' =>
      let n := be_number (ztake 4 s) in
      let body := zslice 4 (8 + n) s in
      (zlen s >=? 12 + n) && (crc32 body =? be_number (zslice (8 + n) (12 + n) s)) &&
      (if decide (ztake 4 body = bytes "IEND") then zlen s =? 12 + n else png_chunks fuel' (zdrop (12 + n) s))
  end.

Lemma favicon_is_png :
  zlen favicon = 1743 /\ ztake 8 favicon = [Byte.x89] ++ bytes "PNG" ++ [Byte.x0d; Byte.x0a; Byte.x1a; Byte.x0a] /\
  png_chunks 8 (zdrop 8 favicon) = true.
Proof. split_and!; vm_compute; reflexivity. Qed.
End Inspector.
