(* ===== verification/ProcessInfo.v ===== *)
(** * Process information and its pages ([src/base/ProcessInfo.cpp],
    [src/net/inspect/ProcessInspector.cpp], [SystemInspector.cpp])

    What the kernel tells about the process is the environment: the files under
    [/proc] by path, directory listings and the results of the system calls. *)

From stdpp Require Import sorting.
From S2P Require Import Prelude CxxStd Decimal Timestamp LogStream StringPiece FileUtil Http Inspector.

Module ProcessInfo.
Import StringPiece.

Record env := mkEnv {
  files : list byte -> FileUtil.open_file + Z;
  (** the entries of a directory, in the order [scandir] reads them *)
  listing : list byte -> option (list (list byte));
  getpid : Z;
  gettid : Z;
  clockTicksPerSecond : Z;
  startTime : Z;
  now : Z;
  (** [gethostname], [getpwuid_r], [readlink], [getrlimit], [times], [uname] *)
  host : option (list byte);
  user : option (list byte);
  exe : option (list byte);
  nofile : option Z;
  cpu : option (Z * Z);
  debug_build : bool;
  uts : option (list byte * list byte * list byte * list byte * list byte) }.

(** ** Numbers in text *)

(** [strtol(s, NULL, 10)], and [atol]: blanks, a sign, digits; saturates. *)
Fixpoint take_digits (s : list byte) : list byte :=
  match s with c :: s' => if is_digit c then c :: take_digits s' else [] | [] => [] end.

Definition strtol (s : list byte) : Z :=
  let s := Http.skip_space s in
  let '(neg, s) := match s with
                   | Byte.x2d :: s' => (true, s')
                   | Byte.x2b :: s' => (false, s')
                   | _ => (false, s)
                   end in
  let v := dec_value (take_digits s) in
  Z.max (- 2 ^ 63) (Z.min (2 ^ 63 - 1) (if neg then - v else v)).
Definition atoi (s : list byte) : Z := i32 (strtol s).

(** The C string at an offset. *)
Definition cstr (off : Z) (s : list byte) : list byte := let t := zdrop off s in ztake (std_find Byte.x00 t) t.

(** [s.find(key)] *)
Definition string_find (s key : list byte) : option Z :=
  let i := std_search key s in if (i =? zlen s) && negb (is_prefix key []) then None else Some i.

(** [s.rfind(c)] *)
Fixpoint string_rfind (s : list byte) (c : byte) : option Z :=
  match s with
  | [] => None
  | x :: s' =>
      match string_rfind s' c with
      | Some i => Some (i + 1)
      | None => if Byte.eqb x c then Some 0 else None
      end
  end.

(** [s[pos]], with the terminator at the end. *)
Definition char_at (s : list byte) (pos : Z) : outcome byte :=
  if pos =? zlen s then Ok Byte.x00
  else match s !! Z.to_nat pos with Some c => in_bounds (0 <=? pos);; Ok c | None => Err OutOfBounds end.

(** ** [ProcessInfo] *)

Section with_env.
Context (e : env).

Definition pid : Z := getpid e.
Definition pidString : list byte := snprintf 32 (dec pid).
Definition username : list byte := default (bytes "unknownuser") (user e).
(** [gethostname] fills 256 bytes; the last one is cut. *)
Definition hostname : list byte := match host e with Some h => cstr 0 (ztake 255 h) | None => bytes "unknownhost" end.
Definition exePath : list byte := match exe e with Some p => ztake 1024 p | None => [] end.
Definition isDebugBuild : bool := debug_build e.

Definition read_file (path : list byte) : outcome (Z * list byte) :=
  '(err, text, _) ← FileUtil.readFile (files e path) 65536 [] (FileUtil.mkSizes None None None);
  Ok (err, text).
Definition read_text (path : list byte) : outcome (list byte) := '(_, text) ← read_file path; Ok text.

Definition procStatus : outcome (list byte) := read_text (bytes "/proc/self/status").
Definition procStat : outcome (list byte) := read_text (bytes "/proc/self/stat").
Definition threadStat : outcome (list byte) :=
  read_text (snprintf 64 (bytes "/proc/self/task/" ++ dec (gettid e) ++ bytes "/stat")).

(** [procname(stat)]: between the first opening and the last closing bracket. *)
Definition procname (stat : list byte) : StringPiece :=
  match string_find stat (bytes "("), string_rfind stat Byte.x29 with
  | Some lp, Some rp => if lp <? rp then piece_range stat (lp + 1) (i32 (rp - lp - 1)) else null_piece
  | _, _ => null_piece
  end.

(** [scandir] calls the filter on every entry and, the filter taking none, keeps
    nothing; a failing [scandir] calls nothing. *)
Definition scanDir (dirpath : list byte) : list (list byte) := default [] (listing e dirpath).
Definition starts_with_digit (name : list byte) : bool := match name with c :: _ => is_digit c | [] => false end.

Definition openedFiles : Z := i32 (Z.of_nat (length (filter (fun d => starts_with_digit d = true) (scanDir (bytes "/proc/self/fd"))))).
Definition maxOpenFiles : Z := match nofile e with Some n => i32 n | None => openedFiles end.

Definition threads : list Z :=
  merge_sort Z.le (atoi <$> filter (fun d => starts_with_digit d = true) (scanDir (bytes "/proc/self/task"))).

Definition numThreads : outcome Z :=
  status ← procStatus;
  Ok (match string_find status (bytes "Threads:") with Some pos => atoi (cstr (pos + 8) status) | None => 0 end).

(** Seconds as doubles. *)
Record CpuTime := mkCpu { userSeconds : Timestamp.double; systemSeconds : Timestamp.double }.

Definition ticks (n : Z) : Timestamp.double :=
  Timestamp.ddiv (Timestamp.double_of_Z n) (Timestamp.double_of_Z (clockTicksPerSecond e)).
Definition cpuTime : CpuTime :=
  match cpu e with
  | Some (utime, stime) => mkCpu (ticks utime) (ticks stime)
  | None => mkCpu (Timestamp.double_of_Z 0) (Timestamp.double_of_Z 0)
  end.

(** ** [ProcessInspector] *)

Definition uptime (now start : Z) (showMicroseconds : bool) : list byte :=
  let age := i64 (now - start) in
  let seconds := i32 (Z.quot age Timestamp.kMicroSecondsPerSecond) in
  let days := (seconds / 86400)%int in
  let hours := (seconds %% 86400 / 3600)%int in
  let minutes := (seconds %% 3600 / 60)%int in
  let text := dec days ++ bytes " days " ++ dec0 2 hours ++ bytes ":" ++ dec0 2 minutes ++ bytes ":" ++ dec0 2 (seconds %% 60)%int in
  if showMicroseconds then
    snprintf 256 (text ++ bytes "." ++ dec0 6 (i32 (Z.rem age Timestamp.kMicroSecondsPerSecond)))
  else snprintf 256 text.

Definition getLong (procStatus key : list byte) : Z :=
  match string_find procStatus key with
  | Some pos => strtol (cstr (pos + zlen key) procStatus)
  | None => 0
  end.

(** The two loops of [getProcessName]. *)
Fixpoint skip_tabs (fuel : nat) (s : list byte) (pos : Z) : outcome Z :=
  match fuel with
  | O => Err Fatal
  | S fuel' => c ← char_at s pos; if Byte.eqb c Byte.x09 then skip_tabs fuel' s (pos + 1) else Ok pos
  end.
Fixpoint find_eol (fuel : nat) (s : list byte) (pos : Z) : outcome Z :=
  match fuel with
  | O => Err Fatal
  | S fuel' => c ← char_at s pos; if Byte.eqb c Byte.x0a then Ok pos else find_eol fuel' s (pos + 1)
  end.

Definition getProcessName (procStatus : list byte) : outcome (list byte) :=
  match string_find procStatus (bytes "Name:") with
  | Some pos =>
      pos ← skip_tabs (S (length procStatus)) procStatus (pos + 5);
      eol ← find_eol (S (S (length procStatus))) procStatus pos;
      Ok (zslice pos eol procStatus)
  | None => Ok []
  end.

(** Behind the first blank, or the empty string. *)
Definition next (data : StringPiece) : outcome StringPiece :=
  text ← load data (length_ data);
  Ok (match memchr Byte.x20 text with
      | Some sp => remove_prefix (i32 (sp + 1)) data
      | None => piece_cstr [Byte.x00]
      end).

Fixpoint next_n (n : nat) (data : StringPiece) : outcome StringPiece :=
  match n with O => Ok data | S n' => data ← next data; next_n n' data end.

(** [strtol(data.data(), NULL, 10)]: reads on to the terminator. *)
Definition piece_long (data : StringPiece) : outcome Z :=
  match ptr_ data with
  | Some o => in_bounds ((0 <=? o) && (o <=? zlen (memory data)));; Ok (strtol (cstr o (memory data)))
  | None => Err OutOfBounds
  end.

Definition getCpuTime (data : StringPiece) : outcome CpuTime :=
  data ← next_n 10 data;
  utime ← piece_long data;
  data ← next data;
  stime ← piece_long data;
  Ok (mkCpu (ticks utime) (ticks stime)).

(** [stringPrintf(out, fmt, ...)] with the text of the conversion. *)
Definition stringPrintf (text out : list byte) : list byte := out ++ snprintf 256 text.

Definition pad_right (w : Z) (s : list byte) : list byte := s ++ replicate (Z.to_nat (w - zlen s)) Byte.x20.
Definition float_text (w prec : Z) (x : Timestamp.double) : list byte := pad_left Byte.x20 w (LogStream.print_f prec x).

(** The line of one thread in the page [threads]. *)
Definition thread_row (tid : Z) (stat : list byte) : outcome (list byte) :=
  let name := procname stat in
  match ptr_ name with
  | None => Err OutOfBounds
  | Some o =>
      let rp := o + length_ name in
      c ← char_at stat rp;
      assert_ (Byte.eqb c Byte.x29);;
      let state := rp + 2 in
      let stat := <[Z.to_nat rp := Byte.x00]> stat in
      let data := remove_prefix (i32 (state + 2)) (piece_string stat) in
      t ← getCpuTime data;
      st ← char_at stat state;
      Ok (cstr 0 (snprintf 256 (decw 5 tid ++ bytes " " ++ pad_right 16 (cstr o stat) ++ bytes " " ++ [st] ++ bytes " " ++
            float_text 12 3 (userSeconds t) ++ bytes " " ++ float_text 12 3 (systemSeconds t) ++ [Byte.x0a])))
  end.

Definition task_path (tid : Z) : list byte :=
  snprintf 256 (bytes "/proc/" ++ dec pid ++ bytes "/task/" ++ dec tid ++ bytes "/stat").

Fixpoint thread_rows (tids : list Z) (result : list byte) : outcome (list byte) :=
  match tids with
  | [] => Ok result
  | tid :: tids' =>
      '(err, stat) ← read_file (task_path tid);
      row ← (if err =? 0 then thread_row tid stat else Ok []);
      thread_rows tids' (result ++ row)
  end.

Definition threads_page : outcome (list byte) :=
  thread_rows threads (bytes "  TID NAME             S    User Time  System Time" ++ [Byte.x0a]).

Definition nl : list byte := [Byte.x0a].
Definition kib_as_mib (kb : Z) : list byte :=
  LogStream.print_f 3 (Timestamp.ddiv (Timestamp.double_of_Z kb) (Timestamp.double_of_Z 1024)).

Definition proc_overview : outcome (list byte) :=
  let result := bytes "Page generated at " ++ Timestamp.toFormattedString (now e) true ++ bytes " (UTC)" ++ nl ++
    bytes "Started at " ++ Timestamp.toFormattedString (startTime e) true ++ bytes " (UTC), up for " ++
    uptime (now e) (startTime e) true ++ nl in
  status ← procStatus;
  name ← getProcessName status;
  let result := result ++ name ++ bytes " (" ++ exePath ++ bytes ") running as " ++ username ++ bytes " on " ++ hostname ++ nl in
  let result := if isDebugBuild then result ++ bytes "WARNING: debug build!" ++ nl else result in
  let result := stringPrintf (bytes "pid " ++ dec pid ++ bytes ", num of threads " ++ dec (getLong status (bytes "Threads:")) ++
    bytes ", bits 64" ++ nl) result in
  let result := stringPrintf (kib_as_mib (getLong status (bytes "VmSize:")) ++ bytes " MiB, ") (result ++ bytes "Virtual memory: ") in
  let result := stringPrintf (kib_as_mib (getLong status (bytes "VmRSS:")) ++ bytes " MiB" ++ nl) (result ++ bytes "RSS memory: ") in
  let result := stringPrintf (bytes "Opened files: " ++ dec openedFiles ++ bytes ", limit: " ++ dec maxOpenFiles ++ nl) result in
  Ok (stringPrintf (bytes "User time: " ++ float_text 12 3 (userSeconds cpuTime) ++ bytes "s" ++ nl ++
    bytes "Sys time:  " ++ float_text 12 3 (systemSeconds cpuTime) ++ bytes "s" ++ nl) result).

(** ** [SystemInspector] *)

Definition loadavg : outcome (list byte) := read_text (bytes "/proc/loadavg").
Definition version : outcome (list byte) := read_text (bytes "/proc/version").
Definition cpuinfo : outcome (list byte) := read_text (bytes "/proc/cpuinfo").
Definition meminfo : outcome (list byte) := read_text (bytes "/proc/meminfo").
Definition sys_stat : outcome (list byte) := read_text (bytes "/proc/stat").

Definition mib_line (label : list byte) (kb : Z) : list byte := label ++ decw 6 (Z.quot kb 1024) ++ bytes " MiB" ++ nl.

Definition sys_overview : outcome (list byte) :=
  let result := bytes "Page generated at " ++ Timestamp.toFormattedString (now e) true ++ bytes " (UTC)" ++ nl in
  let result :=
    match uts e with
    | Some (sysname, nodename, release, version, machine) =>
        stringPrintf (bytes "OS: " ++ sysname ++ bytes " " ++ release ++ bytes " " ++ version ++ nl)
          (stringPrintf (bytes "Machine: " ++ machine ++ nl) (stringPrintf (bytes "Hostname: " ++ nodename ++ nl) result))
    | None => result
    end in
  stat ← sys_stat;
  let bootTime := i64 (Timestamp.kMicroSecondsPerSecond * getLong stat (bytes "btime ")) in
  let result := result ++ bytes "Boot time: " ++ Timestamp.toFormattedString bootTime false ++ bytes " (UTC)" ++ nl ++
    bytes "Up time: " ++ uptime (now e) bootTime false ++ nl in
  load ← loadavg;
  let result := stringPrintf (bytes "Processes created: " ++ dec (getLong stat (bytes "processes ")) ++ nl) result in
  let result := stringPrintf (bytes "Loadavg: " ++ cstr 0 load ++ nl) result in
  mem ← meminfo;
  let total_kb := getLong mem (bytes "MemTotal:") in
  let free_kb := getLong mem (bytes "MemFree:") in
  let buffers_kb := getLong mem (bytes "Buffers:") in
  let cached_kb := getLong mem (bytes "Cached:") in
  let result := stringPrintf (mib_line (bytes "Total Memory: ") total_kb) result in
  let result := stringPrintf (mib_line (bytes "Free Memory:  ") free_kb) result in
  let result := stringPrintf (mib_line (bytes "Buffers:      ") buffers_kb) result in
  let result := stringPrintf (mib_line (bytes "Cached:       ") cached_kb) result in
  let result := stringPrintf (mib_line (bytes "Real Used:    ") (i64 (total_kb - free_kb - buffers_kb - cached_kb))) result in
  Ok (stringPrintf (mib_line (bytes "Real Free:    ") (i64 (free_kb + buffers_kb + cached_kb))) result).

(** ** Reading numbers back *)

Lemma dec_in v c : c ∈ dec v -> is_digit c = true \/ c = Byte.x2d.
Proof.
  unfold dec. destruct (Z.ltb_spec v 0).
  - intros [->|Hin]%elem_of_cons; [by right|]. left.
    pose proof (dec_nat_digits (- v) ltac:(lia)) as Hd. rewrite Forall_forall in Hd. by apply Hd.
  - intros Hin. left. pose proof (dec_nat_digits v ltac:(lia)) as Hd. rewrite Forall_forall in Hd. by apply Hd.
Qed.

(** No blank, bracket or terminator in a number. *)
Lemma dec_not_in v c : is_digit c = false -> c <> Byte.x2d -> c ∉ dec v.
Proof. intros Hd Hm [Hc|Hc]%dec_in; congruence. Qed.

Lemma take_digits_app ds rest :
  Forall (fun c => is_digit c = true) ds -> (forall c k, rest = c :: k -> is_digit c = false) -> take_digits (ds ++ rest) = ds.
Proof.
  intros Hd Hr. induction Hd as [|c ds Hc _ IH]; cbn.
  - destruct rest as [|c k]; [done|]. cbn. by rewrite (Hr c k).
  - by rewrite Hc, IH.
Qed.

Lemma skip_space_blanks bl s : Forall (fun c => Http.isspace c = true) bl -> Http.skip_space (bl ++ s) = Http.skip_space s.
Proof. induction 1 as [|c bl Hc _ IH]; [done|]. cbn. by rewrite Hc. Qed.

(** [strtol] reads what [%ld] prints. *)
Lemma strtol_dec bl v rest :
  Forall (fun c => Http.isspace c = true) bl -> - 2 ^ 63 <= v < 2 ^ 63 -> (forall c k, rest = c :: k -> is_digit c = false) ->
  strtol (bl ++ dec v ++ rest) = v.
Proof.
  intros Hb Hv Hr. unfold strtol. rewrite skip_space_blanks by done. unfold dec. destruct (Z.ltb_spec v 0).
  - cbn [app Http.skip_space]. change (Http.isspace Byte.x2d) with false. cbv iota beta zeta.
    rewrite take_digits_app by (done || apply dec_nat_digits; lia). rewrite dec_value_dec_nat by lia. lia.
  - pose proof (dec_nat_digits v ltac:(lia)) as Hd. pose proof (dec_nat_nonempty v) as Hne.
    pose proof (take_digits_app _ _ Hd Hr) as Ht. pose proof (dec_value_dec_nat v ltac:(lia)) as Hval.
    destruct (dec_nat v) as [|c ds]; [by vm_compute in Hne|]. apply Forall_cons in Hd as [Hc _].
    assert (Http.skip_space ((c :: ds) ++ rest) = (c :: ds) ++ rest) as ->.
    { cbn. assert (Http.isspace c = false) as ->; [|done]. unfold is_digit, Http.isspace in *. lia. }
    assert (match (c :: ds) ++ rest with
            | Byte.x2d :: s' => (true, s') | Byte.x2b :: s' => (false, s') | _ => (false, (c :: ds) ++ rest)
            end = (false, (c :: ds) ++ rest)) as -> by (by destruct c).
    rewrite Ht, Hval. lia.
Qed.

Lemma cstr_text off s a : 0 <= off -> zdrop off s = a -> Byte.x00 ∉ a -> cstr off s = a.
Proof.
  intros Ho <- Hn. unfold cstr. pose proof (memchr_spec Byte.x00 (zdrop off s)) as Hm. unfold memchr in Hm.
  destruct (Z.eqb_spec (std_find Byte.x00 (zdrop off s)) (zlen (zdrop off s))) as [->|].
  - by apply ztake_all; lia.
  - destruct Hm as (a & b & E & _ & _). destruct Hn. rewrite E. set_solver.
Qed.

(** The first occurrence of a key. *)
Lemma string_find_first a key b :
  key <> [] -> (forall k1 k2, a ++ key ++ b = k1 ++ key ++ k2 -> zlen a <= zlen k1) -> string_find (a ++ key ++ b) key = Some (zlen a).
Proof.
  intros Hk Hfirst. unfold string_find. assert (is_prefix key [] = false) as -> by (by destruct key). rewrite andb_true_r.
  destruct (std_searchP key (a ++ key ++ b) Hk) as [Hno|l1 l2 E Hl]; [by destruct (Hno a b)|].
  assert (zlen l1 = zlen a) as -> by (pose proof (Hfirst _ _ E); pose proof (Hl a b eq_refl); lia).
  rewrite (proj2 (Z.eqb_neq _ _)); [done|]. rewrite !zlen_app. zlen_pos. destruct key; [done|]. rewrite zlen_cons. zlen_pos. lia.
Qed.

(** The value a key of a status file has. *)
Theorem getLong_reads a key bl v rest :
  key <> [] -> (forall k1 k2, a ++ key ++ bl ++ dec v ++ rest = k1 ++ key ++ k2 -> zlen a <= zlen k1) ->
  Forall (fun c => Http.isspace c = true) bl -> - 2 ^ 63 <= v < 2 ^ 63 -> (forall c k, rest = c :: k -> is_digit c = false) ->
  Byte.x00 ∉ bl ++ dec v ++ rest ->
  getLong (a ++ key ++ bl ++ dec v ++ rest) key = v.
Proof.
  intros Hk Hfirst Hb Hv Hr H0. unfold getLong. rewrite string_find_first by done. zlen_pos.
  rewrite (cstr_text _ _ (bl ++ dec v ++ rest)); [by apply strtol_dec|lia| |done].
  rewrite app_assoc. apply zdrop_app_exact. by rewrite zlen_app.
Qed.

(** ** The page of a thread *)

Definition tail_piece (M : list byte) (o : Z) : StringPiece := mkPiece M (Some o) (zlen M - o).

Lemma tail_shows M o : 0 <= o <= zlen M -> zlen M < 2 ^ 31 -> shows (tail_piece M o) (zdrop o M).
Proof.
  intros Ho Hl. unfold shows. cbn. rewrite zlen_drop by done. split_and!; [done|lia|lia|lia|].
  unfold zslice. apply ztake_all. rewrite zlen_drop by done. lia.
Qed.

Lemma next_field M o a b :
  0 <= o <= zlen M -> zlen M < 2 ^ 31 -> zdrop o M = a ++ Byte.x20 :: b -> Byte.x20 ∉ a ->
  next (tail_piece M o) = Ok (tail_piece M (o + zlen a + 1)) /\ o + zlen a + 1 <= zlen M /\ zdrop (o + zlen a + 1) M = b.
Proof.
  intros Ho Hl E Ha. pose proof (zlen_drop o M Ho) as Hd. rewrite E, zlen_app, zlen_cons in Hd. pose proof (zlen_nonneg a). pose proof (zlen_nonneg b).
  split; [|split; [lia|]].
  - unfold next. rewrite (load_spec _ (zdrop o M)) by first [by apply tail_shows | cbn; rewrite zlen_drop; lia]. bind_simpl.
    cbn [length_ tail_piece]. rewrite ztake_all by (rewrite zlen_drop; lia).
    pose proof (memchr_spec Byte.x20 (zdrop o M)) as Hm. rewrite E in Hm |- *.
    destruct (memchr Byte.x20 (a ++ Byte.x20 :: b)) as [i|]; [|destruct Hm; set_solver].
    destruct Hm as (a' & b' & E' & -> & Ha'). assert (a' = a) as ->.
    { clear -E' Ha Ha'. revert a' E' Ha'. induction a as [|x a IH]; intros [|y a'] E' Ha'; [done| | |].
      - injection E' as <- _. set_solver.
      - injection E' as -> _. set_solver.
      - injection E' as -> E'. f_equal. apply IH; [set_solver|done|set_solver]. }
    unfold remove_prefix, tail_piece. cbn [memory ptr_ length_]. rewrite !i32_small by lia. do 2 f_equal; [f_equal|]; lia.
  - replace (o + zlen a + 1) with (o + (zlen a + 1)) by lia. rewrite <- zdrop_zdrop, E by lia.
    change (Byte.x20 :: b) with ([Byte.x20] ++ b). rewrite app_assoc. apply zdrop_app_exact. by rewrite zlen_app.
Qed.

Definition field_text (f : Z) : list byte := dec f ++ [Byte.x20].

Lemma next_n_fields M fs o b :
  0 <= o <= zlen M -> zlen M < 2 ^ 31 -> zdrop o M = concat (field_text <$> fs) ++ b ->
  exists o', 0 <= o' <= zlen M /\ next_n (length fs) (tail_piece M o) = Ok (tail_piece M o') /\ zdrop o' M = b.
Proof.
  intros Ho Hl. revert o Ho. induction fs as [|f fs IH]; intros o Ho E; [by exists o|].
  cbn [fmap list_fmap concat] in E. unfold field_text in E at 1. rewrite <- !app_assoc in E. cbn [app] in E.
  destruct (next_field M o (dec f) _ Ho Hl E) as (E1 & H1 & E2); [by apply dec_not_in|].
  pose proof (zlen_nonneg (dec f)). cbn [length next_n]. rewrite E1. bind_simpl. apply IH; [lia|done].
Qed.

Lemma piece_long_field M o v rest :
  0 <= o <= zlen M -> zdrop o M = dec v ++ rest -> - 2 ^ 63 <= v < 2 ^ 63 -> (forall c k, rest = c :: k -> is_digit c = false) ->
  Byte.x00 ∉ rest -> piece_long (tail_piece M o) = Ok v.
Proof.
  intros Ho E Hv Hr H0. unfold piece_long. cbn [ptr_ tail_piece memory]. rewrite in_bounds_true by lia. bind_simpl. f_equal.
  rewrite (cstr_text o M (dec v ++ rest)); [|lia|done|].
  - by apply (strtol_dec []).
  - rewrite elem_of_app. intros [H|H]; [|done]. by apply dec_not_in in H.
Qed.

(** [getCpuTime] reads the eleventh and the twelfth of the remaining fields. *)
Lemma getCpuTime_fields M o skipped utime stime rest :
  0 <= o <= zlen M -> zlen M < 2 ^ 31 -> length skipped = 10%nat ->
  zdrop o M = concat (field_text <$> skipped) ++ field_text utime ++ field_text stime ++ rest ->
  - 2 ^ 63 <= utime < 2 ^ 63 -> - 2 ^ 63 <= stime < 2 ^ 63 -> Byte.x00 ∉ rest ->
  getCpuTime (tail_piece M o) = Ok (mkCpu (ticks utime) (ticks stime)).
Proof.
  intros Ho Hl H10 E Hu Hs H0. unfold getCpuTime. rewrite <- H10.
  destruct (next_n_fields M skipped o _ Ho Hl E) as (o1 & Ho1 & -> & E1). bind_simpl.
  unfold field_text in E1. rewrite <- !app_assoc in E1. cbn [app] in E1.
  assert (forall f k c k', Byte.x20 :: dec f ++ Byte.x20 :: k = c :: k' -> is_digit c = false) as Hb by (by intros f k c k' [= <- _]).
  assert (Byte.x00 ∉ dec stime ++ Byte.x20 :: rest) as Hn.
  { rewrite elem_of_app, elem_of_cons. intros [H|[H|H]]; [by apply dec_not_in in H|done|done]. }
  rewrite (piece_long_field M o1 utime (Byte.x20 :: dec stime ++ Byte.x20 :: rest)); [|done|done|done| |].
  2:{ by intros c k [= <- _]. } 2:{ by apply not_elem_of_cons. }
  bind_simpl. destruct (next_field M o1 (dec utime) _ Ho1 Hl E1) as (-> & H2 & E2); [by apply dec_not_in|]. bind_simpl.
  pose proof (zlen_nonneg (dec utime)).
  rewrite (piece_long_field M (o1 + zlen (dec utime) + 1) stime (Byte.x20 :: rest)); [done|lia|done|done|by intros c k [= <- _]|].
  by apply not_elem_of_cons.
Qed.

Lemma string_find_char a c b : c ∉ a -> string_find (a ++ [c] ++ b) [c] = Some (zlen a).
Proof.
  intros Ha. apply string_find_first; [done|]. induction a as [|x a IH]; intros k1 k2 E; [unfold zlen; cbn [length]; lia|].
  apply not_elem_of_cons in Ha as [Hx Ha]. destruct k1 as [|y k1]; [by injection E as -> _|].
  injection E as _ E. rewrite !zlen_cons. specialize (IH Ha k1 k2 E). lia.
Qed.

Lemma string_rfind_last a c b : c ∉ b -> string_rfind (a ++ c :: b) c = Some (zlen a).
Proof.
  intros Hb. induction a as [|x a IH]; cbn [app string_rfind].
  - assert (string_rfind b c = None) as ->; [|by rewrite byte_eqb_refl]. induction b as [|x b IH]; [done|].
    apply not_elem_of_cons in Hb as [Hx Hb]. cbn. rewrite IH by done. by rewrite (proj2 (byte_eqb_false x c)) by done.
  - rewrite IH, zlen_cons. f_equal. lia.
Qed.

Lemma char_at_app a c b : char_at (a ++ c :: b) (zlen a) = Ok c.
Proof.
  unfold char_at. rewrite zlen_app, zlen_cons. pose proof (zlen_nonneg a). pose proof (zlen_nonneg b).
  rewrite (proj2 (Z.eqb_neq _ _)) by lia. assert ((a ++ c :: b) !! Z.to_nat (zlen a) = Some c) as ->.
  { unfold zlen. rewrite Nat2Z.id. by apply list_lookup_middle. }
  by rewrite in_bounds_true by lia.
Qed.

(** The text of [/proc/<pid>/task/<tid>/stat], up to the fields the page shows. *)
Definition stat_text (p : Z) (name : list byte) (state : byte) (skipped : list Z) (utime stime : Z) (rest : list byte) : list byte :=
  (dec p ++ bytes " (") ++ name ++ Byte.x29 :: bytes " " ++ [state] ++ bytes " " ++
  concat (field_text <$> skipped) ++ field_text utime ++ field_text stime ++ rest.

Lemma procname_stat p name state skipped utime stime rest :
  zlen (stat_text p name state skipped utime stime rest) < 2 ^ 31 -> state <> Byte.x29 -> Byte.x29 ∉ rest ->
  procname (stat_text p name state skipped utime stime rest) =
  piece_range (stat_text p name state skipped utime stime rest) (zlen (dec p) + 2) (zlen name).
Proof.
  intros Hl Hst Hr. unfold procname. pose proof (zlen_nonneg (dec p)). pose proof (zlen_nonneg name).
  assert (Byte.x29 ∉ bytes " " ++ [state] ++ bytes " " ++ concat (field_text <$> skipped) ++ field_text utime ++ field_text stime ++ rest) as Hno.
  { assert (forall f, Byte.x29 ∉ field_text f) as Hf.
    { intros f. unfold field_text. rewrite elem_of_app. intros [H1|H1]; [by apply dec_not_in in H1|set_solver]. }
    rewrite !elem_of_app. intros [H1|[H1|[H1|[H1|[H1|[H1|H1]]]]]]; [vm_compute in H1; set_solver|set_solver|vm_compute in H1; set_solver| |by apply Hf in H1|by apply Hf in H1|done].
    apply list_elem_of_In, in_concat in H1 as (l & Hl1 & Hl2). apply list_elem_of_In, list_elem_of_fmap in Hl1 as (f & -> & _).
    apply list_elem_of_In in Hl2. by apply Hf in Hl2. }
  assert (string_find (stat_text p name state skipped utime stime rest) (bytes "(") = Some (zlen (dec p) + 1)) as ->.
  { unfold stat_text. change (bytes " (") with ([Byte.x20] ++ [Byte.x28]). rewrite (app_assoc (dec p)), <- (app_assoc _ [Byte.x28]).
    change (bytes "(") with [Byte.x28]. rewrite string_find_char; [by rewrite zlen_app|].
    rewrite elem_of_app. intros [H1|H1]; [by apply dec_not_in in H1|set_solver]. }
  unfold stat_text at 1. rewrite (app_assoc (dec p ++ bytes " (") name), string_rfind_last by done.
  rewrite !zlen_app. change (zlen (bytes " (")) with 2. rewrite (proj2 (Z.ltb_lt _ _)) by lia.
  assert (zlen (dec p) + 2 + zlen name < 2 ^ 31).
  { unfold stat_text in Hl. rewrite app_assoc, zlen_app, zlen_app, zlen_app in Hl. change (zlen (bytes " (")) with 2 in Hl. zlen_pos. lia. }
  rewrite i32_small by lia. unfold piece_range. f_equal; [f_equal|]; lia.
Qed.

(** The page of threads shows, of every thread, its name between the outermost
    brackets, whatever brackets and blanks it has itself, its state, and the
    fourteenth and fifteenth field of its [stat] line in seconds. *)
Theorem thread_row_shows tid p name state skipped utime stime rest :
  zlen (stat_text p name state skipped utime stime rest) < 2 ^ 31 -> length skipped = 10%nat ->
  state <> Byte.x29 -> Byte.x29 ∉ rest -> Byte.x00 ∉ name -> Byte.x00 ∉ rest ->
  - 2 ^ 63 <= utime < 2 ^ 63 -> - 2 ^ 63 <= stime < 2 ^ 63 ->
  thread_row tid (stat_text p name state skipped utime stime rest) =
  Ok (cstr 0 (snprintf 256 (decw 5 tid ++ bytes " " ++ pad_right 16 name ++ bytes " " ++ [state] ++ bytes " " ++
        float_text 12 3 (ticks utime) ++ bytes " " ++ float_text 12 3 (ticks stime) ++ [Byte.x0a]))).
Proof.
  intros Hl H10 Hst Hr Hn0 Hr0 Hu Hs. unfold thread_row. rewrite procname_stat by done.
  set (pre := dec p ++ bytes " ("). set (tail := concat (field_text <$> skipped) ++ field_text utime ++ field_text stime ++ rest).
  assert (stat_text p name state skipped utime stime rest = (pre ++ name) ++ Byte.x29 :: bytes " " ++ [state] ++ bytes " " ++ tail) as E.
  { unfold stat_text, pre, tail. by rewrite <- !app_assoc. }
  assert (zlen (dec p) + 2 = zlen pre) as Hpre by (unfold pre; by rewrite zlen_app).
  assert (zlen (dec p) + 2 + zlen name = zlen (pre ++ name)) as Hrp by (rewrite zlen_app; lia).
  cbn [ptr_ piece_range length_]. rewrite Hrp, E, char_at_app. bind_simpl. rewrite byte_eqb_refl. cbn [assert_]. bind_simpl.
  set (M := (pre ++ name) ++ Byte.x00 :: bytes " " ++ [state] ++ bytes " " ++ tail).
  assert (<[Z.to_nat (zlen (pre ++ name)) := Byte.x00]> ((pre ++ name) ++ Byte.x29 :: bytes " " ++ [state] ++ bytes " " ++ tail) = M) as ->.
  { unfold M, zlen. rewrite Nat2Z.id, insert_app_r_alt, Nat.sub_diag by lia. done. }
  assert (zlen M = zlen (pre ++ name) + 4 + zlen tail) as HM.
  { rewrite <- Z.add_assoc. unfold M. rewrite zlen_app. f_equal. change (zlen (Byte.x00 :: bytes " " ++ [state] ++ bytes " " ++ tail))
      with (zlen ([Byte.x00; Byte.x20; state; Byte.x20] ++ tail)). by rewrite zlen_app. }
  assert (zlen M < 2 ^ 31) as HM31 by (rewrite E in Hl; unfold M; rewrite zlen_app, zlen_cons in Hl |- *; done).
  pose proof (zlen_nonneg (pre ++ name)). pose proof (zlen_nonneg tail).
  assert (remove_prefix (i32 (zlen (pre ++ name) + 2 + 2)) (piece_string M) = tail_piece M (zlen (pre ++ name) + 4)) as ->.
  { unfold remove_prefix, piece_string, tail_piece. cbn [memory ptr_ length_]. rewrite (i32_small (zlen M)), (i32_small (_ + 2 + 2)) by lia. rewrite i32_small by lia.
    f_equal; [f_equal|]; lia. }
  rewrite (getCpuTime_fields M _ skipped utime stime rest); [|lia|done|done| |done|done|done].
  2:{ unfold M. change (Byte.x00 :: bytes " " ++ [state] ++ bytes " " ++ tail) with ([Byte.x00; Byte.x20; state; Byte.x20] ++ tail).
      rewrite app_assoc. apply zdrop_app_exact. rewrite zlen_app. done. }
  bind_simpl. assert (char_at M (zlen (pre ++ name) + 2) = Ok state) as ->.
  { unfold M. change (Byte.x00 :: bytes " " ++ [state] ++ bytes " " ++ tail) with ([Byte.x00; Byte.x20] ++ state :: bytes " " ++ tail).
    rewrite (app_assoc (pre ++ name)). change 2 with (zlen [Byte.x00; Byte.x20]). rewrite <- (zlen_app (pre ++ name)). apply char_at_app. }
  bind_simpl. assert (cstr (zlen (dec p) + 2) M = name) as ->; [|done].
  rewrite Hpre. unfold cstr, M. rewrite <- app_assoc, zdrop_app_exact by done.
  pose proof (memchr_spec Byte.x00 (name ++ Byte.x00 :: bytes " " ++ [state] ++ bytes " " ++ tail)) as Hm.
  unfold std_find. rewrite std_find_if_app; [by apply ztake_app_exact| |done].
  apply Forall_forall. intros c Hc. apply byte_eqb_false. by intros <-.
Qed.

Lemma skip_tabs_spec a tabs c b fuel :
  Forall (fun x => x = Byte.x09) tabs -> c <> Byte.x09 -> (length tabs < fuel)%nat ->
  skip_tabs fuel (a ++ tabs ++ c :: b) (zlen a) = Ok (zlen (a ++ tabs)).
Proof.
  intros Ht Hc. revert a fuel. induction Ht as [|x tabs -> _ IH]; intros a [|fuel] Hf; cbn [length] in Hf; try lia; cbn [skip_tabs].
  - rewrite app_nil_r, app_nil_l, char_at_app. bind_simpl. by rewrite (proj2 (byte_eqb_false c Byte.x09)) by done.
  - change ((Byte.x09 :: tabs) ++ c :: b) with (Byte.x09 :: tabs ++ c :: b). rewrite char_at_app. bind_simpl. rewrite byte_eqb_refl.
    specialize (IH (a ++ [Byte.x09]) fuel ltac:(lia)). rewrite <- !app_assoc, zlen_app in IH. exact IH.
Qed.

Lemma find_eol_spec a name b fuel :
  Byte.x0a ∉ name -> (length name < fuel)%nat -> find_eol fuel (a ++ name ++ Byte.x0a :: b) (zlen a) = Ok (zlen (a ++ name)).
Proof.
  revert a fuel. induction name as [|x name IH]; intros a [|fuel] Hn Hf; cbn [length] in Hf; try lia; cbn [find_eol].
  - rewrite app_nil_r, app_nil_l, char_at_app. bind_simpl. by rewrite byte_eqb_refl.
  - apply not_elem_of_cons in Hn as [Hx Hn]. change ((x :: name) ++ Byte.x0a :: b) with (x :: name ++ Byte.x0a :: b). rewrite char_at_app.
    bind_simpl. rewrite (proj2 (byte_eqb_false x Byte.x0a)) by done.
    specialize (IH (a ++ [x]) fuel Hn ltac:(lia)). rewrite <- !app_assoc, zlen_app in IH. exact IH.
Qed.

(** The first line of a status file names the process. *)
Theorem getProcessName_reads tabs name rest :
  Forall (fun x => x = Byte.x09) tabs -> head name <> Some Byte.x09 -> Byte.x0a ∉ name ->
  getProcessName (bytes "Name:" ++ tabs ++ name ++ Byte.x0a :: rest) = Ok name.
Proof.
  intros Ht Hh Hn. unfold getProcessName.
  pose proof (string_find_first [] (bytes "Name:") (tabs ++ name ++ Byte.x0a :: rest)) as Hf. rewrite app_nil_l in Hf.
  rewrite Hf; [|done|intros k1 k2 _; unfold zlen; cbn [length]; lia]. change (zlen [] + 5) with (zlen (bytes "Name:")).
  assert (exists c b, name ++ Byte.x0a :: rest = c :: b /\ c <> Byte.x09) as (c & b & E & Hc).
  { destruct name as [|c name]; [by exists Byte.x0a, rest|]. eexists c, _. split; [done|]. intros ->. by destruct Hh. }
  rewrite E. rewrite skip_tabs_spec; [|done|done|rewrite !length_app; lia]. bind_simpl. rewrite <- E.
  rewrite (app_assoc (bytes "Name:")), find_eol_spec; [|done|rewrite !length_app; lia]. bind_simpl. f_equal.
  unfold zslice. rewrite zdrop_app_exact by done. apply ztake_app_exact. rewrite !zlen_app. lia.
Qed.

(** [uptime] splits the seconds into days, hours, minutes and seconds. *)
Theorem uptime_spec now start micro :
  0 <= start -> start <= now -> now - start < 2 ^ 31 * 1000000 ->
  exists d h m s us, now - start = (((d * 24 + h) * 60 + m) * 60 + s) * 1000000 + us /\
    0 <= d /\ 0 <= h < 24 /\ 0 <= m < 60 /\ 0 <= s < 60 /\ 0 <= us < 1000000 /\
    uptime now start micro =
      dec d ++ bytes " days " ++ dec0 2 h ++ bytes ":" ++ dec0 2 m ++ bytes ":" ++ dec0 2 s ++ if micro then bytes "." ++ dec0 6 us else [].
Proof.
  intros H0 Hle Hr. unfold uptime, Timestamp.kMicroSecondsPerSecond. rewrite i64_small by lia.
  set (age := now - start) in *. assert (0 <= age) as Ha by lia.
  rewrite (Z.rem_mod_nonneg age), (Z.quot_div_nonneg age) by lia. set (n := age / 1000000).
  assert (0 <= n < 2 ^ 31) as Hn by (split; [apply Z.div_pos|apply Z.div_lt_upper_bound]; lia).
  pose proof (Z.mod_pos_bound age 1000000 ltac:(lia)) as Hus.
  rewrite (i32_small n), (i32_small (age mod 1000000)) by lia.
  rewrite !(Z.rem_mod_nonneg n) by lia. rewrite !(Z.quot_div_nonneg n) by lia.
  assert (0 <= n / 86400 <= n) by (split; [apply Z.div_pos; lia|apply Z.div_le_upper_bound; lia]).
  pose proof (Z.mod_pos_bound n 86400 ltac:(lia)). pose proof (Z.mod_pos_bound n 3600 ltac:(lia)). pose proof (Z.mod_pos_bound n 60 ltac:(lia)).
  rewrite (i32_small (n mod 86400)), (i32_small (n mod 3600)), (i32_small (n mod 60)), (i32_small (n / 86400)) by lia.
  rewrite !Z.quot_div_nonneg by lia.
  assert (0 <= n mod 86400 / 3600 < 24) by (split; [apply Z.div_pos|apply Z.div_lt_upper_bound]; lia).
  assert (0 <= n mod 3600 / 60 < 60) by (split; [apply Z.div_pos|apply Z.div_lt_upper_bound]; lia).
  rewrite !i32_small by lia.
  exists (n / 86400), (n mod 86400 / 3600), (n mod 3600 / 60), (n mod 60), (age mod 1000000).
  split; [unfold n in *; Z.to_euclidean_division_equations; lia|]. split_and!; try lia.
  assert (zlen (dec (n / 86400)) <= 10) as Hd.
  { unfold dec. rewrite (proj2 (Z.ltb_ge _ _)) by lia. apply dec_nat_length; lia. }
  destruct micro; unfold snprintf; rewrite ztake_all; rewrite <- ?app_assoc, ?app_nil_r; try done;
    rewrite !zlen_app, !zlen_dec0 by lia; change (zlen (bytes " days ")) with 6; change (zlen (bytes ":")) with 1;
    change (zlen (bytes ".")) with 1; lia.
Qed.
End with_env.

(** ** What the inspector registers when it is made *)

Section commands.
Context (e : env).

Definition page (p : outcome (list byte)) : option Inspector.Callback := Some (fun _ _ => p).

(** The one-line pages. *)
Definition pid_page : outcome (list byte) := Ok (snprintf 32 (dec (pid e))).
Definition status_page : outcome (list byte) := procStatus e.
Definition openedFiles_page : outcome (list byte) := Ok (snprintf 32 (dec (openedFiles e))).

Definition process_commands : list Inspector.event :=
  [Inspector.Add (bytes "proc") (bytes "overview") (page (proc_overview e)) (bytes "print basic overview");
   Inspector.Add (bytes "proc") (bytes "pid") (page pid_page) (bytes "print pid");
   Inspector.Add (bytes "proc") (bytes "status") (page status_page) (bytes "print /proc/self/status");
   Inspector.Add (bytes "proc") (bytes "threads") (page (threads_page e)) (bytes "list /proc/self/task")].

Definition system_commands : list Inspector.event :=
  [Inspector.Add (bytes "sys") (bytes "overview") (page (sys_overview e)) (bytes "print system overview");
   Inspector.Add (bytes "sys") (bytes "loadavg") (page (loadavg e)) (bytes "print /proc/loadavg");
   Inspector.Add (bytes "sys") (bytes "version") (page (version e)) (bytes "print /proc/version");
   Inspector.Add (bytes "sys") (bytes "cpuinfo") (page (cpuinfo e)) (bytes "print /proc/cpuinfo");
   Inspector.Add (bytes "sys") (bytes "meminfo") (page (meminfo e)) (bytes "print /proc/meminfo");
   Inspector.Add (bytes "sys") (bytes "stat") (page (sys_stat e)) (bytes "print /proc/stat")].

(** The constructor, in the main thread. *)
Definition Inspector_new : outcome Inspector.Inspector :=
  assert_ (gettid e =? getpid e);;
  Ok (Inspector.registry_run (process_commands ++ system_commands)).
End commands.

(** The pages of a new inspector: the list of the ten commands, and a command's
    own page; further parts of the path are arguments and change nothing. *)
Theorem inspector_pages e req resp i :
  Inspector_new e = Ok i ->
  (Http.path_ req = bytes "/" ->
   Inspector.onRequest i req resp = Ok (Inspector.ok_response (bytes "text/plain")
     (bytes "/proc/overview             print basic overview" ++ nl ++ bytes "/proc/pid                  print pid" ++ nl ++
      bytes "/proc/status               print /proc/self/status" ++ nl ++ bytes "/proc/threads              list /proc/self/task" ++ nl ++
      bytes "/sys/cpuinfo               print /proc/cpuinfo" ++ nl ++ bytes "/sys/loadavg               print /proc/loadavg" ++ nl ++
      bytes "/sys/meminfo               print /proc/meminfo" ++ nl ++ bytes "/sys/overview              print system overview" ++ nl ++
      bytes "/sys/stat                  print /proc/stat" ++ nl ++ bytes "/sys/version               print /proc/version" ++ nl) resp)) /\
  (forall args, Inspector.path_parts (Http.path_ req) = bytes "proc" :: bytes "pid" :: args ->
   Inspector.onRequest i req resp = Ok (Inspector.ok_response (bytes "text/plain") (pidString e) resp)) /\
  (forall args, Inspector.path_parts (Http.path_ req) = bytes "proc" :: bytes "threads" :: args ->
   Inspector.onRequest i req resp = (body ← threads_page e; Ok (Inspector.ok_response (bytes "text/plain") body resp))).
Proof.
  intros Hi. unfold Inspector_new in Hi. apply bind_Ok in Hi as (_ & _ & Hi). injection Hi as <-. unfold Inspector.onRequest. split_and!.
  - intros ->. rewrite decide_True by done. reflexivity.
  - intros args Hp. rewrite decide_False by (intros Hq; rewrite Hq in Hp; vm_compute in Hp; discriminate).
    rewrite Inspector.split_spec, Hp. reflexivity.
  - intros args Hp. rewrite decide_False by (intros Hq; rewrite Hq in Hp; vm_compute in Hp; discriminate).
    rewrite Inspector.split_spec, Hp. bind_simpl.
    transitivity (found ← (body ← threads_page e; Ok (Some (Inspector.ok_response (bytes "text/plain") body resp)));
      Ok (match found with Some r => r | None => Http.setStatusMessage (bytes "Not Found") (Http.setStatusCode Http.k404NotFound resp) end)).
    + reflexivity.
    + by destruct (threads_page e).
Qed.

(** ** A small process *)
Definition whole_file (s : list byte) : FileUtil.open_file + Z :=
  inl (FileUtil.mkOpen s (inl (FileUtil.mkStat FileUtil.Regular 0 0 0)) (fun _ left room => FileUtil.Bytes (Z.min left room))).

Definition sample_env : env :=
  mkEnv (fun path =>
      if decide (path = bytes "/proc/self/status") then
        whole_file (bytes "Name:" ++ [Byte.x09] ++ bytes "server" ++ nl ++ bytes "VmSize:   10240 kB" ++ nl ++ bytes "Threads: 2" ++ nl)
      else if decide (path = bytes "/proc/41/task/41/stat") then
        whole_file (stat_text 41 (bytes "a) (b") Byte.x52 [1; 2; 3; 4; -1; 6; 7; 8; 9; 10] 250 99 (bytes "0 0" ++ nl))
      else inr 2)
    (fun dir => if decide (dir = bytes "/proc/self/task") then Some [bytes "."; bytes ".."; bytes "57"; bytes "41"] else None)
    41 41 100 0 90061000001 (Some (bytes "box")) None None (Some 1024) None false None.

Example threads_page_sample : threads_page sample_env =
  Ok (bytes "  TID NAME             S    User Time  System Time" ++ nl ++
      bytes "   41 a) (b            R        2.500        0.990" ++ nl).
Proof. vm_compute. reflexivity. Qed.

Example overview_sample : proc_overview sample_env =
  Ok (bytes "Page generated at 19700102 01:01:01.000001 (UTC)" ++ nl ++
      bytes "Started at 19700101 00:00:00.000000 (UTC), up for 1 days 01:01:01.000001" ++ nl ++
      bytes "server () running as unknownuser on box" ++ nl ++ bytes "pid 41, num of threads 2, bits 64" ++ nl ++
      bytes "Virtual memory: 10.000 MiB, RSS memory: 0.000 MiB" ++ nl ++ bytes "Opened files: 0, limit: 1024" ++ nl ++
      bytes "User time:        0.000s" ++ nl ++ bytes "Sys time:         0.000s" ++ nl).
Proof. vm_compute. reflexivity. Qed.
End ProcessInfo.
