(* ===== verification/PerformanceInspector.v ===== *)
(** * The pages of the memory allocator ([src/net/inspect/PerformanceInspector.cpp])

    The part is compiled with tcmalloc.  The allocator and its profiler are a
    record of what their functions return; what they do, and the sleep between,
    is a list of effects. *)

From S2P Require Import Prelude CxxStd Decimal Timestamp LogStream StringPiece FileUtil Http Inspector ProcessInfo.

Module PerformanceInspector.
Import ProcessInfo.

(** [MallocExtension] and the profiler of gperftools.  [profile_file] is what
    opening a file gives after the profiler has stopped. *)
Record tcmalloc := mkTcmalloc {
  GetHeapSample : list byte;
  GetHeapGrowthStacks : list byte;
  (** the text [GetStats] leaves in a buffer of the given size *)
  GetStats : Z -> list byte;
  (** blocks, their total size, and the histogram *)
  MallocMemoryStats : Z * Z * list Z;
  GetMemoryReleaseRate : Timestamp.double;
  ProfilerStart : list byte -> bool;
  profile_file : list byte -> FileUtil.open_file + Z }.

Inductive effect := Started (file : list byte) | SleepUsec (usec : Z) | Stopped | Unlinked (file : list byte) | Released.

Section with_process.
Context (e : env) (m : tcmalloc).

Definition heap : outcome (list byte) := Ok (GetHeapSample m).
Definition growth : outcome (list byte) := Ok (GetHeapGrowthStacks m).

(** [ProcessInfo::procname()] *)
Definition own_procname : outcome (list byte) := stat ← procStat e; StringPiece.as_string (procname stat).

(** The name of the profile: the process, its pid and the time. *)
Definition filename (proc : list byte) : list byte :=
  bytes "/tmp/" ++ proc ++ bytes "." ++ pidString e ++ bytes "." ++
  Timestamp.toString (now e) ++ bytes ".profile".

Definition profile : outcome (list byte * list effect) :=
  proc ← own_procname;
  let name := filename proc in
  if ProfilerStart m name then
    '(_, text, _) ← FileUtil.readFile (profile_file m name) (1024 * 1024) [] (FileUtil.mkSizes None None None);
    Ok (text, [Started name; SleepUsec (30 * 1000 * 1000); Stopped; Unlinked name])
  else Ok ([], []).

Definition cmdline : outcome (list byte) := Ok [].

Definition memstats : outcome (list byte) := Ok (cstr 0 (GetStats m (1024 * 64) ++ [Byte.x00])).

(** The items streamed into the line, and the line. *)
Fixpoint histogram_items (i : Z) (histogram : list Z) : list LogStream.item :=
  match histogram with
  | [] => []
  | h :: rest => [LogStream.Int i; LogStream.CString (Some (bytes " ")); LogStream.Int h; LogStream.CString (Some nl)] ++
                 histogram_items (i + 1) rest
  end.

Definition memhistogram : outcome (list byte) :=
  let '(blocks, total, histogram) := MallocMemoryStats m in
  s ← LogStream.put_all ([LogStream.CString (Some (bytes "blocks ")); LogStream.Int blocks;
                          LogStream.CString (Some (nl ++ bytes "total ")); LogStream.ULong total; LogStream.CString (Some nl)] ++
                         histogram_items 0 histogram) (LogStream.new_fixed LogStream.kSmallBuffer);
  Ok (LogStream.toString s).

Definition release_text : list byte :=
  bytes "memory release rate: " ++ LogStream.print_f 6 (GetMemoryReleaseRate m) ++ nl ++ bytes "All free memory released." ++ nl.
Definition releaseFreeMemory : outcome (list byte * list effect) := Ok (cstr 0 (snprintf 256 release_text), [Released]).

(** A page with effects, as a callback. *)
Definition effect_page (p : outcome (list byte * list effect)) : option Inspector.Callback := page ('(text, _) ← p; Ok text).

Definition performance_commands : list Inspector.event :=
  [Inspector.Add (bytes "pprof") (bytes "heap") (page heap) (bytes "get heap information");
   Inspector.Add (bytes "pprof") (bytes "growth") (page growth) (bytes "get heap growth information");
   Inspector.Add (bytes "pprof") (bytes "profile") (effect_page profile)
     (bytes "get cpu profiling information. CAUTION: blocking thread for 30 seconds!");
   Inspector.Add (bytes "pprof") (bytes "cmdline") (page cmdline) (bytes "get command line");
   Inspector.Add (bytes "pprof") (bytes "memstats") (page memstats) (bytes "get memory stats");
   Inspector.Add (bytes "pprof") (bytes "memhistogram") (page memhistogram) (bytes "get memory histogram");
   Inspector.Add (bytes "pprof") (bytes "releasefreememory") (effect_page releaseFreeMemory) (bytes "release free memory")].

(** The constructor of the inspector, built with tcmalloc. *)
Definition Inspector_new_tcmalloc : outcome Inspector.Inspector :=
  assert_ (gettid e =? getpid e);;
  Ok (Inspector.registry_run (process_commands e ++ system_commands e ++ performance_commands)).
End with_process.

(** ** The pages *)

Fixpoint histogram_text (i : Z) (histogram : list Z) : list byte :=
  match histogram with
  | [] => []
  | h :: rest => dec i ++ bytes " " ++ dec h ++ nl ++ histogram_text (i + 1) rest
  end.

Definition memhistogram_text (blocks total : Z) (histogram : list Z) : list byte :=
  bytes "blocks " ++ dec blocks ++ nl ++ bytes "total " ++ dec total ++ nl ++ histogram_text 0 histogram.

Lemma histogram_items_text i hs : concat (LogStream.item_text <$> histogram_items i hs) = histogram_text i hs.
Proof.
  revert i. induction hs as [|h hs IH]; intros i; [done|]. cbn [histogram_items app fmap list_fmap LogStream.item_text concat histogram_text].
  by rewrite IH.
Qed.

Lemma dec_length_int v : - 2 ^ 31 <= v < 2 ^ 31 -> zlen (dec v) <= 11.
Proof.
  intros Hv. unfold dec. destruct (v <? 0) eqn:E; [rewrite zlen_cons|];
    (etrans; [|shelve]); [apply Z.add_le_mono_l|]; apply (dec_nat_length _ 10); lia.
  Unshelve. all: lia.
Qed.

Lemma histogram_items_valid i hs :
  0 <= i -> i + zlen hs < 2 ^ 31 -> Forall (fun h => - 2 ^ 31 <= h < 2 ^ 31) hs -> Forall LogStream.valid_item (histogram_items i hs).
Proof.
  intros Hi Hl Hh. revert i Hi Hl. induction Hh as [|h hs Hh _ IH]; intros i Hi Hl; [constructor|]. rewrite zlen_cons in Hl. zlen_pos.
  cbn [histogram_items app]. repeat apply Forall_cons_2; cbn; try done; [lia|]. apply IH; lia.
Qed.

Lemma histogram_text_length i hs :
  0 <= i -> i + zlen hs <= 1000 -> Forall (fun h => - 2 ^ 31 <= h < 2 ^ 31) hs -> zlen (histogram_text i hs) <= 16 * zlen hs.
Proof.
  intros Hi Hl Hh. revert i Hi Hl. induction Hh as [|h hs Hh _ IH]; intros i Hi Hl; [done|]. rewrite zlen_cons in Hl |- *. zlen_pos.
  cbn [histogram_text]. rewrite !zlen_app. change (zlen (bytes " ")) with 1. change (zlen nl) with 1.
  pose proof (dec_length_int h Hh). specialize (IH (i + 1)). assert (zlen (dec i) <= 3).
  { rewrite Timestamp.dec_nonneg by lia. apply dec_nat_length; lia. }
  lia.
Qed.

(** The page of the histogram is complete: for an allocator whose histogram has
    at most 200 entries (gperftools' has 64) it fits the stream's 4000 bytes,
    and every entry is on the page, with its index. *)
Theorem memhistogram_page m blocks total histogram :
  MallocMemoryStats m = (blocks, total, histogram) -> zlen histogram <= 200 ->
  - 2 ^ 31 <= blocks < 2 ^ 31 -> 0 <= total < 2 ^ 64 -> Forall (fun h => - 2 ^ 31 <= h < 2 ^ 31) histogram ->
  memhistogram m = Ok (memhistogram_text blocks total histogram).
Proof.
  intros Em Hl Hb Ht Hh. unfold memhistogram. rewrite Em.
  set (items := _ ++ histogram_items 0 histogram). set (b := LogStream.new_fixed LogStream.kSmallBuffer).
  assert (LogStream.wf b) as Hwf by (split; vm_compute; split_and?; congruence).
  assert (concat (LogStream.item_text <$> items) = memhistogram_text blocks total histogram) as Etext.
  { unfold items, memhistogram_text. rewrite fmap_app, concat_app, histogram_items_text. cbn [fmap list_fmap LogStream.item_text concat].
    by rewrite <- !app_assoc, app_nil_l. }
  destruct (LogStream.put_all_spec items b Hwf) as (b' & E & _ & Et).
  { unfold items. cbn [app]. repeat apply Forall_cons_2; cbn; try done. apply histogram_items_valid; [lia| |done]. rewrite Z.add_0_l. lia. }
  rewrite E. bind_simpl. f_equal. rewrite Et, LogStream.spec_put_fits, Etext; [reflexivity|].
  rewrite Etext. unfold memhistogram_text. rewrite !zlen_app. pose proof (dec_length_int _ Hb).
  pose proof (LogStream.dec_length total ltac:(lia)). pose proof (histogram_text_length 0 histogram ltac:(lia) ltac:(lia) Hh).
  change (zlen (LogStream.toString b)) with 0. change (zlen (bytes "blocks ")) with 7. change (zlen (bytes "total ")) with 6.
  change (zlen nl) with 1. change (zlen (LogStream.data_ b)) with 4000. lia.
Qed.

(** A profile that starts is read, at most a megabyte of it, after half a minute
    of profiling, and its file is removed; one that does not start leaves an
    empty page and touches nothing.  A read that fails costs the rest of the
    text, not the removal. *)
Theorem profile_page e m proc :
  own_procname e = Ok proc -> (forall f, profile_file m (filename e proc) = inl f -> FileUtil.reads_ok f) ->
  exists text,
    profile e m = Ok (text, if ProfilerStart m (filename e proc)
                            then [Started (filename e proc); SleepUsec 30000000; Stopped; Unlinked (filename e proc)] else []) /\
    (ProfilerStart m (filename e proc) = false -> text = []) /\
    forall f, ProfilerStart m (filename e proc) = true -> profile_file m (filename e proc) = inl f ->
      (forall i left room err, FileUtil.kernel f i left room <> FileUtil.Failed err) -> text = ztake 1048576 (FileUtil.bytes_of f).
Proof.
  intros Eproc Hok. unfold profile. rewrite Eproc. bind_simpl. set (name := filename e proc) in *.
  destruct (ProfilerStart m name); [|by exists []].
  destruct (FileUtil.readFile_reads (profile_file m name) (1024 * 1024) [] (FileUtil.mkSizes None None None))
    as (err & text & p & -> & Hr); [lia|done|].
  bind_simpl. exists text. split; [done|]. split; [done|]. intros f _ Ef Hn. rewrite Ef in Hr. destruct Hr as (_ & [[Ht _]|(i & left & room & Hf)] & _).
  - exact Ht.
  - by apply Hn in Hf.
Qed.

(** The page of a memory release is whole unless the rate has more than two
    hundred characters. *)
Theorem release_page m :
  Byte.x00 ∉ release_text m -> zlen (LogStream.print_f 6 (GetMemoryReleaseRate m)) <= 200 ->
  releaseFreeMemory m = Ok (release_text m, [Released]).
Proof.
  intros H0 Hl. unfold releaseFreeMemory. assert (zlen (release_text m) < 255).
  { unfold release_text. rewrite !zlen_app. change (zlen (bytes "memory release rate: ")) with 21.
    change (zlen (bytes "All free memory released.")) with 25. change (zlen nl) with 1. lia. }
  unfold snprintf. rewrite ztake_all by lia. by rewrite (cstr_text 0 _ (release_text m)) by done.
Qed.

(** Built with the allocator, the inspector lists its seven commands between
    those of the process, and answers them. *)
Theorem performance_pages e m req resp i :
  Inspector_new_tcmalloc e m = Ok i ->
  (Http.path_ req = bytes "/" ->
   exists rest, Inspector.onRequest i req resp = Ok (Inspector.ok_response (bytes "text/plain")
     (bytes "/pprof/cmdline             get command line" ++ nl ++ bytes "/pprof/growth              get heap growth information" ++ nl ++
      bytes "/pprof/heap                get heap information" ++ nl ++ bytes "/pprof/memhistogram        get memory histogram" ++ nl ++
      bytes "/pprof/memstats            get memory stats" ++ nl ++
      bytes "/pprof/profile             get cpu profiling information. CAUTION: blocking thread for 30 seconds!" ++ nl ++
      bytes "/pprof/releasefreememory   release free memory" ++ nl ++ rest) resp)) /\
  (forall args, Inspector.path_parts (Http.path_ req) = bytes "pprof" :: bytes "memhistogram" :: args ->
   Inspector.onRequest i req resp = (body ← memhistogram m; Ok (Inspector.ok_response (bytes "text/plain") body resp))) /\
  (forall args, Inspector.path_parts (Http.path_ req) = bytes "proc" :: bytes "pid" :: args ->
   Inspector.onRequest i req resp = Ok (Inspector.ok_response (bytes "text/plain") (pidString e) resp)).
Proof.
  intros Hi. unfold Inspector_new_tcmalloc in Hi. apply bind_Ok in Hi as (_ & _ & Hi). injection Hi as <-. unfold Inspector.onRequest. split_and!.
  - intros ->. eexists. rewrite decide_True by done. reflexivity.
  - intros args Hp. rewrite decide_False by (intros Hq; rewrite Hq in Hp; vm_compute in Hp; discriminate).
    rewrite Inspector.split_spec, Hp. bind_simpl.
    transitivity (found ← (body ← memhistogram m; Ok (Some (Inspector.ok_response (bytes "text/plain") body resp)));
      Ok (match found with Some r => r | None => Http.setStatusMessage (bytes "Not Found") (Http.setStatusCode Http.k404NotFound resp) end)).
    + reflexivity.
    + by destruct (memhistogram m).
  - intros args Hp. rewrite decide_False by (intros Hq; rewrite Hq in Hp; vm_compute in Hp; discriminate).
    rewrite Inspector.split_spec, Hp. reflexivity.
Qed.

Definition sample_tcmalloc : tcmalloc :=
  mkTcmalloc (bytes "heap") [] (fun n => ztake (n - 1) (bytes "MALLOC: 4096")) (3, 4096, [0; 1; 2]) (Timestamp.double_of_Z 1)
    (fun _ => true) (fun _ => whole_file (bytes "profile")).

Example memhistogram_sample : memhistogram sample_tcmalloc =
  Ok (bytes "blocks 3" ++ nl ++ bytes "total 4096" ++ nl ++ bytes "0 0" ++ nl ++ bytes "1 1" ++ nl ++ bytes "2 2" ++ nl).
Proof. vm_compute. reflexivity. Qed.

Example release_sample : releaseFreeMemory sample_tcmalloc =
  Ok (bytes "memory release rate: 1.000000" ++ nl ++ bytes "All free memory released." ++ nl, [Released]).
Proof. vm_compute. reflexivity. Qed.

Example profile_sample : fst <$> (match profile sample_env sample_tcmalloc with Ok p => Some p | _ => None end) = Some (bytes "profile").
Proof. vm_compute. reflexivity. Qed.
End PerformanceInspector.
