(* ===== verification/Conformance.v ===== *)
(** * The repository's unit tests, replayed in the model
    ([src/net/tests/Buffer_unittest.cpp], [InetAddress_unittest.cpp],
    [src/net/http/tests/HttpRequest_unittest.cpp], [src/base/tests/Date_unittest.cc],
    [TimeZone_unittest.cc], [LogStream_test.cc], [Atomic_unittest.cc],
    [src/net/tests/TimerQueue_unittest.cpp], [src/net/protorpc/RpcCodec_test.cpp])

    Each [Example] runs the statements of a test case and compares every value the
    test checks, by evaluation of the definitions. *)

From Stdlib Require Import SpecFloat.
From S2P Require Import Prelude CxxStd Decimal Endian Buffer Http Date TimeZone LogStream SocketsOps Thread Timestamp TimerQueue Codec.

Module Conformance.

(** ** Buffer_unittest.cpp *)
Section buffer.
Import Buffer.

Definition chars (n : Z) (c : string) : list byte := concat (replicate (Z.to_nat n) (bytes c)).

(** [readableBytes], [writableBytes] and [prependableBytes] *)
Definition sizes (b : Buffer) : Z * Z * Z := (readableBytes b, writableBytes b, prependableBytes b).

Example testBufferAppendRetrieve :
  (let str := chars 200 "x" in
   b0 ← new_buffer kInitialSize; b1 ← append_string str b0; '(b2, str2) ← retrieveAsString 50 b1;
   b3 ← append_string str b2; '(b4, str3) ← retrieveAllAsString b3;
   Ok (sizes <$> [b0; b1; b2; b3; b4], str2, str3)) =
  Ok ([(0, kInitialSize, kCheapPrepend); (200, kInitialSize - 200, kCheapPrepend); (150, kInitialSize - 200, kCheapPrepend + 50);
       (350, kInitialSize - 400, kCheapPrepend + 50); (0, kInitialSize, kCheapPrepend)], chars 50 "x", chars 350 "x").
Proof. vm_compute. reflexivity. Qed.

Example testBufferGrow :
  (b0 ← new_buffer kInitialSize; b1 ← append_string (chars 400 "y") b0; b2 ← retrieve 50 b1; b3 ← append_string (chars 1000 "z") b2;
   Ok (sizes <$> [b1; b2; b3; retrieveAll b3])) =
  Ok [(400, kInitialSize - 400, kCheapPrepend); (350, kInitialSize - 400, kCheapPrepend + 50); (1350, 0, kCheapPrepend + 50); (0, 1400, kCheapPrepend)].
Proof. vm_compute. reflexivity. Qed.

Example testBufferInsideGrow :
  (b0 ← new_buffer kInitialSize; b1 ← append_string (chars 800 "y") b0; b2 ← retrieve 500 b1; b3 ← append_string (chars 300 "z") b2;
   Ok (sizes <$> [b1; b2; b3])) =
  Ok [(800, kInitialSize - 800, kCheapPrepend); (300, kInitialSize - 800, kCheapPrepend + 500); (600, kInitialSize - 600, kCheapPrepend)].
Proof. vm_compute. reflexivity. Qed.

Example testBufferShrink :
  (b0 ← new_buffer kInitialSize; b1 ← append_string (chars 2000 "y") b0; b2 ← retrieve 1500 b1; b3 ← shrink 0 b2; '(b4, all) ← retrieveAllAsString b3;
   Ok (sizes <$> [b1; b2], readableBytes b3, writableBytes b3, all, prependableBytes b4)) =
  Ok ([(2000, 0, kCheapPrepend); (500, 0, kCheapPrepend + 1500)], 500, kInitialSize - 500, chars 500 "y", kCheapPrepend).
Proof. vm_compute. reflexivity. Qed.

Example testBufferPrepend :
  (b0 ← new_buffer kInitialSize; b1 ← append_string (chars 200 "y") b0; b2 ← prepend (replicate 4 Byte.x00) 4 b1; Ok (sizes <$> [b1; b2])) =
  Ok [(200, kInitialSize - 200, kCheapPrepend); (204, kInitialSize - 200, kCheapPrepend - 4)].
Proof. vm_compute. reflexivity. Qed.

(** 'H', 'T' and 'P' are 72, 84 and 80. *)
Example testBufferReadInt :
  (b ← new_buffer kInitialSize; b ← append_string (bytes "HTTP") b;
   p8 ← peekInt8 b; p16 ← peekInt16 b; p32 ← peekInt32 b;
   '(b1, r8) ← readInt8 b; '(b1, r16) ← readInt16 b1; '(b1, r8') ← readInt8 b1;
   b2 ← appendInt8 (-1) b1; b2 ← appendInt16 (-2) b2; b2 ← appendInt32 (-3) b2;
   '(b3, n8) ← readInt8 b2; '(b3, n16) ← readInt16 b3; '(b3, n32) ← readInt32 b3;
   Ok ([p8; p16; p32; r8; r16; r8'], readableBytes b1, writableBytes b1, readableBytes b2, [n8; n16; n32])) =
  Ok ([72; 72 * 256 + 84; (72 * 256 + 84) * 65536 + 84 * 256 + 80; 72; 84 * 256 + 84; 80], 0, kInitialSize, 7, [-1; -2; -3]).
Proof. vm_compute. reflexivity. Qed.

Example testBufferFindEOL :
  (b ← new_buffer kInitialSize; b ← append_string (chars 100000 "x") b; at_ ← findEOL_from b (peek b + 90000); Ok (findEOL b, at_)) = Ok (None, None).
Proof. vm_compute. reflexivity. Qed.
End buffer.

(** ** HttpRequest_unittest.cpp *)
Section http.
Import Http.

Definition line (s : string) : list byte := bytes s ++ crlf_str.
Definition get_index : list byte := line "GET /index.html HTTP/1.1" ++ line "Host: www.chenshuo.com" ++ line "".

(** A new context fed with the pieces, one call of [parseRequest] each: what the
    calls return, and [gotAll] after each. *)
Fixpoint feed (pieces : list (list byte)) (c : HttpContext) (b : Buffer.Buffer) : option (HttpContext * list (bool * bool)) :=
  match pieces with
  | [] => Some (c, [])
  | s :: pieces =>
      match Buffer.append_string s b with
      | Err _ => None
      | Ok b =>
          match parseRequest 1 c b with
          | Some (Ok (c, b, ok)) => '(c', l) ← feed pieces c b; Some (c', (ok, gotAll c) :: l)
          | _ => None
          end
      end
  end.
Definition fed (pieces : list (list byte)) : option (HttpContext * list (bool * bool)) :=
  match Buffer.new_buffer Buffer.kInitialSize with Ok b => feed pieces new_context b | Err _ => None end.

(** The fields the tests look at. *)
Definition seen (names : list string) (c : HttpContext) : Method * list byte * Version * list (list byte) :=
  (method_ (request_ c), path_ (request_ c), version_ (request_ c), (fun n => getHeader (bytes n) (request_ c)) <$> names).
Definition index_seen : Method * list byte * Version * list (list byte) :=
  (kGet, bytes "/index.html", kHttp11, [bytes "www.chenshuo.com"; []]).

Example testParseRequestAllInOne :
  ('(c, l) ← fed [get_index]; Some (l, seen ["Host"; "User-Agent"] c)) = Some ([(true, true)], index_seen).
Proof. vm_compute. reflexivity. Qed.

Example testParseRequestInTwoPieces :
  forallb (fun sz1 => bool_decide
    (('(c, l) ← fed [take sz1 get_index; drop sz1 get_index]; Some (l, seen ["Host"; "User-Agent"] c)) =
     Some ([(true, false); (true, true)], index_seen))) (seq 0 (length get_index)) = true.
Proof. vm_compute. reflexivity. Qed.

Example testParseRequestEmptyHeaderValue :
  ('(c, l) ← fed [line "GET /index.html HTTP/1.1" ++ line "Host: www.chenshuo.com" ++ line "User-Agent:" ++ line "Accept-Encoding: " ++ line ""];
   Some (l, seen ["Host"; "User-Agent"; "Accept-Encoding"] c)) =
  Some ([(true, true)], (kGet, bytes "/index.html", kHttp11, [bytes "www.chenshuo.com"; []; []])).
Proof. vm_compute. reflexivity. Qed.
End http.

(** ** Date_unittest.cc: the loop over the days, for the years 1900 and 2000 *)
Section date.
Import Date.

Definition month_days (y m : Z) : list YearMonthDay := (fun d => mkYMD y m (Z.of_nat d)) <$> seq 1 (Z.to_nat (days_in_month y m)).
Definition year_days (y : Z) : list YearMonthDay := seq 1 12 ≫= fun m => month_days y (Z.of_nat m).

(** The asserts of a day, its number and weekday counted on from the day before. *)
Fixpoint check_days (l : list YearMonthDay) (julianDayNumber weekDay : Z) : bool :=
  match l with
  | [] => true
  | x :: l =>
      let d := date_of (year x) (month x) (day x) in
      (d =? julianDayNumber) && (year_of d =? year x) && (month_of d =? month x) && (day_of d =? day x) && (Date.weekDay d =? weekDay) &&
      check_days l (julianDayNumber + 1) ((weekDay + 1) mod 7)
  end.
Definition check_leap (y : Z) : bool := date_of y 3 1 - date_of y 2 29 =? (if is_leap y then 1 else 0).

(** 1 January 1900 was a Monday, 1 January 2000 a Saturday. *)
Example testDays1900 : check_days (year_days 1900) 2415021 1 = true.
Proof. vm_compute. reflexivity. Qed.
Example testDays2000 : check_days (year_days 2000) 2451545 6 = true.
Proof. vm_compute. reflexivity. Qed.
Example testLeapYears : forallb check_leap (Z.of_nat <$> seq 1900 600) = true.
Proof. vm_compute. reflexivity. Qed.
Example testSomeDay : toIsoString (date_of 2008 9 10) = bytes "2008-09-10".
Proof. vm_compute. reflexivity. Qed.
End date.

(** ** LogStream_test.cc *)
Section logstream.
Import LogStream.

(** The text of a new stream after some insertions. *)
Definition text (items : list item) : outcome (list byte) := b ← put_all items (new_fixed kSmallBuffer); Ok (toString b).
Definition lines (l : list (list item)) : outcome (list (list byte)) := mapM text l.
Definition ten (s : string) : item := CString (Some (bytes s)).

Example testLogStreamBooleans :
  lines [[]; [Bool true]; [Bool true; Char Byte.x0a]; [Bool true; Char Byte.x0a; Bool false]] =
  Ok [[]; bytes "1"; bytes "1" ++ [Byte.x0a]; bytes "1" ++ [Byte.x0a] ++ bytes "0"].
Proof. vm_compute. reflexivity. Qed.

Example testLogStreamIntegers :
  lines [[Int 1]; [Int 1; Int 0]; [Int 1; Int 0; Int (-1)]; [Int 0; CString (Some (bytes " ")); Int 123; Char Byte.x78; Int 100]] =
  Ok (bytes <$> ["1"; "10"; "10-1"; "0 123x100"]).
Proof. vm_compute. reflexivity. Qed.

Example testLogStreamIntegerLimits :
  lines [[Int (-2147483647); Int (-2147483648); Char Byte.x20; Int 2147483647]; [Short (-32768)]; [Short 32767]; [UShort 0]; [UShort 65535];
         [UInt 4294967295]; [Long (-9223372036854775808)]; [Long 9223372036854775807]; [ULong 18446744073709551615]; [Short 0; Int 0; Long 0]] =
  Ok (bytes <$> ["-2147483647-2147483648 2147483647"; "-32768"; "32767"; "0"; "65535"; "4294967295"; "-9223372036854775808";
                 "9223372036854775807"; "18446744073709551615"; "000"]).
Proof. vm_compute. reflexivity. Qed.

(** [a + b <> c] for 0.1, 0.05 and 0.15, and the texts of both are the same. *)
Example testLogStreamFloats :
  (let a := literal 1 10 in let b := literal 5 100 in let c := literal 15 100 in
   (lines [[Double (literal 0 1)]; [Double (literal 1 1)]; [Double a]; [Double b]; [Double c]; [Double (SFadd 53 1024 a b)];
           [Double (literal 123456789 100000000)]; [Double (literal 1234567 1000000)]; [Double (literal (-123456) 1000)]],
    SFeqb (SFadd 53 1024 a b) c)) =
  (Ok (bytes <$> ["0"; "1"; "0.1"; "0.05"; "0.15"; "0.15"; "1.23456789"; "1.234567"; "-123.456"]), false).
Proof. vm_compute. reflexivity. Qed.

Example testLogStreamVoid : lines [[Pointer 0]; [Pointer 8888]] = Ok (bytes <$> ["0x0"; "0x22B8"]).
Proof. vm_compute. reflexivity. Qed.

Example testLogStreamStrings : lines [[CString (Some (bytes "Hello ")); String (bytes "Shuo Chen")]] = Ok [bytes "Hello Shuo Chen"].
Proof. vm_compute. reflexivity. Qed.

Example testLogStreamLong :
  (b ← put_all (replicate 399 (ten "123456789 ")) (new_fixed kSmallBuffer); b1 ← put (ten "abcdefghi ") b; b2 ← put (ten "abcdefghi") b1;
   Ok ((fun b => (length_ b, avail b)) <$> [b; b1; b2])) = Ok [(3990, 10); (3990, 10); (3999, 1)].
Proof. vm_compute. reflexivity. Qed.

Example testFormatSI :
  formatSI <$> [0; 999; 1000; 9990; 9994; 9995; 10000; 10049; 10050; 99900; 99949; 99950; 100499; 100501; 999499; 999500; 1004999; 1005001;
                9223372036854775807] =
  bytes <$> ["0"; "999"; "1.00k"; "9.99k"; "9.99k"; "10.0k"; "10.0k"; "10.0k"; "10.1k"; "99.9k"; "99.9k"; "100k"; "100k"; "101k"; "999k"; "1.00M";
             "1.00M"; "1.01M"; "9.22E"].
Proof. vm_compute. reflexivity. Qed.

Example testFormatIEC :
  formatIEC <$> [0; 1023; 1024; 10234; 10235; 10240; 10291; 10292; 102348; 102349; 102912; 102913; 1022976; 1047552; 1047961; 1048063; 1048064;
                 1048576; 10480517; 10480518; 9223372036854775807] =
  bytes <$> ["0"; "1023"; "1.00Ki"; "9.99Ki"; "10.0Ki"; "10.0Ki"; "10.0Ki"; "10.1Ki"; "99.9Ki"; "100Ki"; "100Ki"; "101Ki"; "999Ki"; "1023Ki"; "1023Ki";
             "1023Ki"; "1.00Mi"; "1.00Mi"; "9.99Mi"; "10.0Mi"; "8.00Ei"].
Proof. vm_compute. reflexivity. Qed.
End logstream.

(** ** Atomic_unittest.cc *)
Section atomic.
Import Atomic.

Definition atomic_test (w : Z) : list Z :=
  let '(r1, a) := getAndAdd w 1 0 in let '(r2, a2) := addAndGet w 2 a in let '(r3, a3) := incrementAndGet w a2 in
  let a4 := increment w a3 in let '(r5, a5) := addAndGet w (-3) a4 in let '(r6, a6) := getAndSet 100 a5 in
  [r1; get a; r2; get a2; r3; get a3; get a4; r5; r6; get a6].

Example testAtomic : atomic_test <$> [64; 32] = [[0; 1; 3; 3; 4; 4; 5; 2; 2; 100]; [0; 1; 3; 3; 4; 4; 5; 2; 2; 100]].
Proof. vm_compute. reflexivity. Qed.
End atomic.

(** ** InetAddress_unittest.cpp, on dotted addresses *)
Section inet.
Import SocketsOps.

Definition inet_seen (a : outcome (list byte)) : outcome (list byte * list byte * Z) :=
  a ← a; ip ← InetAddress_toIp sample_ntop a; ipPort ← InetAddress_toIpPort sample_ntop a; Ok (ip, ipPort, toPort a).
Definition garbage : list byte := replicate 28 Byte.x55.

Example testInetAddress :
  inet_seen <$> [InetAddress_port garbage 1234 false false; InetAddress_port garbage 4321 true false;
                 InetAddress_ip sample_pton garbage (bytes "1.2.3.4") 8888 false; InetAddress_ip sample_pton garbage (bytes "255.254.253.252") 65535 false] =
  [Ok (bytes "0.0.0.0", bytes "0.0.0.0:1234", 1234); Ok (bytes "127.0.0.1", bytes "127.0.0.1:4321", 4321);
   Ok (bytes "1.2.3.4", bytes "1.2.3.4:8888", 8888); Ok (bytes "255.254.253.252", bytes "255.254.253.252:65535", 65535)].
Proof. vm_compute. reflexivity. Qed.
End inet.

(** ** TimeZone_unittest.cc

    The zone files are the years the test looks at, encoded as the format says. *)
Section zone.
Import TimeZone.

Definition field (s : list byte) (first last : Z) : Z := dec_value (zslice first last s).

(** [getTm("2006-03-07 00:00:00")] and [strftime(buf, sizeof buf, "%F %T%z(%Z)", &local)] *)
Definition getTm (s : list byte) (isdst : bool) : tm :=
  mkTm (field s 17 19) (field s 14 16) (field s 11 13) (field s 8 10) (field s 5 7 - 1) (field s 0 4 - 1900) 0 0 (if isdst then 1 else 0) 0 [].
Definition showTm (t : tm) : list byte :=
  dec0 4 (tm_year t + 1900) ++ bytes "-" ++ dec0 2 (tm_mon t + 1) ++ bytes "-" ++ dec0 2 (tm_mday t) ++ bytes " " ++
  dec0 2 (tm_hour t) ++ bytes ":" ++ dec0 2 (tm_min t) ++ bytes ":" ++ dec0 2 (tm_sec t) ++
  (if tm_gmtoff t <? 0 then bytes "-" else bytes "+") ++ dec0 2 (Z.abs (tm_gmtoff t) / 3600) ++ dec0 2 (Z.abs (tm_gmtoff t) / 60 mod 60) ++
  bytes "(" ++ tm_zone t ++ bytes ")".
Definition getGmt (s : list byte) : Z := timegm (getTm s false).

(** Whether [test(tz, tc)] prints no WRONG. *)
Definition test_case (tz : TimeZone) (tc : string * string * bool) : bool :=
  let '(gmt, local, isdst) := tc in
  match toLocalTime tz (getGmt (bytes gmt)), fromLocalTime tz (getTm (bytes local) isdst) with
  | Ok t, Ok result => bool_decide (showTm t = bytes local) && (tm_isdst t =? if isdst then 1 else 0) && (result =? getGmt (bytes gmt))
  | _, _ => false
  end.
Definition test_zone (file : option (list byte)) (cases : list (string * string * bool)) : bool :=
  match tz_from_file file with Ok tz => forallb (test_case tz) cases | Err _ => false end.

(** A file whose rules change to summer time and back at the given times. *)
Definition zone_file (types : list Localtime) (chars : list byte) (changes : list (string * Z)) : option (list byte) :=
  Some (zone_bytes (mkZone Byte.x00 (replicate 15 Byte.x00) 0 0 0 ((fun c => (getGmt (bytes c.1), c.2)) <$> changes) types chars) []).

Definition NewYork : option (list byte) :=
  zone_file [mkLocaltime (-18000) false 0; mkLocaltime (-14400) true 4] (bytes "EST" ++ [Byte.x00] ++ bytes "EDT" ++ [Byte.x00])
    [("2005-10-30 06:00:00", 0); ("2006-04-02 07:00:00", 1); ("2006-10-29 06:00:00", 0); ("2007-03-11 07:00:00", 1); ("2007-11-04 06:00:00", 0);
     ("2008-03-09 07:00:00", 1); ("2008-11-02 06:00:00", 0); ("2009-03-08 07:00:00", 1); ("2009-11-01 06:00:00", 0); ("2010-03-14 07:00:00", 1);
     ("2010-11-07 06:00:00", 0); ("2011-03-13 07:00:00", 1); ("2011-11-06 06:00:00", 0)].
Definition London : option (list byte) :=
  zone_file [mkLocaltime 0 false 0; mkLocaltime 3600 true 4] (bytes "GMT" ++ [Byte.x00] ++ bytes "BST" ++ [Byte.x00])
    [("2010-10-31 01:00:00", 0); ("2011-03-27 01:00:00", 1); ("2011-10-30 01:00:00", 0); ("2012-03-25 01:00:00", 1); ("2012-10-28 01:00:00", 0)].
Definition Sydney : option (list byte) :=
  zone_file [mkLocaltime 36000 false 0; mkLocaltime 39600 true 0] (bytes "EST" ++ [Byte.x00])
    [("2010-10-02 16:00:00", 1); ("2011-04-02 16:00:00", 0); ("2011-10-01 16:00:00", 1)].
Definition HongKong : option (list byte) := zone_file [mkLocaltime 28800 false 0] (bytes "HKT" ++ [Byte.x00]) [("1979-10-20 19:30:00", 0)].

Example testNewYork : test_zone NewYork
  [("2006-03-07 00:00:00", "2006-03-06 19:00:00-0500(EST)", false); ("2006-04-02 06:59:59", "2006-04-02 01:59:59-0500(EST)", false);
   ("2006-04-02 07:00:00", "2006-04-02 03:00:00-0400(EDT)", true); ("2006-05-01 00:00:00", "2006-04-30 20:00:00-0400(EDT)", true);
   ("2006-05-02 01:00:00", "2006-05-01 21:00:00-0400(EDT)", true); ("2006-10-21 05:00:00", "2006-10-21 01:00:00-0400(EDT)", true);
   ("2006-10-29 05:59:59", "2006-10-29 01:59:59-0400(EDT)", true); ("2006-10-29 06:00:00", "2006-10-29 01:00:00-0500(EST)", false);
   ("2006-10-29 06:59:59", "2006-10-29 01:59:59-0500(EST)", false); ("2006-12-31 06:00:00", "2006-12-31 01:00:00-0500(EST)", false);
   ("2007-01-01 00:00:00", "2006-12-31 19:00:00-0500(EST)", false); ("2007-03-07 00:00:00", "2007-03-06 19:00:00-0500(EST)", false);
   ("2007-03-11 06:59:59", "2007-03-11 01:59:59-0500(EST)", false); ("2007-03-11 07:00:00", "2007-03-11 03:00:00-0400(EDT)", true);
   ("2007-05-01 00:00:00", "2007-04-30 20:00:00-0400(EDT)", true); ("2007-05-02 01:00:00", "2007-05-01 21:00:00-0400(EDT)", true);
   ("2007-10-31 05:00:00", "2007-10-31 01:00:00-0400(EDT)", true); ("2007-11-04 05:59:59", "2007-11-04 01:59:59-0400(EDT)", true);
   ("2007-11-04 06:00:00", "2007-11-04 01:00:00-0500(EST)", false); ("2007-11-04 06:59:59", "2007-11-04 01:59:59-0500(EST)", false);
   ("2007-12-31 06:00:00", "2007-12-31 01:00:00-0500(EST)", false); ("2008-01-01 00:00:00", "2007-12-31 19:00:00-0500(EST)", false);
   ("2009-03-07 00:00:00", "2009-03-06 19:00:00-0500(EST)", false); ("2009-03-08 06:59:59", "2009-03-08 01:59:59-0500(EST)", false);
   ("2009-03-08 07:00:00", "2009-03-08 03:00:00-0400(EDT)", true); ("2009-05-01 00:00:00", "2009-04-30 20:00:00-0400(EDT)", true);
   ("2009-05-02 01:00:00", "2009-05-01 21:00:00-0400(EDT)", true); ("2009-10-31 05:00:00", "2009-10-31 01:00:00-0400(EDT)", true);
   ("2009-11-01 05:59:59", "2009-11-01 01:59:59-0400(EDT)", true); ("2009-11-01 06:00:00", "2009-11-01 01:00:00-0500(EST)", false);
   ("2009-11-01 06:59:59", "2009-11-01 01:59:59-0500(EST)", false); ("2009-12-31 06:00:00", "2009-12-31 01:00:00-0500(EST)", false);
   ("2010-01-01 00:00:00", "2009-12-31 19:00:00-0500(EST)", false); ("2010-03-13 00:00:00", "2010-03-12 19:00:00-0500(EST)", false);
   ("2010-03-14 06:59:59", "2010-03-14 01:59:59-0500(EST)", false); ("2010-03-14 07:00:00", "2010-03-14 03:00:00-0400(EDT)", true);
   ("2010-05-01 00:00:00", "2010-04-30 20:00:00-0400(EDT)", true); ("2010-05-02 01:00:00", "2010-05-01 21:00:00-0400(EDT)", true);
   ("2010-11-06 05:00:00", "2010-11-06 01:00:00-0400(EDT)", true); ("2010-11-07 05:59:59", "2010-11-07 01:59:59-0400(EDT)", true);
   ("2010-11-07 06:00:00", "2010-11-07 01:00:00-0500(EST)", false); ("2010-11-07 06:59:59", "2010-11-07 01:59:59-0500(EST)", false);
   ("2010-12-31 06:00:00", "2010-12-31 01:00:00-0500(EST)", false); ("2011-01-01 00:00:00", "2010-12-31 19:00:00-0500(EST)", false);
   ("2011-03-01 00:00:00", "2011-02-28 19:00:00-0500(EST)", false); ("2011-03-13 06:59:59", "2011-03-13 01:59:59-0500(EST)", false);
   ("2011-03-13 07:00:00", "2011-03-13 03:00:00-0400(EDT)", true); ("2011-05-01 00:00:00", "2011-04-30 20:00:00-0400(EDT)", true);
   ("2011-05-02 01:00:00", "2011-05-01 21:00:00-0400(EDT)", true); ("2011-11-06 05:59:59", "2011-11-06 01:59:59-0400(EDT)", true);
   ("2011-11-06 06:00:00", "2011-11-06 01:00:00-0500(EST)", false); ("2011-11-06 06:59:59", "2011-11-06 01:59:59-0500(EST)", false);
   ("2011-12-31 06:00:00", "2011-12-31 01:00:00-0500(EST)", false); ("2012-01-01 00:00:00", "2011-12-31 19:00:00-0500(EST)", false)] = true.
Proof. vm_compute. reflexivity. Qed.

Example testLondon : test_zone London
  [("2011-03-26 00:00:00", "2011-03-26 00:00:00+0000(GMT)", false); ("2011-03-27 00:59:59", "2011-03-27 00:59:59+0000(GMT)", false);
   ("2011-03-27 01:00:00", "2011-03-27 02:00:00+0100(BST)", true); ("2011-10-30 00:59:59", "2011-10-30 01:59:59+0100(BST)", true);
   ("2011-10-30 01:00:00", "2011-10-30 01:00:00+0000(GMT)", false); ("2012-10-30 01:59:59", "2012-10-30 01:59:59+0000(GMT)", false);
   ("2011-12-31 22:00:00", "2011-12-31 22:00:00+0000(GMT)", false); ("2012-01-01 00:00:00", "2012-01-01 00:00:00+0000(GMT)", false);
   ("2012-03-24 00:00:00", "2012-03-24 00:00:00+0000(GMT)", false); ("2012-03-25 00:59:59", "2012-03-25 00:59:59+0000(GMT)", false);
   ("2012-03-25 01:00:00", "2012-03-25 02:00:00+0100(BST)", true); ("2012-10-28 00:59:59", "2012-10-28 01:59:59+0100(BST)", true);
   ("2012-10-28 01:00:00", "2012-10-28 01:00:00+0000(GMT)", false); ("2012-10-28 01:59:59", "2012-10-28 01:59:59+0000(GMT)", false);
   ("2012-12-31 22:00:00", "2012-12-31 22:00:00+0000(GMT)", false); ("2013-01-01 00:00:00", "2013-01-01 00:00:00+0000(GMT)", false)] = true.
Proof. vm_compute. reflexivity. Qed.

Example testSydney : test_zone Sydney
  [("2011-01-01 00:00:00", "2011-01-01 11:00:00+1100(EST)", true); ("2011-04-02 15:59:59", "2011-04-03 02:59:59+1100(EST)", true);
   ("2011-04-02 16:00:00", "2011-04-03 02:00:00+1000(EST)", false); ("2011-04-02 16:59:59", "2011-04-03 02:59:59+1000(EST)", false);
   ("2011-05-02 01:00:00", "2011-05-02 11:00:00+1000(EST)", false); ("2011-10-01 15:59:59", "2011-10-02 01:59:59+1000(EST)", false);
   ("2011-10-01 16:00:00", "2011-10-02 03:00:00+1100(EST)", true); ("2011-12-31 22:00:00", "2012-01-01 09:00:00+1100(EST)", true)] = true.
Proof. vm_compute. reflexivity. Qed.

Example testHongKong : test_zone HongKong
  [("2011-04-03 00:00:00", "2011-04-03 08:00:00+0800(HKT)", false)] = true.
Proof. vm_compute. reflexivity. Qed.

Example testFixedTimezone : forallb (test_case (tz_fixed (8 * 3600) (bytes "CST")))
  [("2014-04-03 00:00:00", "2014-04-03 08:00:00+0800(CST)", false)] = true.
Proof. vm_compute. reflexivity. Qed.
End zone.

(** ** RpcCodec_test.cpp, with zlib's checksum *)
Section codec.
Import Codec.

Definition adler32 (data : list byte) : Z :=
  let '(a, b) := foldl (fun ab c => let a := (ab.1 + byte.unsigned c) mod 65521 in (a, (ab.2 + a) mod 65521)) (1, 0) data in b * 65536 + a.

(** The fields of the request with number 2, as protobuf writes them. *)
Definition request_fields : list byte := byte.of_Z <$> [8; 1; 17; 2; 0; 0; 0; 0; 0; 0; 0].
Definition expected : list byte :=
  (byte.of_Z <$> [0; 0; 0; 19]) ++ bytes "RPC0" ++ request_fields ++ (byte.of_Z <$> [15; 239; 1; 50]).

Definition encoded (tag : list byte) : outcome (list byte) :=
  b ← Buffer.new_buffer Buffer.kInitialSize; b ← fillEmptyBuffer zlen id adler32 tag request_fields b; let (data, size) := Buffer.toStringPiece b in Ok (ztake size data).
Definition decoded (tag : list byte) : option (outcome (list event)) :=
  match (b ← Buffer.new_buffer Buffer.kInitialSize; fillEmptyBuffer zlen id adler32 tag request_fields b) with
  | Ok b => match onMessage Some adler32 tag None (fun _ b => b) b with
            | Some (Ok (_, evs)) => Some (Ok evs)
            | _ => None
            end
  | Err e => Some (Err e)
  end.

Example testRpcCodec :
  encoded rpctag = Ok expected /\ decoded rpctag = Some (Ok [Delivered request_fields]) /\ decoded (bytes "XYZ") = Some (Ok [Delivered request_fields]).
Proof. vm_compute. split; [reflexivity|split; reflexivity]. Qed.
End codec.

(** ** TimerQueue_unittest.cpp

    The timers of the test, in microseconds from its start at time 1; callbacks 1 to
    7 print once1, once1.5, once2.5, once3.5, once4.5, every2 and every3, and 45, 48
    and 9 are the three cancellations.  The timerfd fires when it is set to. *)
Section timers.
Import TimerQueue.

Definition t45 : Z * Z := (50, 5).
Definition t3 : Z * Z := (90, 9).
Definition callbacks (cb : Z) (q : TimerQueue) : list user_op :=
  if (cb =? 45) || (cb =? 48) then [Cancel t45] else if cb =? 9 then [Cancel t3] else [].
Definition none : Timestamp.double := Timestamp.double_of_Z 0.
Definition setup : list user_op :=
  [Add 10 1 1000001 none; Add 20 2 1500001 none; Add 30 3 2500001 none; Add 40 4 3500001 none; Add 50 5 4500001 none; Add 60 45 4200001 none;
   Add 70 48 4800001 none; Add 80 6 2000001 (Timestamp.double_of_Z 2); Add 90 7 3000001 (Timestamp.double_of_Z 3); Add 100 9 9001001 none].

(** The callbacks made, with the times. *)
Fixpoint fire (n : nat) (q : TimerQueue) : outcome (list (Z * Z)) :=
  match n, timerfd_ q with
  | S n, Some now => '(q, cbs) ← handleRead callbacks now q; l ← fire n q; Ok (((fun cb => (now, cb)) <$> cbs) ++ l)
  | _, _ => Ok []
  end.

(** [once4.5] does not come, [every3] three times. *)
Example testTimerQueue :
  (q ← user_run setup (new_queue 1); fire 16 q) =
  Ok [(1000001, 1); (1500001, 2); (2000001, 6); (2500001, 3); (3000001, 7); (3500001, 4); (4000001, 6); (4200001, 45); (4800001, 48);
      (6000001, 6); (6000001, 7); (8000001, 6); (9000001, 7); (9001001, 9); (10000001, 6); (12000001, 6); (14000001, 6)].
Proof. vm_compute. reflexivity. Qed.
End timers.

End Conformance.
